(** * x_scraper: discovery and extraction pipeline

    A shallow embedding of [src/main.ts] (link discovery: [find_links],
    its closure [extractLinks] and [saveSimpleContent]), of the content
    downloader ([extractIds], [ensureOutputDir], the three extractors,
    [processTweetContent], [processMultipleTweets]) and of the segment
    grouping of the video downloader ([groupSegmentsByQuality] and the
    quality selection of [downloadTwitterVideo]). Three further models
    stand beside it, each over a state of its own: the whole run of
    [downloadTwitterVideo] (module [Rebuild]), the login session
    ([check_login], [is_logged_in], [login],
    [get_browser_with_session] and [refreshSession], module [Session])
    and the redirects that [downloadFile] follows (module [Redirect]).

    Data. JavaScript strings are [string]s (byte sequences, UTF-8 for
    the non-ASCII literals of the source; substring tests on well-formed
    text agree between UTF-8 and UTF-16). A [Set<string>] is a list in
    insertion order, which is also its iteration order. The object that
    maps quality keys to segment lists is an association list in
    creation order. Counters, limits and millisecond amounts are
    integers of [Z]. The rendered page is a tree of elements and text
    nodes.

    Effects. An asynchronous function is a state-passing computation
    over a [world] (the disk and the events so far) that returns or
    throws. What the browser, the network and the disk answer is read
    from an [env]: whether a wait finds its element, what the timeline
    shows at each query, whether a download or an image request
    succeeds, and which [fs] call throws what. The other calls on the
    page (scrolling, timed pauses, evaluating a query, closing) always
    return. The pipeline takes the page as given; how the session and
    the page are acquired is modelled in [Session]. The scroll loop of
    [find_links] has no bound of its own, so [find_links] takes a step
    budget and answers [None] when the loop outlasts it. *)

From Stdlib Require Import String Ascii List ZArith Lia Bool DecimalString.
Import ListNotations.

Open Scope string_scope.
Open Scope Z_scope.

Set Warnings "-register-all".

(* ================================================================== *)
(** * Part I: definitions                                              *)
(* ================================================================== *)

(** ** JavaScript string helpers *)

Module Js.

(** [s.startsWith(p)] *)
Definition startsWith (p s : string) : bool := String.prefix p s.

(** [s.includes(p)]: [p] occurs in [s] at some offset. *)
Fixpoint includes (p s : string) : bool :=
  startsWith p s ||
  match s with
  | EmptyString => false
  | String _ s' => includes p s'
  end.

(** Characters dropped from the front. *)
Fixpoint drop (n : nat) (s : string) : string :=
  match n, s with
  | O, _ => s
  | S _, EmptyString => EmptyString
  | S n', String _ s' => drop n' s'
  end.

(** [s.endsWith(p)] *)
Definition endsWith (p s : string) : bool :=
  (String.length p <=? String.length s)%nat &&
  String.eqb (drop (String.length s - String.length p) s) p.

(** [s.replace(p, '')] with a string pattern: the first occurrence of
    [p] is removed, the rest of [s] is kept. *)
Fixpoint replace_first (p s : string) : string :=
  if startsWith p s then drop (String.length p) s
  else match s with
       | EmptyString => EmptyString
       | String c s' => String c (replace_first p s')
       end.

(** [s.split(sep)] for a one-character separator. *)
Fixpoint split (sep : ascii) (s : string) : list string :=
  match s with
  | EmptyString => [EmptyString]
  | String c s' =>
      if Ascii.eqb c sep then EmptyString :: split sep s'
      else match split sep s' with
           | [] => [String c EmptyString]
           | h :: t => String c h :: t
           end
  end.

(** Truthiness of a string: only the empty string is falsy. *)
Definition truthy (s : string) : bool := negb (String.eqb s "").

(** [\d] *)
Definition isDigit (c : ascii) : bool :=
  let n := nat_of_ascii c in ((48 <=? n) && (n <=? 57))%nat.

(** White space that [parseInt] skips (the ASCII part of it). *)
Definition isSpace (c : ascii) : bool :=
  let n := nat_of_ascii c in ((n =? 32) || ((9 <=? n) && (n <=? 13)))%nat.

Fixpoint trimStart (s : string) : string :=
  match s with
  | EmptyString => EmptyString
  | String c s' => if isSpace c then trimStart s' else s
  end.

(** The value of a character as a digit of the radix, if it is one. *)
Definition digit_value (radix : Z) (c : ascii) : option Z :=
  let n := Z.of_nat (nat_of_ascii c) in
  let v := if (48 <=? n) && (n <=? 57) then Some (n - 48)
           else if (97 <=? n) && (n <=? 122) then Some (n - 87)
           else if (65 <=? n) && (n <=? 90) then Some (n - 55)
           else None in
  match v with
  | Some d => if d <? radix then Some d else None
  | None => None
  end.

(** The number written by the longest prefix of digits; [acc] is
    [None] until a digit was read. *)
Fixpoint digits_value (radix : Z) (s : string) (acc : option Z) : option Z :=
  match s with
  | EmptyString => acc
  | String c s' =>
      match digit_value radix c with
      | Some d =>
          digits_value radix s'
            (Some (match acc with Some a => a * radix + d | None => d end))
      | None => acc
      end
  end.

(** [parseInt(s)]: [None] is [NaN]. Integers are exact here; the
    source rounds beyond 2^53. *)
Definition parseInt (s : string) : option Z :=
  let s1 := trimStart s in
  let (sign, s2) := match s1 with
                    | String "-" r => (-1, r)
                    | String "+" r => (1, r)
                    | _ => (1, s1)
                    end in
  let (radix, s3) := if startsWith "0x" s2 || startsWith "0X" s2
                     then (16, drop 2 s2) else (10, s2) in
  match digits_value radix s3 None with
  | Some v => Some (sign * v)
  | None => None
  end.

(** [set.has(x)] on a [Set<string>] kept as a list. *)
Definition has (x : string) (set : list string) : bool :=
  existsb (String.eqb x) set.

End Js.

(** ** The rendered document *)

Module Dom.

(** An element has a tag name (lower case, as HTML matching is case
    insensitive), attributes and children; text sits in text nodes. *)
Inductive node : Type :=
| Elem (tag : string) (attrs : list (string * string)) (children : list node)
| Text (data : string).

(** A node and everything below it, in document order. *)
Fixpoint subtree (n : node) : list node :=
  n :: match n with
       | Elem _ _ cs => flat_map subtree cs
       | Text _ => []
       end.

(** The proper descendants: what [querySelector] called on [n] ranges over. *)
Definition descendants (n : node) : list node :=
  match n with
  | Elem _ _ cs => flat_map subtree cs
  | Text _ => []
  end.

(** [n.textContent]: the text nodes below [n], concatenated. *)
Definition textContent (n : node) : string :=
  fold_right (fun m acc => match m with
                           | Text d => d ++ acc
                           | Elem _ _ _ => acc
                           end) "" (subtree n).

Fixpoint lookup_attr (name : string) (attrs : list (string * string)) : option string :=
  match attrs with
  | [] => None
  | (k, v) :: rest => if String.eqb k name then Some v else lookup_attr name rest
  end.

(** [n.getAttribute(name)] *)
Definition getAttribute (name : string) (n : node) : option string :=
  match n with
  | Elem _ attrs _ => lookup_attr name attrs
  | Text _ => None
  end.

(** Selector atoms: [tag], [[name]], [[name="v"]], [[name*="v"]]. *)
Definition has_tag (t : string) (n : node) : bool :=
  match n with
  | Elem t' _ _ => String.eqb t' t
  | Text _ => false
  end.

Definition is_element (n : node) : bool :=
  match n with Elem _ _ _ => true | Text _ => false end.

Definition has_attr (name : string) (n : node) : bool :=
  match getAttribute name n with Some _ => true | None => false end.

Definition attr_is (name v : string) (n : node) : bool :=
  match getAttribute name n with Some v' => String.eqb v' v | None => false end.

Definition attr_contains (name v : string) (n : node) : bool :=
  match getAttribute name n with Some v' => Js.includes v v' | None => false end.

Definition querySelectorAll (sel : node -> bool) (root : node) : list node :=
  filter sel (descendants root).

Definition querySelector (sel : node -> bool) (root : node) : option node :=
  hd_error (querySelectorAll sel root).

(** [root.querySelector(sel) !== null] *)
Definition present (sel : node -> bool) (root : node) : bool :=
  match querySelector sel root with Some _ => true | None => false end.

(** The selectors of [extractLinks]. *)

(** [a:has(time)] *)
Definition sel_link (n : node) : bool :=
  has_tag "a" n && existsb (has_tag "time") (descendants n).

(** [[data-testid="tweetText"]] *)
Definition sel_tweetText (n : node) : bool := attr_is "data-testid" "tweetText" n.

(** [img[src*="pbs.twimg.com/media"]] *)
Definition sel_mediaImg (n : node) : bool :=
  has_tag "img" n && attr_contains "src" "pbs.twimg.com/media" n.

(** [[data-testid="videoPlayer"]] *)
Definition sel_videoPlayer (n : node) : bool := attr_is "data-testid" "videoPlayer" n.

(** [[data-testid="cardPoll"]] *)
Definition sel_cardPoll (n : node) : bool := attr_is "data-testid" "cardPoll" n.

(** [[data-testid="card.wrapper"]] *)
Definition sel_cardWrapper (n : node) : bool := attr_is "data-testid" "card.wrapper" n.

(** [[role="button"][tabindex="0"]:not([aria-label])] *)
Definition sel_plainButton (n : node) : bool :=
  attr_is "role" "button" n && attr_is "tabindex" "0" n && negb (has_attr "aria-label" n).

(** [span[dir="auto"]:not([data-testid])] *)
Definition sel_autoSpan (n : node) : bool :=
  has_tag "span" n && attr_is "dir" "auto" n && negb (has_attr "data-testid" n).

(** [a[role="link"][aria-expanded="false"]] *)
Definition sel_collapsedLink (n : node) : bool :=
  has_tag "a" n && attr_is "role" "link" n && attr_is "aria-expanded" "false" n.

(** The phrases looked for in the text of every [span]. *)
Definition showMorePhrases : list string :=
  ["Show more"; "显示更多"; "查看更多"].

(** [span.textContent && (span.textContent.includes(..) || ..)] *)
Definition span_says_more (span : node) : bool :=
  let t := textContent span in
  Js.truthy t && existsb (fun p => Js.includes p t) showMorePhrases.

Definition hasVideo (article : node) : bool := present sel_videoPlayer article.
Definition hasPoll (article : node) : bool := present sel_cardPoll article.
Definition hasCard (article : node) : bool := present sel_cardWrapper article.

(** The element-presence checks of [hasShowMore]. *)
Definition hasShowMore_elements (article : node) : bool :=
  present sel_plainButton article
  || present sel_autoSpan article
  || present sel_collapsedLink article.

(** The text check of [hasShowMore]: some [span] whose text holds one of
    the phrases. *)
Definition hasShowMore_text (article : node) : bool :=
  existsb span_says_more (querySelectorAll (has_tag "span") article).

(** [hasShowMore], its four disjuncts in the order of the source. *)
Definition hasShowMore (article : node) : bool :=
  present sel_plainButton article
  || present sel_autoSpan article
  || hasShowMore_text article
  || present sel_collapsedLink article.

Definition isSimpleTweet (article : node) : bool :=
  negb (hasVideo article) && negb (hasPoll article)
  && negb (hasCard article) && negb (hasShowMore article).

(** What the page query returns for one post. *)
Record content : Type := mkContent { text : string; imageUrls : list string }.

Record item : Type := mkItem {
  href : string;
  simple : bool;       (* the field [isSimpleTweet] *)
  inline : content     (* the field [content] *)
}.

(** The [src] property of an image is read as its attribute: the feed
    serves absolute URLs. *)
Definition image_src (img : node) : string :=
  match getAttribute "src" img with Some s => s | None => "" end.

(** The body of the loop over [article]s: an article with no link (or
    an empty [href]) yields nothing. *)
Definition scan_article (article : node) : option item :=
  let linkElement := querySelector sel_link article in
  let href := match linkElement with
              | Some l => getAttribute "href" l
              | None => None
              end in
  match href with
  | Some h =>
      if Js.truthy h then
        let textElement := querySelector sel_tweetText article in
        let textContent := match textElement with
                           | Some t => textContent t
                           | None => ""
                           end in
        let imageUrls := map image_src (querySelectorAll sel_mediaImg article) in
        Some {| href := h;
                simple := isSimpleTweet article;
                inline := {| text := textContent; imageUrls := imageUrls |} |}
      else None
  | None => None
  end.

(** [page.$$eval('article', ...)] over the rendered articles. *)
Fixpoint scan_articles (articles : list node) : list item :=
  match articles with
  | [] => []
  | a :: rest =>
      match scan_article a with
      | Some it => it :: scan_articles rest
      | None => scan_articles rest
      end
  end.

(** The structure of a node: tags, attributes and nesting, with the
    characters of every text node erased. *)
Fixpoint shape (n : node) : node :=
  match n with
  | Elem t a cs => Elem t a (map shape cs)
  | Text _ => Text ""
  end.

(** A selector that reads tags and attributes only cannot tell a node
    from its shape. *)
Definition structural (sel : node -> bool) : Prop :=
  forall n, sel (shape n) = sel n.
End Dom.

(** ** Errors, the file system and the effect monad *)

Module Eff.

(** The [code] property of a thrown value: absent on [new Error(..)],
    a string on the errors of [fs], a number where a library sets one. *)
Inductive errcode : Type :=
| NoCode
| NumCode (n : Z)
| StrCode (s : string).

Record error : Type := mkError { code : errcode; message : string }.

(** [new Error(msg)] *)
Definition Error (msg : string) : error := {| code := NoCode; message := msg |}.

(** [error.code === 429 || error.message?.includes('429')] *)
Definition is429 (e : error) : bool :=
  match code e with NumCode 429 => true | _ => false end
  || Js.includes "429" (message e).

Inductive scroll : Type :=
| Pixels (dy : Z)     (* [window.scrollBy(0, dy)] *)
| Viewport.           (* [window.scrollBy(0, window.innerHeight)] *)

(** The calls of [fs] that can throw. *)
Inductive fs_op : Type :=
| OpMkdir (dir : string)
| OpReaddir (dir : string)
| OpWrite (dir name : string).

(** What a run does to the page, the network and the disk, in order. *)
Inductive event : Type :=
| EvGoto (url : string) (ok : bool)            (* [safeNavigate] *)
| EvWaitArticles (attempt : nat) (found : bool)  (* [waitForSelector('article')] *)
| EvSleep (ms : Z)                             (* [page.waitForTimeout] *)
| EvScroll (by_ : scroll)
| EvQuery (k : nat)                            (* the k-th [$$eval('article')] *)
| EvErrorScreenshot (ok : bool)
| EvHttpGet (url : string) (ok : bool)         (* [axios.get] *)
| EvMkdir (dir : string)
| EvWrite (dir name : string)
| EvDownload (url dir name : string) (ok : bool)
| EvScreenshot (dir name : string) (ok : bool)
| EvReload                                     (* [page.reload] *)
| EvObserve                                    (* [page.on('response', ..)] *)
| EvBlockRequests                              (* [setupRequestBlocking] *)
| EvBatch (urls : list string)                 (* [processMultipleTweets] entered *)
| EvSummary (processed skipped rateLimited : Z)
| EvClose.                                     (* [page.close()] *)

(** The disk: directories, and files as (directory, name); and the
    events so far, oldest first. *)
Record world : Type := mkWorld {
  dirs : list string;
  files : list (string * string);
  trace : list event
}.

Definition empty_world : world := {| dirs := []; files := []; trace := [] |}.

(** The lists handed to the batch among some events. *)
Definition batches (evs : list event) : list (list string) :=
  flat_map (fun e => match e with EvBatch urls => [urls] | _ => [] end) evs.

Definition not_batch (e : event) : Prop :=
  match e with EvBatch _ => False | _ => True end.

Definition path_eqb (p q : string * string) : bool :=
  String.eqb (fst p) (fst q) && String.eqb (snd p) (snd q).

(** [fs.existsSync] of a file and of a directory. *)
Definition file_exists (w : world) (dir name : string) : bool :=
  existsb (path_eqb (dir, name)) (files w).

Definition dir_exists (w : world) (dir : string) : bool :=
  Js.has dir (dirs w).

(** The names [fs.readdirSync(dir)] lists. *)
Definition names_in (w : world) (dir : string) : list string :=
  map snd (filter (fun p => String.eqb (fst p) dir) (files w)).

Definition log (e : event) (w : world) : world :=
  {| dirs := dirs w; files := files w; trace := trace w ++ [e] |}.

Definition add_dir (dir : string) (w : world) : world :=
  {| dirs := if dir_exists w dir then dirs w else dirs w ++ [dir];
     files := files w; trace := trace w |}.

Definition add_file (dir name : string) (w : world) : world :=
  {| dirs := dirs w;
     files := if file_exists w dir name then files w else files w ++ [(dir, name)];
     trace := trace w |}.

Definition remove_file (dir name : string) (w : world) : world :=
  {| dirs := dirs w;
     files := filter (fun p => negb (path_eqb (dir, name) p)) (files w);
     trace := trace w |}.

(** A computation returns or throws, and leaves a world behind. *)
Inductive result (A : Type) : Type :=
| Ret (a : A)
| Throw (e : error).
Arguments Ret {A} a.
Arguments Throw {A} e.

Definition M (A : Type) : Type := world -> result A * world.

Definition ret {A} (a : A) : M A := fun w => (Ret a, w).

Definition throw {A} (e : error) : M A := fun w => (Throw e, w).

Definition bind {A B} (m : M A) (k : A -> M B) : M B :=
  fun w => match m w with
           | (Ret a, w') => k a w'
           | (Throw e, w') => (Throw e, w')
           end.

(** [try { body } catch (e) { handler }]: the handler runs in the world
    the body left. *)
Definition try_catch {A} (body : M A) (handler : error -> M A) : M A :=
  fun w => match body w with
           | (Ret a, w') => (Ret a, w')
           | (Throw e, w') => handler e w'
           end.

Definition emit (e : event) : M unit := fun w => (Ret tt, log e w).

(** A computation that always returns. *)
Definition total {A} (m : M A) : Prop :=
  forall w, exists a w', m w = (Ret a, w').

(** Every event that [m] appends satisfies [P]. *)
Definition emits (P : event -> Prop) {A} (m : M A) : Prop :=
  forall w, exists evs, trace (snd (m w)) = (trace w ++ evs)%list /\ Forall P evs.

(** Computations with a loop whose length depends on the feed carry a
    step budget: [None] stands for a run that is still going when the
    budget is spent. *)
Definition MF (A : Type) : Type := world -> option (result A * world).

Definition liftF {A} (m : M A) : MF A := fun w => Some (m w).

Definition bindF {A B} (m : MF A) (k : A -> MF B) : MF B :=
  fun w => match m w with
           | None => None
           | Some (Ret a, w') => k a w'
           | Some (Throw e, w') => Some (Throw e, w')
           end.

(** [try { body } catch (error) { throw error } finally { last }] *)
Definition finallyF {A} (body : MF A) (last : world -> world) : MF A :=
  fun w => match body w with
           | None => None
           | Some (r, w') => Some (r, last w')
           end.

End Eff.

Declare Scope eff_scope.
Delimit Scope eff_scope with eff.
Notation "x <- m ;; k" := (Eff.bind m (fun x => k))
  (at level 61, m at next level, right associativity) : eff_scope.
Notation "m ;; k" := (Eff.bind m (fun _ => k))
  (at level 61, right associativity) : eff_scope.
Notation "x <~ m ;; k" := (Eff.bindF m (fun x => k))
  (at level 61, m at next level, right associativity) : eff_scope.
Open Scope eff_scope.

(** ** What the outside world answers *)

Module World.
Import Eff.

(** The post page as the extractors see it after the navigation,
    whether that reported success or not ([safeNavigate] goes on with
    the page as it is). *)
Record page_view : Type := mkPage {
  pv_article : bool;        (* [article[data-testid="tweet"]] shows up in time *)
  pv_images : list string;  (* [src] of the media images inside the post *)
  pv_video : bool           (* a [videoPlayer] element inside the post *)
}.

(** How an https download ends: completed; answered but refused (the
    file that was opened for writing stays); or broken off (the file is
    unlinked). *)
Inductive dl_result : Type :=
| DlOk
| DlRejected (e : error)
| DlErrored (e : error).

Record env : Type := mkEnv {
  wait_article : nat -> bool;          (* the i-th initial wait finds an article *)
  rendered : nat -> list Dom.node;     (* the articles at the k-th page query *)
  error_screenshot_ok : bool;
  http_get : string -> option error;   (* [axios.get]: [None] when it succeeds *)
  nav_ok : string -> bool;             (* [page.goto] and the wait for [body] *)
  tweet_page : string -> page_view;
  download : string -> dl_result;
  screenshot_ok : string -> string -> bool;
  fs_fault : fs_op -> option error     (* the error an [fs] call throws, if any *)
}.

(** [path.join(a, b)] for a plain name [b]. *)
Definition path_join (a b : string) : string := a ++ "/" ++ b.

(** Decimal digits of a counter, as a template literal prints it. *)
Definition decimal (n : nat) : string := NilEmpty.string_of_uint (Nat.to_uint n).

Section Primitives.
Variable E : env.

Definition existsSync_dir (dir : string) : M bool :=
  fun w => (Ret (dir_exists w dir), w).

Definition existsSync (dir name : string) : M bool :=
  fun w => (Ret (file_exists w dir name), w).

Definition mkdirSync (dir : string) : M unit :=
  fun w => match fs_fault E (OpMkdir dir) with
           | Some e => (Throw e, w)
           | None => (Ret tt, log (EvMkdir dir) (add_dir dir w))
           end.

Definition readdirSync (dir : string) : M (list string) :=
  fun w => match fs_fault E (OpReaddir dir) with
           | Some e => (Throw e, w)
           | None => (Ret (names_in w dir), w)
           end.

Definition writeFileSync (dir name : string) : M unit :=
  fun w => match fs_fault E (OpWrite dir name) with
           | Some e => (Throw e, w)
           | None => (Ret tt, log (EvWrite dir name) (add_file dir name w))
           end.

(** [safeNavigate]: every failure is caught and reported as [false]. *)
Definition safeNavigate (url : string) : M bool :=
  emit (EvGoto url (nav_ok E url)) ;; ret (nav_ok E url).

End Primitives.
End World.

(** ** The content downloader *)

Module Downloader.
Import Eff World.

Record ids : Type := mkIds { userId : string; postId : string }.

(** The longest prefix of characters that satisfy [p], and the rest. *)
Fixpoint span (p : ascii -> bool) (s : string) : string * string :=
  match s with
  | EmptyString => (EmptyString, EmptyString)
  | String c s' =>
      if p c then let (a, b) := span p s' in (String c a, b)
      else (EmptyString, s)
  end.

(** [/https:\/\/x\.com\/([^\/]+)\/status\/(\d+)/] tried at the start of
    [s]: the user is the run up to the next slash, the post the run of
    digits after [/status/]. *)
Definition match_ids_here (s : string) : option ids :=
  if Js.startsWith "https://x.com/" s then
    let (user, r1) := span (fun c => negb (Ascii.eqb c "/")) (Js.drop 14 s) in
    if Js.truthy user && Js.startsWith "/status/" r1 then
      let (digits, _) := span Js.isDigit (Js.drop 8 r1) in
      if Js.truthy digits then Some {| userId := user; postId := digits |} else None
    else None
  else None.

(** [url.match(..)]: the leftmost offset at which the pattern matches. *)
Fixpoint match_ids (s : string) : option ids :=
  match match_ids_here s with
  | Some r => Some r
  | None => match s with
            | EmptyString => None
            | String _ s' => match_ids s'
            end
  end.

Definition extractIds (url : string) : M ids :=
  match match_ids url with
  | Some r => ret r
  | None => throw (Error ("Invalid tweet URL format: " ++ url))
  end.

Section WithEnv.
Variable E : env.

Definition ensureOutputDir (outputDir userId : string) : M string :=
  let userDir := path_join outputDir userId in
  there <- existsSync_dir outputDir ;;
  (if negb there then mkdirSync E outputDir else ret tt) ;;
  there' <- existsSync_dir userDir ;;
  (if negb there' then mkdirSync E userDir else ret tt) ;;
  ret userDir.

(** [downloadFile]: the write stream opens the file before the answer
    is known. *)
Definition downloadFile (url dir name : string) : M unit :=
  fun w => match download E url with
           | DlOk => (Ret tt, log (EvDownload url dir name true) (add_file dir name w))
           | DlRejected e => (Throw e, log (EvDownload url dir name false) (add_file dir name w))
           | DlErrored e => (Throw e, log (EvDownload url dir name false) (remove_file dir name w))
           end.

Definition selector_timeout : error :=
  Error "page.waitForSelector: Timeout 30000ms exceeded.".

(** [extractAndSaveText]: the text that is written is not modelled, the
    write is. When the post never shows up the catch block writes the
    failure note to the same path. *)
Definition extractAndSaveText (pv : page_view) (dir name : string) : M unit :=
  try_catch
    (if pv_article pv then writeFileSync E dir name else throw selector_timeout)
    (fun _ => writeFileSync E dir name).

Definition image_extension (url : string) : string :=
  if Js.includes ".jpg" url || Js.includes ".jpeg" url then "jpg"
  else if Js.includes ".png" url then "png"
  else if Js.includes ".gif" url then "gif"
  else "jpg".

(** The download loop, [i] counting from 0. *)
Fixpoint download_images (postId dir : string) (i : nat) (urls : list string) : M unit :=
  match urls with
  | [] => ret tt
  | url :: rest =>
      downloadFile url dir (postId ++ "-" ++ decimal (i + 1) ++ "." ++ image_extension url) ;;
      download_images postId dir (S i) rest
  end.

(** [extractAndDownloadImages]; the list of paths it returns is dropped
    by its caller and is not kept here. *)
Definition extractAndDownloadImages (pv : page_view) (postId dir : string) : M unit :=
  try_catch
    (if pv_article pv then
       let filteredUrls :=
         filter (fun url => Js.includes "/media/" url
                            && negb (Js.includes "profile_images" url)
                            && negb (Js.includes "profile_banners" url))
                (pv_images pv) in
       download_images postId dir 0 filteredUrls
     else throw selector_timeout)
    (fun _ => ret tt).

Definition take_screenshot (dir name : string) : M unit :=
  fun w => if screenshot_ok E dir name
           then (Ret tt, log (EvScreenshot dir name true) (add_file dir name w))
           else (Ret tt, log (EvScreenshot dir name false) w).

(** [extractAndDownloadVideos]: a screenshot of the player (a failure
    there is caught on the spot) and the info note, or the error note. *)
Definition extractAndDownloadVideos (pv : page_view) (postId dir : string) : M unit :=
  try_catch
    (if pv_article pv then
       if pv_video pv then
         take_screenshot dir (postId ++ "-video-player.png") ;;
         writeFileSync E dir (postId ++ "-video-info.txt")
       else ret tt
     else throw selector_timeout)
    (fun _ => writeFileSync E dir (postId ++ "-video-error.txt")).

(** A response as the observer reads it. *)
Record response : Type := mkResponse {
  status : Z;
  resp_url : string;
  headers : list (string * string)
}.

Definition header (name : string) (r : response) : option string :=
  Dom.lookup_attr name (headers r).

(** The callback of [page.on('response', ..)], run when the clock
    shows [now] milliseconds. Only what it does to the page is kept;
    its warnings are not. [NaN > 0] is false. *)
Definition on_response (now : Z) (r : response) : M unit :=
  if status r =? 429 then
    match header "x-rate-limit-reset" r with
    | Some h =>
        if Js.truthy h then
          match Js.parseInt h with
          | Some reset =>
              let waitMs := reset * 1000 - now in
              if 0 <? waitMs then
                emit (EvSleep waitMs) ;;
                emit EvReload ;;
                emit (EvSleep 2000)
              else ret tt
          | None => ret tt
          end
        else ret tt
    | None => ret tt
    end
  else ret tt.

(** The test on the names of [readdirSync(userDir)]. *)
Definition is_image_of (postId file : string) : bool :=
  Js.startsWith (postId ++ "-") file
  && (Js.endsWith ".jpg" file || Js.endsWith ".png" file || Js.endsWith ".gif" file).

(** The part of the [try] block after the resume test: the observer,
    the navigation and the three extractors. *)
Definition extract_content (tweetUrl userDir postId : string) : M bool :=
  emit EvObserve ;;
  safeNavigate E tweetUrl ;;
  let pv := tweet_page E tweetUrl in
  extractAndSaveText pv userDir (postId ++ ".txt") ;;
  extractAndDownloadImages pv postId userDir ;;
  extractAndDownloadVideos pv postId userDir ;;
  ret true.

(** The [try] block of [processTweetContent]. *)
Definition processTweetContent_try (tweetUrl outputDir : string) : M bool :=
  r <- extractIds tweetUrl ;;
  userDir <- ensureOutputDir outputDir (userId r) ;;
  let postId := postId r in
  hasTextFile <- existsSync userDir (postId ++ ".txt") ;;
  names <- readdirSync E userDir ;;
  let hasImageFiles := existsb (is_image_of postId) names in
  hasVideoFile <- existsSync userDir (postId ++ ".mp4") ;;
  hasVideoInfo <- existsSync userDir (postId ++ "-video-info.txt") ;;
  hasVideoError <- existsSync userDir (postId ++ "-video-error.txt") ;;
  hasScreenshot <- existsSync userDir (postId ++ "-video-player.png") ;;
  if hasTextFile || hasImageFiles || hasVideoFile || hasVideoInfo
     || hasVideoError || hasScreenshot
  then ret false
  else extract_content tweetUrl userDir postId.

(** The [catch] block of [processTweetContent]. *)
Definition processTweetContent_catch (tweetUrl outputDir : string) (err : error) : M bool :=
  if is429 err then
    r <- extractIds tweetUrl ;;
    userDir <- ensureOutputDir outputDir (userId r) ;;
    writeFileSync E userDir (postId r ++ "-rate-limited.txt") ;;
    ret false
  else ret false.

Definition processTweetContent (tweetUrl outputDir : string) : M bool :=
  try_catch (processTweetContent_try tweetUrl outputDir)
            (processTweetContent_catch tweetUrl outputDir).

Record stats : Type := mkStats {
  processedCount : Z;
  skippedCount : Z;
  rateLimitedCount : Z
}.

Definition bump_processed (s : stats) : stats :=
  {| processedCount := processedCount s + 1;
     skippedCount := skippedCount s;
     rateLimitedCount := rateLimitedCount s |}.

Definition bump_skipped (s : stats) : stats :=
  {| processedCount := processedCount s;
     skippedCount := skippedCount s + 1;
     rateLimitedCount := rateLimitedCount s |}.

Definition bump_rateLimited (s : stats) : stats :=
  {| processedCount := processedCount s;
     skippedCount := skippedCount s;
     rateLimitedCount := rateLimitedCount s + 1 |}.

Definition is_nil {A} (l : list A) : bool :=
  match l with [] => true | _ :: _ => false end.

(** One turn of the [for] loop with its own [try]/[catch]; [more] is
    [i < totalTweets - 1]. *)
Definition batch_step (url outputDir : string) (sleepMs : Z) (more : bool)
    (s : stats) : M stats :=
  try_catch
    (wasProcessed <- processTweetContent url outputDir ;;
     let s1 := if wasProcessed then bump_processed s else bump_skipped s in
     (if more && wasProcessed then emit (EvSleep sleepMs) else ret tt) ;;
     ret s1)
    (fun err =>
       let s1 := if is429 err then bump_rateLimited s else bump_skipped s in
       (if more then emit (EvSleep sleepMs) else ret tt) ;;
       ret s1).

Fixpoint batch_loop (urls : list string) (outputDir : string) (sleepMs : Z)
    (s : stats) : M stats :=
  match urls with
  | [] => ret s
  | url :: rest =>
      s' <- batch_step url outputDir sleepMs (negb (is_nil rest)) s ;;
      batch_loop rest outputDir sleepMs s'
  end.

Definition zero_stats : stats :=
  {| processedCount := 0; skippedCount := 0; rateLimitedCount := 0 |}.

(** [processMultipleTweets] on the page it is handed (the branch that
    opens a page of its own belongs to the session code). The summary
    it prints is kept as an event. *)
Definition processMultipleTweets (tweetUrls : list string) (outputDir : string)
    (sleepMs : Z) : M unit :=
  try_catch
    (emit (EvBatch tweetUrls) ;;
     emit EvBlockRequests ;;
     s <- batch_loop tweetUrls outputDir sleepMs zero_stats ;;
     emit (EvSummary (processedCount s) (skippedCount s) (rateLimitedCount s)))
    (fun _ => ret tt).

End WithEnv.

(** The posts a summary accounts for. *)
Definition counted (s : stats) : Z :=
  processedCount s + skippedCount s + rateLimitedCount s.

(** One for a post that was processed, nothing otherwise. *)
Definition processed_now (E : env) (url out : string) (w : world) : Z :=
  match processTweetContent E url out w with
  | (Ret true, _) => 1
  | _ => 0
  end.

(** The two directories and the text file of the post are there. *)
Definition settled (out ud post : string) (w : world) : Prop :=
  dir_exists w out = true /\ dir_exists w ud = true
  /\ file_exists w ud (post ++ ".txt") = true.

(** [m] leaves them there. *)
Definition keeps (out ud post : string) {A} (m : M A) : Prop :=
  forall w, settled out ud post w -> settled out ud post (snd (m w)).

(** The events of one call of the observer. *)
Definition observer_events (now : Z) (r : response) : list event :=
  if status r =? 429 then
    match header "x-rate-limit-reset" r with
    | Some h =>
        if Js.truthy h then
          match Js.parseInt h with
          | Some reset =>
              if 0 <? reset * 1000 - now
              then [ EvSleep (reset * 1000 - now); EvReload; EvSleep 2000 ]
              else []
          | None => []
          end
        else []
    | None => []
    end
  else [].

(** The resume test as a predicate of the disk: the six checks of
    [processTweetContent], in its order. *)
Definition already_processed (w : world) (userDir postId : string) : bool :=
  file_exists w userDir (postId ++ ".txt")
  || existsb (is_image_of postId) (names_in w userDir)
  || file_exists w userDir (postId ++ ".mp4")
  || file_exists w userDir (postId ++ "-video-info.txt")
  || file_exists w userDir (postId ++ "-video-error.txt")
  || file_exists w userDir (postId ++ "-video-player.png").

End Downloader.

(** ** Link discovery ([main.ts]) *)

Module Main.
Import Eff World Dom Downloader.

(** [set.add(x)] on a [Set<string>] kept in insertion order. *)
Definition set_add (x : string) (set : list string) : list string :=
  if Js.has x set then set else set ++ [x].

(** The variables the closure [extractLinks] shares with [find_links]. *)
Record dstate : Type := mkState {
  uniqueLinks : list string;
  foundIds : Z;
  processedTweets : list string
}.

Definition initial_state : dstate :=
  {| uniqueLinks := []; foundIds := 0; processedTweets := [] |}.

Definition size (st : dstate) : Z := Z.of_nat (length (uniqueLinks st)).

Definition x_com : string := "https://x.com".

(** [`https://x.com${href}`] *)
Definition url_of (href : string) : string := x_com ++ href.

(** [Array.from(uniqueLinks).map(href => `https://x.com${href}`)] *)
Definition to_urls (links : list string) : list string :=
  map url_of links.

Definition RETRY_DELAY : Z := 2000.
Definition MAX_RETRIES : nat := 5.

Section WithEnv.
Variable E : env.

Definition axios_get (url : string) : M unit :=
  match http_get E url with
  | Some e => emit (EvHttpGet url false) ;; throw e
  | None => emit (EvHttpGet url true)
  end.

(** The image loop of [saveSimpleContent], [i] counting from 0. *)
Fixpoint save_images (postId userDir : string) (i : nat) (urls : list string) : M unit :=
  match urls with
  | [] => ret tt
  | imageUrl :: rest =>
      axios_get imageUrl ;;
      let imageExtension := if Js.includes ".png" imageUrl then "png" else "jpg" in
      writeFileSync E userDir (postId ++ "-" ++ decimal (i + 1) ++ "." ++ imageExtension) ;;
      save_images postId userDir (S i) rest
  end.

Definition saveSimpleContent (href : string) (c : content) (outputDir : string) : M bool :=
  try_catch
    (let parts := Js.split "/" href in
     if (length parts <? 4)%nat
     then throw (Error ("Invalid tweet URL format: " ++ href))
     else
       let userId := nth 1 parts "" in
       let postId := nth 3 parts "" in
       let userDir := path_join outputDir userId in
       there <- existsSync_dir outputDir ;;
       (if negb there then mkdirSync E outputDir else ret tt) ;;
       there' <- existsSync_dir userDir ;;
       (if negb there' then mkdirSync E userDir else ret tt) ;;
       (if Js.truthy (text c) then writeFileSync E userDir (postId ++ ".txt") else ret tt) ;;
       (if (0 <? length (imageUrls c))%nat
        then save_images postId userDir 0 (imageUrls c) else ret tt) ;;
       ret true)
    (fun _ => ret false).

Variable initial_url : string.
Variable max_id : Z.
Variable limit : Z.
Variable download_content : bool.
Variable output_dir : string.

(** A new link: what the loop body does between the membership test
    and the limit test. *)
Definition add_link (it : item) (st : dstate) : M dstate :=
  let st1 := {| uniqueLinks := set_add (href it) (uniqueLinks st);
                foundIds := foundIds st + 1;
                processedTweets := processedTweets st |} in
  if download_content && simple it then
    saveSimpleContent (href it) (inline it) output_dir ;;
    ret {| uniqueLinks := uniqueLinks st1;
           foundIds := foundIds st1;
           processedTweets := set_add (href it) (processedTweets st1) |}
  else ret st1.

(** The loop over the query result; the flag says that the loop left
    through [return -1]. *)
Fixpoint process_items (items : list item) (st : dstate) : M (bool * dstate) :=
  match items with
  | [] => ret (false, st)
  | it :: rest =>
      if Js.truthy (href it) && negb (Js.has (href it) (uniqueLinks st)) then
        st' <- add_link it st ;;
        if (0 <? limit) && (limit <=? size st')
        then ret (true, st')
        else process_items rest st'
      else process_items rest st
  end.

(** [extractLinks], at the [k]-th query of the page: [-1] when the
    limit was reached, the size of the link set otherwise. *)
Definition extractLinks (k : nat) (st : dstate) : M (Z * dstate) :=
  emit (EvQuery k) ;;
  r <- process_items (scan_articles (rendered E k)) st ;;
  ret (if fst r then -1 else size (snd r), snd r).

(** The retry loop of the initial wait: [n] turns are left, [i] is the
    loop variable. *)
Fixpoint wait_loop (n i : nat) : M unit :=
  match n with
  | O => ret tt
  | S n' =>
      if wait_article E i then emit (EvWaitArticles i true)
      else
        emit (EvWaitArticles i false) ;;
        if (i =? MAX_RETRIES - 1)%nat
        then throw (Error "Could not find any articles after multiple attempts")
        else
          emit (EvSleep RETRY_DELAY) ;;
          emit (EvScroll (Pixels 300)) ;;
          wait_loop n' (S i)
  end.

Definition no_content : error :=
  Error "Could not load Twitter content. The page might be unavailable or the account may not exist.".

Definition wait_for_articles : M unit :=
  try_catch (wait_loop MAX_RETRIES 0)
    (fun _ => emit (EvErrorScreenshot (error_screenshot_ok E)) ;; throw no_content).

(** The [while] loop; [k] is the index of the next page query. *)
Fixpoint scroll_loop (fuel k : nat) (previousSize sameCountIterations : Z)
    (reachedBottom : bool) (st : dstate) : MF dstate :=
  if negb reachedBottom && ((max_id =? 0) || (foundIds st <? max_id)) then
    match fuel with
    | O => fun _ => None
    | S fuel' =>
        r <~ liftF (emit (EvScroll Viewport) ;;
                    emit (EvSleep 1500) ;;
                    extractLinks k st) ;;
        let currentSize := fst r in
        let st' := snd r in
        if currentSize =? -1 then liftF (ret st')
        else if currentSize =? previousSize then
          let same := sameCountIterations + 1 in
          scroll_loop fuel' (S k) previousSize same
                      (if 3 <=? same then true else reachedBottom) st'
        else scroll_loop fuel' (S k) currentSize 0 reachedBottom st'
    end
  else liftF (ret st).

(** [resultLinks.slice(0, limit)] when the list is longer than a
    positive limit. *)
Definition apply_limit (resultLinks : list string) : list string :=
  if (0 <? limit) && (limit <? Z.of_nat (length resultLinks))
  then firstn (Z.to_nat limit) resultLinks
  else resultLinks.

(** The links that were not saved during discovery. *)
Definition remaining_links (finalLinks : list string) (st : dstate) : list string :=
  filter (fun link => negb (Js.has (Js.replace_first x_com link) (processedTweets st)))
         finalLinks.

Definition download_phase (finalLinks : list string) (st : dstate) : M unit :=
  if download_content && (0 <? length finalLinks)%nat then
    let remainingLinks := remaining_links finalLinks st in
    (if (0 <? length remainingLinks)%nat
     then processMultipleTweets E remainingLinks output_dir 5000
     else ret tt) ;;
    safeNavigate E initial_url ;;
    ret tt
  else ret tt.

(** [find_links] once the session has handed over a page. *)
Definition find_links (fuel : nat) : MF (list string) :=
  finallyF
    (_ <~ liftF (safeNavigate E initial_url) ;;
     _ <~ liftF wait_for_articles ;;
     first <~ liftF (extractLinks 0 initial_state) ;;
     if fst first =? -1 then liftF (ret (to_urls (uniqueLinks (snd first))))
     else
       st <~ scroll_loop fuel 1 0 0 false (snd first) ;;
       let finalLinks := apply_limit (to_urls (uniqueLinks st)) in
       _ <~ liftF (download_phase finalLinks st) ;;
       liftF (ret finalLinks))
    (log EvClose).

End WithEnv.

(** The link set of [st'] is that of [st] with new links at the end. *)
Definition extends (st st' : dstate) : Prop :=
  exists added, uniqueLinks st' = (uniqueLinks st ++ added)%list.

(** No link twice; every directly saved post is a link; the counter
    of found posts is the size of the link set. *)
Record sound (st : dstate) : Prop := {
  sound_nodup : NoDup (uniqueLinks st);
  sound_processed : forall h, In h (processedTweets st) -> In h (uniqueLinks st);
  sound_found : foundIds st = size st
}.

(** The loop test. *)
Definition goes_on (max_id : Z) (rb : bool) (st : dstate) : bool :=
  negb rb && ((max_id =? 0) || (foundIds st <? max_id)).

(** What the initial wait does to the page when no attempt finds an
    article. *)
Definition wait_events_all_fail (E : env) : list event :=
  [ EvWaitArticles 0 false; EvSleep 2000; EvScroll (Pixels 300);
    EvWaitArticles 1 false; EvSleep 2000; EvScroll (Pixels 300);
    EvWaitArticles 2 false; EvSleep 2000; EvScroll (Pixels 300);
    EvWaitArticles 3 false; EvSleep 2000; EvScroll (Pixels 300);
    EvWaitArticles 4 false;
    EvErrorScreenshot (error_screenshot_ok E) ].

(** *** The link state on its own

    What [add_link] and [process_items] do to the shared variables does
    not depend on the disk or on the network; these two functions are
    that part of them. *)

Definition added_state (download_content : bool) (it : item) (st : dstate) : dstate :=
  {| uniqueLinks := set_add (href it) (uniqueLinks st);
     foundIds := foundIds st + 1;
     processedTweets :=
       if download_content && simple it
       then set_add (href it) (processedTweets st)
       else processedTweets st |}.

Fixpoint scan_items (limit : Z) (download_content : bool) (items : list item)
    (st : dstate) : bool * dstate :=
  match items with
  | [] => (false, st)
  | it :: rest =>
      if Js.truthy (href it) && negb (Js.has (href it) (uniqueLinks st)) then
        let st' := added_state download_content it st in
        if (0 <? limit) && (limit <=? size st')
        then (true, st')
        else scan_items limit download_content rest st'
      else scan_items limit download_content rest st
  end.

Section LinkState.
Variable E : env.
Variable max_id : Z.
Variable limit : Z.
Variable download_content : bool.

(** What one call of [extractLinks] returns and leaves in the shared
    variables. *)
Definition extract_result (k : nat) (st : dstate) : Z * dstate :=
  let r := scan_items limit download_content (scan_articles (rendered E k)) st in
  (if fst r then -1 else size (snd r), snd r).

(** The [while] loop on the link state, with the number of turns it
    took. *)
Fixpoint scroll_states (fuel k : nat) (previousSize sameCountIterations : Z)
    (reachedBottom : bool) (st : dstate) : option (dstate * nat) :=
  if negb reachedBottom && ((max_id =? 0) || (foundIds st <? max_id)) then
    match fuel with
    | O => None
    | S fuel' =>
        let r := extract_result k st in
        let currentSize := fst r in
        let st' := snd r in
        if currentSize =? -1 then Some (st', 1%nat)
        else
          match
            (if currentSize =? previousSize then
               let same := sameCountIterations + 1 in
               scroll_states fuel' (S k) previousSize same
                             (if 3 <=? same then true else reachedBottom) st'
             else scroll_states fuel' (S k) currentSize 0 reachedBottom st')
          with
          | Some (st'', n) => Some (st'', S n)
          | None => None
          end
    end
  else Some (st, 0%nat).

(** Whether one of the initial waits finds an article. *)
Definition articles_found : bool :=
  existsb (wait_article E) (seq 0 MAX_RETRIES).

(** What [find_links] hands back: a list, the error, or nothing yet
    when the loop outlasts the budget. *)
Definition returned_links (fuel : nat) : option (result (list string)) :=
  if articles_found then
    let first := extract_result 0 initial_state in
    if fst first =? -1 then Some (Ret (to_urls (uniqueLinks (snd first))))
    else
      match scroll_states fuel 1 0 0 false (snd first) with
      | Some (st, _) => Some (Ret (apply_limit limit (to_urls (uniqueLinks st))))
      | None => None
      end
  else Some (Throw no_content).

(** The links of the queries before the [k]-th are all in the set. *)
Definition covers (k : nat) (st : dstate) : Prop :=
  forall i it,
    (i < k)%nat -> In it (scan_articles (rendered E i)) ->
    Js.truthy (href it) = true -> In (href it) (uniqueLinks st).

(** From the [k]-th query on the page shows no link that is not in the
    set already. *)
Definition exhausted (k : nat) (st : dstate) : Prop :=
  forall j it,
    (k <= j)%nat -> In it (scan_articles (rendered E j)) ->
    Js.truthy (href it) = true -> In (href it) (uniqueLinks st).

(** The feed yields no new links from the [K]-th query on: what it
    shows then was on screen at an earlier query. *)
Definition dries_up (K : nat) : Prop :=
  forall j it,
    (K <= j)%nat -> In it (scan_articles (rendered E j)) ->
    Js.truthy (href it) = true ->
    exists i it', (i < K)%nat /\ In it' (scan_articles (rendered E i))
                  /\ href it' = href it.

(** The link state [find_links] ends with, and whether it went through
    the loop (it did not when the first extraction hit the limit). *)
Definition final_state (fuel : nat) : option (dstate * bool) :=
  let first := extract_result 0 initial_state in
  if fst first =? -1 then Some (snd first, false)
  else
    match scroll_states fuel 1 0 0 false (snd first) with
    | Some (st, _) => Some (st, true)
    | None => None
    end.

(** The lists [processMultipleTweets] is called with during a run that
    found articles. *)
Definition handed_over (fuel : nat) : list (list string) :=
  match final_state fuel with
  | Some (st, true) =>
      let finalLinks := apply_limit limit (to_urls (uniqueLinks st)) in
      if download_content && (0 <? length finalLinks)%nat
         && (0 <? length (remaining_links finalLinks st))%nat
      then [remaining_links finalLinks st]
      else []
  | _ => []
  end.

End LinkState.

End Main.

(** ** Segment grouping and quality selection (video downloader) *)

Module Video.
Import Downloader.

(** [/(\d+)x(\d+)/] tried at the start of [s]: the whole match. *)
Definition match_res_here (s : string) : option string :=
  let (w, r) := span Js.isDigit s in
  if Js.truthy w then
    match r with
    | String "x" r' =>
        let (h, _) := span Js.isDigit r' in
        if Js.truthy h then Some (w ++ "x" ++ h) else None
    | _ => None
    end
  else None.

(** [url.match(/(\d+)x(\d+)/)]: the leftmost match. *)
Fixpoint match_res (s : string) : option string :=
  match match_res_here s with
  | Some m => Some m
  | None => match s with
            | EmptyString => None
            | String _ s' => match_res s'
            end
  end.

(** [/(\d+)000/] tried at the start of [s]: the first group, as long
    as the greedy [\d+] can make it. *)
Fixpoint match_bitrate_here (s : string) : option string :=
  match s with
  | EmptyString => None
  | String c s' =>
      if Js.isDigit c then
        match match_bitrate_here s' with
        | Some g => Some (String c g)
        | None => if Js.startsWith "000" s' then Some (String c EmptyString) else None
        end
      else None
  end.

Fixpoint match_bitrate (s : string) : option string :=
  match match_bitrate_here s with
  | Some g => Some g
  | None => match s with
            | EmptyString => None
            | String _ s' => match_bitrate s'
            end
  end.

(** The quality key of one segment URL. *)
Definition quality (url : string) : string :=
  match match_res url with
  | Some m => m
  | None => match match_bitrate url with
            | Some g => g ++ "kbps"
            | None => "unknown"
            end
  end.

(** [groups[quality].push(url)], creating the entry when it is new.
    The keys are never integer-like, so the object lists them in the
    order they were created. *)
Fixpoint push (q url : string) (groups : list (string * list string))
    : list (string * list string) :=
  match groups with
  | [] => [(q, [url])]
  | (k, urls) :: rest =>
      if String.eqb k q then (k, (urls ++ [url])%list) :: rest
      else (k, urls) :: push q url rest
  end.

Definition groupSegmentsByQuality (segments : list string)
    : list (string * list string) :=
  fold_left (fun groups url => push (quality url) url groups) segments [].

(** [Object.keys(groups)] *)
Definition keys (groups : list (string * list string)) : list string :=
  map fst groups.

(** [groups[q]] *)
Fixpoint lookup (q : string) (groups : list (string * list string))
    : option (list string) :=
  match groups with
  | [] => None
  | (k, urls) :: rest => if String.eqb k q then Some urls else lookup q rest
  end.

(** [Number(s)] on the pieces of a key: the empty piece is 0, a run of
    digits is its value, and a piece with a letter in it is [NaN]
    ([None]). A key holds digits, [x] and the letters of [kbps] and
    [unknown] only, so its pieces are of these three kinds. *)
Definition to_number (s : string) : option Z :=
  if negb (Js.truthy s) then Some 0
  else if negb (Js.truthy (snd (span Js.isDigit s)))
  then Js.digits_value 10 s None
  else None.

(** [res[0] * res[1]] for [res = key.split('x').map(Number)]; a missing
    piece is [undefined] and the product [NaN]. *)
Definition area (key : string) : option Z :=
  match Js.split "x" key with
  | a :: b :: _ =>
      match to_number a, to_number b with
      | Some x, Some y => Some (x * y)
      | _, _ => None
      end
  | _ => None
  end.

(** The comparator [(a, b) => areaB - areaA]; the sort reads [NaN]
    as [0]. *)
Definition by_area_desc (a b : string) : Z :=
  match area a, area b with
  | Some areaA, Some areaB => areaB - areaA
  | _, _ => 0
  end.

(** [Array.prototype.sort]: a stable sort, here by insertion. An
    element stays in front of the ones after it unless the comparator
    is positive. Where the comparator orders the keys consistently
    (every area a number, or every comparison a tie) all stable sorts
    give this result. *)
Fixpoint insert_sorted (cmp : string -> string -> Z) (x : string) (l : list string)
    : list string :=
  match l with
  | [] => [x]
  | y :: l' => if cmp x y <=? 0 then x :: l else y :: insert_sorted cmp x l'
  end.

Definition sort (cmp : string -> string -> Z) (l : list string) : list string :=
  fold_right (insert_sorted cmp) [] l.

(** [Object.keys(videoGroups).sort(..)[0]] *)
Definition bestVideoQuality (videoGroups : list (string * list string)) : option string :=
  hd_error (sort by_area_desc (keys videoGroups)).

(** [Object.keys(audioGroups)[0]] *)
Definition bestAudioQuality (audioGroups : list (string * list string)) : option string :=
  hd_error (keys audioGroups).

(** The segments the reconstructor downloads:
    [bestVideoQuality && videoGroups[bestVideoQuality]]. *)
Definition bestVideoSegments (videoSegments : list string) : option (list string) :=
  let videoGroups := groupSegmentsByQuality videoSegments in
  match bestVideoQuality videoGroups with
  | Some q => if Js.truthy q then lookup q videoGroups else None
  | None => None
  end.

Definition bestAudioSegments (audioSegments : list string) : option (list string) :=
  let audioGroups := groupSegmentsByQuality audioSegments in
  match bestAudioQuality audioGroups with
  | Some q => if Js.truthy q then lookup q audioGroups else None
  | None => None
  end.

(** The segments of one quality, in the order they were captured. *)
Definition of_quality (q : string) (segs : list string) : list string :=
  filter (fun u => String.eqb (quality u) q) segs.

(** Every character of [s] satisfies [p]. *)
Fixpoint all_chars (p : ascii -> bool) (s : string) : bool :=
  match s with
  | EmptyString => true
  | String c s' => p c && all_chars p s'
  end.

End Video.

(** ** Sample pages and worlds *)

Module Sample.
Import Eff World Dom Downloader.

(** A post with a permalink and further content. *)
Definition post (href : string) (more : list node) : node :=
  Elem "article" [] (Elem "a" [("href", href)] [Elem "time" [] []] :: more).

Definition video_player : node := Elem "div" [("data-testid", "videoPlayer")] [].

Definition tweet_text (s : string) : node :=
  Elem "div" [("data-testid", "tweetText")] [Text s].

Definition media_image (src : string) : node := Elem "img" [("src", src)] [].

Definition plain_page : page_view :=
  {| pv_article := true; pv_images := []; pv_video := false |}.

(** A world in which nothing goes wrong and the timeline shows
    [feed k] at the [k]-th query. *)
Definition calm (feed : nat -> list node) : env :=
  {| wait_article := fun _ => true;
     rendered := feed;
     error_screenshot_ok := true;
     http_get := fun _ => None;
     nav_ok := fun _ => true;
     tweet_page := fun _ => plain_page;
     download := fun _ => DlOk;
     screenshot_ok := fun _ _ => true;
     fs_fault := fun _ => None |}.

(** The same with a disk that refuses the given calls. *)
Definition faulty (feed : nat -> list node) (fault : fs_op -> option error) : env :=
  {| wait_article := fun _ => true;
     rendered := feed;
     error_screenshot_ok := true;
     http_get := fun _ => None;
     nav_ok := fun _ => true;
     tweet_page := fun _ => plain_page;
     download := fun _ => DlOk;
     screenshot_ok := fun _ _ => true;
     fs_fault := fault |}.

(** What Node reports when a directory may not be listed. *)
Definition eacces (dir : string) : error :=
  {| code := StrCode "EACCES";
     message := "EACCES: permission denied, scandir '" ++ dir ++ "'" |}.

(** A disk on which [dir] can be written to but not listed. *)
Definition unlistable (dir : string) (op : fs_op) : option error :=
  match op with
  | OpReaddir d => if String.eqb d dir then Some (eacces dir) else None
  | _ => None
  end.

(** A profile on which no article ever shows up. *)
Definition barren : env :=
  {| wait_article := fun _ => false;
     rendered := fun _ => [];
     error_screenshot_ok := true;
     http_get := fun _ => None;
     nav_ok := fun _ => true;
     tweet_page := fun _ => plain_page;
     download := fun _ => DlOk;
     screenshot_ok := fun _ _ => true;
     fs_fault := fun _ => None |}.

(** Three posts, all on screen from the start: two with a video, one
    with nothing but its permalink. *)
Definition three_posts : list node :=
  [ post "/u/status/1" [video_player];
    post "/u/status/2" [video_player];
    post "/u/status/3" [] ].

(** The first of the three on screen at the start, all three after
    the first scroll. *)
Definition one_then_three (k : nat) : list node :=
  match k with
  | O => [ post "/u/status/1" [video_player] ]
  | S _ => three_posts
  end.

(** One post with text, on screen from the start; scrolling brings
    nothing more. *)
Definition one_post : list node := [ post "/u/status/1" [tweet_text "hi"] ].

Definition profile : string := "https://x.com/u".

(** A 429 response that names the second at which the limit resets. *)
Definition too_many_requests : response :=
  {| status := 429;
     resp_url := "https://x.com/i/api/graphql/q/TweetDetail";
     headers := [("x-rate-limit-remaining", "0");
                 ("x-rate-limit-reset", "1700000005")] |}.

(** Two posts for the text check: the same elements and attributes, a
    different sentence inside the one [span]. *)
Definition post_with_span (sentence : string) : node :=
  Elem "article" []
    [ Elem "a" [("href", "/u/status/1")] [Elem "time" [] []];
      Elem "span" [] [Text sentence] ].


(** A timeline that shows one new post at every query: the [k]-th has
    the id 1 followed by [k] zeros. *)
Fixpoint zeros (k : nat) : string :=
  match k with
  | O => EmptyString
  | S k' => String "0" (zeros k')
  end.

Definition fresh_href (k : nat) : string := "/u/status/1" ++ zeros k.

Definition endless (k : nat) : list node := [ post (fresh_href k) [] ].

(** The links to come are not in the set yet. *)
Definition ahead (k : nat) (st : Main.dstate) : Prop :=
  forall j, (k <= j)%nat -> ~ In (fresh_href j) (Main.uniqueLinks st).


(** Segment requests as the player sends them: two renditions of the
    video, a video segment whose path names no resolution, and audio. *)
Definition seg_720 : string :=
  "https://video.twimg.com/ext_tw_video/1/pu/vid/avc1/0/3000/1280x720/a.m4s".
Definition seg_360 : string :=
  "https://video.twimg.com/ext_tw_video/1/pu/vid/avc1/0/3000/640x360/b.m4s".
Definition seg_init : string :=
  "https://video.twimg.com/ext_tw_video/1/pu/vid/avc1/init.m4s".
Definition seg_audio : string :=
  "https://video.twimg.com/ext_tw_video/1/pu/aud/mp4a/128000/c.m4s".

(** A disk on which the only trace of post 1 is a rate-limit marker. *)
Definition rate_limited_before : world :=
  {| dirs := ["out"; "out/u"];
     files := [("out/u", "1-rate-limited.txt")];
     trace := [] |}.

(** A disk on which post 1 has its text file. *)
Definition saved_before : world :=
  {| dirs := ["out"; "out/u"];
     files := [("out/u", "1.txt")];
     trace := [] |}.

(** A post with nothing but its permalink, alone on the timeline. *)
Definition bare_post : list node := [ post "/u/status/3" [] ].

(** A post with one picture and no text. *)
Definition picture_post : list node :=
  [ post "/u/status/4" [media_image "https://pbs.twimg.com/media/a.jpg"] ].

(** A world whose image server refuses every request. *)
Definition offline (feed : nat -> list node) : env :=
  {| wait_article := fun _ => true;
     rendered := feed;
     error_screenshot_ok := true;
     http_get := fun _ => Some (Error "Request failed with status code 403");
     nav_ok := fun _ => true;
     tweet_page := fun _ => plain_page;
     download := fun _ => DlOk;
     screenshot_ok := fun _ _ => true;
     fs_fault := fun _ => None |}.

End Sample.

(** ** The text of a link *)

Module Link.

Definition not_slash (c : ascii) : bool := negb (Ascii.eqb c "/").

(** The next character, if there is one, is no digit: a run of digits
    in front of [rest] ends there. *)
Definition ends_number (rest : string) : bool :=
  match rest with
  | EmptyString => true
  | String c _ => negb (Js.isDigit c)
  end.

(** How often a character occurs. *)
Fixpoint count_char (c : ascii) (s : string) : nat :=
  match s with
  | EmptyString => O
  | String a s' => ((if Ascii.eqb a c then 1 else 0) + count_char c s')%nat
  end.

(** The link of post [d] of user [u] as the timeline has it. *)
Definition permalink (u d : string) : string := "/" ++ u ++ "/status/" ++ d.

End Link.

(** ** More sample values *)

Module Cases.
Import Eff World Dom Downloader.

Definition quiet : env := Sample.calm (fun _ => []).

Definition text_only : content := {| text := "hi"; imageUrls := [] |}.

Definition text_and_picture : content :=
  {| text := "hi"; imageUrls := ["https://pbs.twimg.com/media/a.jpg"] |}.

(** The disk after the post [/u/status/1] was saved from the timeline. *)
Definition after_direct_save : world :=
  snd (Main.saveSimpleContent quiet "/u/status/1" text_only "out" empty_world).

(** A disk that holds the text of post 12 of user u. *)
Definition with_post_12 : world :=
  {| dirs := ["out"; "out/u"]; files := [("out/u", "12.txt")]; trace := [] |}.

(** The link state of a run that stopped at two links. *)
Definition two_links : Main.dstate :=
  {| Main.uniqueLinks := ["/u/status/1"; "/u/status/2"];
     Main.foundIds := 2;
     Main.processedTweets := [] |}.

End Cases.

(** ** Posts that are on the disk *)

Module Resume.
Import Eff World Downloader.

(** The URL parses, the two directories are there, the directory of
    the user can be listed and the resume test finds something. *)
Definition on_disk (E : env) (out : string) (w : world) (url : string) : Prop :=
  exists r,
    match_ids url = Some r
    /\ dir_exists w out = true
    /\ dir_exists w (path_join out (userId r)) = true
    /\ fs_fault E (OpReaddir (path_join out (userId r))) = None
    /\ already_processed w (path_join out (userId r)) (postId r) = true.

(** [n] more posts skipped. *)
Definition skipped_more (n : nat) (s : stats) : stats :=
  {| processedCount := processedCount s;
     skippedCount := skippedCount s + Z.of_nat n;
     rateLimitedCount := rateLimitedCount s |}.

End Resume.

(** ** What one post may touch *)

Module Frame.
Import Eff World.

(** The name begins with the id of the post and a dot or a dash, as
    every file of the post does. *)
Definition belongs (post name : string) : bool :=
  Js.startsWith (post ++ ".") name || Js.startsWith (post ++ "-") name.

Definition own_suffix (sfx : string) : bool :=
  Js.startsWith "." sfx || Js.startsWith "-" sfx.

(** [w'] has the files of [w] wherever the directory is not [ud] or
    the name is not one of [post]. *)
Definition apart (ud post : string) (w w' : world) : Prop :=
  forall dir name,
    dir <> ud \/ belongs post name = false ->
    file_exists w' dir name = file_exists w dir name.

(** [w'] has the directories of [w], [out] and [ud] aside. *)
Definition dirs_but (out ud : string) (w w' : world) : Prop :=
  forall d, d <> out -> d <> ud -> dir_exists w' d = dir_exists w d.

Definition confined (out ud post : string) (w w' : world) : Prop :=
  apart ud post w w' /\ dirs_but out ud w w'.

(** [m] leaves a world that is related to the one it started in. *)
Definition stays (R : world -> world -> Prop) {A} (m : M A) : Prop :=
  forall w, R w (snd (m w)).

(** A picture of the post, not of a profile. *)
Definition media_url (url : string) : bool :=
  Js.includes "/media/" url
  && negb (Js.includes "profile_images" url)
  && negb (Js.includes "profile_banners" url).

(** The downloads among the events fetch pictures that the page of the
    post lists and that pass the filter. *)
Definition fetches_listed (pv : page_view) (e : event) : Prop :=
  match e with
  | EvDownload url _ _ _ => In url (pv_images pv) /\ media_url url = true
  | _ => True
  end.

End Frame.

(** ** What the timeline shows *)

Module Feed.
Import Eff World Dom.

(** The [k]-th query of the page yields the link [h]. *)
Definition shows (E : env) (k : nat) (h : string) : Prop :=
  exists it, In it (scan_articles (rendered E k)) /\ href it = h /\ Js.truthy h = true.

(** Every query yields a link that no earlier query has yielded. *)
Definition ever_fresh (E : env) : Prop :=
  forall k, exists h, shows E k h /\ forall j, (j < k)%nat -> ~ shows E j h.

(** Every link of the state was yielded by one of the first [k] queries. *)
Definition drawn_before (E : env) (k : nat) (st : Main.dstate) : Prop :=
  forall h, In h (Main.uniqueLinks st) -> exists j, (j < k)%nat /\ shows E j h.

(** A positive limit leaves room for another link. *)
Definition room (limit : Z) (st : Main.dstate) : Prop :=
  0 < limit -> Main.size st < limit.

End Feed.

(** ** Capturing and naming the segments of a video ([downloadTwitterVideo]) *)

From Stdlib Require DecimalNat DecimalFacts.
From Stdlib Require Import Sorted Permutation RelationClasses.

Module Segments.
Import Downloader.

(** [/status\/(\d+)/] tried at the start of [s]: the digits. *)
Definition match_status_here (s : string) : option string :=
  if Js.startsWith "status/" s then
    let (digits, _) := span Js.isDigit (Js.drop 7 s) in
    if Js.truthy digits then Some digits else None
  else None.

(** [tweetUrl.match(/status\/(\d+)/)]: the leftmost match. *)
Fixpoint match_status (s : string) : option string :=
  match match_status_here s with
  | Some d => Some d
  | None => match s with
            | EmptyString => None
            | String _ s' => match_status s'
            end
  end.

(** The two arrays the route handler fills. *)
Record capture : Type := mkCapture {
  videoSegments : list string;
  audioSegments : list string
}.

(** The route handler, on one request. *)
Definition on_request (c : capture) (url : string) : capture :=
  if Js.includes ".m4s" url then
    if Js.includes "/vid/" url then
      {| videoSegments := videoSegments c ++ [url]; audioSegments := audioSegments c |}
    else if Js.includes "/aud/" url then
      {| videoSegments := videoSegments c; audioSegments := audioSegments c ++ [url] |}
    else c
  else c.

Definition nothing : capture := {| videoSegments := []; audioSegments := [] |}.

(** The arrays after the page has made the requests, in order. *)
Definition captured (requests : list string) : capture :=
  fold_left on_request requests nothing.

Fixpoint repeat_char (c : ascii) (n : nat) : string :=
  match n with
  | O => EmptyString
  | S n' => String c (repeat_char c n')
  end.

(** [s.padStart(n, c)] for a one-character filler. *)
Definition padStart (n : nat) (c : ascii) (s : string) : string :=
  repeat_char c (n - String.length s) ++ s.

(** [`video_${i.toString().padStart(5, '0')}.m4s`], and the same for
    [audio]. *)
Definition segment_name (kind : string) (i : nat) : string :=
  kind ++ "_" ++ padStart 5 "0" (World.decimal i) ++ ".m4s".

(** The comparison of the default [sort()]: by code units, a proper
    prefix first. *)
Definition by_code_units (a b : string) : Z :=
  match String.compare a b with
  | Lt => -1
  | Eq => 0
  | Gt => 1
  end.

(** [names.sort()] *)
Definition sort_names (names : list string) : list string :=
  Video.sort by_code_units names.

(** [`file '${path.join(tempDir, f)}'`] *)
Definition list_line (tempDir f : string) : string :=
  "file '" ++ World.path_join tempDir f ++ "'".

(** The names of the first [n] segments of a kind, in download order. *)
Definition segment_names (kind : string) (n : nat) : list string :=
  map (segment_name kind) (seq 0 n).

(** The requests for video and for audio segments among some requests. *)
Definition is_video (url : string) : bool :=
  Js.includes ".m4s" url && Js.includes "/vid/" url.

Definition is_audio (url : string) : bool :=
  Js.includes ".m4s" url && negb (Js.includes "/vid/" url) && Js.includes "/aud/" url.

End Segments.

(** ** A state and error monad over any state *)

Module Run.
Import Eff.

Section WithState.
Variable W : Type.

Definition M (A : Type) : Type := W -> result A * W.

Definition ret {A} (a : A) : M A := fun w => (Ret a, w).

Definition throw {A} (e : error) : M A := fun w => (Throw e, w).

Definition bind {A B} (m : M A) (k : A -> M B) : M B :=
  fun w => match m w with
           | (Ret a, w') => k a w'
           | (Throw e, w') => (Throw e, w')
           end.

(** [try { body } catch (e) { handler }] *)
Definition try_catch {A} (body : M A) (handler : error -> M A) : M A :=
  fun w => match body w with
           | (Ret a, w') => (Ret a, w')
           | (Throw e, w') => handler e w'
           end.

(** [try { body } finally { last }]: [last] runs on both ways out of
    [body]; when it throws, its error is the one that leaves. *)
Definition finally {A} (body : M A) (last : M unit) : M A :=
  fun w => match body w with
           | (r, w') => match last w' with
                        | (Ret _, w'') => (r, w'')
                        | (Throw e, w'') => (Throw e, w'')
                        end
           end.

End WithState.

Arguments ret {W A} a.
Arguments throw {W A} e.
Arguments bind {W A B} m k.
Arguments try_catch {W A} body handler.
Arguments finally {W A} body last.

End Run.

Declare Scope run_scope.
Delimit Scope run_scope with run.
Notation "x <- m ;; k" := (Run.bind m (fun x => k))
  (at level 61, m at next level, right associativity) : run_scope.
Notation "m ;; k" := (Run.bind m (fun _ => k))
  (at level 61, right associativity) : run_scope.

(** ** Rebuilding a video from its segments ([downloadTwitterVideo]) *)

Module Rebuild.
Import Eff World Segments Run.
#[local] Open Scope run_scope.

(** What a run does, in order. *)
Inductive action : Type :=
| Mkdir (dir : string)
| Launch                                      (* [chromium.launch] *)
| NewPage                                     (* [newContext], [newPage] *)
| Route                                       (* [page.route], every request *)
| Goto (url : string)
| WaitPlayer                                  (* [waitForSelector] of the player *)
| Click
| Sleep (ms : Z)
| WriteSegments (dir name : string) (video audio : list string)
| Download (url dir name : string) (ok : bool)
| WriteList (dir name : string) (lines : list string)
| Exec (cmd : string) (ok : bool)             (* [execSync] *)
| CloseBrowser
| RemoveTree (dir : string).                  (* [fs.rmSync(.., recursive)] *)

(** The disk, the browser of this call, and the actions so far. *)
Record state : Type := mkState {
  dirs : list string;
  files : list (string * string);
  browser_open : bool;
  acts : list action
}.

(** How the wait for the player ends. Playwright throws when the time
    is up; the source also provides for an answer of [null]. *)
Inductive wait_result : Type :=
| Found
| Missing
| TimedOut (e : error).

Record env : Type := mkEnv {
  mkdir_fault : string -> option error;
  launch : option error;
  new_page : option error;
  goto : option error;
  player : wait_result;
  click : option error;
  requests : list string;      (* what the page has asked for when the wait is over *)
  write_fault : string -> string -> option error;
  fetch : string -> dl_result;
  readdir_fault : string -> option error;
  ffmpeg : string -> option error;
  rm_fault : string -> option error
}.

Definition has_dir (s : state) (dir : string) : bool := Js.has dir (dirs s).

Definition has_file (s : state) (dir name : string) : bool :=
  existsb (path_eqb (dir, name)) (files s).

Definition names_in (s : state) (dir : string) : list string :=
  map snd (filter (fun p => String.eqb (fst p) dir) (files s)).

Definition log (a : action) (s : state) : state :=
  {| dirs := dirs s; files := files s; browser_open := browser_open s;
     acts := acts s ++ [a] |}.

Definition add_dir (dir : string) (s : state) : state :=
  {| dirs := if has_dir s dir then dirs s else dirs s ++ [dir];
     files := files s; browser_open := browser_open s; acts := acts s |}.

Definition add_file (dir name : string) (s : state) : state :=
  {| dirs := dirs s;
     files := if has_file s dir name then files s else files s ++ [(dir, name)];
     browser_open := browser_open s; acts := acts s |}.

Definition remove_file (dir name : string) (s : state) : state :=
  {| dirs := dirs s;
     files := filter (fun p => negb (path_eqb (dir, name) p)) (files s);
     browser_open := browser_open s; acts := acts s |}.

(** [d] is [dir] or lies below it. *)
Definition under (dir d : string) : bool :=
  String.eqb d dir || Js.startsWith (dir ++ "/") d.

Definition remove_tree (dir : string) (s : state) : state :=
  {| dirs := filter (fun d => negb (under dir d)) (dirs s);
     files := filter (fun p => negb (under dir (fst p))) (files s);
     browser_open := browser_open s; acts := acts s |}.

Definition set_browser (b : bool) (s : state) : state :=
  {| dirs := dirs s; files := files s; browser_open := b; acts := acts s |}.

(** The double quote, as a string. *)
Definition quote : string := String (ascii_of_nat 34) EmptyString.

Section WithEnv.
Variable E : env.

Definition act (a : action) : M state unit := fun s => (Ret tt, log a s).

(** A call that throws or goes through. *)
Definition attempt (fault : option error) (a : action) : M state unit :=
  match fault with
  | Some e => throw e
  | None => act a
  end.

Definition existsSync (dir : string) : M state bool :=
  fun s => (Ret (has_dir s dir), s).

Definition mkdirSync (dir : string) : M state unit :=
  fun s => match mkdir_fault E dir with
           | Some e => (Throw e, s)
           | None => (Ret tt, log (Mkdir dir) (add_dir dir s))
           end.

Definition launch_browser : M state unit :=
  fun s => match launch E with
           | Some e => (Throw e, s)
           | None => (Ret tt, log Launch (set_browser true s))
           end.

Definition close_browser : M state unit :=
  fun s => (Ret tt, log CloseBrowser (set_browser false s)).

(** [downloadFile] of this file: the write stream opens the file
    first; a status other than 200 rejects and leaves it, an error
    unlinks it. *)
Definition downloadFile (url dir name : string) : M state unit :=
  fun s => match fetch E url with
           | DlOk => (Ret tt, log (Download url dir name true) (add_file dir name s))
           | DlRejected e =>
               (Throw e, log (Download url dir name false) (add_file dir name s))
           | DlErrored e =>
               (Throw e, log (Download url dir name false) (remove_file dir name s))
           end.

Definition readdirSync (dir : string) : M state (list string) :=
  fun s => match readdir_fault E dir with
           | Some e => (Throw e, s)
           | None => (Ret (names_in s dir), s)
           end.

Definition write_segments (dir name : string) (video audio : list string) : M state unit :=
  fun s => match write_fault E dir name with
           | Some e => (Throw e, s)
           | None => (Ret tt, log (WriteSegments dir name video audio) (add_file dir name s))
           end.

Definition write_list (dir name : string) (lines : list string) : M state unit :=
  fun s => match write_fault E dir name with
           | Some e => (Throw e, s)
           | None => (Ret tt, log (WriteList dir name lines) (add_file dir name s))
           end.

(** [execSync(cmd)]; what ffmpeg writes is not followed. *)
Definition execSync (cmd : string) : M state unit :=
  fun s => match ffmpeg E cmd with
           | Some e => (Throw e, log (Exec cmd false) s)
           | None => (Ret tt, log (Exec cmd true) s)
           end.

Definition rmSync (dir : string) : M state unit :=
  fun s => match rm_fault E dir with
           | Some e => (Throw e, s)
           | None => (Ret tt, log (RemoveTree dir) (remove_tree dir s))
           end.

(** The loop over the segments of the best quality, [i] from 0. *)
Fixpoint download_all (kind tempDir : string) (i : nat) (urls : list string)
    : M state unit :=
  match urls with
  | [] => ret tt
  | url :: rest =>
      downloadFile url tempDir (segment_name kind i) ;;
      download_all kind tempDir (S i) rest
  end.

Definition ffmpegCmd (videoListPath audioListPath outputPath : string)
    (withAudio : bool) : string :=
  if withAudio then
    "ffmpeg -f concat -safe 0 -i " ++ quote ++ videoListPath ++ quote
    ++ " -f concat -safe 0 -i " ++ quote ++ audioListPath ++ quote
    ++ " -c copy " ++ quote ++ outputPath ++ quote ++ " -y"
  else
    "ffmpeg -f concat -safe 0 -i " ++ quote ++ videoListPath ++ quote
    ++ " -c copy " ++ quote ++ outputPath ++ quote ++ " -y".

(** From the segments of the best quality to the merged file. *)
Definition rebuild (tempDir outputPath : string) (c : capture)
    (bestVideoSegments : list string) : M state unit :=
  download_all "video" tempDir 0 bestVideoSegments ;;
  (match Video.bestAudioSegments (audioSegments c) with
   | Some bestAudioSegments => download_all "audio" tempDir 0 bestAudioSegments
   | None => ret tt
   end) ;;
  names <- readdirSync tempDir ;;
  let videoFiles := filter (Js.startsWith "video_") names in
  names' <- readdirSync tempDir ;;
  let audioFiles := filter (Js.startsWith "audio_") names' in
  let videoListPath := path_join tempDir "video_list.txt" in
  let audioListPath := path_join tempDir "audio_list.txt" in
  write_list tempDir "video_list.txt"
    (map (list_line tempDir) (sort_names videoFiles)) ;;
  (if (0 <? length audioFiles)%nat
   then write_list tempDir "audio_list.txt"
          (map (list_line tempDir) (sort_names audioFiles))
   else ret tt) ;;
  try_catch
    (execSync (ffmpegCmd videoListPath audioListPath outputPath
                 (0 <? length audioFiles)%nat))
    (fun _ => ret tt).

(** The [try] block. After a missing player it closes the browser and
    returns. *)
Definition visit (tweetUrl outputDir tweetId tempDir outputPath : string)
    : M state unit :=
  attempt (goto E) (Goto tweetUrl) ;;
  match player E with
  | TimedOut e => throw e
  | Missing => act WaitPlayer ;; close_browser
  | Found =>
      act WaitPlayer ;;
      attempt (click E) Click ;;
      act (Sleep 15000) ;;
      let c := captured (requests E) in
      if (0 <? length (videoSegments c))%nat then
        write_segments outputDir (tweetId ++ "-segments.json")
          (videoSegments c) (audioSegments c) ;;
        match Video.bestVideoSegments (videoSegments c) with
        | Some bestVideoSegments => rebuild tempDir outputPath c bestVideoSegments
        | None => ret tt
        end
      else ret tt
  end.

Definition downloadTwitterVideo (tweetUrl outputDir : string) : M state unit :=
  there <- existsSync outputDir ;;
  (if negb there then mkdirSync outputDir else ret tt) ;;
  match match_status tweetUrl with
  | None => ret tt
  | Some tweetId =>
      let outputPath := path_join outputDir (tweetId ++ ".mp4") in
      launch_browser ;;
      attempt (new_page E) NewPage ;;
      let tempDir := path_join outputDir (tweetId ++ "-temp") in
      there' <- existsSync tempDir ;;
      (if negb there' then mkdirSync tempDir else ret tt) ;;
      act Route ;;
      finally
        (try_catch (visit tweetUrl outputDir tweetId tempDir outputPath)
                   (fun _ => ret tt))
        (close_browser ;;
         try_catch (rmSync tempDir) (fun _ => ret tt))
  end.

End WithEnv.

(** No download, no list file and no ffmpeg. *)
Definition idle (a : action) : Prop :=
  match a with
  | WriteSegments _ _ _ _ | Download _ _ _ _ | WriteList _ _ _ | Exec _ _ => False
  | _ => True
  end.

(** Every action that [m] appends satisfies [P]. *)
Definition adds (P : action -> Prop) {A} (m : M state A) : Prop :=
  forall s, exists evs, acts (snd (m s)) = (acts s ++ evs)%list /\ Forall P evs.

(** The [i]-th and later downloads of a loop over [urls]. *)
Fixpoint downloads (kind tempDir : string) (i : nat) (urls : list string) : list action :=
  match urls with
  | [] => []
  | url :: rest =>
      Download url tempDir (segment_name kind i) true :: downloads kind tempDir (S i) rest
  end.

(** The state with more files and more actions. *)
Definition extend (fs : list (string * string)) (evs : list action) (s : state) : state :=
  {| dirs := dirs s; files := files s ++ fs; browser_open := browser_open s;
     acts := acts s ++ evs |}.

(** The files of the first [n] segments of a kind. *)
Definition segment_files (kind tempDir : string) (i n : nat) : list (string * string) :=
  map (fun j => (tempDir, segment_name kind j)) (seq i n).

(** The list files a run writes for [n] video and [m] audio segments. *)
Definition list_files (tempDir : string) (n m : nat) : list action :=
  WriteList tempDir "video_list.txt"
    (map (list_line tempDir) (segment_names "video" n))
  :: (if (0 <? m)%nat
      then [WriteList tempDir "audio_list.txt"
              (map (list_line tempDir) (segment_names "audio" m))]
      else []).

(** The audio segments a run downloads. *)
Definition best_audio (c : capture) : list string :=
  match Video.bestAudioSegments (audioSegments c) with
  | Some a => a
  | None => []
  end.

(** What a run does when every call goes through and the segments of
    the best video quality are [vs]. *)
Definition smooth_actions (tweetUrl outputDir tweetId : string) (c : capture)
    (vs : list string) : list action :=
  let tempDir := path_join outputDir (tweetId ++ "-temp") in
  [ Launch; NewPage; Mkdir tempDir; Route; Goto tweetUrl; WaitPlayer; Click; Sleep 15000;
    WriteSegments outputDir (tweetId ++ "-segments.json")
      (videoSegments c) (audioSegments c) ]
  ++ downloads "video" tempDir 0 vs
  ++ downloads "audio" tempDir 0 (best_audio c)
  ++ list_files tempDir (length vs) (length (best_audio c))
  ++ [ Exec (ffmpegCmd (path_join tempDir "video_list.txt")
               (path_join tempDir "audio_list.txt")
               (path_join outputDir (tweetId ++ ".mp4"))
               (0 <? length (best_audio c))%nat) true;
       CloseBrowser; RemoveTree tempDir ].

(** An environment in which every call goes through. *)
Definition smooth (requests : list string) : env :=
  {| mkdir_fault := fun _ => None;
     launch := None;
     new_page := None;
     goto := None;
     player := Found;
     click := None;
     requests := requests;
     write_fault := fun _ _ => None;
     fetch := fun _ => DlOk;
     readdir_fault := fun _ => None;
     ffmpeg := fun _ => None;
     rm_fault := fun _ => None |}.

Definition start : state :=
  {| dirs := []; files := []; browser_open := false; acts := [] |}.

End Rebuild.

(** ** The login session ([check_login], [is_logged_in], [login],
       [get_browser_with_session], [refreshSession]) *)

Module Session.
Import Eff Run.
#[local] Open Scope run_scope.

(** An attribute selector, the value in double quotes. *)
Definition attr (name value : string) : string :=
  "[" ++ name ++ "=" ++ Rebuild.quote ++ value ++ Rebuild.quote ++ "]".

(** The selectors of [is_logged_in], in the order they are asked. *)
Definition login_links : list string :=
  [ "a" ++ attr "href" "/i/flow/login";
    "a" ++ attr "href" "/i/flow/signup";
    "a" ++ attr "data-testid" "login";
    "a" ++ attr "data-testid" "signup" ].

Definition profile_links : list string :=
  [ "a" ++ attr "aria-label" "Profile";
    "a" ++ attr "data-testid" "AppTabBar_Profile_Link";
    "a" ++ attr "data-testid" "SideNav_NewTweet_Button";
    "a" ++ attr "href" "/compose/tweet" ].

(** The page as [is_logged_in] sees it: whether [page.$] finds an
    element for a selector, and how many posts [page.$$] finds. Either
    call can throw. *)
Record view : Type := mkView {
  query : string -> result bool;
  articles : result nat
}.

(** [await page.$(a) || await page.$(b) || ..]: the first selector that
    is found ends the chain. *)
Fixpoint any_of (v : view) (selectors : list string) : result bool :=
  match selectors with
  | [] => Ret false
  | sel :: rest =>
      match query v sel with
      | Ret true => Ret true
      | Ret false => any_of v rest
      | Throw e => Throw e
      end
  end.

(** What [is_logged_in] answers on a page. *)
Definition logged_in (v : view) : bool :=
  match any_of v login_links with
  | Throw _ => false
  | Ret true => false
  | Ret false =>
      match any_of v profile_links with
      | Throw _ => false
      | Ret true => true
      | Ret false =>
          match articles v with
          | Throw _ => false
          | Ret n => (0 <? n)%nat
          end
      end
  end.

(** What a run does, in order. *)
Inductive action : Type :=
| Launch (browser : nat)                      (* [chromium.launch] *)
| NewContext (context : nat)                  (* [browser.newContext] *)
| NewPage                                     (* [context.newPage] *)
| Goto (url : string)
| WaitBody                                    (* [waitForSelector('body')] *)
| Check (loggedIn : bool)                     (* [is_logged_in] *)
| Sleep (ms : Z)
| WriteSession (data : string)                (* [writeFileSync] of the session file *)
| CopyBackup                                  (* [copyFileSync] to [.backup] *)
| Unlink                                      (* [unlinkSync] of the session file *)
| SetInterval (ms : Z)
| ClosePage
| CloseContext (context : nat)
| CloseBrowser (browser : nat).

(** The two globals, the session file and its backup, the browsers
    that are open, and how often the counted calls were made. A browser
    and a context are named by the number of the call that made them. *)
Record state : Type := mkState {
  globalBrowser : option nat;
  globalContext : option nat;
  session : option string;
  backup : option string;
  open_browsers : list nat;
  launches : nat;                (* calls of [chromium.launch] *)
  contexts : nat;                (* calls of [newContext] *)
  pages : nat;                   (* calls of [newPage] *)
  checks : nat;                  (* calls of [is_logged_in] *)
  acts : list action
}.

(** How [chromium.launch] ends. The source also provides for an answer
    of [null]. *)
Inductive launch_result : Type :=
| Launched
| NoBrowser
| LaunchFailed (e : error).

Record env : Type := mkEnv {
  stat_fault : option error;               (* [fs.statSync] *)
  young : bool;                            (* [fileAgeDays < 7] *)
  launch : nat -> launch_result;           (* the k-th [chromium.launch] *)
  missing : error;                         (* [readFileSync] without the file *)
  parse_fault : string -> option error;    (* reading and parsing the file's text *)
  new_context : nat -> option error;       (* the k-th [newContext] *)
  new_page : nat -> option error;          (* the k-th [newPage] *)
  goto : string -> option error;
  body : option error;
  page : nat -> view;                      (* the page at the k-th [is_logged_in] *)
  storage_state : nat -> result string;    (* [storageState] after k checks, as text *)
  write_fault : option error;
  copy_fault : option error;
  unlink_fault : option error;
  close_page_fault : option error;
  close_context_fault : option error;
  close_browser_fault : option error
}.

Definition log (a : action) (s : state) : state :=
  {| globalBrowser := globalBrowser s; globalContext := globalContext s;
     session := session s; backup := backup s; open_browsers := open_browsers s;
     launches := launches s; contexts := contexts s; pages := pages s;
     checks := checks s; acts := acts s ++ [a] |}.

Definition set_globalBrowser (b : option nat) (s : state) : state :=
  {| globalBrowser := b; globalContext := globalContext s;
     session := session s; backup := backup s; open_browsers := open_browsers s;
     launches := launches s; contexts := contexts s; pages := pages s;
     checks := checks s; acts := acts s |}.

Definition set_globalContext (c : option nat) (s : state) : state :=
  {| globalBrowser := globalBrowser s; globalContext := c;
     session := session s; backup := backup s; open_browsers := open_browsers s;
     launches := launches s; contexts := contexts s; pages := pages s;
     checks := checks s; acts := acts s |}.

Definition set_session (d : option string) (s : state) : state :=
  {| globalBrowser := globalBrowser s; globalContext := globalContext s;
     session := d; backup := backup s; open_browsers := open_browsers s;
     launches := launches s; contexts := contexts s; pages := pages s;
     checks := checks s; acts := acts s |}.

Definition set_backup (d : option string) (s : state) : state :=
  {| globalBrowser := globalBrowser s; globalContext := globalContext s;
     session := session s; backup := d; open_browsers := open_browsers s;
     launches := launches s; contexts := contexts s; pages := pages s;
     checks := checks s; acts := acts s |}.

Definition set_open (bs : list nat) (s : state) : state :=
  {| globalBrowser := globalBrowser s; globalContext := globalContext s;
     session := session s; backup := backup s; open_browsers := bs;
     launches := launches s; contexts := contexts s; pages := pages s;
     checks := checks s; acts := acts s |}.

Definition count_launch (s : state) : state :=
  {| globalBrowser := globalBrowser s; globalContext := globalContext s;
     session := session s; backup := backup s; open_browsers := open_browsers s;
     launches := S (launches s); contexts := contexts s; pages := pages s;
     checks := checks s; acts := acts s |}.

Definition count_context (s : state) : state :=
  {| globalBrowser := globalBrowser s; globalContext := globalContext s;
     session := session s; backup := backup s; open_browsers := open_browsers s;
     launches := launches s; contexts := S (contexts s); pages := pages s;
     checks := checks s; acts := acts s |}.

Definition count_page (s : state) : state :=
  {| globalBrowser := globalBrowser s; globalContext := globalContext s;
     session := session s; backup := backup s; open_browsers := open_browsers s;
     launches := launches s; contexts := contexts s; pages := S (pages s);
     checks := checks s; acts := acts s |}.

Definition count_check (s : state) : state :=
  {| globalBrowser := globalBrowser s; globalContext := globalContext s;
     session := session s; backup := backup s; open_browsers := open_browsers s;
     launches := launches s; contexts := contexts s; pages := pages s;
     checks := S (checks s); acts := acts s |}.

(** What a value of [get_browser_with_session] is made of. *)
Definition handles : Type := (nat * nat)%type.

(** How the [try] block of [get_browser_with_session] is left without
    an error: with a value, or with [return login()], which is then
    outside the [try]. *)
Inductive leave : Type :=
| Return (p : handles)
| CallLogin.

Section WithEnv.
Variable E : env.

Definition act (a : action) : M state unit := fun s => (Ret tt, log a s).

(** A call that throws or goes through. *)
Definition attempt (fault : option error) (a : action) : M state unit :=
  match fault with
  | Some e => throw e
  | None => act a
  end.

Definition update (f : state -> state) : M state unit := fun s => (Ret tt, f s).

(** [fs.existsSync(SESSION_FILE_PATH)] *)
Definition existsSync : M state bool :=
  fun s => (Ret (match session s with Some _ => true | None => false end), s).

(** [check_login] *)
Definition check_login : M state bool :=
  try_catch
    (there <- existsSync ;;
     if there then
       (match stat_fault E with Some e => throw e | None => ret tt end) ;;
       ret (young E)
     else ret false)
    (fun _ => ret false).

(** [is_logged_in] *)
Definition is_logged_in : M state bool :=
  fun s => let b := logged_in (page E (checks s)) in
           (Ret b, log (Check b) (count_check s)).

(** [safeNavigate] *)
Definition safeNavigate (url : string) : M state bool :=
  try_catch
    (attempt (goto E url) (Goto url) ;;
     attempt (body E) WaitBody ;;
     ret true)
    (fun _ => ret false).

(** [chromium.launch] and the test that follows it. *)
Definition launch_browser : M state nat :=
  fun s => let k := launches s in
           match launch E k with
           | LaunchFailed e => (Throw e, count_launch s)
           | NoBrowser => (Throw (Error "Failed to launch browser"), count_launch s)
           | Launched =>
               (Ret k, log (Launch k) (set_open (open_browsers s ++ [k]) (count_launch s)))
           end.

Definition newContext : M state nat :=
  fun s => let k := contexts s in
           match new_context E k with
           | Some e => (Throw e, count_context s)
           | None => (Ret k, log (NewContext k) (count_context s))
           end.

Definition newPage : M state unit :=
  fun s => match new_page E (pages s) with
           | Some e => (Throw e, count_page s)
           | None => (Ret tt, log NewPage (count_page s))
           end.

(** [JSON.parse(fs.readFileSync(SESSION_FILE_PATH, 'utf8'))]; what is
    read goes into the context and is not followed. *)
Definition read_session : M state unit :=
  fun s => match session s with
           | None => (Throw (missing E), s)
           | Some text =>
               match parse_fault E text with
               | Some e => (Throw e, s)
               | None => (Ret tt, s)
               end
           end.

(** [context.storageState()], as the text that is written. *)
Definition storageState : M state string :=
  fun s => match storage_state E (checks s) with
           | Throw e => (Throw e, s)
           | Ret data => (Ret data, s)
           end.

Definition write_session (data : string) : M state unit :=
  fun s => match write_fault E with
           | Some e => (Throw e, s)
           | None => (Ret tt, log (WriteSession data) (set_session (Some data) s))
           end.

(** [fs.copyFileSync(SESSION_FILE_PATH, backupPath)] *)
Definition copy_backup : M state unit :=
  fun s => match copy_fault E with
           | Some e => (Throw e, s)
           | None => (Ret tt, log CopyBackup (set_backup (session s) s))
           end.

Definition unlinkSync : M state unit :=
  fun s => match unlink_fault E with
           | Some e => (Throw e, s)
           | None => (Ret tt, log Unlink (set_session None s))
           end.

Definition close_browser (browser : nat) : M state unit :=
  fun s => match close_browser_fault E with
           | Some e => (Throw e, s)
           | None =>
               (Ret tt, log (CloseBrowser browser)
                          (set_open (filter (fun b => negb (Nat.eqb b browser))
                                       (open_browsers s)) s))
           end.

(** [globalBrowser && globalContext] *)
Definition cached : M state (option handles) :=
  fun s => (Ret match globalBrowser s, globalContext s with
                | Some b, Some c => Some (b, c)
                | _, _ => None
                end, s).

(** The loop of [login], with [left] for [maxAttempts - attempts]; it
    is entered with [loggedIn] false and returns [loggedIn]. *)
Fixpoint wait_login (left : nat) : M state bool :=
  match left with
  | O => ret false
  | S left' =>
      loggedIn <- is_logged_in ;;
      if loggedIn then ret true
      else act (Sleep 5000) ;; wait_login left'
  end.

(** [login] *)
Definition login : M state handles :=
  hit <- cached ;;
  match hit with
  | Some p => ret p
  | None =>
      browser <- launch_browser ;;
      there <- existsSync ;;
      (if there then read_session else ret tt) ;;
      context <- newContext ;;
      update (set_globalBrowser (Some browser)) ;;
      update (set_globalContext (Some context)) ;;
      newPage ;;
      safeNavigate "https://x.com" ;;
      loggedIn <- is_logged_in ;;
      (if negb loggedIn then
         safeNavigate "https://x.com/i/flow/login" ;;
         loggedIn' <- wait_login 60 ;;
         if negb loggedIn' then
           close_browser browser ;;
           update (set_globalBrowser None) ;;
           update (set_globalContext None) ;;
           throw (Error "Login timeout - please try again")
         else ret tt
       else ret tt) ;;
      sessionData <- storageState ;;
      write_session sessionData ;;
      ret (browser, context)
  end.

(** [refreshSession] *)
Definition refreshSession (context : nat) : M state unit :=
  try_catch
    (newPage ;;
     safeNavigate "https://x.com" ;;
     loggedIn <- is_logged_in ;;
     (if loggedIn then
        sessionData <- storageState ;;
        there <- existsSync ;;
        (if there then copy_backup else ret tt) ;;
        write_session sessionData
      else ret tt) ;;
     attempt (close_page_fault E) ClosePage)
    (fun _ => ret tt).

(** The [try] block of [get_browser_with_session], up to its
    [return]. The timer it sets fires between later calls, not in this
    one. *)
Definition session_try (browserInstance : nat) : M state leave :=
  read_session ;;
  context <- newContext ;;
  update (set_globalContext (Some context)) ;;
  newPage ;;
  safeNavigate "https://x.com" ;;
  isStillLoggedIn <- is_logged_in ;;
  if negb isStillLoggedIn then
    there <- existsSync ;;
    (if there then unlinkSync else ret tt) ;;
    attempt (close_context_fault E) (CloseContext context) ;;
    update (set_globalContext None) ;;
    ret CallLogin
  else
    try_catch
      (fun s => match globalContext s with
                | Some c => (act (SetInterval 1800000) ;; refreshSession c) s
                | None => (Ret tt, s)
                end)
      (fun _ => ret tt) ;;
    ret (Return (browserInstance, context)).

(** Its [catch] block. *)
Definition session_catch (browserInstance : nat) : M state leave :=
  there <- existsSync ;;
  (if there then unlinkSync else ret tt) ;;
  close_browser browserInstance ;;
  update (set_globalBrowser None) ;;
  update (set_globalContext None) ;;
  ret CallLogin.

(** [get_browser_with_session] *)
Definition get_browser_with_session : M state handles :=
  hit <- cached ;;
  match hit with
  | Some p => ret p
  | None =>
      hasSession <- check_login ;;
      browserInstance <- launch_browser ;;
      update (set_globalBrowser (Some browserInstance)) ;;
      if hasSession then
        how <- try_catch (session_try browserInstance)
                         (fun _ => session_catch browserInstance) ;;
        match how with
        | Return p => ret p
        | CallLogin => login
        end
      else
        close_browser browserInstance ;;
        update (set_globalBrowser None) ;;
        login
  end.

End WithEnv.

(** Whatever way [m] ends, the state it leaves is related to the one
    it started in. *)
Definition keeps {A} (R : state -> state -> Prop) (m : M state A) : Prop :=
  forall s, R s (snd (m s)).

(** The same, for the runs of [m] that return. *)
Definition returns {A} (R : state -> state -> Prop) (m : M state A) : Prop :=
  forall s a s', m s = (Ret a, s') -> R s s'.

(** A block that ends in [throw] on every path. *)
Definition no_return {A} (m : M state A) : Prop := forall s a s', m s <> (Ret a, s').

Definition same_globals (s s' : state) : Prop :=
  globalBrowser s' = globalBrowser s /\ globalContext s' = globalContext s.

(** Nothing but the page counters and the actions differs. *)
Definition same_session (s s' : state) : Prop :=
  globalBrowser s' = globalBrowser s /\ globalContext s' = globalContext s
  /\ session s' = session s /\ backup s' = backup s
  /\ open_browsers s' = open_browsers s /\ launches s' = launches s.

(** Browser [b] is not closed, and no later launch takes its number. *)
Definition stays_open (b : nat) (s s' : state) : Prop :=
  (In b (open_browsers s) -> In b (open_browsers s'))
  /\ (launches s <= launches s')%nat.

(** The state after [k] more looks at the page and the actions [evs]. *)
Definition later (k : nat) (evs : list action) (s : state) : state :=
  {| globalBrowser := globalBrowser s; globalContext := globalContext s;
     session := session s; backup := backup s; open_browsers := open_browsers s;
     launches := launches s; contexts := contexts s; pages := pages s;
     checks := (k + checks s)%nat; acts := acts s ++ evs |}.

(** [n] turns of the loop of [login] without a login. *)
Fixpoint waiting (n : nat) : list action :=
  match n with
  | O => []
  | S n' => Check false :: Sleep 5000 :: waiting n'
  end.

(** The time spent in [setTimeout], in ms. *)
Fixpoint slept (evs : list action) : Z :=
  match evs with
  | [] => 0
  | Sleep ms :: rest => ms + slept rest
  | _ :: rest => slept rest
  end.

(** How often the page was looked at. *)
Fixpoint looks (evs : list action) : nat :=
  match evs with
  | [] => O
  | Check _ :: rest => S (looks rest)
  | _ :: rest => looks rest
  end.

(** A page on which the selectors in [found] match and no other, with
    [n] posts. *)
Definition page_with (found : list string) (n : nat) : view :=
  {| query := fun sel => Ret (Js.has sel found); articles := Ret n |}.

(** The state of a process that has just started, with the given
    session file. *)
Definition fresh (file : option string) : state :=
  {| globalBrowser := None; globalContext := None; session := file; backup := None;
     open_browsers := []; launches := 0; contexts := 0; pages := 0; checks := 0;
     acts := [] |}.

(** An environment in which every call goes through, with the pages
    [is_logged_in] sees. *)
Definition calm (page : nat -> view) (data : string) : env :=
  {| stat_fault := None; young := true; launch := fun _ => Launched;
     missing := Error "ENOENT"; parse_fault := fun _ => None;
     new_context := fun _ => None; new_page := fun _ => None;
     goto := fun _ => None; body := None; page := page;
     storage_state := fun _ => Ret data;
     write_fault := None; copy_fault := None; unlink_fault := None;
     close_page_fault := None; close_context_fault := None;
     close_browser_fault := None |}.

End Session.

(** ** Following redirects ([downloadFile] of the content downloader) *)

Module Redirect.
Import Eff World.

(** What [https.get] does with an address: it throws at once (an
    address it cannot parse), the request fails later (its [error]
    event), or an answer comes with its status code and its [location]
    header. *)
Inductive answer : Type :=
| Invalid (e : error)
| Broken (e : error)
| Answer (statusCode : nat) (location : option string).

Record net : Type := mkNet {
  get : string -> answer;
  stream_fault : string -> option error   (* the [error] event of the write stream *)
}.

(** The files that are there and the write streams opened so far. *)
Record disk : Type := mkDisk {
  files : list string;
  streams : nat
}.

Definition has_file (d : disk) (path : string) : bool := Js.has path (files d).

(** [fs.createWriteStream(outputPath)]: the file is made, or emptied. *)
Definition createWriteStream (path : string) (d : disk) : disk :=
  {| files := if has_file d path then files d else files d ++ [path];
     streams := S (streams d) |}.

Definition unlink (path : string) (d : disk) : disk :=
  {| files := filter (fun p => negb (String.eqb p path)) (files d);
     streams := streams d |}.

(** [statusCode === 301 || statusCode === 302] *)
Definition moved (statusCode : nat) : bool :=
  (statusCode =? 301)%nat || (statusCode =? 302)%nat.

(** A header that is there and not the empty string. *)
Definition truthy (location : option string) : option string :=
  match location with
  | Some next => if String.eqb next "" then None else Some next
  | None => None
  end.

(** [downloadFile]; [None] when the promise has not settled after
    [fuel] requests. *)
Fixpoint downloadFile (N : net) (fuel : nat) (url outputPath : string) (d : disk)
    : option (result unit * disk) :=
  match fuel with
  | O => None
  | S fuel' =>
      let d1 := createWriteStream outputPath d in
      match get N url with
      | Invalid e => Some (Throw e, d1)
      | Broken e => Some (Throw e, unlink outputPath d1)
      | Answer statusCode location =>
          if moved statusCode then
            match truthy location with
            | Some next => downloadFile N fuel' next outputPath d1
            | None =>
                Some (Throw (Error ("Redirect without location for URL: " ++ url)), d1)
            end
          else if negb (statusCode =? 200)%nat then
            Some (Throw (Error ("Failed to download file, status code: "
                                ++ decimal statusCode ++ ", URL: " ++ url)), d1)
          else
            match stream_fault N url with
            | Some e => Some (Throw e, unlink outputPath d1)
            | None => Some (Ret tt, d1)
            end
      end
  end.

(** The address reached from [url] after [n] redirects, if there are
    that many. *)
Fixpoint follow (N : net) (n : nat) (url : string) : option string :=
  match n with
  | O => Some url
  | S n' =>
      match get N url with
      | Answer statusCode location =>
          if moved statusCode then
            match truthy location with
            | Some next => follow N n' next
            | None => None
            end
          else None
      | _ => None
      end
  end.

(** The disk after [n] more write streams for [path]. *)
Fixpoint reopened (n : nat) (path : string) (d : disk) : disk :=
  match n with
  | O => d
  | S n' => reopened n' path (createWriteStream path d)
  end.

(** Every address in [P] redirects to an address in [P]. *)
Definition closed (N : net) (P : string -> Prop) : Prop :=
  forall url, P url ->
    exists statusCode next,
      get N url = Answer statusCode (Some next)
      /\ moved statusCode = true /\ next <> "" /\ P next.

(** Two addresses that redirect to each other, one that redirects to a
    file, and one that redirects to an address that is not there. *)
Definition round_trip : net :=
  {| get := fun url =>
              if String.eqb url "https://a.example/1" then
                Answer 302 (Some "https://b.example/1")
              else if String.eqb url "https://b.example/1" then
                Answer 301 (Some "https://a.example/1")
              else if String.eqb url "https://c.example/1" then
                Answer 302 (Some "https://c.example/2")
              else if String.eqb url "https://c.example/2" then
                Answer 200 None
              else if String.eqb url "https://d.example/1" then
                Answer 301 (Some "https://d.example/2")
              else Answer 404 None;
     stream_fault := fun _ => None |}.

Definition no_files : disk := {| files := []; streams := 0 |}.

End Redirect.

(* ================================================================== *)
(** * Part II: properties                                              *)
(* ================================================================== *)

(** From here on [++] joins lists; strings are joined with [%string]. *)
Open Scope list_scope.

Section DomFacts.
Import Dom.

(** Induction on nodes that reaches the children of an element. *)
Lemma node_rect_children (P : node -> Prop) :
  (forall t a cs, Forall P cs -> P (Elem t a cs)) ->
  (forall d, P (Text d)) ->
  forall n, P n.
Proof.
  intros HE HT.
  fix IH 1. intros [t a cs | d]; [ | apply HT ].
  apply HE. induction cs as [ | c cs IHcs ]; constructor; [ apply IH | exact IHcs ].
Qed.

Lemma subtree_shape (n : node) : subtree (shape n) = map shape (subtree n).
Proof.
  induction n as [t a cs IH | d] using node_rect_children; [ | reflexivity ].
  simpl. f_equal.
  induction IH as [ | c cs Hc _ IHcs ]; [ reflexivity | ].
  simpl. rewrite map_app, Hc, IHcs. reflexivity.
Qed.

Lemma descendants_shape (n : node) :
  descendants (shape n) = map shape (descendants n).
Proof.
  pose proof (subtree_shape n) as H.
  destruct n as [t a cs | d]; [ | reflexivity ].
  simpl in *. injection H as H. exact H.
Qed.

Lemma present_existsb (sel : node -> bool) (root : node) :
  present sel root = existsb sel (descendants root).
Proof.
  unfold present, querySelector, querySelectorAll.
  induction (descendants root) as [ | m l IH ]; [ reflexivity | ].
  simpl. destruct (sel m); [ reflexivity | exact IH ].
Qed.

Lemma getAttribute_shape name n : getAttribute name (shape n) = getAttribute name n.
Proof. destruct n; reflexivity. Qed.

Lemma has_tag_shape t n : has_tag t (shape n) = has_tag t n.
Proof. destruct n; reflexivity. Qed.

Lemma attr_is_structural name v : structural (attr_is name v).
Proof. intros n. unfold attr_is. rewrite getAttribute_shape. reflexivity. Qed.

Lemma has_attr_structural name : structural (has_attr name).
Proof. intros n. unfold has_attr. rewrite getAttribute_shape. reflexivity. Qed.

Lemma sel_plainButton_structural : structural sel_plainButton.
Proof.
  intros n. unfold sel_plainButton.
  rewrite !attr_is_structural, has_attr_structural. reflexivity.
Qed.

Lemma sel_autoSpan_structural : structural sel_autoSpan.
Proof.
  intros n. unfold sel_autoSpan.
  rewrite has_tag_shape, attr_is_structural, has_attr_structural. reflexivity.
Qed.

Lemma sel_collapsedLink_structural : structural sel_collapsedLink.
Proof.
  intros n. unfold sel_collapsedLink.
  rewrite has_tag_shape, !attr_is_structural. reflexivity.
Qed.

Lemma present_shape sel root :
  structural sel -> present sel (shape root) = present sel root.
Proof.
  intros Hs. rewrite !present_existsb, descendants_shape.
  induction (descendants root) as [ | m l IH ]; [ reflexivity | ].
  simpl. rewrite Hs, IH. reflexivity.
Qed.

Lemma present_same_shape sel a b :
  structural sel -> shape a = shape b -> present sel a = present sel b.
Proof.
  intros Hs Hab.
  rewrite <- (present_shape sel a Hs), <- (present_shape sel b Hs), Hab.
  reflexivity.
Qed.

Lemma scan_article_simple article it :
  scan_article article = Some it -> simple it = isSimpleTweet article.
Proof.
  unfold scan_article.
  destruct (querySelector sel_link article) as [l | ]; [ | discriminate ].
  destruct (getAttribute "href" l) as [h | ]; [ | discriminate ].
  destruct (Js.truthy h); [ | discriminate ].
  intros H. injection H as <-. reflexivity.
Qed.

(** C1, as the code has it: a post is simple exactly when none of the
    four markers is set (complex exactly when one is), and this is the
    flag every scanned post carries; the video, poll and card markers
    and three of the four truncation checks are element-presence checks
    that two posts of the same structure share; the truncation marker
    is those three checks or the text check, which looks for one of the
    phrases inside the text of the spans. *)
Theorem C1_classification (article : node) :
  (isSimpleTweet article = true <->
     hasVideo article = false /\ hasPoll article = false /\
     hasCard article = false /\ hasShowMore article = false)
  /\ (isSimpleTweet article = false <->
     hasVideo article = true \/ hasPoll article = true \/
     hasCard article = true \/ hasShowMore article = true)
  /\ (forall it, scan_article article = Some it -> simple it = isSimpleTweet article)
  /\ (forall other, shape other = shape article ->
        hasVideo other = hasVideo article /\
        hasPoll other = hasPoll article /\
        hasCard other = hasCard article /\
        hasShowMore_elements other = hasShowMore_elements article)
  /\ hasShowMore article = hasShowMore_elements article || hasShowMore_text article.
Proof.
  split; [ | split; [ | split; [ | split ] ] ].
  - unfold isSimpleTweet.
    destruct (hasVideo article), (hasPoll article), (hasCard article),
      (hasShowMore article); simpl; intuition congruence.
  - unfold isSimpleTweet.
    destruct (hasVideo article), (hasPoll article), (hasCard article),
      (hasShowMore article); simpl; intuition congruence.
  - apply scan_article_simple.
  - intros other Hsh. unfold hasVideo, hasPoll, hasCard, hasShowMore_elements.
    rewrite (present_same_shape sel_videoPlayer _ _ (attr_is_structural _ _) Hsh).
    rewrite (present_same_shape sel_cardPoll _ _ (attr_is_structural _ _) Hsh).
    rewrite (present_same_shape sel_cardWrapper _ _ (attr_is_structural _ _) Hsh).
    rewrite (present_same_shape _ _ _ sel_plainButton_structural Hsh).
    rewrite (present_same_shape _ _ _ sel_autoSpan_structural Hsh).
    rewrite (present_same_shape _ _ _ sel_collapsedLink_structural Hsh).
    repeat split; reflexivity.
  - unfold hasShowMore, hasShowMore_elements.
    destruct (present sel_plainButton article), (present sel_autoSpan article),
      (hasShowMore_text article), (present sel_collapsedLink article); reflexivity.
Qed.

(** C1 as stated fails: the two posts have the same elements and
    attributes, yet one is simple and the other is not, because the
    truncation marker reads the text of the span. *)
Lemma C1_text_decides_truncation :
  shape (Sample.post_with_span "hello") = shape (Sample.post_with_span "Show more")
  /\ option_map simple (scan_article (Sample.post_with_span "hello")) = Some true
  /\ option_map simple (scan_article (Sample.post_with_span "Show more")) = Some false
  /\ hasShowMore (Sample.post_with_span "hello") = false
  /\ hasShowMore (Sample.post_with_span "Show more") = true.
Proof. repeat split; reflexivity. Qed.

(** A post with a link and a plain sentence has none of the four
    markers and is simple. *)
Lemma C1_plain_post_is_simple :
  isSimpleTweet (Sample.post_with_span "hello") = true.
Proof.
  apply (proj1 (C1_classification (Sample.post_with_span "hello"))).
  repeat split; reflexivity.
Defined.

End DomFacts.

(** ** The effect monad *)

Section EffFacts.
Import Eff.

Lemma total_ret {A} (a : A) : total (ret a).
Proof. intros w. exists a, w. reflexivity. Qed.

Lemma total_emit e : total (emit e).
Proof. intros w. exists tt, (log e w). reflexivity. Qed.

Lemma total_bind {A B} (m : M A) (k : A -> M B) :
  total m -> (forall a, total (k a)) -> total (bind m k).
Proof.
  intros Hm Hk w. destruct (Hm w) as (a & w1 & E1).
  destruct (Hk a w1) as (b & w2 & E2).
  exists b, w2. unfold bind. rewrite E1. exact E2.
Qed.

Lemma total_try_catch {A} (body : M A) (handler : error -> M A) :
  (forall e, total (handler e)) -> total (try_catch body handler).
Proof.
  intros Hh w. unfold try_catch.
  destruct (body w) as [[a | e] w1].
  - exists a, w1. reflexivity.
  - apply Hh.
Qed.

Lemma bind_eq {A B} (m : M A) (k : A -> M B) w a w1 :
  m w = (Ret a, w1) -> bind m k w = k a w1.
Proof. intros E1. unfold bind. rewrite E1. reflexivity. Qed.

Lemma bind_throw {A B} (m : M A) (k : A -> M B) w e w1 :
  m w = (Throw e, w1) -> bind m k w = (Throw e, w1).
Proof. intros E1. unfold bind. rewrite E1. reflexivity. Qed.

Lemma bindF_lift_eq {A B} (m : M A) (k : A -> MF B) w a w1 :
  m w = (Ret a, w1) -> bindF (liftF m) k w = k a w1.
Proof. intros E1. unfold bindF, liftF. rewrite E1. reflexivity. Qed.

Lemma bindF_lift_throw {A B} (m : M A) (k : A -> MF B) w e w1 :
  m w = (Throw e, w1) -> bindF (liftF m) k w = Some (Throw e, w1).
Proof. intros E1. unfold bindF, liftF. rewrite E1. reflexivity. Qed.

Lemma bindF_eq {A B} (m : MF A) (k : A -> MF B) w a w1 :
  m w = Some (Ret a, w1) -> bindF m k w = k a w1.
Proof. intros E1. unfold bindF. rewrite E1. reflexivity. Qed.

Lemma bindF_none {A B} (m : MF A) (k : A -> MF B) w :
  m w = None -> bindF m k w = None.
Proof. intros E1. unfold bindF. rewrite E1. reflexivity. Qed.

End EffFacts.

Create HintDb eff.
#[local] Hint Resolve total_ret total_emit : eff.

(** ** What a computation adds to the trace *)

Section TraceFacts.
Import Eff World Downloader.

Variable P : event -> Prop.

Lemma emits_ret {A} (a : A) : emits P (ret a).
Proof. intros w. exists []. simpl. rewrite app_nil_r. auto. Qed.

Lemma emits_throw {A} (e : error) : emits P (@throw A e).
Proof. intros w. exists []. simpl. rewrite app_nil_r. auto. Qed.

Lemma emits_emit e : P e -> emits P (emit e).
Proof. intros He w. exists [e]. simpl. auto. Qed.

Lemma emits_bind {A B} (m : M A) (k : A -> M B) :
  emits P m -> (forall a, emits P (k a)) -> emits P (bind m k).
Proof.
  intros Hm Hk w. unfold bind.
  destruct (Hm w) as (evs & Ht & Hf).
  destruct (m w) as [[a | e] w1]; simpl in *.
  - destruct (Hk a w1) as (evs' & Ht' & Hf').
    exists (evs ++ evs'). rewrite Ht', Ht, app_assoc.
    split; [ reflexivity | apply Forall_app; auto ].
  - exists evs. auto.
Qed.

Lemma emits_try_catch {A} (body : M A) (handler : error -> M A) :
  emits P body -> (forall e, emits P (handler e)) -> emits P (try_catch body handler).
Proof.
  intros Hm Hk w. unfold try_catch.
  destruct (Hm w) as (evs & Ht & Hf).
  destruct (body w) as [[a | e] w1]; simpl in *.
  - exists evs. auto.
  - destruct (Hk e w1) as (evs' & Ht' & Hf').
    exists (evs ++ evs'). rewrite Ht', Ht, app_assoc.
    split; [ reflexivity | apply Forall_app; auto ].
Qed.

Variable E : env.

Lemma emits_existsSync_dir dir : emits P (existsSync_dir dir).
Proof. intros w. exists []. simpl. rewrite app_nil_r. auto. Qed.

Lemma emits_existsSync dir name : emits P (existsSync dir name).
Proof. intros w. exists []. simpl. rewrite app_nil_r. auto. Qed.

Lemma emits_readdirSync dir : emits P (readdirSync E dir).
Proof.
  intros w. exists []. unfold readdirSync.
  destruct (fs_fault E (OpReaddir dir)); simpl; rewrite app_nil_r; auto.
Qed.

Lemma emits_mkdirSync dir : P (EvMkdir dir) -> emits P (mkdirSync E dir).
Proof.
  intros Hp w. unfold mkdirSync.
  destruct (fs_fault E (OpMkdir dir)); simpl.
  - exists []. rewrite app_nil_r. auto.
  - exists [EvMkdir dir]. auto.
Qed.

Lemma emits_writeFileSync dir name :
  P (EvWrite dir name) -> emits P (writeFileSync E dir name).
Proof.
  intros Hp w. unfold writeFileSync.
  destruct (fs_fault E (OpWrite dir name)); simpl.
  - exists []. rewrite app_nil_r. auto.
  - exists [EvWrite dir name]. auto.
Qed.

Lemma emits_downloadFile url dir name :
  (forall ok, P (EvDownload url dir name ok)) -> emits P (downloadFile E url dir name).
Proof.
  intros Hp w. unfold downloadFile.
  destruct (download E url); simpl; eexists [_]; auto.
Qed.

Lemma emits_take_screenshot dir name :
  (forall ok, P (EvScreenshot dir name ok)) -> emits P (take_screenshot E dir name).
Proof.
  intros Hp w. unfold take_screenshot.
  destruct (screenshot_ok E dir name); simpl; eexists [_]; auto.
Qed.

End TraceFacts.

(** ** Where the batch is entered *)

Section BatchFacts.
Import Eff World Dom Downloader Main.

Lemma batches_app a b : batches (a ++ b) = batches a ++ batches b.
Proof. unfold batches. apply flat_map_app. Qed.

Lemma batches_none evs : Forall not_batch evs -> batches evs = [].
Proof.
  induction 1 as [ | e evs He _ IH ]; [ reflexivity | ].
  simpl. rewrite IH. destruct e; try reflexivity. destruct He.
Qed.

Ltac emits_auto :=
  repeat first
    [ match goal with H : _ |- emits _ _ => solve [ apply H ] end
    | apply emits_ret
    | apply emits_throw
    | apply emits_emit; exact I
    | apply emits_existsSync_dir
    | apply emits_existsSync
    | apply emits_readdirSync
    | apply emits_mkdirSync; exact I
    | apply emits_writeFileSync; exact I
    | apply emits_downloadFile; intros; exact I
    | apply emits_take_screenshot; intros; exact I
    | apply emits_bind; [ | intros ]
    | apply emits_try_catch; [ | intros ]
    | match goal with
      | |- emits _ (if ?b then _ else _) => destruct b
      | |- emits _ (match ?x with _ => _ end) => destruct x
      end ].

Variable E : env.

Lemma quiet_ensureOutputDir out user : emits not_batch (ensureOutputDir E out user).
Proof. unfold ensureOutputDir. emits_auto. Qed.

Lemma quiet_extractIds url : emits not_batch (extractIds url).
Proof. unfold extractIds. emits_auto. Qed.

Lemma quiet_safeNavigate url : emits not_batch (safeNavigate E url).
Proof. unfold safeNavigate. emits_auto. Qed.

Lemma quiet_download_images post dir urls : forall i,
  emits not_batch (download_images E post dir i urls).
Proof.
  induction urls as [ | u rest IH ]; intros i; simpl; emits_auto.
Qed.

Lemma quiet_processTweetContent url out :
  emits not_batch (processTweetContent E url out).
Proof.
  pose proof quiet_ensureOutputDir. pose proof quiet_extractIds.
  pose proof quiet_safeNavigate. pose proof quiet_download_images.
  unfold processTweetContent, processTweetContent_try, processTweetContent_catch,
    extract_content, extractAndSaveText, extractAndDownloadImages,
    extractAndDownloadVideos.
  emits_auto.
Qed.

Lemma quiet_batch_step url out sleepMs more s :
  emits not_batch (batch_step E url out sleepMs more s).
Proof.
  pose proof quiet_processTweetContent.
  unfold batch_step. emits_auto.
Qed.

Lemma quiet_batch_loop urls : forall out sleepMs s,
  emits not_batch (batch_loop E urls out sleepMs s).
Proof.
  pose proof quiet_batch_step.
  induction urls as [ | u rest IH ]; intros out sleepMs s; simpl; emits_auto.
Qed.

(** [processMultipleTweets] is entered once, with the list it was given. *)
Lemma processMultipleTweets_trace urls out sleepMs w :
  exists evs,
    trace (snd (processMultipleTweets E urls out sleepMs w)) = trace w ++ evs
    /\ batches evs = [urls].
Proof.
  assert (Hrest : emits not_batch
            (try_catch
               (bind (emit EvBlockRequests)
                  (fun _ => bind (batch_loop E urls out sleepMs zero_stats)
                     (fun s => emit (EvSummary (processedCount s) (skippedCount s)
                                                (rateLimitedCount s)))))
               (fun _ => ret tt))).
  { pose proof quiet_batch_loop. emits_auto. }
  destruct (Hrest (log (EvBatch urls) w)) as (evs & Ht & Hf).
  exists (EvBatch urls :: evs). split.
  - unfold processMultipleTweets, try_catch, bind, emit in *. simpl in *.
    rewrite <- app_assoc in Ht. exact Ht.
  - simpl. rewrite (batches_none _ Hf). reflexivity.
Qed.

Lemma quiet_save_images post dir urls : forall i,
  emits not_batch (save_images E post dir i urls).
Proof.
  induction urls as [ | u rest IH ]; intros i; simpl; [ emits_auto | ].
  unfold axios_get. emits_auto.
Qed.

Lemma quiet_saveSimpleContent href c out :
  emits not_batch (saveSimpleContent E href c out).
Proof.
  pose proof quiet_save_images.
  unfold saveSimpleContent. emits_auto.
Qed.

Variable limit : Z.
Variable download_content : bool.
Variable output_dir : string.

Lemma quiet_add_link it st :
  emits not_batch (add_link E download_content output_dir it st).
Proof.
  pose proof quiet_saveSimpleContent.
  unfold add_link. emits_auto.
Qed.

Lemma quiet_process_items items : forall st,
  emits not_batch (process_items E limit download_content output_dir items st).
Proof.
  pose proof quiet_add_link.
  induction items as [ | it rest IH ]; intros st; simpl; emits_auto.
Qed.

Lemma quiet_extractLinks k st :
  emits not_batch (extractLinks E limit download_content output_dir k st).
Proof.
  pose proof quiet_process_items.
  unfold extractLinks. emits_auto.
Qed.

Lemma quiet_wait_loop n : forall i, emits not_batch (wait_loop E n i).
Proof.
  induction n as [ | n IH ]; intros i; simpl; emits_auto.
Qed.

Lemma quiet_wait_for_articles : emits not_batch (wait_for_articles E).
Proof.
  pose proof quiet_wait_loop.
  unfold wait_for_articles. emits_auto.
Qed.

Variable max_id : Z.

Lemma quiet_scroll_loop fuel : forall k prev same rb st w r w',
  scroll_loop E max_id limit download_content output_dir fuel k prev same rb st w
    = Some (r, w') ->
  exists evs, trace w' = trace w ++ evs /\ Forall not_batch evs.
Proof.
  induction fuel as [ | fuel IH ]; intros k prev same rb st w r w'; simpl.
  - destruct (negb rb && ((max_id =? 0) || (foundIds st <? max_id))); [ discriminate | ].
    intros H. injection H as <- <-. exists []. rewrite app_nil_r. auto.
  - destruct (negb rb && ((max_id =? 0) || (foundIds st <? max_id))).
    2:{ intros H. injection H as <- <-. exists []. rewrite app_nil_r. auto. }
    assert (Hcyc : emits not_batch
              (bind (emit (EvScroll Viewport))
                 (fun _ => bind (emit (EvSleep 1500))
                    (fun _ => extractLinks E limit download_content output_dir k st)))).
    { pose proof quiet_extractLinks. emits_auto. }
    destruct (Hcyc w) as (evs & Ht & Hf).
    unfold bindF, liftF.
    match goal with
    | |- (let (_, _) := ?X in _) = _ -> _ =>
        destruct X as [[[n st1] | e] w1] eqn:Hx
    end; simpl in Ht.
    + simpl. destruct (n =? -1).
      * unfold ret. intros H. injection H as <- <-. exists evs. auto.
      * intros Hrec.
        assert (Hnext : exists evs', trace w' = trace w1 ++ evs' /\ Forall not_batch evs').
        { destruct (n =? prev); eapply IH; exact Hrec. }
        destruct Hnext as (evs' & Ht' & Hf').
        exists (evs ++ evs'). rewrite Ht', Ht, app_assoc.
        split; [ reflexivity | apply Forall_app; auto ].
    + intros H. injection H as <- <-. exists evs. auto.
Qed.

End BatchFacts.

(** ** Sets of strings kept as lists *)

Section SetFacts.

Lemma has_In x l : Js.has x l = true <-> In x l.
Proof.
  unfold Js.has. rewrite existsb_exists. split.
  - intros (y & Hy & Heq). apply String.eqb_eq in Heq. subst. exact Hy.
  - intros Hx. exists x. split; [ exact Hx | apply String.eqb_refl ].
Qed.

Lemma has_false_not_In x l : Js.has x l = false <-> ~ In x l.
Proof.
  rewrite <- has_In. destruct (Js.has x l); split; intros H; congruence.
Qed.

Lemma set_add_new x l : Js.has x l = false -> Main.set_add x l = l ++ [x].
Proof. intros H. unfold Main.set_add. rewrite H. reflexivity. Qed.

Lemma set_add_In x l : In x (Main.set_add x l).
Proof.
  unfold Main.set_add. destruct (Js.has x l) eqn:H.
  - apply has_In. exact H.
  - apply in_or_app. right. left. reflexivity.
Qed.

Lemma set_add_keeps x y l : In y l -> In y (Main.set_add x l).
Proof.
  intros H. unfold Main.set_add. destruct (Js.has x l); [ exact H | ].
  apply in_or_app. left. exact H.
Qed.

Lemma set_add_inv x y l : In y (Main.set_add x l) -> y = x \/ In y l.
Proof.
  unfold Main.set_add. destruct (Js.has x l); [ tauto | ].
  intros H. apply in_app_or in H. destruct H as [H | [H | []]]; auto.
Qed.

Lemma NoDup_snoc (x : string) l : NoDup l -> ~ In x l -> NoDup (l ++ [x]).
Proof.
  intros Hl Hx. induction Hl as [ | y l Hy Hl IH ]; simpl.
  - constructor; [ intros [] | constructor ].
  - constructor.
    + intros H. apply in_app_or in H. destruct H as [H | [H | []]].
      * contradiction.
      * subst. apply Hx. left. reflexivity.
    + apply IH. intros H. apply Hx. right. exact H.
Qed.

(** Prefixing every link with the site is one-to-one. *)
Lemma url_of_inj a b : Main.url_of a = Main.url_of b -> a = b.
Proof. unfold Main.url_of, Main.x_com. simpl. intros H. injection H as H. exact H. Qed.

Lemma to_urls_NoDup l : NoDup l -> NoDup (Main.to_urls l).
Proof.
  intros H. induction H as [ | x l Hx Hl IH ]; simpl; constructor; [ | exact IH ].
  intros Hin. apply in_map_iff in Hin. destruct Hin as (y & Heq & Hy).
  apply url_of_inj in Heq. subst. contradiction.
Qed.

Lemma to_urls_In h l : In (Main.url_of h) (Main.to_urls l) <-> In h l.
Proof.
  unfold Main.to_urls. rewrite in_map_iff. split.
  - intros (y & Heq & Hy). apply url_of_inj in Heq. subst. exact Hy.
  - intros H. exists h. split; [ reflexivity | exact H ].
Qed.

Lemma prefix_refl s : String.prefix s s = true.
Proof. induction s as [ | c s IH ]; simpl; [ reflexivity | ].
  destruct (ascii_dec c c); [ exact IH | congruence ]. Qed.

(** Cutting the site off the front of a link gives the path back. *)
Lemma replace_first_x_com h : Js.replace_first Main.x_com (Main.url_of h) = h.
Proof. destruct h; reflexivity. Qed.

End SetFacts.

(** ** Link discovery *)

Section MainFacts.
Import Eff World Dom Downloader Main.

Variable E : env.
Variable initial_url : string.
Variable max_id : Z.
Variable limit : Z.
Variable download_content : bool.
Variable output_dir : string.

Lemma saveSimpleContent_total href c out : total (saveSimpleContent E href c out).
Proof.
  unfold saveSimpleContent. apply total_try_catch. intros e. apply total_ret.
Qed.

Lemma add_link_spec it st w :
  exists w', add_link E download_content output_dir it st w
             = (Ret (added_state download_content it st), w').
Proof.
  unfold add_link, added_state.
  destruct (download_content && simple it).
  - destruct (saveSimpleContent_total (href it) (inline it) output_dir w)
      as (b & w1 & E1).
    exists w1. rewrite (bind_eq _ _ _ _ _ E1). reflexivity.
  - exists w. reflexivity.
Qed.

Lemma process_items_spec items : forall st w,
  exists w', process_items E limit download_content output_dir items st w
             = (Ret (scan_items limit download_content items st), w').
Proof.
  induction items as [ | it rest IH ]; intros st w; simpl.
  - exists w. reflexivity.
  - destruct (Js.truthy (href it) && negb (Js.has (href it) (uniqueLinks st))).
    + destruct (add_link_spec it st w) as (w1 & E1).
      rewrite (bind_eq _ _ _ _ _ E1).
      destruct ((0 <? limit) && (limit <=? size (added_state download_content it st))).
      * exists w1. reflexivity.
      * apply IH.
    + apply IH.
Qed.

Lemma extractLinks_spec k st w :
  exists w', extractLinks E limit download_content output_dir k st w
             = (Ret (extract_result E limit download_content k st), w').
Proof.
  unfold extractLinks, extract_result.
  destruct (process_items_spec (scan_articles (rendered E k)) st (log (EvQuery k) w))
    as (w1 & E1).
  exists w1. unfold bind at 1. unfold emit.
  rewrite (bind_eq _ _ _ _ _ E1). reflexivity.
Qed.

(** *** Invariants of the link state *)

Lemma extends_refl st : extends st st.
Proof. exists []. symmetry. apply app_nil_r. Qed.

Lemma extends_trans a b c : extends a b -> extends b c -> extends a c.
Proof.
  intros (x & Hx) (y & Hy). exists (x ++ y). rewrite Hy, Hx, app_assoc. reflexivity.
Qed.

Lemma extends_size a b : extends a b -> size a <= size b.
Proof.
  intros (x & Hx). unfold size. rewrite Hx, length_app. lia.
Qed.

Lemma sound_initial : sound initial_state.
Proof.
  split; simpl.
  - constructor.
  - intros h [].
  - reflexivity.
Qed.

Lemma added_state_links it st :
  Js.has (href it) (uniqueLinks st) = false ->
  uniqueLinks (added_state download_content it st) = uniqueLinks st ++ [href it].
Proof. intros H. simpl. apply set_add_new. exact H. Qed.

Lemma added_state_size it st :
  Js.has (href it) (uniqueLinks st) = false ->
  size (added_state download_content it st) = size st + 1.
Proof.
  intros H. unfold size. rewrite added_state_links by exact H.
  rewrite length_app. simpl. lia.
Qed.

Lemma added_state_sound it st :
  Js.has (href it) (uniqueLinks st) = false ->
  sound st -> sound (added_state download_content it st).
Proof.
  intros H [Hnd Hp Hf]. split.
  - rewrite added_state_links by exact H.
    apply NoDup_snoc; [ exact Hnd | apply has_false_not_In; exact H ].
  - intros h Hin. rewrite added_state_links by exact H.
    simpl in Hin. apply in_or_app.
    destruct (download_content && simple it).
    + apply set_add_inv in Hin. destruct Hin as [-> | Hin].
      * right. left. reflexivity.
      * left. apply Hp. exact Hin.
    + left. apply Hp. exact Hin.
  - rewrite added_state_size by exact H. simpl. lia.
Qed.

Lemma scan_items_facts items : forall st,
  let r := scan_items limit download_content items st in
  extends st (snd r)
  /\ (sound st -> sound (snd r))
  /\ (fst r = true -> 0 < limit /\ limit <= size (snd r))
  /\ (0 < limit -> size st < limit ->
      size (snd r) <= limit /\ (fst r = false -> size (snd r) < limit))
  /\ (forall h, In h (processedTweets st) -> In h (processedTweets (snd r))).
Proof.
  induction items as [ | it rest IH ]; intros st; simpl.
  - split; [ apply extends_refl | ].
    split; [ tauto | ].
    split; [ discriminate | ].
    split; [ lia | tauto ].
  - destruct (Js.truthy (href it) && negb (Js.has (href it) (uniqueLinks st))) eqn:Hnew;
      [ | apply IH ].
    apply andb_true_iff in Hnew. destruct Hnew as [_ Hnew].
    apply negb_true_iff in Hnew.
    assert (Hext : extends st (added_state download_content it st)).
    { exists [href it]. apply added_state_links. exact Hnew. }
    assert (Hkeep : forall h, In h (processedTweets st) ->
                              In h (processedTweets (added_state download_content it st))).
    { intros h Hh. simpl. destruct (download_content && simple it);
        [ apply set_add_keeps | ]; exact Hh. }
    pose proof (added_state_size it st Hnew) as Hsz.
    destruct ((0 <? limit) && (limit <=? size (added_state download_content it st)))
      eqn:Hlim; simpl.
    + apply andb_true_iff in Hlim. destruct Hlim as [H0 H1].
      apply Z.ltb_lt in H0. apply Z.leb_le in H1.
      split; [ exact Hext | ].
      split; [ intros Hs; apply added_state_sound; assumption | ].
      split; [ intros _; split; assumption | ].
      split; [ intros _ Hlt; split; [ lia | discriminate ] | exact Hkeep ].
    + specialize (IH (added_state download_content it st)).
      destruct IH as (I1 & I2 & I3 & I4 & I5).
      split; [ eapply extends_trans; eassumption | ].
      split; [ intros Hs; apply I2; apply added_state_sound; assumption | ].
      split; [ exact I3 | ].
      split; [ | intros h Hh; apply I5; apply Hkeep; exact Hh ].
      intros Hpos Hlt. apply I4; [ assumption | ].
      apply andb_false_iff in Hlim. destruct Hlim as [H | H].
      * apply Z.ltb_ge in H. lia.
      * apply Z.leb_gt in H. exact H.
Qed.

Lemma scan_items_nodup items : forall st,
  NoDup (uniqueLinks st) ->
  NoDup (uniqueLinks (snd (scan_items limit download_content items st))).
Proof.
  induction items as [ | it rest IH ]; intros st Hnd; simpl; [ exact Hnd | ].
  destruct (Js.truthy (href it) && negb (Js.has (href it) (uniqueLinks st))) eqn:Hnew;
    [ | apply IH; exact Hnd ].
  apply andb_true_iff in Hnew. destruct Hnew as [_ Hnew].
  apply negb_true_iff in Hnew.
  assert (Hnd1 : NoDup (uniqueLinks (added_state download_content it st))).
  { rewrite added_state_links by exact Hnew.
    apply NoDup_snoc; [ exact Hnd | apply has_false_not_In; exact Hnew ]. }
  destruct ((0 <? limit) && (limit <=? size (added_state download_content it st)));
    [ exact Hnd1 | apply IH; exact Hnd1 ].
Qed.

Lemma extract_result_facts k st :
  let r := extract_result E limit download_content k st in
  extends st (snd r)
  /\ (sound st -> sound (snd r))
  /\ (fst r = -1 -> 0 < limit /\ limit <= size (snd r))
  /\ (fst r <> -1 -> fst r = size (snd r))
  /\ (0 < limit -> size st < limit ->
      size (snd r) <= limit /\ (fst r <> -1 -> size (snd r) < limit))
  /\ (forall h, In h (processedTweets st) -> In h (processedTweets (snd r))).
Proof.
  unfold extract_result.
  destruct (scan_items_facts (scan_articles (rendered E k)) st)
    as (I1 & I2 & I3 & I4 & I5).
  destruct (scan_items limit download_content (scan_articles (rendered E k)) st)
    as [hit st'].
  simpl in *. unfold size in *.
  split; [ exact I1 | ]. split; [ exact I2 | ].
  destruct hit.
  - split; [ intros _; apply I3; reflexivity | ].
    split; [ congruence | ].
    split; [ | exact I5 ].
    intros Hp Hl. split; [ apply I4; assumption | congruence ].
  - split; [ lia | ].
    split; [ reflexivity | ].
    split; [ | exact I5 ].
    intros Hp Hl. destruct (I4 Hp Hl) as [Ha Hb].
    split; [ exact Ha | intros _; apply Hb; reflexivity ].
Qed.

(** One turn of the loop: scroll, settle, extract. *)
Lemma cycle_spec k st w :
  exists w',
    bind (emit (EvScroll Viewport))
         (fun _ => bind (emit (EvSleep 1500))
                        (fun _ => extractLinks E limit download_content output_dir k st)) w
    = (Ret (extract_result E limit download_content k st), w').
Proof.
  unfold bind at 1 2. unfold emit. apply extractLinks_spec.
Qed.

Opaque extract_result.

(** The loop on the page and the loop on the link state agree. *)
Lemma scroll_loop_spec fuel : forall k prev same rb st w,
  match scroll_states E max_id limit download_content fuel k prev same rb st with
  | Some (st', _) =>
      exists w', scroll_loop E max_id limit download_content output_dir
                             fuel k prev same rb st w = Some (Ret st', w')
  | None =>
      scroll_loop E max_id limit download_content output_dir
                  fuel k prev same rb st w = None
  end.
Proof.
  induction fuel as [ | fuel IH ]; intros k prev same rb st w; simpl.
  - destruct (negb rb && ((max_id =? 0) || (foundIds st <? max_id))).
    + reflexivity.
    + exists w. reflexivity.
  - destruct (negb rb && ((max_id =? 0) || (foundIds st <? max_id)));
      [ | exists w; reflexivity ].
    destruct (cycle_spec k st w) as (w1 & E1).
    unfold bindF, liftF. rewrite E1.
    destruct (fst (extract_result E limit download_content k st) =? -1).
    + exists w1. reflexivity.
    + destruct (fst (extract_result E limit download_content k st) =? prev).
      * specialize (IH (S k) prev (same + 1)
                       (if 3 <=? same + 1 then true else rb)
                       (snd (extract_result E limit download_content k st)) w1).
        destruct (scroll_states E max_id limit download_content fuel (S k) prev
                    (same + 1) (if 3 <=? same + 1 then true else rb)
                    (snd (extract_result E limit download_content k st)))
          as [[st' n] | ]; exact IH.
      * specialize (IH (S k) (fst (extract_result E limit download_content k st)) 0 rb
                       (snd (extract_result E limit download_content k st)) w1).
        destruct (scroll_states E max_id limit download_content fuel (S k)
                    (fst (extract_result E limit download_content k st)) 0 rb
                    (snd (extract_result E limit download_content k st)))
          as [[st' n] | ]; exact IH.
Qed.

(** The loop keeps the link state sound, only adds links, never takes
    a directly saved post back, and stays within a positive limit. *)
Lemma scroll_states_facts fuel : forall k prev same rb st st' n,
  scroll_states E max_id limit download_content fuel k prev same rb st = Some (st', n) ->
  extends st st'
  /\ (sound st -> sound st')
  /\ (0 < limit -> size st < limit -> size st' <= limit)
  /\ (forall h, In h (processedTweets st) -> In h (processedTweets st')).
Proof.
  induction fuel as [ | fuel IH ]; intros k prev same rb st st' n; simpl.
  - destruct (negb rb && ((max_id =? 0) || (foundIds st <? max_id))); [ discriminate | ].
    intros H. injection H as <- <-.
    split; [ apply extends_refl | ]. split; [ tauto | ]. split; [ lia | tauto ].
  - destruct (negb rb && ((max_id =? 0) || (foundIds st <? max_id))).
    2:{ intros H. injection H as <- <-.
        split; [ apply extends_refl | ]. split; [ tauto | ]. split; [ lia | tauto ]. }
    destruct (extract_result_facts k st) as (I1 & I2 & I3 & I4 & I5 & I6).
    destruct (fst (extract_result E limit download_content k st) =? -1) eqn:Hhit.
    + apply Z.eqb_eq in Hhit. intros H. injection H as <- <-.
      split; [ exact I1 | ]. split; [ exact I2 | ].
      split; [ intros Hp Hl; apply I5; assumption | exact I6 ].
    + apply Z.eqb_neq in Hhit.
      match goal with
      | |- match ?X with _ => _ end = _ -> _ =>
          destruct X as [[st2 n2] | ] eqn:Hrec; [ | discriminate ]
      end.
      intros H. injection H as <- <-.
      assert (Hgen : extends (snd (extract_result E limit download_content k st)) st2
                /\ (sound (snd (extract_result E limit download_content k st)) -> sound st2)
                /\ (0 < limit ->
                    size (snd (extract_result E limit download_content k st)) < limit ->
                    size st2 <= limit)
                /\ (forall h,
                      In h (processedTweets (snd (extract_result E limit download_content k st))) ->
                      In h (processedTweets st2))).
      { destruct (fst (extract_result E limit download_content k st) =? prev);
          eapply IH; exact Hrec. }
      destruct Hgen as (G1 & G2 & G3 & G4).
      split; [ eapply extends_trans; eassumption | ].
      split; [ tauto | ].
      split; [ | intros h Hh; apply G4, I6, Hh ].
      intros Hp Hl. apply G3; [ exact Hp | ]. apply I5; assumption.
Qed.

Transparent extract_result.

(** *** The initial wait *)

Lemma trace_log e w : trace (log e w) = trace w ++ [e].
Proof. reflexivity. Qed.

Lemma wait_for_articles_found w :
  articles_found E = true ->
  exists w', wait_for_articles E w = (Ret tt, w').
Proof.
  unfold articles_found, wait_for_articles, try_catch. simpl.
  unfold bind, emit, throw.
  destruct (wait_article E 0); [ eauto | ].
  destruct (wait_article E 1); [ eauto | ].
  destruct (wait_article E 2); [ eauto | ].
  destruct (wait_article E 3); [ eauto | ].
  destruct (wait_article E 4); [ eauto | ].
  discriminate.
Qed.

Lemma wait_for_articles_missing w :
  articles_found E = false ->
  exists w', wait_for_articles E w = (Throw no_content, w')
             /\ trace w' = trace w ++ wait_events_all_fail E
             /\ dirs w' = dirs w /\ files w' = files w.
Proof.
  unfold articles_found, wait_for_articles, try_catch. simpl.
  unfold bind, emit, throw.
  destruct (wait_article E 0); [ discriminate | ].
  destruct (wait_article E 1); [ discriminate | ].
  destruct (wait_article E 2); [ discriminate | ].
  destruct (wait_article E 3); [ discriminate | ].
  destruct (wait_article E 4); [ discriminate | ].
  intros _. eexists. split; [ reflexivity | ].
  simpl. rewrite <- !app_assoc. simpl. repeat split; reflexivity.
Qed.

Lemma articles_found_iff :
  articles_found E = false <-> forall i, (i < MAX_RETRIES)%nat -> wait_article E i = false.
Proof.
  unfold articles_found, MAX_RETRIES. simpl. split.
  - intros H i Hi.
    repeat (apply orb_false_iff in H; destruct H as [? H]).
    do 5 (destruct i as [ | i ]; [ assumption | ]). lia.
  - intros H. rewrite !H by lia. reflexivity.
Qed.

(** *** The batch never throws *)

Lemma batch_step_total url out sleepMs more s :
  total (batch_step E url out sleepMs more s).
Proof.
  unfold batch_step. apply total_try_catch. intros e.
  apply total_bind; [ destruct more; auto with eff | intros; apply total_ret ].
Qed.

Lemma batch_loop_total urls : forall out sleepMs s,
  total (batch_loop E urls out sleepMs s).
Proof.
  induction urls as [ | url rest IH ]; intros out sleepMs s; simpl.
  - apply total_ret.
  - apply total_bind; [ apply batch_step_total | intros s'; apply IH ].
Qed.

Lemma processMultipleTweets_total urls out sleepMs :
  total (processMultipleTweets E urls out sleepMs).
Proof.
  unfold processMultipleTweets. apply total_try_catch.
  intros e. apply total_ret.
Qed.

Lemma download_phase_total finalLinks st :
  total (download_phase E initial_url download_content output_dir finalLinks st).
Proof.
  unfold download_phase.
  destruct (download_content && (0 <? length finalLinks)%nat); [ | apply total_ret ].
  apply total_bind.
  - destruct (0 <? length (remaining_links finalLinks st))%nat;
      [ apply processMultipleTweets_total | apply total_ret ].
  - intros _. apply total_bind; [ | intros; apply total_ret ].
    unfold safeNavigate. apply total_bind; [ apply total_emit | intros; apply total_ret ].
Qed.

(** *** What [find_links] returns *)

Lemma find_links_returns fuel w :
  match returned_links E max_id limit download_content fuel with
  | Some r =>
      exists w', find_links E initial_url max_id limit download_content output_dir
                            fuel w = Some (r, w')
  | None =>
      find_links E initial_url max_id limit download_content output_dir fuel w = None
  end.
Proof.
  unfold returned_links, find_links, finallyF.
  assert (Enav : safeNavigate E initial_url w
                 = (Ret (nav_ok E initial_url),
                    log (EvGoto initial_url (nav_ok E initial_url)) w))
    by reflexivity.
  rewrite (bindF_lift_eq _ _ _ _ _ Enav).
  set (w0 := log (EvGoto initial_url (nav_ok E initial_url)) w).
  destruct (articles_found E) eqn:Hfound.
  - destruct (wait_for_articles_found w0 Hfound) as (w1 & E1).
    rewrite (bindF_lift_eq _ _ _ _ _ E1).
    destruct (extractLinks_spec 0 initial_state w1) as (w2 & E2).
    rewrite (bindF_lift_eq _ _ _ _ _ E2).
    destruct (fst (extract_result E limit download_content 0 initial_state) =? -1).
    + eexists. reflexivity.
    + pose proof (scroll_loop_spec fuel 1%nat 0 0 false
                    (snd (extract_result E limit download_content 0 initial_state)) w2)
        as Hloop.
      destruct (scroll_states E max_id limit download_content fuel 1 0 0 false
                  (snd (extract_result E limit download_content 0 initial_state)))
        as [[st n] | ].
      * destruct Hloop as (w3 & E3).
        rewrite (bindF_eq _ _ _ _ _ E3).
        destruct (download_phase_total
                    (apply_limit limit (to_urls (uniqueLinks st))) st w3)
          as ([] & w4 & E4).
        rewrite (bindF_lift_eq _ _ _ _ _ E4).
        eexists. reflexivity.
      * rewrite (bindF_none _ _ _ Hloop). reflexivity.
  - destruct (wait_for_articles_missing w0 Hfound) as (w1 & E1 & _).
    rewrite (bindF_lift_throw _ _ _ _ _ E1).
    eexists. reflexivity.
Qed.

(** *** Where a run enters the batch *)

Lemma download_phase_trace finalLinks st w :
  exists evs,
    trace (snd (download_phase E initial_url download_content output_dir finalLinks st w))
    = trace w ++ evs
    /\ batches evs
       = if download_content && (0 <? length finalLinks)%nat
            && (0 <? length (remaining_links finalLinks st))%nat
         then [remaining_links finalLinks st] else [].
Proof.
  unfold download_phase.
  destruct (download_content && (0 <? length finalLinks)%nat); simpl.
  2:{ exists []. rewrite app_nil_r. auto. }
  destruct (0 <? length (remaining_links finalLinks st))%nat.
  - destruct (processMultipleTweets_trace E (remaining_links finalLinks st)
                output_dir 5000 w) as (evs & Ht & Hb).
    destruct (processMultipleTweets_total (remaining_links finalLinks st)
                output_dir 5000 w) as ([] & w1 & E1).
    rewrite E1 in Ht. simpl in Ht.
    rewrite (bind_eq _ _ _ _ _ E1).
    exists (evs ++ [EvGoto initial_url (nav_ok E initial_url)]).
    unfold safeNavigate, bind, emit, ret. simpl.
    rewrite Ht, app_assoc, batches_app, Hb. split; reflexivity.
  - exists [EvGoto initial_url (nav_ok E initial_url)].
    unfold safeNavigate, bind, emit, ret. simpl. split; reflexivity.
Qed.

(** A run, its result and the batches it enters. *)
Lemma find_links_run fuel w :
  match returned_links E max_id limit download_content fuel with
  | Some r =>
      exists w' evs,
        find_links E initial_url max_id limit download_content output_dir fuel w
          = Some (r, w')
        /\ trace w' = trace w ++ evs
        /\ batches evs
           = match r with
             | Ret _ => handed_over E max_id limit download_content fuel
             | Throw _ => []
             end
  | None =>
      find_links E initial_url max_id limit download_content output_dir fuel w = None
  end.
Proof.
  unfold returned_links, handed_over, final_state, find_links, finallyF.
  assert (Enav : safeNavigate E initial_url w
                 = (Ret (nav_ok E initial_url),
                    log (EvGoto initial_url (nav_ok E initial_url)) w))
    by reflexivity.
  rewrite (bindF_lift_eq _ _ _ _ _ Enav).
  set (w0 := log (EvGoto initial_url (nav_ok E initial_url)) w).
  destruct (quiet_wait_for_articles E w0) as (ev1 & T1 & Q1).
  apply batches_none in Q1.
  destruct (articles_found E) eqn:Hfound.
  - destruct (wait_for_articles_found w0 Hfound) as (w1 & E1).
    rewrite E1 in T1. simpl in T1.
    rewrite (bindF_lift_eq _ _ _ _ _ E1).
    destruct (extractLinks_spec 0 initial_state w1) as (w2 & E2).
    destruct (quiet_extractLinks E limit download_content output_dir 0 initial_state w1)
      as (ev2 & T2 & Q2).
    apply batches_none in Q2.
    rewrite E2 in T2. simpl in T2.
    rewrite (bindF_lift_eq _ _ _ _ _ E2).
    destruct (fst (extract_result E limit download_content 0 initial_state) =? -1).
    + exists (log EvClose w2), ([EvGoto initial_url (nav_ok E initial_url)]
                                 ++ ev1 ++ ev2 ++ [EvClose]).
      split; [ reflexivity | ]. split.
      * simpl. rewrite T2, T1. unfold w0. simpl. rewrite <- !app_assoc. reflexivity.
      * rewrite !batches_app, Q1, Q2. reflexivity.
    + pose proof (scroll_loop_spec fuel 1%nat 0 0 false
                    (snd (extract_result E limit download_content 0 initial_state)) w2)
        as Hloop.
      destruct (scroll_states E max_id limit download_content fuel 1 0 0 false
                  (snd (extract_result E limit download_content 0 initial_state)))
        as [[st n] | ].
      * destruct Hloop as (w3 & E3).
        destruct (quiet_scroll_loop E limit download_content output_dir max_id
                    _ _ _ _ _ _ _ _ _ E3) as (ev3 & T3 & Q3).
        apply batches_none in Q3.
        rewrite (bindF_eq _ _ _ _ _ E3).
        destruct (download_phase_total
                    (apply_limit limit (to_urls (uniqueLinks st))) st w3)
          as ([] & w4 & E4).
        destruct (download_phase_trace
                    (apply_limit limit (to_urls (uniqueLinks st))) st w3)
          as (ev4 & T4 & Q4).
        rewrite E4 in T4. simpl in T4.
        rewrite (bindF_lift_eq _ _ _ _ _ E4).
        exists (log EvClose w4), ([EvGoto initial_url (nav_ok E initial_url)]
                                   ++ ev1 ++ ev2 ++ ev3 ++ ev4 ++ [EvClose]).
        split; [ reflexivity | ]. split.
        -- simpl. rewrite T4, T3, T2, T1. unfold w0. simpl.
           rewrite <- !app_assoc. reflexivity.
        -- rewrite !batches_app, Q1, Q2, Q3, Q4. simpl. rewrite app_nil_r. reflexivity.
      * rewrite (bindF_none _ _ _ Hloop). reflexivity.
  - destruct (wait_for_articles_missing w0 Hfound) as (w1 & E1 & _).
    rewrite E1 in T1. simpl in T1.
    rewrite (bindF_lift_throw _ _ _ _ _ E1).
    exists (log EvClose w1), ([EvGoto initial_url (nav_ok E initial_url)]
                               ++ ev1 ++ [EvClose]).
    split; [ reflexivity | ]. split.
    + simpl. rewrite T1. unfold w0. simpl. rewrite <- !app_assoc. reflexivity.
    + rewrite !batches_app, Q1. reflexivity.
Qed.

(** *** The returned list *)

Lemma NoDup_firstn (n : nat) (l : list string) : NoDup l -> NoDup (firstn n l).
Proof.
  intros H. rewrite <- (firstn_skipn n l) in H.
  apply NoDup_app_remove_r in H. exact H.
Qed.

Lemma apply_limit_facts l :
  (NoDup l -> NoDup (apply_limit limit l))
  /\ (0 < limit -> Z.of_nat (length (apply_limit limit l)) <= limit).
Proof.
  unfold apply_limit.
  destruct ((0 <? limit) && (limit <? Z.of_nat (length l))) eqn:Hc.
  - split; [ apply NoDup_firstn | ].
    intros Hp. pose proof (firstn_le_length (Z.to_nat limit) l). lia.
  - split; [ tauto | ].
    intros Hp. apply andb_false_iff in Hc. destruct Hc as [Hc | Hc].
    + apply Z.ltb_ge in Hc. lia.
    + apply Z.ltb_ge in Hc. exact Hc.
Qed.

Lemma to_urls_length l : length (to_urls l) = length l.
Proof. apply length_map. Qed.

Lemma returned_links_facts fuel r :
  returned_links E max_id limit download_content fuel = Some (Ret r) ->
  NoDup r /\ (0 < limit -> Z.of_nat (length r) <= limit).
Proof.
  unfold returned_links.
  destruct (articles_found E); [ | discriminate ].
  destruct (extract_result_facts 0 initial_state) as (I1 & I2 & I3 & I4 & I5 & I6).
  specialize (I2 sound_initial).
  destruct (fst (extract_result E limit download_content 0 initial_state) =? -1) eqn:Hhit.
  - intros H. injection H as <-. split.
    + apply to_urls_NoDup, I2.
    + intros Hp. rewrite to_urls_length. apply I5; [ exact Hp | exact Hp ].
  - apply Z.eqb_neq in Hhit.
    destruct (scroll_states E max_id limit download_content fuel 1 0 0 false
                (snd (extract_result E limit download_content 0 initial_state)))
      as [[st n] | ] eqn:Hloop; [ | discriminate ].
    intros H. injection H as <-.
    destruct (scroll_states_facts _ _ _ _ _ _ _ _ Hloop) as (G1 & G2 & G3 & G4).
    destruct (apply_limit_facts (to_urls (uniqueLinks st))) as [A1 A2].
    split.
    + apply A1, to_urls_NoDup, G2, I2.
    + exact A2.
Qed.

(** C2: the list [find_links] returns has no URL twice and, under a
    limit that is set (a count other than 0), no more entries than the
    limit; and every extract cycle, from any link state, leaves the
    links it found in place and adds the new ones behind them. *)
Theorem C2_links_unique_growing_bounded (fuel : nat) (w : world)
    (r : list string) (w' : world) :
  find_links E initial_url max_id limit download_content output_dir fuel w
    = Some (Ret r, w') ->
  NoDup r
  /\ (0 <= limit -> limit <> 0 -> Z.of_nat (length r) <= limit)
  /\ (forall k st w0,
        exists n st' w1 added,
          extractLinks E limit download_content output_dir k st w0 = (Ret (n, st'), w1)
          /\ uniqueLinks st' = uniqueLinks st ++ added
          /\ (NoDup (uniqueLinks st) -> NoDup (uniqueLinks st'))).
Proof.
  intros Hrun.
  pose proof (find_links_returns fuel w) as Hret.
  destruct (returned_links E max_id limit download_content fuel) as [r0 | ] eqn:Hval.
  2:{ rewrite Hrun in Hret. discriminate. }
  destruct Hret as (w1 & Hret). rewrite Hrun in Hret. injection Hret as <- _.
  destruct (returned_links_facts fuel r Hval) as [Hnd Hlen].
  split; [ exact Hnd | ]. split; [ intros; apply Hlen; lia | ].
  intros k st w0.
  destruct (extractLinks_spec k st w0) as (w2 & E2).
  pose proof (scan_items_facts (scan_articles (rendered E k)) st) as Hfacts.
  unfold extract_result in E2.
  destruct (scan_items limit download_content (scan_articles (rendered E k)) st)
    as [hit st'] eqn:Hscan.
  simpl in *. destruct Hfacts as ((added & Hadd) & _).
  exists (if hit then -1 else size st'), st', w2, added.
  split; [ exact E2 | ]. split; [ exact Hadd | ].
  intros Hnd0.
  pose proof (scan_items_nodup (scan_articles (rendered E k)) st Hnd0) as H.
  rewrite Hscan in H. exact H.
Qed.

(** *** The end of a run *)

Lemma final_state_facts fuel st looped :
  final_state E max_id limit download_content fuel = Some (st, looped) ->
  sound st /\ (0 < limit -> size st <= limit).
Proof.
  unfold final_state.
  destruct (extract_result_facts 0 initial_state) as (I1 & I2 & I3 & I4 & I5 & I6).
  specialize (I2 sound_initial).
  destruct (fst (extract_result E limit download_content 0 initial_state) =? -1) eqn:Hhit.
  - intros H. injection H as <- <-. split; [ exact I2 | ].
    intros Hp. apply I5; exact Hp.
  - apply Z.eqb_neq in Hhit.
    destruct (scroll_states E max_id limit download_content fuel 1 0 0 false
                (snd (extract_result E limit download_content 0 initial_state)))
      as [[st' n] | ] eqn:Hloop; [ | discriminate ].
    intros H. injection H as <- <-.
    destruct (scroll_states_facts _ _ _ _ _ _ _ _ Hloop) as (G1 & G2 & G3 & G4).
    split; [ apply G2, I2 | ].
    intros Hp. apply G3; [ exact Hp | ]. apply I5; [ exact Hp | exact Hp | exact Hhit ].
Qed.

Lemma apply_limit_within l :
  (0 < limit -> Z.of_nat (length l) <= limit) -> apply_limit limit l = l.
Proof.
  intros H. unfold apply_limit.
  destruct ((0 <? limit) && (limit <? Z.of_nat (length l))) eqn:Hc; [ | reflexivity ].
  apply andb_true_iff in Hc. destruct Hc as [H0 H1].
  apply Z.ltb_lt in H0. apply Z.ltb_lt in H1. specialize (H H0). lia.
Qed.

(** Every link of the final state is returned: the [slice] never has
    anything to cut. *)
Lemma final_state_returned fuel st looped :
  articles_found E = true ->
  final_state E max_id limit download_content fuel = Some (st, looped) ->
  returned_links E max_id limit download_content fuel
  = Some (Ret (to_urls (uniqueLinks st))).
Proof.
  intros Hfound Hfin.
  destruct (final_state_facts _ _ _ Hfin) as [_ Hsize].
  revert Hfin. unfold final_state, returned_links. rewrite Hfound.
  destruct (fst (extract_result E limit download_content 0 initial_state) =? -1).
  - intros H. injection H as <- <-. reflexivity.
  - destruct (scroll_states E max_id limit download_content fuel 1 0 0 false
                (snd (extract_result E limit download_content 0 initial_state)))
      as [[st' n] | ]; [ | discriminate ].
    intros H. injection H as <- <-.
    rewrite apply_limit_within; [ reflexivity | ].
    rewrite to_urls_length. exact Hsize.
Qed.

Lemma remaining_links_excludes finalLinks st h :
  In h (processedTweets st) -> ~ In (url_of h) (remaining_links finalLinks st).
Proof.
  intros Hh Hin. unfold remaining_links in Hin.
  apply filter_In in Hin. destruct Hin as [_ Hf].
  rewrite replace_first_x_com in Hf.
  apply negb_true_iff in Hf. apply has_false_not_In in Hf. contradiction.
Qed.

Lemma remaining_links_includes finalLinks st h :
  In (url_of h) finalLinks -> ~ In h (processedTweets st) ->
  In (url_of h) (remaining_links finalLinks st).
Proof.
  intros Hin Hh. unfold remaining_links. apply filter_In. split; [ exact Hin | ].
  rewrite replace_first_x_com. apply negb_true_iff, has_false_not_In. exact Hh.
Qed.

Lemma handed_over_excludes fuel st looped urls h :
  final_state E max_id limit download_content fuel = Some (st, looped) ->
  In urls (handed_over E max_id limit download_content fuel) ->
  In h (processedTweets st) -> ~ In (url_of h) urls.
Proof.
  intros Hfin Hin Hh. unfold handed_over in Hin. rewrite Hfin in Hin.
  destruct looped; [ | destruct Hin ].
  destruct (download_content
            && (0 <? length (apply_limit limit (to_urls (uniqueLinks st))))%nat
            && (0 <? length (remaining_links
                               (apply_limit limit (to_urls (uniqueLinks st))) st))%nat);
    [ | destruct Hin ].
  destruct Hin as [<- | []]. apply remaining_links_excludes. exact Hh.
Qed.

End MainFacts.

(** C10: with download enabled, a new post that is classified simple
    is put into the processed set whatever [saveSimpleContent] does (it
    never throws, and its answer is not looked at); the mark survives
    every later extraction ([extract_result] and [scroll_states] are
    what [extractLinks] and the loop do to the link state); at the end
    of a run each marked post is in the returned list and in none of
    the lists handed to the batch; and there are runs, one with a post
    that has nothing to save and one with a failing image request, that
    return the post and leave no file behind. *)
Theorem C10_simple_posts_marked_unconditionally
    (E : World.env) (initial_url : string) (max_id limit : Z) (output_dir : string) :
  (forall href c out, Eff.total (Main.saveSimpleContent E href c out))
  /\ (forall it st w,
        Dom.simple it = true ->
        exists st' w',
          Main.add_link E true output_dir it st w = (Eff.Ret st', w')
          /\ In (Dom.href it) (Main.processedTweets st')
          /\ In (Dom.href it) (Main.uniqueLinks st'))
  /\ (forall k st w,
        exists w',
          Main.extractLinks E limit true output_dir k st w
          = (Eff.Ret (Main.extract_result E limit true k st), w'))
  /\ (forall k st h,
        In h (Main.processedTweets st) ->
        In h (Main.processedTweets (snd (Main.extract_result E limit true k st))))
  /\ (forall fuel k prev same rb st w,
        match Main.scroll_states E max_id limit true fuel k prev same rb st with
        | Some (st', _) =>
            exists w',
              Main.scroll_loop E max_id limit true output_dir fuel k prev same rb st w
              = Some (Eff.Ret st', w')
        | None =>
            Main.scroll_loop E max_id limit true output_dir fuel k prev same rb st w
            = None
        end)
  /\ (forall fuel st looped w,
        Main.articles_found E = true ->
        Main.final_state E max_id limit true fuel = Some (st, looped) ->
        exists w' evs,
          Main.find_links E initial_url max_id limit true output_dir fuel w
            = Some (Eff.Ret (Main.to_urls (Main.uniqueLinks st)), w')
          /\ Eff.trace w' = Eff.trace w ++ evs
          /\ forall h,
               In h (Main.processedTweets st) ->
               In (Main.url_of h) (Main.to_urls (Main.uniqueLinks st))
               /\ forall urls, In urls (Eff.batches evs) -> ~ In (Main.url_of h) urls)
  /\ (exists w',
        Main.find_links (Sample.calm (fun _ => Sample.bare_post)) Sample.profile
                        0 0 true "out" 4 Eff.empty_world
          = Some (Eff.Ret ["https://x.com/u/status/3"%string], w')
        /\ Eff.files w' = [] /\ Eff.batches (Eff.trace w') = [])
  /\ (exists w',
        Main.find_links (Sample.offline (fun _ => Sample.picture_post)) Sample.profile
                        0 0 true "out" 4 Eff.empty_world
          = Some (Eff.Ret ["https://x.com/u/status/4"%string], w')
        /\ Eff.files w' = [] /\ Eff.batches (Eff.trace w') = []).
Proof.
  split; [ intros; apply saveSimpleContent_total | ].
  split.
  { intros it st w Hs.
    destruct (add_link_spec E true output_dir it st w) as (w' & Hw).
    exists (Main.added_state true it st), w'.
    split; [ exact Hw | ]. simpl. rewrite Hs. simpl.
    split; apply set_add_In. }
  split; [ intros k st w; apply extractLinks_spec | ].
  split.
  { intros k st h Hh.
    apply (extract_result_facts E limit true k st). exact Hh. }
  split; [ intros fuel k prev same rb st w; apply scroll_loop_spec | ].
  split.
  { intros fuel st looped w Hfound Hfin.
    pose proof (find_links_run E initial_url max_id limit true output_dir fuel w) as Hrun.
    rewrite (final_state_returned E max_id limit true fuel st looped Hfound Hfin) in Hrun.
    destruct Hrun as (w' & evs & Hrun & Ht & Hb).
    exists w', evs. split; [ exact Hrun | ]. split; [ exact Ht | ].
    intros h Hh. split.
    - apply to_urls_In.
      apply (final_state_facts E max_id limit true fuel st looped Hfin). exact Hh.
    - intros urls Hin. rewrite Hb in Hin.
      eapply handed_over_excludes; eassumption. }
  split; eexists; (split; [ vm_compute; reflexivity | split; reflexivity ]).
Qed.

(** A simple post whose picture cannot be fetched is marked all the
    same. *)
Lemma C10_marked_although_the_save_failed :
  exists st' w',
    Main.add_link (Sample.offline (fun _ => Sample.picture_post)) true "out"
      {| Dom.href := "/u/status/4"; Dom.simple := true;
         Dom.inline := {| Dom.text := "";
                          Dom.imageUrls := ["https://pbs.twimg.com/media/a.jpg"%string] |} |}
      Main.initial_state Eff.empty_world
    = (Eff.Ret st', w')
    /\ In "/u/status/4"%string (Main.processedTweets st')
    /\ In "/u/status/4"%string (Main.uniqueLinks st').
Proof.
  apply (proj1 (proj2
           (C10_simple_posts_marked_unconditionally
              (Sample.offline (fun _ => Sample.picture_post)) Sample.profile 0 0 "out"))
           {| Dom.href := "/u/status/4"; Dom.simple := true;
              Dom.inline := {| Dom.text := "";
                               Dom.imageUrls := ["https://pbs.twimg.com/media/a.jpg"%string] |} |}).
  reflexivity.
Defined.

(** ** The batch *)

Section BatchCounts.
Import Eff World Downloader.

Variable E : env.

Lemma batch_step_counts url out sleepMs more s w :
  exists s' w',
    batch_step E url out sleepMs more s w = (Ret s', w')
    /\ counted s' = counted s + 1.
Proof.
  unfold batch_step, try_catch, bind.
  destruct (processTweetContent E url out w) as [[b | e] w1].
  - destruct b, more; simpl; eexists; eexists;
      (split; [ reflexivity | unfold counted; simpl; lia ]).
  - destruct (is429 e), more; simpl; eexists; eexists;
      (split; [ reflexivity | unfold counted; simpl; lia ]).
Qed.

Lemma batch_loop_counts urls : forall out sleepMs s w,
  exists s' w',
    batch_loop E urls out sleepMs s w = (Ret s', w')
    /\ counted s' = counted s + Z.of_nat (length urls).
Proof.
  induction urls as [ | url rest IH ]; intros out sleepMs s w.
  - exists s, w. split; [ reflexivity | simpl; lia ].
  - destruct (batch_step_counts url out sleepMs (negb (is_nil rest)) s w)
      as (s1 & w1 & E1 & C1).
    destruct (IH out sleepMs s1 w1) as (s2 & w2 & E2 & C2).
    exists s2, w2. split.
    + simpl. rewrite (bind_eq _ _ _ _ _ E1). exact E2.
    + rewrite C2, C1. simpl length. lia.
Qed.

End BatchCounts.


(** A batch in which one post makes [processTweetContent] itself throw
    (the URL is malformed and holds the digits 429): the next post is
    still processed. *)
Example batch_survives_a_throwing_post :
  exists w1 w2,
    Downloader.processTweetContent (Sample.calm (fun _ => []))
      "https://x.com/u429/statuses/1" "out" Eff.empty_world
    = (Eff.Throw (Eff.Error "Invalid tweet URL format: https://x.com/u429/statuses/1"), w1)
    /\ Downloader.batch_loop (Sample.calm (fun _ => []))
         ["https://x.com/u429/statuses/1"; "https://x.com/u/status/2"]%string
         "out" 5000 Downloader.zero_stats Eff.empty_world
       = (Eff.Ret {| Downloader.processedCount := 1;
                     Downloader.skippedCount := 0;
                     Downloader.rateLimitedCount := 1 |}, w2)
    /\ Eff.files w2 = [("out/u", "2.txt")]%string.
Proof.
  eexists. eexists. split; [ vm_compute; reflexivity | ].
  split; [ vm_compute; reflexivity | reflexivity ].
Qed.


(** ** The resume test *)

Section DiskFacts.
Import Eff World Downloader.

Lemma eqb_append_cancel p a b :
  String.eqb (p ++ a)%string (p ++ b)%string = String.eqb a b.
Proof.
  induction p as [ | c p IH ]; simpl; [ reflexivity | ].
  rewrite Ascii.eqb_refl. exact IH.
Qed.

Lemma path_eqb_refl p : path_eqb p p = true.
Proof. unfold path_eqb. rewrite !String.eqb_refl. reflexivity. Qed.

Lemma file_exists_log e w dir name : file_exists (log e w) dir name = file_exists w dir name.
Proof. reflexivity. Qed.

Lemma file_exists_add_dir d w dir name :
  file_exists (add_dir d w) dir name = file_exists w dir name.
Proof. reflexivity. Qed.

Lemma file_exists_add_file_same w dir name : file_exists (add_file dir name w) dir name = true.
Proof.
  unfold add_file. destruct (file_exists w dir name) eqn:H.
  - unfold file_exists in *. simpl. exact H.
  - unfold file_exists. simpl.
    rewrite existsb_app. simpl. rewrite path_eqb_refl. apply orb_true_r.
Qed.

Lemma file_exists_add_file_keeps w d n dir name :
  file_exists w dir name = true -> file_exists (add_file d n w) dir name = true.
Proof.
  intros H. unfold add_file. destruct (file_exists w d n).
  - unfold file_exists in *. simpl. exact H.
  - unfold file_exists in *. simpl. rewrite existsb_app, H. reflexivity.
Qed.

Lemma file_exists_remove_other w d n dir name :
  path_eqb (dir, name) (d, n) = false ->
  file_exists w dir name = true -> file_exists (remove_file d n w) dir name = true.
Proof.
  intros Hne H. unfold remove_file, file_exists in *. simpl.
  apply existsb_exists in H. destruct H as (q & Hq & Heq).
  apply existsb_exists. exists q. split; [ | exact Heq ].
  apply filter_In. split; [ exact Hq | ].
  apply negb_true_iff. destruct (path_eqb (d, n) q) eqn:Hdq; [ | reflexivity ].
  exfalso. unfold path_eqb in *. simpl in *.
  apply andb_true_iff in Hdq. destruct Hdq as [H1 H2].
  apply andb_true_iff in Heq. destruct Heq as [H3 H4].
  apply String.eqb_eq in H1, H2, H3, H4. subst.
  rewrite !String.eqb_refl in Hne. discriminate.
Qed.

Lemma dir_exists_add_dir_same w d : dir_exists (add_dir d w) d = true.
Proof.
  unfold add_dir. destruct (dir_exists w d) eqn:H.
  - unfold dir_exists in *. simpl. exact H.
  - unfold dir_exists, Js.has. simpl.
    rewrite existsb_app. simpl. rewrite String.eqb_refl. apply orb_true_r.
Qed.

Lemma dir_exists_add_dir_keeps w d d' :
  dir_exists w d' = true -> dir_exists (add_dir d w) d' = true.
Proof.
  intros H. unfold add_dir. destruct (dir_exists w d).
  - unfold dir_exists in *. simpl. exact H.
  - unfold dir_exists, Js.has in *. simpl. rewrite existsb_app, H. reflexivity.
Qed.

End DiskFacts.

Section ResumeFacts.
Import Eff World Downloader.

Variable E : env.
Variable out : string.
Variable ud : string.     (* the directory of the user *)
Variable post : string.   (* the id of the post *)

#[local] Abbreviation settled := (Downloader.settled out ud post).
#[local] Abbreviation keeps := (Downloader.keeps out ud post).

Lemma keeps_ret {A} (a : A) : keeps (ret a).
Proof. intros w H. exact H. Qed.

Lemma keeps_throw {A} e : keeps (@throw A e).
Proof. intros w H. exact H. Qed.

Lemma keeps_emit e : keeps (emit e).
Proof. intros w H. exact H. Qed.

Lemma keeps_bind {A B} (m : M A) (k : A -> M B) :
  keeps m -> (forall a, keeps (k a)) -> keeps (bind m k).
Proof.
  intros Hm Hk w Hw. unfold bind. specialize (Hm w Hw).
  destruct (m w) as [[a | e] w1]; simpl in *; [ apply Hk; exact Hm | exact Hm ].
Qed.

Lemma keeps_try_catch {A} (body : M A) (handler : error -> M A) :
  keeps body -> (forall e, keeps (handler e)) -> keeps (try_catch body handler).
Proof.
  intros Hm Hk w Hw. unfold try_catch. specialize (Hm w Hw).
  destruct (body w) as [[a | e] w1]; simpl in *; [ exact Hm | apply Hk; exact Hm ].
Qed.

Lemma keeps_writeFileSync dir name : keeps (writeFileSync E dir name).
Proof.
  intros w (H1 & H2 & H3). unfold writeFileSync.
  destruct (fs_fault E (OpWrite dir name)); simpl; [ repeat split; assumption | ].
  repeat split; try assumption.
  rewrite file_exists_log. apply file_exists_add_file_keeps. exact H3.
Qed.

Lemma keeps_take_screenshot dir name : keeps (take_screenshot E dir name).
Proof.
  intros w (H1 & H2 & H3). unfold take_screenshot.
  destruct (screenshot_ok E dir name); simpl; [ | repeat split; assumption ].
  repeat split; try assumption.
  rewrite file_exists_log. apply file_exists_add_file_keeps. exact H3.
Qed.

Lemma keeps_downloadFile url dir name :
  path_eqb (ud, (post ++ ".txt")%string) (dir, name) = false ->
  keeps (downloadFile E url dir name).
Proof.
  intros Hne w (H1 & H2 & H3). unfold downloadFile.
  destruct (download E url); simpl; repeat split; try assumption;
    rewrite file_exists_log.
  - apply file_exists_add_file_keeps. exact H3.
  - apply file_exists_add_file_keeps. exact H3.
  - apply file_exists_remove_other; assumption.
Qed.

Lemma text_is_no_image rest :
  path_eqb (ud, (post ++ ".txt")%string) (ud, (post ++ "-" ++ rest)%string) = false.
Proof.
  unfold path_eqb. simpl fst. simpl snd.
  rewrite eqb_append_cancel. simpl. apply andb_false_r.
Qed.

Lemma keeps_download_images urls : forall i, keeps (download_images E post ud i urls).
Proof.
  induction urls as [ | u rest IH ]; intros i; simpl.
  - apply keeps_ret.
  - apply keeps_bind; [ | intros _; apply IH ].
    apply keeps_downloadFile, text_is_no_image.
Qed.

Lemma keeps_images pv : keeps (extractAndDownloadImages E pv post ud).
Proof.
  unfold extractAndDownloadImages. apply keeps_try_catch.
  - destruct (pv_article pv); [ apply keeps_download_images | apply keeps_throw ].
  - intros _. apply keeps_ret.
Qed.

Lemma keeps_videos pv : keeps (extractAndDownloadVideos E pv post ud).
Proof.
  unfold extractAndDownloadVideos. apply keeps_try_catch.
  - destruct (pv_article pv); [ | apply keeps_throw ].
    destruct (pv_video pv); [ | apply keeps_ret ].
    apply keeps_bind; [ apply keeps_take_screenshot | intros _; apply keeps_writeFileSync ].
  - intros _. apply keeps_writeFileSync.
Qed.

(** When the text extractor returns, the text file is on the disk. *)
Lemma saveText_settles pv w w1 :
  dir_exists w out = true -> dir_exists w ud = true ->
  extractAndSaveText E pv ud (post ++ ".txt")%string w = (Ret tt, w1) ->
  settled w1.
Proof.
  intros H1 H2. unfold extractAndSaveText, try_catch, writeFileSync, throw.
  destruct (pv_article pv); destruct (fs_fault E (OpWrite ud (post ++ ".txt")%string));
    intros H; try discriminate; injection H as <-;
    (split; [ exact H1 | split; [ exact H2 | ] ]);
    rewrite file_exists_log; apply file_exists_add_file_same.
Qed.

Lemma extract_content_settles url w b w1 :
  dir_exists w out = true -> dir_exists w ud = true ->
  extract_content E url ud post w = (Ret b, w1) ->
  b = true /\ settled w1.
Proof.
  intros H1 H2. unfold extract_content.
  unfold bind at 1. unfold emit at 1.
  unfold bind at 1. unfold safeNavigate, emit, ret, bind at 1.
  set (w2 := log (EvGoto url (nav_ok E url)) (log EvObserve w)).
  unfold bind at 1.
  destruct (extractAndSaveText E (tweet_page E url) ud (post ++ ".txt")%string w2)
    as [[[] | e] w3] eqn:H3; [ | discriminate ].
  apply saveText_settles in H3; [ | exact H1 | exact H2 ].
  unfold bind at 1.
  pose proof (keeps_images (tweet_page E url) w3 H3) as H4.
  destruct (extractAndDownloadImages E (tweet_page E url) post ud w3)
    as [[[] | e] w4]; [ | discriminate ].
  unfold bind at 1.
  pose proof (keeps_videos (tweet_page E url) w4 H4) as H5.
  destruct (extractAndDownloadVideos E (tweet_page E url) post ud w4)
    as [[[] | e] w5]; [ | discriminate ].
  intros H. injection H as <- <-. split; [ reflexivity | exact H5 ].
Qed.

End ResumeFacts.

Section ResumeGuard.
Import Eff World Downloader.

Variable E : env.

Lemma ensureOutputDir_present out user w :
  dir_exists w out = true -> dir_exists w (path_join out user) = true ->
  ensureOutputDir E out user w = (Ret (path_join out user), w).
Proof.
  intros H1 H2. unfold ensureOutputDir, bind, existsSync_dir, ret.
  rewrite H1. simpl. rewrite H2. reflexivity.
Qed.

Lemma dir_exists_log e w d : dir_exists (log e w) d = dir_exists w d.
Proof. reflexivity. Qed.

Lemma ensureOutputDir_ok out user w d w1 :
  ensureOutputDir E out user w = (Ret d, w1) ->
  d = path_join out user
  /\ dir_exists w1 out = true /\ dir_exists w1 d = true /\ files w1 = files w.
Proof.
  unfold ensureOutputDir, bind, existsSync_dir, mkdirSync, ret.
  destruct (dir_exists w out) eqn:H1; simpl.
  - destruct (dir_exists w (path_join out user)) eqn:H2; simpl.
    + intros H. inversion H; subst. auto.
    + destruct (fs_fault E (OpMkdir (path_join out user))); [ discriminate | ].
      intros H. inversion H; subst.
      split; [ reflexivity | ]. split; [ | split; [ | reflexivity ] ].
      * rewrite dir_exists_log. apply dir_exists_add_dir_keeps. exact H1.
      * rewrite dir_exists_log. apply dir_exists_add_dir_same.
  - destruct (fs_fault E (OpMkdir out)); [ discriminate | ].
    rewrite dir_exists_log.
    destruct (dir_exists (add_dir out w) (path_join out user)) eqn:H2; simpl.
    + intros H. inversion H; subst.
      split; [ reflexivity | ]. split; [ | split; [ | reflexivity ] ].
      * rewrite dir_exists_log. apply dir_exists_add_dir_same.
      * rewrite dir_exists_log. exact H2.
    + destruct (fs_fault E (OpMkdir (path_join out user))); [ discriminate | ].
      intros H. inversion H; subst.
      split; [ reflexivity | ]. split; [ | split; [ | reflexivity ] ].
      * rewrite !dir_exists_log. apply dir_exists_add_dir_keeps.
        apply dir_exists_add_dir_same.
      * rewrite dir_exists_log. apply dir_exists_add_dir_same.
Qed.

(** The [try] block once the URL is understood and the directories are
    in place. *)
Lemma try_after_setup url out r w :
  match_ids url = Some r ->
  dir_exists w out = true ->
  dir_exists w (path_join out (userId r)) = true ->
  processTweetContent_try E url out w
  = match fs_fault E (OpReaddir (path_join out (userId r))) with
    | Some e => (Throw e, w)
    | None =>
        if already_processed w (path_join out (userId r)) (postId r)
        then (Ret false, w)
        else extract_content E url (path_join out (userId r)) (postId r) w
    end.
Proof.
  intros Hm H1 H2. unfold processTweetContent_try, extractIds. rewrite Hm.
  unfold bind at 1. unfold ret at 1.
  rewrite (bind_eq _ _ _ _ _ (ensureOutputDir_present out (userId r) w H1 H2)).
  unfold bind at 1. unfold existsSync at 1.
  unfold bind at 1. unfold readdirSync.
  destruct (fs_fault E (OpReaddir (path_join out (userId r)))); [ reflexivity | ].
  unfold bind, existsSync, already_processed.
  match goal with
  | |- (if ?c then _ else _) _ = _ => destruct c; reflexivity
  end.
Qed.

Lemma processTweetContent_skips url out r w :
  match_ids url = Some r ->
  dir_exists w out = true ->
  dir_exists w (path_join out (userId r)) = true ->
  fs_fault E (OpReaddir (path_join out (userId r))) = None ->
  already_processed w (path_join out (userId r)) (postId r) = true ->
  processTweetContent E url out w = (Ret false, w).
Proof.
  intros Hm H1 H2 Hf Hdone. unfold processTweetContent, try_catch.
  rewrite (try_after_setup url out r w Hm H1 H2), Hf, Hdone. reflexivity.
Qed.

(** The [catch] block answers [false] when it answers. *)
Lemma catch_answers_false url out e w b w1 :
  processTweetContent_catch E url out e w = (Ret b, w1) -> b = false.
Proof.
  unfold processTweetContent_catch.
  destruct (is429 e); [ | intros H; injection H as <- _; reflexivity ].
  unfold bind at 1.
  destruct (extractIds url w) as [[r | e1] w2]; [ | discriminate ].
  unfold bind at 1.
  destruct (ensureOutputDir E out (userId r) w2) as [[d | e2] w3]; [ | discriminate ].
  unfold bind at 1.
  destruct (writeFileSync E d (postId r ++ "-rate-limited.txt")%string w3)
    as [[[] | e3] w4]; [ | discriminate ].
  intros H. injection H as <- _. reflexivity.
Qed.

(** What a run that answers [true] has gone through. *)
Lemma processed_run url out w w1 :
  processTweetContent E url out w = (Ret true, w1) ->
  exists r,
    match_ids url = Some r
    /\ fs_fault E (OpReaddir (path_join out (userId r))) = None
    /\ settled out (path_join out (userId r)) (postId r) w1.
Proof.
  unfold processTweetContent, try_catch.
  destruct (processTweetContent_try E url out w) as [[b | e] w2] eqn:Htry.
  2:{ intros H. apply catch_answers_false in H. discriminate. }
  intros H. injection H as -> ->.
  revert Htry. unfold processTweetContent_try, extractIds.
  destruct (match_ids url) as [r | ] eqn:Hm; [ | discriminate ].
  unfold bind at 1. unfold ret at 1.
  unfold bind at 1.
  destruct (ensureOutputDir E out (userId r) w) as [[d | e] w3] eqn:Hdir; [ | discriminate ].
  apply ensureOutputDir_ok in Hdir. destruct Hdir as (-> & D1 & D2 & _).
  unfold bind at 1. unfold existsSync at 1.
  unfold bind at 1. unfold readdirSync.
  destruct (fs_fault E (OpReaddir (path_join out (userId r)))) eqn:Hf; [ discriminate | ].
  unfold bind, existsSync.
  match goal with
  | |- (if ?c then _ else _) _ = _ -> _ => destruct c
  end; [ discriminate | ].
  intros Hrun. exists r. split; [ reflexivity | ]. split; [ exact Hf | ].
  apply (extract_content_settles E out _ _ url w3 true w1 D1 D2 Hrun).
Qed.

Lemma text_file_is_an_artifact w dir post :
  file_exists w dir (post ++ ".txt")%string = true -> already_processed w dir post = true.
Proof. intros H. unfold already_processed. rewrite H. reflexivity. Qed.

End ResumeGuard.

Section ImageNames.
Import Downloader.

Lemma startsWith_append p s : Js.startsWith p (p ++ s)%string = true.
Proof.
  unfold Js.startsWith. induction p as [ | c p IH ]; simpl.
  - destruct s; reflexivity.
  - destruct (ascii_dec c c); [ exact IH | congruence ].
Qed.

Lemma length_append s t : String.length (s ++ t)%string = (String.length s + String.length t)%nat.
Proof. induction s as [ | c s IH ]; simpl; [ reflexivity | rewrite IH; reflexivity ]. Qed.

Lemma drop_append s t : Js.drop (String.length s) (s ++ t)%string = t.
Proof. induction s as [ | c s IH ]; simpl; [ reflexivity | exact IH ]. Qed.

Lemma endsWith_append s p : Js.endsWith p (s ++ p)%string = true.
Proof.
  unfold Js.endsWith. rewrite length_append.
  replace (String.length s + String.length p - String.length p)%nat
    with (String.length s) by lia.
  rewrite drop_append, String.eqb_refl.
  apply andb_true_iff. split; [ apply Nat.leb_le; lia | reflexivity ].
Qed.

Lemma append_assoc (a b c : string) : ((a ++ b) ++ c = a ++ (b ++ c))%string.
Proof. induction a as [ | x a IH ]; simpl; [ reflexivity | rewrite IH; reflexivity ]. Qed.

(** The files the image extractors write pass the image test of the
    resume guard. *)
Lemma numbered_image_is_image post n ext :
  In ext ["jpg"; "png"; "gif"]%string ->
  is_image_of post (post ++ "-" ++ World.decimal n ++ "." ++ ext)%string = true.
Proof.
  intros Hext. unfold is_image_of.
  apply andb_true_iff. split.
  - replace (post ++ "-" ++ World.decimal n ++ "." ++ ext)%string
      with ((post ++ "-") ++ (World.decimal n ++ "." ++ ext))%string
      by (rewrite !append_assoc; reflexivity).
    apply startsWith_append.
  - assert (Hend : Js.endsWith ("." ++ ext)
                     (post ++ "-" ++ World.decimal n ++ "." ++ ext)%string = true).
    { replace (post ++ "-" ++ World.decimal n ++ "." ++ ext)%string
        with ((post ++ "-" ++ World.decimal n) ++ ("." ++ ext))%string
        by (rewrite !append_assoc; reflexivity).
      apply endsWith_append. }
    rewrite !orb_true_iff.
    destruct Hext as [<- | [<- | [<- | []]]];
      [ left; left | left; right | right ]; exact Hend.
Qed.

End ImageNames.

(** C3, as the code has it: the guard looks for the text file, for a
    file of the post that ends in .jpg, .png or .gif (the numbered
    images and the screenshot of the player), for the video, the video
    note and the video error note. When one of them is there (and the
    directory can be listed) the extractor answers [false] and leaves
    the disk and the page as they were; and after a run that answered
    [true], a second run on the disk it left answers [false] and
    changes nothing. *)
Theorem C3_resume_guard (E : World.env) (url out : string) (w : Eff.world) :
  (forall r,
     Downloader.match_ids url = Some r ->
     Eff.dir_exists w out = true ->
     Eff.dir_exists w (World.path_join out (Downloader.userId r)) = true ->
     World.fs_fault E (Eff.OpReaddir (World.path_join out (Downloader.userId r))) = None ->
     Downloader.already_processed w (World.path_join out (Downloader.userId r))
                                  (Downloader.postId r) = true ->
     Downloader.processTweetContent E url out w = (Eff.Ret false, w))
  /\ (forall w1,
        Downloader.processTweetContent E url out w = (Eff.Ret true, w1) ->
        Downloader.processTweetContent E url out w1 = (Eff.Ret false, w1))
  /\ (forall dir post,
        Downloader.already_processed w dir post = true <->
        Eff.file_exists w dir (post ++ ".txt")%string = true
        \/ (exists name, In name (Eff.names_in w dir)
                         /\ Js.startsWith (post ++ "-")%string name = true
                         /\ (Js.endsWith ".jpg" name = true
                             \/ Js.endsWith ".png" name = true
                             \/ Js.endsWith ".gif" name = true))
        \/ Eff.file_exists w dir (post ++ ".mp4")%string = true
        \/ Eff.file_exists w dir (post ++ "-video-info.txt")%string = true
        \/ Eff.file_exists w dir (post ++ "-video-error.txt")%string = true
        \/ Eff.file_exists w dir (post ++ "-video-player.png")%string = true)
  /\ (forall post n ext,
        In ext ["jpg"; "png"; "gif"]%string ->
        Downloader.is_image_of post
          (post ++ "-" ++ World.decimal n ++ "." ++ ext)%string = true).
Proof.
  split; [ intros r; apply processTweetContent_skips | ].
  split.
  { intros w1 Hrun.
    destruct (processed_run E url out w w1 Hrun) as (r & Hm & Hf & S1 & S2 & S3).
    apply (processTweetContent_skips E url out r w1 Hm S1 S2 Hf).
    apply text_file_is_an_artifact. exact S3. }
  split; [ | apply numbered_image_is_image ].
  intros dir post. unfold Downloader.already_processed.
  rewrite !orb_true_iff, existsb_exists. unfold Downloader.is_image_of.
  split.
  - intros [[[[[H | (name & Hin & Hn)] | H] | H] | H] | H]; auto 7.
    right. left. exists name. apply andb_true_iff in Hn. destruct Hn as [Hp Hs].
    rewrite !orb_true_iff in Hs. tauto.
  - intros [H | [(name & Hin & Hp & Hs) | [H | [H | [H | H]]]]]; auto 7.
    left. left. left. left. right. exists name. split; [ exact Hin | ].
    rewrite Hp. simpl. rewrite !orb_true_iff. tauto.
Qed.

(** A second visit to a post whose text file is on the disk. *)
Lemma C3_saved_post_is_skipped :
  Downloader.processTweetContent (Sample.calm (fun _ => []))
    "https://x.com/u/status/1" "out" Sample.saved_before
  = (Eff.Ret false, Sample.saved_before).
Proof.
  apply (proj1 (C3_resume_guard (Sample.calm (fun _ => []))
                  "https://x.com/u/status/1" "out" Sample.saved_before)
               {| Downloader.userId := "u"; Downloader.postId := "1" |});
    reflexivity.
Defined.

(** C3 as stated fails for the rate-limit marker: with that marker as
    the only file of the post, the guard does not fire and the
    extractor navigates and writes. *)
Lemma C3_rate_limit_marker_is_not_an_artifact :
  Eff.file_exists Sample.rate_limited_before "out/u" "1-rate-limited.txt" = true
  /\ Downloader.already_processed Sample.rate_limited_before "out/u" "1" = false
  /\ Downloader.processTweetContent (Sample.calm (fun _ => []))
       "https://x.com/u/status/1" "out" Sample.rate_limited_before
     = (Eff.Ret true,
        {| Eff.dirs := ["out"; "out/u"]%string;
           Eff.files := [("out/u", "1-rate-limited.txt"); ("out/u", "1.txt")]%string;
           Eff.trace := [ Eff.EvObserve;
                          Eff.EvGoto "https://x.com/u/status/1" true;
                          Eff.EvWrite "out/u" "1.txt" ] |}).
Proof. repeat split; vm_compute; reflexivity. Qed.

(** ** The outcome of the extractor and the counts of the batch *)

Section Outcome.
Import Eff World Downloader.

Variable E : env.

Lemma ensureOutputDir_no_fault out user w :
  fs_fault E (OpMkdir out) = None ->
  fs_fault E (OpMkdir (path_join out user)) = None ->
  exists w', ensureOutputDir E out user w = (Ret (path_join out user), w')
             /\ files w' = files w.
Proof.
  intros F1 F2. unfold ensureOutputDir, bind, existsSync_dir, mkdirSync, ret.
  rewrite F1, F2.
  destruct (dir_exists w out); simpl.
  - destruct (dir_exists w (path_join out user)); simpl; eexists; split; reflexivity.
  - destruct (dir_exists (log (EvMkdir out) (add_dir out w)) (path_join out user));
      simpl; eexists; split; reflexivity.
Qed.

Lemma rate_limit_is_recorded url out r e w w1 :
  match_ids url = Some r ->
  processTweetContent_try E url out w = (Throw e, w1) ->
  is429 e = true ->
  fs_fault E (OpMkdir out) = None ->
  fs_fault E (OpMkdir (path_join out (userId r))) = None ->
  fs_fault E (OpWrite (path_join out (userId r))
                      (postId r ++ "-rate-limited.txt")%string) = None ->
  exists w2,
    processTweetContent E url out w = (Ret false, w2)
    /\ file_exists w2 (path_join out (userId r))
                   (postId r ++ "-rate-limited.txt")%string = true.
Proof.
  intros Hm Htry H429 F1 F2 F3.
  unfold processTweetContent, try_catch. rewrite Htry.
  unfold processTweetContent_catch. rewrite H429.
  unfold extractIds. rewrite Hm. unfold bind at 1. unfold ret at 1.
  destruct (ensureOutputDir_no_fault out (userId r) w1 F1 F2) as (w' & Hd & _).
  rewrite (bind_eq _ _ _ _ _ Hd).
  unfold bind, writeFileSync, ret. rewrite F3.
  eexists. split; [ reflexivity | ].
  rewrite file_exists_log. apply file_exists_add_file_same.
Qed.

Lemma other_errors_are_skips url out e w w1 :
  processTweetContent_try E url out w = (Throw e, w1) ->
  is429 e = false ->
  processTweetContent E url out w = (Ret false, w1).
Proof.
  intros Htry H429. unfold processTweetContent, try_catch. rewrite Htry.
  unfold processTweetContent_catch. rewrite H429. reflexivity.
Qed.

Lemma batch_step_outcome url out sleepMs more s w :
  exists s' w',
    batch_step E url out sleepMs more s w = (Ret s', w')
    /\ counted s' = counted s + 1
    /\ processedCount s' = processedCount s + processed_now E url out w.
Proof.
  unfold batch_step, try_catch, bind, processed_now.
  destruct (processTweetContent E url out w) as [[b | e] w1].
  - destruct b, more; simpl; eexists; eexists;
      (split; [ reflexivity | unfold counted; simpl; split; lia ]).
  - destruct (is429 e), more; simpl; eexists; eexists;
      (split; [ reflexivity | unfold counted; simpl; split; lia ]).
Qed.

End Outcome.




(** ** The rate-limit observer *)

Lemma on_response_events now r w :
  Downloader.on_response now r w
  = (Eff.Ret tt,
     {| Eff.dirs := Eff.dirs w; Eff.files := Eff.files w;
        Eff.trace := Eff.trace w ++ Downloader.observer_events now r |}).
Proof.
  unfold Downloader.on_response, Downloader.observer_events.
  destruct w as [d f t]. simpl.
  destruct (Downloader.status r =? 429); [ | rewrite app_nil_r; reflexivity ].
  destruct (Downloader.header "x-rate-limit-reset" r) as [h | ];
    [ | rewrite app_nil_r; reflexivity ].
  destruct (Js.truthy h); [ | rewrite app_nil_r; reflexivity ].
  destruct (Js.parseInt h) as [reset | ]; [ | rewrite app_nil_r; reflexivity ].
  destruct (0 <? reset * 1000 - now); [ | rewrite app_nil_r; reflexivity ].
  unfold Eff.bind, Eff.emit, Eff.log. simpl. rewrite <- !app_assoc. reflexivity.
Qed.



(** ** Segment groups and the choice of quality *)

Section VideoFacts.
Import Downloader Video.

(** *** Grouping *)

Lemma push_lookup q' u G q :
  lookup q (push q' u G)
  = if String.eqb q' q
    then Some (match lookup q G with Some l => l ++ [u] | None => [u] end)
    else lookup q G.
Proof.
  induction G as [ | [k urls] G IH ]; simpl.
  - destruct (String.eqb q' q); reflexivity.
  - destruct (String.eqb k q') eqn:Hk; simpl.
    + apply String.eqb_eq in Hk. subst k.
      destruct (String.eqb q' q); reflexivity.
    + destruct (String.eqb k q) eqn:Hkq; [ | exact IH ].
      apply String.eqb_eq in Hkq. subst k.
      rewrite String.eqb_sym, Hk. reflexivity.
Qed.

Lemma push_keys q u G :
  keys (push q u G) = if Js.has q (keys G) then keys G else keys G ++ [q].
Proof.
  unfold keys, Js.has. induction G as [ | [k urls] G IH ]; simpl; [ reflexivity | ].
  rewrite (String.eqb_sym q k).
  destruct (String.eqb k q); simpl; [ reflexivity | ].
  rewrite IH. destruct (existsb (String.eqb q) (map fst G)); reflexivity.
Qed.

Lemma group_snoc segs u :
  groupSegmentsByQuality (segs ++ [u])
  = push (quality u) u (groupSegmentsByQuality segs).
Proof. unfold groupSegmentsByQuality. rewrite fold_left_app. reflexivity. Qed.

Lemma group_lookup segs : forall q,
  lookup q (groupSegmentsByQuality segs)
  = match of_quality q segs with
    | [] => None
    | l => Some l
    end.
Proof.
  induction segs as [ | u segs IH ] using rev_ind; intros q; [ reflexivity | ].
  rewrite group_snoc, push_lookup, IH.
  unfold of_quality. rewrite filter_app. simpl.
  destruct (String.eqb (quality u) q).
  - destruct (filter (fun u0 => String.eqb (quality u0) q) segs); reflexivity.
  - rewrite app_nil_r. reflexivity.
Qed.

Lemma group_keys_NoDup segs : NoDup (keys (groupSegmentsByQuality segs)).
Proof.
  induction segs as [ | u segs IH ] using rev_ind; [ constructor | ].
  rewrite group_snoc, push_keys.
  destruct (Js.has (quality u) (keys (groupSegmentsByQuality segs))) eqn:H;
    [ exact IH | ].
  apply NoDup_snoc; [ exact IH | apply has_false_not_In; exact H ].
Qed.

Lemma group_keys_In segs q :
  In q (keys (groupSegmentsByQuality segs)) <-> exists u, In u segs /\ quality u = q.
Proof.
  induction segs as [ | u segs IH ] using rev_ind.
  - simpl. split; [ intros [] | intros (u & [] & _) ].
  - rewrite group_snoc, push_keys.
    destruct (Js.has (quality u) (keys (groupSegmentsByQuality segs))) eqn:H.
    + rewrite IH. split.
      * intros (v & Hv & Hq). exists v. split; [ apply in_or_app; left; exact Hv | exact Hq ].
      * intros (v & Hv & Hq). apply in_app_or in Hv.
        destruct Hv as [Hv | [<- | []]]; [ exists v; auto | ].
        apply IH. subst q. apply has_In. exact H.
    + rewrite in_app_iff, IH. simpl. split.
      * intros [(v & Hv & Hq) | [<- | []]].
        -- exists v. split; [ apply in_or_app; left; exact Hv | exact Hq ].
        -- exists u. split; [ apply in_or_app; right; left; reflexivity | reflexivity ].
      * intros (v & Hv & Hq). apply in_app_or in Hv.
        destruct Hv as [Hv | [<- | []]]; [ left; exists v; auto | right; left; exact Hq ].
Qed.

Lemma group_first_key u rest :
  hd_error (keys (groupSegmentsByQuality (u :: rest))) = Some (quality u).
Proof.
  induction rest as [ | v rest IH ] using rev_ind; [ reflexivity | ].
  change (u :: rest ++ [v]) with ((u :: rest) ++ [v]).
  rewrite group_snoc, push_keys.
  destruct (Js.has (quality v) (keys (groupSegmentsByQuality (u :: rest))));
    [ exact IH | ].
  destruct (keys (groupSegmentsByQuality (u :: rest))); [ discriminate | exact IH ].
Qed.

(** *** Keys that carry a resolution *)

Lemma span_fst_all p s : all_chars p (fst (span p s)) = true.
Proof.
  induction s as [ | c s IH ]; simpl; [ reflexivity | ].
  destruct (p c) eqn:Hc; [ | reflexivity ].
  destruct (span p s) as [a b]. simpl in *. rewrite Hc. exact IH.
Qed.

Lemma span_of_all p s : all_chars p s = true -> span p s = (s, EmptyString).
Proof.
  induction s as [ | c s IH ]; simpl; [ reflexivity | ].
  intros H. apply andb_true_iff in H. destruct H as [Hc Hs].
  rewrite Hc, (IH Hs). reflexivity.
Qed.

Lemma match_res_here_shape s m :
  match_res_here s = Some m ->
  exists w h,
    m = (w ++ "x" ++ h)%string
    /\ all_chars Js.isDigit w = true /\ all_chars Js.isDigit h = true
    /\ Js.truthy w = true /\ Js.truthy h = true.
Proof.
  unfold match_res_here.
  pose proof (span_fst_all Js.isDigit s) as Hw.
  destruct (span Js.isDigit s) as [w r]. simpl in Hw.
  destruct (Js.truthy w) eqn:Tw; [ | discriminate ].
  destruct r as [ | c r' ]; [ discriminate | ].
  destruct c as [[] [] [] [] [] [] [] []]; try discriminate.
  pose proof (span_fst_all Js.isDigit r') as Hh.
  destruct (span Js.isDigit r') as [h t]. simpl in Hh.
  destruct (Js.truthy h) eqn:Th; [ | discriminate ].
  intros H. injection H as <-. exists w, h. auto.
Qed.

Lemma match_res_shape u m :
  match_res u = Some m ->
  exists w h,
    m = (w ++ "x" ++ h)%string
    /\ all_chars Js.isDigit w = true /\ all_chars Js.isDigit h = true
    /\ Js.truthy w = true /\ Js.truthy h = true.
Proof.
  induction u as [ | c u IH ]; [ discriminate | ].
  cbn [match_res].
  destruct (match_res_here (String c u)) eqn:H; [ | exact IH ].
  intros Hm. inversion Hm; subst. apply (match_res_here_shape _ _ H).
Qed.

Lemma digit_is_not_x c : Js.isDigit c = true -> Ascii.eqb c "x" = false.
Proof.
  intros H. destruct (Ascii.eqb c "x") eqn:Hc; [ | reflexivity ].
  apply Ascii.eqb_eq in Hc. subst c. discriminate.
Qed.

Lemma split_digits h : all_chars Js.isDigit h = true -> Js.split "x" h = [h].
Proof.
  induction h as [ | c h IH ]; simpl; [ reflexivity | ].
  intros H. apply andb_true_iff in H. destruct H as [Hc Hh].
  rewrite (digit_is_not_x c Hc), (IH Hh). reflexivity.
Qed.

Lemma split_resolution w h :
  all_chars Js.isDigit w = true -> all_chars Js.isDigit h = true ->
  Js.split "x" (w ++ "x" ++ h)%string = [w; h].
Proof.
  intros Hw Hh. induction w as [ | c w IH ]; simpl.
  - rewrite (split_digits h Hh). reflexivity.
  - simpl in Hw. apply andb_true_iff in Hw. destruct Hw as [Hc Hw].
    rewrite (digit_is_not_x c Hc). simpl in IH. rewrite (IH Hw). reflexivity.
Qed.

Lemma digit_has_value c : Js.isDigit c = true -> exists d, Js.digit_value 10 c = Some d.
Proof.
  unfold Js.isDigit, Js.digit_value. intros H.
  apply andb_true_iff in H. destruct H as [H1 H2].
  apply Nat.leb_le in H1. apply Nat.leb_le in H2.
  assert (G1 : (48 <=? Z.of_nat (nat_of_ascii c)) = true) by (apply Z.leb_le; lia).
  assert (G2 : (Z.of_nat (nat_of_ascii c) <=? 57) = true) by (apply Z.leb_le; lia).
  rewrite G1, G2. simpl.
  assert (G3 : (Z.of_nat (nat_of_ascii c) - 48 <? 10) = true) by (apply Z.ltb_lt; lia).
  rewrite G3. eauto.
Qed.

Lemma digits_value_started s : forall a, exists v, Js.digits_value 10 s (Some a) = Some v.
Proof.
  induction s as [ | c s IH ]; intros a; simpl; [ eauto | ].
  destruct (Js.digit_value 10 c); [ apply IH | eauto ].
Qed.

Lemma to_number_digits w :
  all_chars Js.isDigit w = true -> Js.truthy w = true ->
  exists v, to_number w = Some v.
Proof.
  intros Hw Tw. unfold to_number.
  rewrite (span_of_all _ _ Hw). simpl. rewrite Tw. simpl.
  destruct w as [ | c w ]; [ discriminate | ].
  simpl in Hw. apply andb_true_iff in Hw. destruct Hw as [Hc _].
  destruct (digit_has_value c Hc) as (d & Hd).
  simpl. rewrite Hd. apply digits_value_started.
Qed.

(** A key taken from a resolution token has an area. *)
Lemma resolution_key_has_area u m :
  match_res u = Some m -> quality u = m /\ exists a, area m = Some a.
Proof.
  intros Hm. split; [ unfold quality; rewrite Hm; reflexivity | ].
  destruct (match_res_shape u m Hm) as (w & h & -> & Hw & Hh & Tw & Th).
  unfold area. rewrite (split_resolution w h Hw Hh).
  destruct (to_number_digits w Hw Tw) as (x & ->).
  destruct (to_number_digits h Hh Th) as (y & ->).
  eauto.
Qed.

(** *** The sort *)

Lemma sort_head l :
  (forall k, In k l -> area k <> None) ->
  match sort by_area_desc l with
  | [] => l = []
  | q :: _ =>
      In q l
      /\ forall k a b, In k l -> area k = Some a -> area q = Some b -> a <= b
  end.
Proof.
  induction l as [ | x l IH ]; intros Hall; simpl; [ reflexivity | ].
  assert (Hl : forall k, In k l -> area k <> None) by (intros k Hk; apply Hall; right; exact Hk).
  specialize (IH Hl).
  destruct (sort by_area_desc l) as [ | q t ]; simpl.
  - subst l. split; [ left; reflexivity | ].
    intros k a b [<- | []] Ha Hb. rewrite Ha in Hb. injection Hb as <-. lia.
  - destruct IH as [Hq Hmax].
    destruct (area x) as [ax | ] eqn:Hx; [ | exfalso; apply (Hall x); [ left; reflexivity | exact Hx ] ].
    destruct (area q) as [aq | ] eqn:Haq; [ | exfalso; apply (Hl q Hq); exact Haq ].
    unfold by_area_desc. rewrite Hx, Haq.
    destruct (aq - ax <=? 0) eqn:Hc.
    + apply Z.leb_le in Hc. split; [ left; reflexivity | ].
      intros k a b [<- | Hk] Ha Hb.
      * rewrite Hx in Ha. rewrite Hx in Hb. injection Ha as <-. injection Hb as <-. lia.
      * rewrite Hx in Hb. injection Hb as <-.
        specialize (Hmax k a aq Hk Ha eq_refl). lia.
    + apply Z.leb_gt in Hc. split; [ right; exact Hq | ].
      intros k a b [<- | Hk] Ha Hb.
      * rewrite Hx in Ha. rewrite Haq in Hb. injection Ha as <-. injection Hb as <-. lia.
      * apply (Hmax k a b Hk Ha). rewrite <- Haq. exact Hb.
Qed.

End VideoFacts.




(** ** Two runs of the discovery *)

(** A run that went through the loop hands every returned link that
    was not saved during discovery to the batch. *)
Lemma batch_gets_the_rest_after_the_loop
    (E : World.env) (max_id limit : Z) (fuel : nat) (st : Main.dstate) (h : string) :
  Main.final_state E max_id limit true fuel = Some (st, true) ->
  In h (Main.uniqueLinks st) ->
  ~ In h (Main.processedTweets st) ->
  exists urls,
    Main.handed_over E max_id limit true fuel = [urls] /\ In (Main.url_of h) urls.
Proof.
  intros Hfin Hh Hnp. unfold Main.handed_over. rewrite Hfin.
  destruct (final_state_facts E max_id limit true fuel st true Hfin) as [_ Hsize].
  rewrite (apply_limit_within limit (Main.to_urls (Main.uniqueLinks st)))
    by (rewrite to_urls_length; exact Hsize).
  assert (Hin : In (Main.url_of h)
                   (Main.remaining_links (Main.to_urls (Main.uniqueLinks st)) st)).
  { apply remaining_links_includes; [ apply to_urls_In; exact Hh | exact Hnp ]. }
  assert (H1 : (0 <? length (Main.to_urls (Main.uniqueLinks st)))%nat = true).
  { apply Nat.ltb_lt. rewrite to_urls_length.
    destruct (Main.uniqueLinks st); [ destruct Hh | simpl; lia ]. }
  assert (H2 : (0 <? length (Main.remaining_links
                               (Main.to_urls (Main.uniqueLinks st)) st))%nat = true).
  { apply Nat.ltb_lt.
    destruct (Main.remaining_links (Main.to_urls (Main.uniqueLinks st)) st);
      [ destruct Hin | simpl; lia ]. }
  rewrite H1, H2. simpl. eexists. split; [ reflexivity | exact Hin ].
Qed.

(** C9 at the input on which the code departs from it: three posts on
    screen, a limit of two, download enabled. The first extraction
    reaches the limit and [find_links] returns the two links there and
    then. Both posts carry a video, neither was saved, and neither is
    handed to the batch: no batch is entered and nothing is written.
    When the same limit is reached one scroll later, the two links are
    handed over. *)
Theorem C9_limit_at_first_extraction_skips_the_batch :
  (exists w',
     Main.find_links (Sample.calm (fun _ => Sample.three_posts)) Sample.profile
                     0 2 true "out" 10 Eff.empty_world
     = Some (Eff.Ret ["https://x.com/u/status/1"; "https://x.com/u/status/2"]%string, w')
     /\ Eff.batches (Eff.trace w') = []
     /\ Eff.files w' = [])
  /\ map Dom.simple (Dom.scan_articles Sample.three_posts) = [false; false; true]
  /\ (exists w',
        Main.find_links (Sample.calm Sample.one_then_three) Sample.profile
                        0 2 true "out" 10 Eff.empty_world
        = Some (Eff.Ret ["https://x.com/u/status/1"; "https://x.com/u/status/2"]%string, w')
        /\ Eff.batches (Eff.trace w')
           = [["https://x.com/u/status/1"; "https://x.com/u/status/2"]%string]).
Proof.
  split; [ eexists; split; [ vm_compute; reflexivity | split; reflexivity ] | ].
  split; [ reflexivity | ].
  eexists. split; [ vm_compute; reflexivity | reflexivity ].
Qed.

(** C4 at the input on which the code departs from it: one post on
    screen and nothing more to come, no limits. The link set has its
    final size after the first extraction, yet three scroll cycles do
    not end the loop; it stops after the fourth. *)
Theorem C4_four_idle_cycles_before_the_loop_stops :
  Main.find_links (Sample.calm (fun _ => Sample.one_post)) Sample.profile
                  0 0 false "out" 3 Eff.empty_world = None
  /\ Main.find_links (Sample.calm (fun _ => Sample.one_post)) Sample.profile
                     0 0 false "out" 4 Eff.empty_world
     = Some (Eff.Ret ["https://x.com/u/status/1"%string],
             {| Eff.dirs := []; Eff.files := [];
                Eff.trace :=
                  [ Eff.EvGoto "https://x.com/u" true; Eff.EvWaitArticles 0 true;
                    Eff.EvQuery 0;
                    Eff.EvScroll Eff.Viewport; Eff.EvSleep 1500; Eff.EvQuery 1;
                    Eff.EvScroll Eff.Viewport; Eff.EvSleep 1500; Eff.EvQuery 2;
                    Eff.EvScroll Eff.Viewport; Eff.EvSleep 1500; Eff.EvQuery 3;
                    Eff.EvScroll Eff.Viewport; Eff.EvSleep 1500; Eff.EvQuery 4;
                    Eff.EvClose ] |})
  /\ (forall k,
        Main.extract_result (Sample.calm (fun _ => Sample.one_post)) 0 false k
          {| Main.uniqueLinks := ["/u/status/1"%string];
             Main.foundIds := 1; Main.processedTweets := [] |}
        = (1, {| Main.uniqueLinks := ["/u/status/1"%string];
                 Main.foundIds := 1; Main.processedTweets := [] |})).
Proof.
  split; [ vm_compute; reflexivity | ].
  split; [ vm_compute; reflexivity | ].
  intros k. reflexivity.
Qed.

(** A run under a limit of two: two links come back, each once. *)
Lemma C2_two_links_under_a_limit_of_two :
  NoDup ["https://x.com/u/status/1"; "https://x.com/u/status/2"]%string
  /\ (0 <= 2 -> 2 <> 0 ->
      Z.of_nat (length ["https://x.com/u/status/1"; "https://x.com/u/status/2"]%string) <= 2)
  /\ (forall k st w0,
        exists n st' w1 added,
          Main.extractLinks (Sample.calm Sample.one_then_three) 2 true "out" k st w0
          = (Eff.Ret (n, st'), w1)
          /\ Main.uniqueLinks st' = Main.uniqueLinks st ++ added
          /\ (NoDup (Main.uniqueLinks st) -> NoDup (Main.uniqueLinks st'))).
Proof.
  eapply (C2_links_unique_growing_bounded (Sample.calm Sample.one_then_three)
            Sample.profile 0 2 true "out" 10 Eff.empty_world).
  vm_compute. reflexivity.
Defined.

(** ** How long the loop runs *)

Section LoopLength.
Import Eff World Dom Main.

Variable E : env.
Variable max_id : Z.
Variable limit : Z.
Variable download_content : bool.

#[local] Abbreviation extract := (extract_result E limit download_content).
#[local] Abbreviation loop := (scroll_states E max_id limit download_content).

Lemma scan_items_idle items : forall st,
  (forall it, In it items -> Js.truthy (href it) = true -> In (href it) (uniqueLinks st)) ->
  scan_items limit download_content items st = (false, st).
Proof.
  induction items as [ | it rest IH ]; intros st Hin; simpl; [ reflexivity | ].
  destruct (Js.truthy (href it)) eqn:Ht; simpl.
  - assert (Hhas : Js.has (href it) (uniqueLinks st) = true).
    { apply has_In. apply Hin; [ left; reflexivity | exact Ht ]. }
    rewrite Hhas. simpl. apply IH. intros it' Hit'. apply Hin. right. exact Hit'.
  - apply IH. intros it' Hit'. apply Hin. right. exact Hit'.
Qed.

Lemma extract_idle k j st :
  exhausted E k st -> (k <= j)%nat -> extract j st = (size st, st).
Proof.
  intros Hex Hkj. unfold extract_result.
  rewrite scan_items_idle; [ reflexivity | ].
  intros it Hit Ht. apply (Hex j it Hkj Hit Ht).
Qed.

Lemma exhausted_later k j st : exhausted E k st -> (k <= j)%nat -> exhausted E j st.
Proof. intros H Hkj i it Hi. apply H. lia. Qed.

Lemma size_nonneg st : 0 <= size st.
Proof. unfold size. lia. Qed.

#[local] Abbreviation goes_on := (Main.goes_on max_id).

Lemma loop_stopped fuel k prev same rb st :
  goes_on rb st = false -> loop fuel k prev same rb st = Some (st, 0%nat).
Proof.
  unfold Main.goes_on. intros H. destruct fuel; simpl; rewrite H; reflexivity.
Qed.

Opaque extract_result.

(** One idle turn whose size is the one seen before. *)
Lemma loop_idle_same fuel k prev same st :
  exhausted E k st -> goes_on false st = true -> prev = size st ->
  loop (S fuel) k prev same false st
  = match loop fuel (S k) prev (same + 1) (if 3 <=? same + 1 then true else false) st with
    | Some (st', n) => Some (st', S n)
    | None => None
    end.
Proof.
  intros Hex Hgo Hprev. unfold Main.goes_on in Hgo. simpl in Hgo. simpl. rewrite Hgo.
  rewrite (extract_idle k k st Hex (Nat.le_refl k)). simpl.
  assert (H1 : (size st =? -1) = false)
    by (apply Z.eqb_neq; pose proof (size_nonneg st); lia).
  rewrite H1. subst prev. rewrite Z.eqb_refl. reflexivity.
Qed.

(** One idle turn whose size differs from the one recorded. *)
Lemma loop_idle_other fuel k prev same st :
  exhausted E k st -> goes_on false st = true -> prev <> size st ->
  loop (S fuel) k prev same false st
  = match loop fuel (S k) (size st) 0 false st with
    | Some (st', n) => Some (st', S n)
    | None => None
    end.
Proof.
  intros Hex Hgo Hprev. unfold Main.goes_on in Hgo. simpl in Hgo. simpl. rewrite Hgo.
  rewrite (extract_idle k k st Hex (Nat.le_refl k)). simpl.
  assert (H1 : (size st =? -1) = false)
    by (apply Z.eqb_neq; pose proof (size_nonneg st); lia).
  assert (H2 : (size st =? prev) = false) by (apply Z.eqb_neq; congruence).
  rewrite H1, H2. reflexivity.
Qed.

(** With the recorded size up to date, the counter at [same] and the
    feed exhausted, the loop stops after [3 - same] turns (one turn
    when the counter is at 2 or more). *)
Lemma idle_from_two fuel k same st :
  exhausted E k st -> goes_on false st = true -> 2 <= same ->
  loop (S fuel) k (size st) same false st = Some (st, 1%nat).
Proof.
  intros Hex Hgo Hs. rewrite (loop_idle_same fuel k _ same st Hex Hgo eq_refl).
  assert (H3 : (3 <=? same + 1) = true) by (apply Z.leb_le; lia).
  rewrite H3, loop_stopped; reflexivity.
Qed.

Lemma idle_from_one fuel k st :
  exhausted E k st -> goes_on false st = true ->
  loop (S (S fuel)) k (size st) 1 false st = Some (st, 2%nat).
Proof.
  intros Hex Hgo. rewrite (loop_idle_same _ k _ 1 st Hex Hgo eq_refl).
  change (if 3 <=? 1 + 1 then true else false) with false.
  rewrite (idle_from_two fuel (S k) (1 + 1) st); [ reflexivity | | exact Hgo | lia ].
  apply (exhausted_later k); [ exact Hex | lia ].
Qed.

Lemma idle_from_zero fuel k st :
  exhausted E k st -> goes_on false st = true ->
  loop (S (S (S fuel))) k (size st) 0 false st = Some (st, 3%nat).
Proof.
  intros Hex Hgo. rewrite (loop_idle_same _ k _ 0 st Hex Hgo eq_refl).
  change (if 3 <=? 0 + 1 then true else false) with false.
  change (0 + 1) with 1.
  rewrite (idle_from_one fuel (S k) st); [ reflexivity | | exact Hgo ].
  apply (exhausted_later k); [ exact Hex | lia ].
Qed.

(** Once the feed is exhausted the loop stops within four turns, and
    within three when the recorded size is the current one. *)
Lemma idle_loop_stops k prev same rb st :
  exhausted E k st -> 0 <= same ->
  exists n,
    (n <= 4)%nat
    /\ (prev = size st -> (n <= 3)%nat)
    /\ forall fuel, (n <= fuel)%nat -> loop fuel k prev same rb st = Some (st, n).
Proof.
  intros Hex Hsame.
  destruct (goes_on rb st) eqn:Hgo.
  2:{ exists 0%nat. split; [ lia | ]. split; [ lia | ].
      intros fuel _. apply loop_stopped. exact Hgo. }
  assert (Hrb : rb = false).
  { unfold Main.goes_on in Hgo. destruct rb; [ discriminate | reflexivity ]. }
  subst rb.
  destruct (Z.eq_dec prev (size st)) as [-> | Hne].
  - destruct (Z.eq_dec same 0) as [-> | H0].
    + exists 3%nat. split; [ lia | ]. split; [ lia | ].
      intros fuel Hf. do 3 (destruct fuel as [ | fuel ]; [ lia | ]).
      apply idle_from_zero; assumption.
    + destruct (Z.eq_dec same 1) as [-> | H1].
      * exists 2%nat. split; [ lia | ]. split; [ lia | ].
        intros fuel Hf. do 2 (destruct fuel as [ | fuel ]; [ lia | ]).
        apply idle_from_one; assumption.
      * exists 1%nat. split; [ lia | ]. split; [ lia | ].
        intros fuel Hf. destruct fuel as [ | fuel ]; [ lia | ].
        apply idle_from_two; [ assumption | assumption | lia ].
  - exists 4%nat. split; [ lia | ]. split; [ intros; contradiction | ].
    intros fuel Hf. do 4 (destruct fuel as [ | fuel ]; [ lia | ]).
    rewrite (loop_idle_other _ k prev same st Hex Hgo Hne).
    rewrite (idle_from_zero fuel (S k) st); [ reflexivity | | exact Hgo ].
    apply (exhausted_later k); [ exact Hex | lia ].
Qed.

(** A turn of the loop, whatever the feed shows. *)
Lemma loop_turn fuel k prev same st :
  goes_on false st = true ->
  loop (S fuel) k prev same false st
  = if fst (extract k st) =? -1 then Some (snd (extract k st), 1%nat)
    else
      match
        (if fst (extract k st) =? prev
         then loop fuel (S k) prev (same + 1)
                   (if 3 <=? same + 1 then true else false) (snd (extract k st))
         else loop fuel (S k) (fst (extract k st)) 0 false (snd (extract k st)))
      with
      | Some (st', n) => Some (st', S n)
      | None => None
      end.
Proof.
  intros Hgo. unfold Main.goes_on in Hgo. simpl in Hgo. simpl. rewrite Hgo. reflexivity.
Qed.

Transparent extract_result.

Lemma scan_items_all_added items : forall st,
  fst (scan_items limit download_content items st) = false ->
  forall it, In it items -> Js.truthy (href it) = true ->
  In (href it) (uniqueLinks (snd (scan_items limit download_content items st))).
Proof.
  induction items as [ | x rest IH ]; intros st Hfst it Hit Ht; [ destruct Hit | ].
  simpl in *.
  destruct (Js.truthy (href x) && negb (Js.has (href x) (uniqueLinks st))) eqn:Hnew.
  - destruct ((0 <? limit) && (limit <=? size (added_state download_content x st)));
      [ discriminate | ].
    destruct Hit as [<- | Hit]; [ | apply IH; assumption ].
    destruct (scan_items_facts limit download_content rest
                (added_state download_content x st)) as ((added & Hadd) & _).
    rewrite Hadd. apply in_or_app. left. simpl. apply set_add_In.
  - destruct Hit as [<- | Hit]; [ | apply IH; assumption ].
    rewrite Ht in Hnew. simpl in Hnew. apply negb_false_iff in Hnew.
    destruct (scan_items_facts limit download_content rest st) as ((added & Hadd) & _).
    rewrite Hadd. apply in_or_app. left. apply has_In. exact Hnew.
Qed.

Lemma covers_step k st :
  covers E k st -> fst (extract k st) <> -1 -> covers E (S k) (snd (extract k st)).
Proof.
  intros Hc Hhit i it Hi Hit Ht. unfold extract_result in *. simpl in *.
  destruct (Nat.eq_dec i k) as [-> | Hne].
  - apply scan_items_all_added; [ | exact Hit | exact Ht ].
    destruct (fst (scan_items limit download_content (scan_articles (rendered E k)) st));
      [ exfalso; apply Hhit; reflexivity | reflexivity ].
  - destruct (scan_items_facts limit download_content
                (scan_articles (rendered E k)) st) as ((added & Hadd) & _).
    rewrite Hadd. apply in_or_app. left. apply (Hc i it); [ lia | exact Hit | exact Ht ].
Qed.

Lemma covers_exhausted K st : dries_up E K -> covers E K st -> exhausted E K st.
Proof.
  intros Hdry Hc j it Hj Hit Ht.
  destruct (Hdry j it Hj Hit Ht) as (i & it' & Hi & Hit' & Heq).
  rewrite <- Heq. apply (Hc i it' Hi Hit'). rewrite Heq. exact Ht.
Qed.

(** When the feed dries up at the [K]-th query, the loop that stands
    [d] queries before it stops within [d + 4] turns. *)
Lemma loop_stops K :
  dries_up E K ->
  forall d k st prev same rb,
    (k + d = K)%nat -> covers E k st -> 0 <= same ->
    exists n st',
      (n <= d + 4)%nat
      /\ forall fuel, (n <= fuel)%nat -> loop fuel k prev same rb st = Some (st', n).
Proof.
  intros Hdry. induction d as [ | d IH ]; intros k st prev same rb Hk Hc Hsame.
  - assert (Hex : exhausted E k st).
    { replace k with K by lia. apply covers_exhausted; [ exact Hdry | ].
      replace K with k by lia. exact Hc. }
    destruct (idle_loop_stops k prev same rb st Hex Hsame) as (n & Hn & _ & Hrun).
    exists n, st. split; [ lia | exact Hrun ].
  - destruct (goes_on rb st) eqn:Hgo.
    2:{ exists 0%nat, st. split; [ lia | ].
        intros fuel _. apply loop_stopped. exact Hgo. }
    assert (Hrb : rb = false).
    { unfold Main.goes_on in Hgo. destruct rb; [ discriminate | reflexivity ]. }
    subst rb.
    destruct (fst (extract k st) =? -1) eqn:Hhit.
    + exists 1%nat, (snd (extract k st)). split; [ lia | ].
      intros fuel Hf. destruct fuel as [ | fuel ]; [ lia | ].
      rewrite (loop_turn fuel k prev same st Hgo), Hhit. reflexivity.
    + assert (Hc' : covers E (S k) (snd (extract k st))).
      { apply covers_step; [ exact Hc | apply Z.eqb_neq; exact Hhit ]. }
      destruct (fst (extract k st) =? prev) eqn:Hprev.
      * destruct (IH (S k) (snd (extract k st)) prev (same + 1)
                     (if 3 <=? same + 1 then true else false))
          as (n & st' & Hn & Hrun); [ lia | exact Hc' | lia | ].
        exists (S n), st'. split; [ lia | ].
        intros fuel Hf. destruct fuel as [ | fuel ]; [ lia | ].
        rewrite (loop_turn fuel k prev same st Hgo), Hhit, Hprev.
        rewrite Hrun by lia. reflexivity.
      * destruct (IH (S k) (snd (extract k st)) (fst (extract k st)) 0 false)
          as (n & st' & Hn & Hrun); [ lia | exact Hc' | lia | ].
        exists (S n), st'. split; [ lia | ].
        intros fuel Hf. destruct fuel as [ | fuel ]; [ lia | ].
        rewrite (loop_turn fuel k prev same st Hgo), Hhit, Hprev.
        rewrite Hrun by lia. reflexivity.
Qed.

Lemma dries_up_later K : dries_up E K -> dries_up E (S K).
Proof.
  intros H j it Hj Hit Ht.
  destruct (H j it) as (i & it' & Hi & Hrest); [ lia | exact Hit | exact Ht | ].
  exists i, it'. split; [ lia | exact Hrest ].
Qed.

Lemma covers_nothing st : covers E 0 st.
Proof. intros i it Hi. lia. Qed.

(** Termination: when the feed yields no new links from the [K]-th
    query on, [find_links] returns (or throws at the initial wait)
    within [K + 4] turns of the loop. *)
Theorem find_links_terminates (initial_url output_dir : string) (K fuel : nat) (w : world) :
  dries_up E K ->
  (K + 4 <= fuel)%nat ->
  exists r w',
    find_links E initial_url max_id limit download_content output_dir fuel w
    = Some (r, w').
Proof.
  intros Hdry Hfuel.
  pose proof (find_links_returns E initial_url max_id limit download_content
                output_dir fuel w) as Hret.
  assert (Hsome : returned_links E max_id limit download_content fuel <> None).
  { unfold returned_links.
    destruct (articles_found E); [ | discriminate ].
    destruct (fst (extract 0%nat initial_state) =? -1) eqn:Hhit; [ discriminate | ].
    assert (Hc : covers E 1 (snd (extract 0%nat initial_state))).
    { apply covers_step; [ apply covers_nothing | apply Z.eqb_neq; exact Hhit ]. }
    destruct (loop_stops (S K) (dries_up_later K Hdry) K 1%nat
                (snd (extract 0%nat initial_state)) 0 0 false)
      as (n & st' & Hn & Hrun); [ lia | exact Hc | lia | ].
    rewrite (Hrun fuel) by lia. discriminate. }
  destruct (returned_links E max_id limit download_content fuel) as [r | ];
    [ | contradiction ].
  destruct Hret as (w' & Hret). exists r, w'. exact Hret.
Qed.

End LoopLength.

Section EndlessFeed.
Import Eff World Dom Main.

Lemma zeros_length k : String.length (Sample.zeros k) = k.
Proof. induction k as [ | k IH ]; simpl; [ reflexivity | rewrite IH; reflexivity ]. Qed.

Lemma fresh_href_inj j k : Sample.fresh_href j = Sample.fresh_href k -> j = k.
Proof.
  intros H. apply (f_equal String.length) in H.
  unfold Sample.fresh_href in H. rewrite !length_append, !zeros_length in H. lia.
Qed.

Lemma endless_scan k :
  scan_articles (Sample.endless k)
  = [ {| href := Sample.fresh_href k; simple := true;
         inline := {| text := ""; imageUrls := [] |} |} ].
Proof. reflexivity. Qed.

Lemma endless_extract k st :
  Sample.ahead k st ->
  extract_result (Sample.calm Sample.endless) 0 false k st
  = (size st + 1,
     {| uniqueLinks := uniqueLinks st ++ [Sample.fresh_href k];
        foundIds := foundIds st + 1;
        processedTweets := processedTweets st |}).
Proof.
  intros Ha. unfold extract_result.
  change (rendered (Sample.calm Sample.endless) k) with (Sample.endless k).
  rewrite endless_scan.
  assert (Hnew : Js.has (Sample.fresh_href k) (uniqueLinks st) = false).
  { apply has_false_not_In. apply Ha. lia. }
  assert (Ht : Js.truthy (Sample.fresh_href k) = true) by reflexivity.
  cbn [scan_items href]. rewrite Ht, Hnew. cbn [negb andb].
  change (0 <? 0) with false. cbn [andb].
  unfold added_state. cbn [href simple andb fst snd].
  rewrite (set_add_new _ _ Hnew).
  unfold size. cbn [uniqueLinks]. rewrite length_app. cbn [length].
  f_equal. lia.
Qed.

(** On the endless timeline the loop is still running after any number
    of turns: nothing in it counts the scrolls. *)
Lemma endless_loop fuel : forall k prev same st,
  Sample.ahead k st -> prev <= size st ->
  scroll_states (Sample.calm Sample.endless) 0 0 false fuel k prev same false st = None.
Proof.
  induction fuel as [ | fuel IH ]; intros k prev same st Ha Hp; [ reflexivity | ].
  cbn [scroll_states]. cbn [negb andb Z.eqb orb].
  rewrite (endless_extract k st Ha). cbn [fst snd].
  assert (H1 : (size st + 1 =? -1) = false)
    by (apply Z.eqb_neq; pose proof (size_nonneg st); lia).
  assert (H2 : (size st + 1 =? prev) = false) by (apply Z.eqb_neq; lia).
  rewrite H1, H2. rewrite IH; [ reflexivity | | ].
  - intros j Hj Hin. cbn [uniqueLinks] in Hin. apply in_app_or in Hin.
    destruct Hin as [Hin | [Heq | []]].
    + apply (Ha j); [ lia | exact Hin ].
    + apply fresh_href_inj in Heq. lia.
  - unfold size. cbn [uniqueLinks]. rewrite length_app. cbn [length]. lia.
Qed.

Theorem no_bound_on_scrolls (fuel : nat) (w : world) :
  find_links (Sample.calm Sample.endless) Sample.profile 0 0 false "out" fuel w = None.
Proof.
  pose proof (find_links_returns (Sample.calm Sample.endless) Sample.profile
                0 0 false "out" fuel w) as Hret.
  assert (Hnone : returned_links (Sample.calm Sample.endless) 0 0 false fuel = None).
  { unfold returned_links.
    change (articles_found (Sample.calm Sample.endless)) with true. cbv iota.
    rewrite (endless_extract 0%nat initial_state) by (intros j _ []).
    cbn [fst snd]. change (size initial_state + 1 =? -1) with false. cbv iota.
    rewrite endless_loop; [ reflexivity | | ].
    - intros j Hj [Heq | []]. apply (fresh_href_inj 0 j) in Heq. lia.
    - apply size_nonneg. }
  rewrite Hnone in Hret. exact Hret.
Qed.

End EndlessFeed.

(** ** Reading the ids of a post *)

Section IdFacts.
Import Eff World Downloader Link.

Lemma append_empty s : (s ++ "")%string = s.
Proof. induction s as [ | c s IH ]; simpl; [ reflexivity | rewrite IH; reflexivity ]. Qed.

Lemma span_stops p s rest :
  Video.all_chars p s = true ->
  match rest with EmptyString => True | String c _ => p c = false end ->
  span p (s ++ rest)%string = (s, rest).
Proof.
  intros Hs Hr. induction s as [ | c s IH ]; simpl.
  - destruct rest as [ | c r ]; [ reflexivity | ]. simpl. rewrite Hr. reflexivity.
  - simpl in Hs. apply andb_true_iff in Hs. destruct Hs as [Hc Hs].
    rewrite Hc, (IH Hs). reflexivity.
Qed.

Lemma match_ids_here_well_formed u d rest :
  Js.truthy u = true -> Video.all_chars not_slash u = true ->
  Js.truthy d = true -> Video.all_chars Js.isDigit d = true ->
  ends_number rest = true ->
  match_ids_here ("https://x.com/" ++ u ++ "/status/" ++ d ++ rest)%string
  = Some {| userId := u; postId := d |}.
Proof.
  intros Hu Hus Hd Hds Hr. unfold match_ids_here.
  rewrite startsWith_append.
  change (Js.drop 14 ("https://x.com/" ++ u ++ "/status/" ++ d ++ rest)%string)
    with (u ++ "/status/" ++ d ++ rest)%string.
  change (fun c : ascii => negb (Ascii.eqb c "/")) with not_slash.
  rewrite (span_stops not_slash u ("/status/" ++ d ++ rest)%string Hus) by reflexivity.
  rewrite Hu, startsWith_append. cbn [andb].
  change (Js.drop 8 ("/status/" ++ d ++ rest)%string) with (d ++ rest)%string.
  rewrite (span_stops Js.isDigit d rest Hds).
  - rewrite Hd. reflexivity.
  - destruct rest as [ | c r ]; [ exact I | ]. simpl in Hr.
    apply negb_true_iff in Hr. exact Hr.
Qed.

Lemma match_ids_of_here s r : match_ids_here s = Some r -> match_ids s = Some r.
Proof. intros H. destruct s; cbn [match_ids]; rewrite H; reflexivity. Qed.

Lemma match_ids_none s : Js.includes "https://x.com/" s = false -> match_ids s = None.
Proof.
  induction s as [ | c s IH ]; intros H.
  - reflexivity.
  - cbn [Js.includes] in H. apply orb_false_iff in H. destruct H as [H1 H2].
    cbn [match_ids]. unfold match_ids_here. rewrite H1. apply IH. exact H2.
Qed.

Lemma match_ids_permalink u d :
  Js.truthy u = true -> Video.all_chars not_slash u = true ->
  Js.truthy d = true -> Video.all_chars Js.isDigit d = true ->
  match_ids (Main.url_of (permalink u d)) = Some {| userId := u; postId := d |}.
Proof.
  intros Hu Hus Hd Hds. apply match_ids_of_here.
  replace (Main.url_of (permalink u d))
    with ("https://x.com/" ++ u ++ "/status/" ++ d ++ "")%string
    by (rewrite append_empty; reflexivity).
  apply (match_ids_here_well_formed u d ""); try assumption. reflexivity.
Qed.

End IdFacts.

(** X1: [extractIds] reads a URL that begins with [https://x.com/],
    a user name without a slash, [/status/] and a run of digits: the
    user is the name, the post is the whole run of digits, and what
    follows the digits (a [/photo/1], a query) is ignored. *)
Theorem extractIds_reads_a_permalink (u d rest : string) (w : Eff.world) :
  Js.truthy u = true -> Video.all_chars Link.not_slash u = true ->
  Js.truthy d = true -> Video.all_chars Js.isDigit d = true ->
  Link.ends_number rest = true ->
  Downloader.extractIds ("https://x.com/" ++ u ++ "/status/" ++ d ++ rest)%string w
  = (Eff.Ret {| Downloader.userId := u; Downloader.postId := d |}, w).
Proof.
  intros Hu Hus Hd Hds Hr. unfold Downloader.extractIds.
  rewrite (match_ids_of_here _ _ (match_ids_here_well_formed u d rest Hu Hus Hd Hds Hr)).
  reflexivity.
Qed.

(** The link of a photo inside a post gives the ids of the post. *)
Lemma extractIds_reads_a_photo_link :
  Downloader.extractIds "https://x.com/jack/status/20/photo/1" Eff.empty_world
  = (Eff.Ret {| Downloader.userId := "jack"; Downloader.postId := "20" |}, Eff.empty_world).
Proof.
  apply (extractIds_reads_a_permalink "jack" "20" "/photo/1"); reflexivity.
Defined.

(** X2: a URL in which [https://x.com/] does not occur (another host,
    plain http, a bare path) is refused: [extractIds] throws the
    format error that quotes the URL, and touches nothing. *)
Theorem extractIds_rejects_other_sites (url : string) (w : Eff.world) :
  Js.includes "https://x.com/" url = false ->
  Downloader.extractIds url w
  = (Eff.Throw (Eff.Error ("Invalid tweet URL format: " ++ url)%string), w).
Proof.
  intros H. unfold Downloader.extractIds. rewrite (match_ids_none url H). reflexivity.
Qed.

(** A link to the old host is refused. *)
Lemma extractIds_rejects_twitter_com :
  Downloader.extractIds "https://twitter.com/jack/status/20" Eff.empty_world
  = (Eff.Throw (Eff.Error "Invalid tweet URL format: https://twitter.com/jack/status/20"),
     Eff.empty_world).
Proof. apply extractIds_rejects_other_sites. reflexivity. Defined.

(** ** Saving a simple post from the timeline *)

Section SplitFacts.
Import Link.

Lemma split_length sep s : length (Js.split sep s) = S (count_char sep s).
Proof.
  induction s as [ | c s IH ]; simpl; [ reflexivity | ].
  destruct (Ascii.eqb c sep); simpl; [ rewrite IH; reflexivity | ].
  destruct (Js.split sep s) as [ | h t ] eqn:Hs; [ discriminate | ]. exact IH.
Qed.

Lemma split_piece sep s rest :
  Video.all_chars (fun c => negb (Ascii.eqb c sep)) s = true ->
  Js.split sep (s ++ String sep rest)%string = s :: Js.split sep rest.
Proof.
  intros H. induction s as [ | c s IH ]; simpl.
  - rewrite Ascii.eqb_refl. reflexivity.
  - simpl in H. apply andb_true_iff in H. destruct H as [Hc Hs].
    apply negb_true_iff in Hc. rewrite Hc, (IH Hs). reflexivity.
Qed.

Lemma split_last sep s :
  Video.all_chars (fun c => negb (Ascii.eqb c sep)) s = true ->
  Js.split sep s = [s].
Proof.
  intros H. induction s as [ | c s IH ]; simpl; [ reflexivity | ].
  simpl in H. apply andb_true_iff in H. destruct H as [Hc Hs].
  apply negb_true_iff in Hc. rewrite Hc, (IH Hs). reflexivity.
Qed.

Lemma all_chars_weaken (p q : ascii -> bool) s :
  (forall c, p c = true -> q c = true) ->
  Video.all_chars p s = true -> Video.all_chars q s = true.
Proof.
  intros Hpq. induction s as [ | c s IH ]; simpl; [ reflexivity | ].
  intros H. apply andb_true_iff in H. destruct H as [Hc Hs].
  rewrite (Hpq c Hc), (IH Hs). reflexivity.
Qed.

Lemma digit_is_not_slash c : Js.isDigit c = true -> not_slash c = true.
Proof.
  intros H. unfold not_slash. destruct (Ascii.eqb c "/") eqn:Hc; [ | reflexivity ].
  apply Ascii.eqb_eq in Hc. subst c. discriminate.
Qed.

Lemma split_permalink u d :
  Video.all_chars not_slash u = true -> Video.all_chars Js.isDigit d = true ->
  Js.split "/" (permalink u d) = [""; u; "status"; d]%string.
Proof.
  intros Hu Hd.
  change (permalink u d)
    with ("" ++ String "/" (u ++ String "/" ("status" ++ String "/" d)))%string.
  rewrite split_piece by reflexivity.
  rewrite split_piece by exact Hu.
  rewrite split_piece by reflexivity.
  rewrite split_last; [ reflexivity | ].
  apply (all_chars_weaken Js.isDigit); [ apply digit_is_not_slash | exact Hd ].
Qed.

End SplitFacts.

Section SaveFacts.
Import Eff World Dom Downloader Main.
Variable E : env.

Lemma names_in_add_file_keeps w d n dir x :
  In x (names_in w dir) -> In x (names_in (add_file d n w) dir).
Proof.
  unfold names_in, add_file. simpl. destruct (file_exists w d n); [ auto | ].
  rewrite filter_app, map_app. intros H. apply in_or_app. left. exact H.
Qed.

Lemma names_in_add_file_same w dir n : In n (names_in (add_file dir n w) dir).
Proof.
  pose proof (file_exists_add_file_same w dir n) as H.
  unfold file_exists in H. apply existsb_exists in H. destruct H as ([d' n'] & Hin & Heq).
  unfold path_eqb in Heq. simpl in Heq. apply andb_true_iff in Heq.
  destruct Heq as [H1 H2]. apply String.eqb_eq in H1, H2. subst d' n'.
  unfold names_in. apply in_map_iff. exists (dir, n). split; [ reflexivity | ].
  apply filter_In. split; [ exact Hin | ]. simpl. apply String.eqb_refl.
Qed.

Lemma file_exists_add_file_inv w d n dir name :
  file_exists (add_file d n w) dir name = true ->
  file_exists w dir name = true \/ (dir = d /\ name = n).
Proof.
  unfold add_file, file_exists. cbn [files].
  destruct (existsb (path_eqb (d, n)) (files w)); [ auto | ].
  rewrite existsb_app. intros H. apply orb_true_iff in H.
  destruct H as [H | H]; [ left; exact H | right ].
  cbn [existsb] in H. rewrite orb_false_r in H.
  unfold path_eqb in H. cbn [fst snd] in H.
  apply andb_true_iff in H. destruct H as [H1 H2].
  apply String.eqb_eq in H1, H2. split; assumption.
Qed.

Lemma already_processed_add_file w d n dir post :
  already_processed w dir post = true ->
  already_processed (add_file d n w) dir post = true.
Proof.
  unfold already_processed. rewrite !orb_true_iff.
  intros [[[[[H | H] | H] | H] | H] | H];
    try (apply (file_exists_add_file_keeps w d n) in H; rewrite H; tauto).
  left. left. left. left. right.
  apply existsb_exists in H. destruct H as (x & Hx & Hi).
  apply existsb_exists. exists x. split; [ | exact Hi ].
  apply names_in_add_file_keeps. exact Hx.
Qed.

Lemma image_file_is_an_artifact w dir post n ext :
  In ext ["jpg"; "png"; "gif"]%string ->
  already_processed
    (add_file dir (post ++ "-" ++ decimal n ++ "." ++ ext)%string w) dir post = true.
Proof.
  intros Hext. unfold already_processed.
  assert (H : existsb (is_image_of post)
                (names_in (add_file dir (post ++ "-" ++ decimal n ++ "." ++ ext)%string w) dir)
              = true).
  { apply existsb_exists. eexists. split; [ apply names_in_add_file_same | ].
    apply numbered_image_is_image. exact Hext. }
  rewrite H. rewrite orb_true_r. reflexivity.
Qed.

Lemma writeFileSync_inv dir name w u w1 :
  writeFileSync E dir name w = (Ret u, w1) ->
  w1 = log (EvWrite dir name) (add_file dir name w).
Proof.
  unfold writeFileSync. destruct (fs_fault E (OpWrite dir name)); [ discriminate | ].
  intros H. inversion H. reflexivity.
Qed.

Lemma axios_get_inv url w u w1 :
  axios_get E url w = (Ret u, w1) -> w1 = log (EvHttpGet url true) w.
Proof.
  unfold axios_get. destruct (http_get E url).
  - unfold bind, emit, throw. discriminate.
  - unfold emit. intros H. inversion H. reflexivity.
Qed.

Lemma bind_ret_inv {A B} (m : M A) (k : A -> M B) w b w2 :
  bind m k w = (Ret b, w2) -> exists a w1, m w = (Ret a, w1) /\ k a w1 = (Ret b, w2).
Proof.
  unfold bind. destruct (m w) as [[a | e] w1]; [ | discriminate ].
  intros H. exists a, w1. split; [ reflexivity | exact H ].
Qed.

(** What a completed image loop leaves: the directories as they were,
    what the guard saw still there, and a numbered image when there
    was one to save. *)
Lemma save_images_inv post ud urls : forall i w u w1,
  save_images E post ud i urls w = (Ret u, w1) ->
  dirs w1 = dirs w
  /\ (already_processed w ud post = true -> already_processed w1 ud post = true)
  /\ (urls <> [] -> already_processed w1 ud post = true).
Proof.
  induction urls as [ | url rest IH ]; intros i w u w1 H.
  - simpl in H. inversion H; subst. split; [ reflexivity | ].
    split; [ auto | intros Hn; contradiction Hn; reflexivity ].
  - cbn [save_images] in H.
    apply bind_ret_inv in H. destruct H as ([] & w2 & H1 & H).
    apply axios_get_inv in H1. subst w2.
    apply bind_ret_inv in H. destruct H as ([] & w3 & H2 & H).
    apply writeFileSync_inv in H2.
    destruct (IH _ _ _ _ H) as (Hd & Hk & _).
    assert (Hseen : already_processed w3 ud post = true).
    { subst w3. apply image_file_is_an_artifact.
      destruct (Js.includes ".png" url); simpl; auto. }
    split; [ rewrite Hd; subst w3; reflexivity | ].
    split; intros _; apply Hk; exact Hseen.
Qed.

(** The directory set-up of [saveSimpleContent] is the one of
    [ensureOutputDir]. *)
Lemma setup_is_ensureOutputDir {B} out user (k : M B) w :
  (there <- existsSync_dir out ;;
   (if negb there then mkdirSync E out else ret tt) ;;
   there' <- existsSync_dir (path_join out user) ;;
   (if negb there' then mkdirSync E (path_join out user) else ret tt) ;;
   k) w
  = (ensureOutputDir E out user ;; k) w.
Proof.
  unfold ensureOutputDir, bind, existsSync_dir, ret.
  destruct (negb (dir_exists w out)).
  - destruct (mkdirSync E out w) as [[[] | e] w1]; [ | reflexivity ].
    destruct (negb (dir_exists w1 (path_join out user))); [ | reflexivity ].
    destruct (mkdirSync E (path_join out user) w1) as [[[] | e] w2]; reflexivity.
  - destruct (negb (dir_exists w (path_join out user))); [ | reflexivity ].
    destruct (mkdirSync E (path_join out user) w) as [[[] | e] w2]; reflexivity.
Qed.

(** The [try] block of [saveSimpleContent] for the link [/u/status/d]. *)
#[local] Abbreviation save_body u d c out :=
  (ensureOutputDir E out u ;;
   (if Js.truthy (text c) then writeFileSync E (path_join out u) (d ++ ".txt")
    else ret tt) ;;
   (if Nat.ltb 0 (length (imageUrls c))
    then save_images E d (path_join out u) 0 (imageUrls c) else ret tt) ;;
   ret true).

Lemma saveSimpleContent_permalink u d c out w :
  Video.all_chars Link.not_slash u = true -> Video.all_chars Js.isDigit d = true ->
  saveSimpleContent E (Link.permalink u d) c out w
  = try_catch (save_body u d c out) (fun _ => ret false) w.
Proof.
  intros Hu Hd. unfold saveSimpleContent, try_catch.
  rewrite (split_permalink u d Hu Hd). cbn [length nth].
  change (4 <? 4)%nat with false. cbv iota zeta.
  rewrite setup_is_ensureOutputDir. reflexivity.
Qed.

(** A direct save that answered [true] for the link [/u/status/d]. *)
Lemma saved_permalink u d c out w w1 :
  Video.all_chars Link.not_slash u = true -> Video.all_chars Js.isDigit d = true ->
  saveSimpleContent E (Link.permalink u d) c out w = (Ret true, w1) ->
  dir_exists w1 out = true
  /\ dir_exists w1 (path_join out u) = true
  /\ (Js.truthy (text c) = true \/ imageUrls c <> [] ->
      already_processed w1 (path_join out u) d = true).
Proof.
  intros Hu Hd. rewrite (saveSimpleContent_permalink u d c out w Hu Hd).
  unfold try_catch.
  destruct (save_body u d c out w) as [[b | e] w2] eqn:Hrun.
  2:{ cbv beta. unfold ret. intros H. discriminate H. }
  intros H. inversion H; subst b w2. clear H.
  apply bind_ret_inv in Hrun. destruct Hrun as (ud & wa & Hens & Hrun).
  apply ensureOutputDir_ok in Hens. destruct Hens as (-> & D1 & D2 & _).
  apply bind_ret_inv in Hrun. destruct Hrun as ([] & wb & Htext & Hrun).
  apply bind_ret_inv in Hrun. destruct Hrun as ([] & wc & Himg & Hrun).
  unfold ret in Hrun. inversion Hrun; subst wc. clear Hrun.
  assert (Hb : dirs wb = dirs wa
               /\ (Js.truthy (text c) = true ->
                   already_processed wb (path_join out u) d = true)).
  { destruct (Js.truthy (text c)).
    - apply writeFileSync_inv in Htext. subst wb. split; [ reflexivity | ].
      intros _. apply text_file_is_an_artifact.
      apply file_exists_add_file_same.
    - unfold ret in Htext. inversion Htext. split; [ reflexivity | discriminate ]. }
  destruct Hb as [Hdb Htb].
  assert (Hc : dirs w1 = dirs wb
               /\ (already_processed wb (path_join out u) d = true ->
                   already_processed w1 (path_join out u) d = true)
               /\ (imageUrls c <> [] -> already_processed w1 (path_join out u) d = true)).
  { destruct (imageUrls c) as [ | i0 rest ] eqn:Hi.
    - simpl in Himg. unfold ret in Himg. inversion Himg.
      split; [ reflexivity | ]. split; [ auto | intros Hn; contradiction Hn; reflexivity ].
    - apply (save_images_inv d (path_join out u) (i0 :: rest) 0%nat wb tt w1 Himg). }
  destruct Hc as (Hdc & Hkeep & Himgs).
  unfold dir_exists in *. rewrite Hdc, Hdb.
  split; [ exact D1 | ]. split; [ exact D2 | ].
  intros [Ht | Hi]; [ apply Hkeep, Htb, Ht | apply Himgs, Hi ].
Qed.

(** The text is written, then the first picture cannot be fetched. *)
Lemma save_breaks_at_the_first_picture u d c out w url rest e :
  Video.all_chars Link.not_slash u = true -> Video.all_chars Js.isDigit d = true ->
  Js.truthy (text c) = true ->
  imageUrls c = url :: rest ->
  http_get E url = Some e ->
  fs_fault E (OpMkdir out) = None ->
  fs_fault E (OpMkdir (path_join out u)) = None ->
  fs_fault E (OpWrite (path_join out u) (d ++ ".txt")%string) = None ->
  exists w0,
    ensureOutputDir E out u w = (Ret (path_join out u), w0)
    /\ saveSimpleContent E (Link.permalink u d) c out w
       = (Ret false,
          log (EvHttpGet url false)
            (log (EvWrite (path_join out u) (d ++ ".txt")%string)
               (add_file (path_join out u) (d ++ ".txt")%string w0))).
Proof.
  intros Hu Hd Ht Hi Hget F1 F2 F3.
  destruct (ensureOutputDir_no_fault E out u w F1 F2) as (w0 & Hens & _).
  exists w0. split; [ exact Hens | ].
  rewrite (saveSimpleContent_permalink u d c out w Hu Hd).
  unfold try_catch. rewrite (bind_eq _ _ _ _ _ Hens). rewrite Ht, Hi.
  cbn [length]. change (0 <? S (length rest))%nat with true. cbv iota.
  unfold bind at 1. unfold writeFileSync at 1. rewrite F3.
  cbn [save_images]. unfold bind at 1. unfold bind at 1.
  unfold axios_get. rewrite Hget. reflexivity.
Qed.

End SaveFacts.

(** X3: a simple post that was saved from the timeline is not fetched
    again. When [saveSimpleContent] answered [true] for the link
    [/u/status/d] and had a text or a picture to write, the extractor
    called on the URL of that link finds the files (if the directory
    can be listed), answers [false] and changes nothing. *)
Theorem direct_save_is_seen_by_the_resume_guard
    (E : World.env) (u d : string) (c : Dom.content) (out : string)
    (w w1 : Eff.world) :
  Js.truthy u = true -> Video.all_chars Link.not_slash u = true ->
  Js.truthy d = true -> Video.all_chars Js.isDigit d = true ->
  Main.saveSimpleContent E (Link.permalink u d) c out w = (Eff.Ret true, w1) ->
  Js.truthy (Dom.text c) = true \/ Dom.imageUrls c <> [] ->
  World.fs_fault E (Eff.OpReaddir (World.path_join out u)) = None ->
  Downloader.processTweetContent E (Main.url_of (Link.permalink u d)) out w1
  = (Eff.Ret false, w1).
Proof.
  intros Hu Hus Hd Hds Hsave Hsome Hlist.
  destruct (saved_permalink E u d c out w w1 Hus Hds Hsave) as (D1 & D2 & Hseen).
  apply (processTweetContent_skips E _ out {| Downloader.userId := u; Downloader.postId := d |}).
  - apply match_ids_permalink; assumption.
  - exact D1.
  - exact D2.
  - exact Hlist.
  - apply Hseen. exact Hsome.
Qed.

(** The text of post 1 was saved from the timeline; the extractor
    leaves the post alone. *)
Lemma a_saved_text_stops_the_extractor :
  Downloader.processTweetContent Cases.quiet "https://x.com/u/status/1" "out"
    Cases.after_direct_save
  = (Eff.Ret false, Cases.after_direct_save).
Proof.
  apply (direct_save_is_seen_by_the_resume_guard Cases.quiet "u" "1" Cases.text_only
           "out" Eff.empty_world Cases.after_direct_save); try reflexivity.
  left. reflexivity.
Defined.

(** X4: a link with fewer than three slashes has fewer than four parts:
    [saveSimpleContent] answers [false] for it and touches neither the
    disk nor the network. *)
Theorem saveSimpleContent_rejects_short_links
    (E : World.env) (href : string) (c : Dom.content) (out : string) (w : Eff.world) :
  (Link.count_char "/" href < 3)%nat ->
  Main.saveSimpleContent E href c out w = (Eff.Ret false, w).
Proof.
  intros H. unfold Main.saveSimpleContent, Eff.try_catch.
  rewrite split_length.
  destruct (S (Link.count_char "/" href) <? 4)%nat eqn:Hlt; [ reflexivity | ].
  apply Nat.ltb_ge in Hlt. lia.
Qed.

(** A link without its leading slash. *)
Lemma a_relative_link_is_not_saved :
  Main.saveSimpleContent Cases.quiet "u/status/1" Cases.text_only "out" Eff.empty_world
  = (Eff.Ret false, Eff.empty_world).
Proof. apply saveSimpleContent_rejects_short_links. simpl. lia. Defined.

(** X5: a save that breaks off is not undone. When the post has a text
    and the request for its first picture fails, [saveSimpleContent]
    answers [false] with the text file on the disk and no picture; the
    extractor, called on the post afterwards, finds the text file and
    skips the post, so that the pictures are not fetched later
    either. *)
Theorem a_failed_picture_leaves_a_text_only_save
    (E : World.env) (u d : string) (c : Dom.content) (out : string) (w : Eff.world)
    (url : string) (rest : list string) (e : Eff.error) :
  Js.truthy u = true -> Video.all_chars Link.not_slash u = true ->
  Js.truthy d = true -> Video.all_chars Js.isDigit d = true ->
  Js.truthy (Dom.text c) = true ->
  Dom.imageUrls c = url :: rest ->
  World.http_get E url = Some e ->
  World.fs_fault E (Eff.OpMkdir out) = None ->
  World.fs_fault E (Eff.OpMkdir (World.path_join out u)) = None ->
  World.fs_fault E (Eff.OpWrite (World.path_join out u) (d ++ ".txt")%string) = None ->
  World.fs_fault E (Eff.OpReaddir (World.path_join out u)) = None ->
  exists w1,
    Main.saveSimpleContent E (Link.permalink u d) c out w = (Eff.Ret false, w1)
    /\ Eff.file_exists w1 (World.path_join out u) (d ++ ".txt")%string = true
    /\ (forall dir name,
          Eff.file_exists w1 dir name = true ->
          Eff.file_exists w dir name = true
          \/ (dir = World.path_join out u /\ name = (d ++ ".txt")%string))
    /\ Downloader.processTweetContent E (Main.url_of (Link.permalink u d)) out w1
       = (Eff.Ret false, w1).
Proof.
  intros Hu Hus Hd Hds Ht Hi Hget F1 F2 F3 F4.
  destruct (save_breaks_at_the_first_picture E u d c out w url rest e
              Hus Hds Ht Hi Hget F1 F2 F3) as (w0 & Hens & Hsave).
  destruct (ensureOutputDir_ok E out u w _ w0 Hens) as (_ & D1 & D2 & Hfiles).
  eexists. split; [ exact Hsave | ].
  split; [ apply file_exists_add_file_same | ].
  split.
  { intros dir name Hex.
    assert (Hsame : Eff.file_exists w0 dir name = Eff.file_exists w dir name)
      by (unfold Eff.file_exists; rewrite Hfiles; reflexivity).
    rewrite <- Hsame. apply file_exists_add_file_inv. exact Hex. }
  apply (processTweetContent_skips E _ out {| Downloader.userId := u; Downloader.postId := d |}).
  - apply match_ids_permalink; assumption.
  - exact D1.
  - exact D2.
  - exact F4.
  - apply text_file_is_an_artifact. apply file_exists_add_file_same.
Qed.

(** Post 4 with a text and a picture, and an image server that
    refuses every request. *)
Lemma a_refused_picture_is_never_retried :
  exists w1,
    Main.saveSimpleContent (Sample.offline (fun _ => [])) "/u/status/4"
      Cases.text_and_picture "out" Eff.empty_world = (Eff.Ret false, w1)
    /\ Eff.file_exists w1 "out/u" "4.txt" = true
    /\ (forall dir name,
          Eff.file_exists w1 dir name = true ->
          Eff.file_exists Eff.empty_world dir name = true
          \/ (dir = "out/u"%string /\ name = "4.txt"%string))
    /\ Downloader.processTweetContent (Sample.offline (fun _ => []))
         "https://x.com/u/status/4" "out" w1
       = (Eff.Ret false, w1).
Proof.
  apply (a_failed_picture_leaves_a_text_only_save (Sample.offline (fun _ => []))
           "u" "4" Cases.text_and_picture "out" Eff.empty_world
           "https://pbs.twimg.com/media/a.jpg" []
           (Eff.Error "Request failed with status code 403")); reflexivity.
Defined.

(** ** A URL that does not parse *)

Section Malformed.
Import Eff World Downloader.
Variable E : env.

Lemma format_error_mentions_429 url :
  is429 (Error ("Invalid tweet URL format: " ++ url)%string) = Js.includes "429" url.
Proof. reflexivity. Qed.

Lemma processTweetContent_malformed url out w :
  match_ids url = None ->
  processTweetContent E url out w
  = if Js.includes "429" url
    then (Throw (Error ("Invalid tweet URL format: " ++ url)%string), w)
    else (Ret false, w).
Proof.
  intros Hm. unfold processTweetContent, try_catch, processTweetContent_try.
  unfold extractIds at 1. rewrite Hm. unfold bind at 1. unfold throw at 1.
  unfold processTweetContent_catch. rewrite format_error_mentions_429.
  destruct (Js.includes "429" url); [ | reflexivity ].
  unfold extractIds. rewrite Hm. reflexivity.
Qed.

End Malformed.

(** X6: a URL that [extractIds] cannot read never reaches the page or
    the disk, and the extractor answers [false] for it, unless the URL
    holds the digits 429: the format error quotes the URL, the catch
    block takes it for a rate limit and reads the URL again, and that
    second error leaves [processTweetContent]. The batch catches it,
    counts the URL as rate limited and pauses before the next one. *)
Theorem a_url_that_does_not_parse
    (E : World.env) (url out : string) (w : Eff.world) :
  Downloader.match_ids url = None ->
  Downloader.processTweetContent E url out w
  = (if Js.includes "429" url
     then (Eff.Throw (Eff.Error ("Invalid tweet URL format: " ++ url)%string), w)
     else (Eff.Ret false, w))
  /\ (forall sleepMs more s,
        Downloader.batch_step E url out sleepMs more s w
        = if Js.includes "429" url
          then (Eff.Ret (Downloader.bump_rateLimited s),
                if more then Eff.log (Eff.EvSleep sleepMs) w else w)
          else (Eff.Ret (Downloader.bump_skipped s), w)).
Proof.
  intros Hm. split; [ apply processTweetContent_malformed; exact Hm | ].
  intros sleepMs more s. unfold Downloader.batch_step, Eff.try_catch, Eff.bind.
  rewrite (processTweetContent_malformed E url out w Hm).
  destruct (Js.includes "429" url) eqn:H429.
  - cbv beta iota. rewrite format_error_mentions_429, H429.
    destruct more; reflexivity.
  - rewrite andb_false_r. reflexivity.
Qed.

(** A link to the old host whose post id holds 429. *)
Lemma an_old_link_counts_as_a_rate_limit :
  Downloader.processTweetContent Cases.quiet "https://twitter.com/u/status/1429" "out"
    Eff.empty_world
  = (Eff.Throw (Eff.Error "Invalid tweet URL format: https://twitter.com/u/status/1429"),
     Eff.empty_world)
  /\ (forall sleepMs more s,
        Downloader.batch_step Cases.quiet "https://twitter.com/u/status/1429" "out"
          sleepMs more s Eff.empty_world
        = (Eff.Ret (Downloader.bump_rateLimited s),
           if more then Eff.log (Eff.EvSleep sleepMs) Eff.empty_world
           else Eff.empty_world)).
Proof.
  apply (a_url_that_does_not_parse Cases.quiet "https://twitter.com/u/status/1429" "out"
           Eff.empty_world).
  reflexivity.
Defined.

(** ** Directories and posts that are there already *)



Section SavedPosts.
Import Eff World Downloader Resume.
Variable E : env.

Lemma on_disk_log out e w url : on_disk E out w url -> on_disk E out (log e w) url.
Proof. intros H. exact H. Qed.

Lemma batch_step_on_disk url out sleepMs more s w :
  on_disk E out w url ->
  batch_step E url out sleepMs more s w = (Ret (bump_skipped s), w).
Proof.
  intros (r & Hm & D1 & D2 & Hf & Hdone).
  unfold batch_step, try_catch, bind.
  rewrite (processTweetContent_skips E url out r w Hm D1 D2 Hf Hdone).
  rewrite andb_false_r. reflexivity.
Qed.

Lemma batch_loop_on_disk urls out sleepMs : forall s w,
  (forall url, In url urls -> on_disk E out w url) ->
  batch_loop E urls out sleepMs s w = (Ret (skipped_more (length urls) s), w).
Proof.
  induction urls as [ | url rest IH ]; intros s w Hall.
  - simpl. unfold ret, skipped_more. destruct s. simpl. rewrite Z.add_0_r. reflexivity.
  - cbn [batch_loop].
    rewrite (bind_eq _ _ _ _ _
               (batch_step_on_disk url out sleepMs (negb (is_nil rest)) s w
                  (Hall url (or_introl eq_refl)))).
    rewrite IH by (intros u Hu; apply Hall; right; exact Hu).
    unfold skipped_more, bump_skipped. cbn [processedCount skippedCount rateLimitedCount length].
    f_equal. f_equal. f_equal. lia.
Qed.

End SavedPosts.

(** X8: a batch over posts that are on the disk already is over at
    once. Every post is skipped: no page is opened, no file or
    directory is touched, there is no pause between two posts, and
    the summary counts them all as skipped. *)
Theorem a_batch_of_saved_posts_changes_nothing
    (E : World.env) (urls : list string) (out : string) (sleepMs : Z) (w : Eff.world) :
  (forall url, In url urls -> Resume.on_disk E out w url) ->
  Downloader.processMultipleTweets E urls out sleepMs w
  = (Eff.Ret tt,
     {| Eff.dirs := Eff.dirs w;
        Eff.files := Eff.files w;
        Eff.trace := Eff.trace w
                     ++ [ Eff.EvBatch urls; Eff.EvBlockRequests;
                          Eff.EvSummary 0 (Z.of_nat (length urls)) 0 ] |}).
Proof.
  intros Hall. unfold Downloader.processMultipleTweets, Eff.try_catch.
  unfold Eff.bind at 1. unfold Eff.emit at 1.
  unfold Eff.bind at 1. unfold Eff.emit at 1.
  rewrite (bind_eq _ _ _ _ _
             (batch_loop_on_disk E urls out sleepMs Downloader.zero_stats _
                (fun url Hu => on_disk_log E out _ _ url
                                 (on_disk_log E out _ _ url (Hall url Hu))))).
  unfold Eff.emit, Eff.log. cbn. rewrite <- !app_assoc. reflexivity.
Qed.

(** The post that was saved from the timeline, handed to the batch. *)
Lemma a_second_run_over_a_saved_post :
  Downloader.processMultipleTweets Cases.quiet ["https://x.com/u/status/1"%string] "out"
    5000 Cases.after_direct_save
  = (Eff.Ret tt,
     {| Eff.dirs := Eff.dirs Cases.after_direct_save;
        Eff.files := Eff.files Cases.after_direct_save;
        Eff.trace := Eff.trace Cases.after_direct_save
                     ++ [ Eff.EvBatch ["https://x.com/u/status/1"%string];
                          Eff.EvBlockRequests; Eff.EvSummary 0 1 0 ] |}).
Proof.
  apply (a_batch_of_saved_posts_changes_nothing Cases.quiet
           ["https://x.com/u/status/1"%string] "out" 5000 Cases.after_direct_save).
  intros url [<- | []].
  exists {| Downloader.userId := "u"; Downloader.postId := "1" |}.
  repeat split; reflexivity.
Defined.

(** ** One post at a time *)

Section FrameFacts.
Import Eff World Downloader Frame.

Variable E : env.
Variable out : string.
Variable ud : string.
Variable post : string.

#[local] Abbreviation R := (confined out ud post).
#[local] Abbreviation stays := (Frame.stays (confined out ud post)).

Lemma confined_refl w : R w w.
Proof. split; intros ? **; reflexivity. Qed.

Lemma confined_trans a b c : R a b -> R b c -> R a c.
Proof.
  intros [F1 D1] [F2 D2]. split.
  - intros dir name H. rewrite (F2 dir name H). apply F1. exact H.
  - intros d H1 H2. rewrite (D2 d H1 H2). apply D1; assumption.
Qed.

Lemma confined_log e w : R w (log e w).
Proof. split; intros ? **; reflexivity. Qed.

Lemma startsWith_after p q sfx :
  Js.startsWith (p ++ q)%string (p ++ sfx)%string = Js.startsWith q sfx.
Proof.
  unfold Js.startsWith. induction p as [ | c p IH ]; simpl; [ reflexivity | ].
  destruct (ascii_dec c c); [ exact IH | congruence ].
Qed.

Lemma dash_suffix x : own_suffix ("-" ++ x)%string = true.
Proof. unfold own_suffix. rewrite (startsWith_append "-" x). apply orb_true_r. Qed.

Lemma own_name_belongs sfx : own_suffix sfx = true -> belongs post (post ++ sfx)%string = true.
Proof. unfold own_suffix, belongs. rewrite !startsWith_after. auto. Qed.

Lemma own_name_differs sfx dir name :
  own_suffix sfx = true ->
  dir <> ud \/ belongs post name = false ->
  path_eqb (ud, (post ++ sfx)%string) (dir, name) = false.
Proof.
  intros Hs H. unfold path_eqb. cbn [fst snd].
  destruct (String.eqb ud dir) eqn:Hd; [ | reflexivity ].
  destruct (String.eqb (post ++ sfx) name) eqn:Hn; [ | reflexivity ].
  apply String.eqb_eq in Hd, Hn. subst dir name.
  destruct H as [H | H]; [ contradiction H; reflexivity | ].
  rewrite (own_name_belongs sfx Hs) in H. discriminate.
Qed.

Lemma path_eqb_sym p q : path_eqb p q = path_eqb q p.
Proof. unfold path_eqb. rewrite (String.eqb_sym (fst p)), (String.eqb_sym (snd p)). reflexivity. Qed.

Lemma file_exists_add_file_other w d n dir name :
  path_eqb (d, n) (dir, name) = false ->
  file_exists (add_file d n w) dir name = file_exists w dir name.
Proof.
  intros Hne. unfold add_file, file_exists. cbn [files].
  destruct (existsb (path_eqb (d, n)) (files w)); [ reflexivity | ].
  rewrite existsb_app. cbn [existsb]. rewrite path_eqb_sym, Hne.
  rewrite !orb_false_r. reflexivity.
Qed.

Lemma file_exists_remove_file_other w d n dir name :
  path_eqb (d, n) (dir, name) = false ->
  file_exists (remove_file d n w) dir name = file_exists w dir name.
Proof.
  intros Hne. unfold remove_file, file_exists. cbn [files].
  induction (files w) as [ | q l IH ]; [ reflexivity | ].
  cbn [filter existsb].
  destruct (path_eqb (d, n) q) eqn:Hq; cbn [negb existsb].
  - rewrite IH.
    assert (Hx : path_eqb (dir, name) q = false).
    { destruct (path_eqb (dir, name) q) eqn:Hx; [ | reflexivity ].
      exfalso. unfold path_eqb in *. cbn [fst snd] in *.
      apply andb_true_iff in Hq. destruct Hq as [H1 H2].
      apply andb_true_iff in Hx. destruct Hx as [H3 H4].
      apply String.eqb_eq in H1, H2, H3, H4. subst.
      rewrite !String.eqb_refl in Hne. discriminate. }
    rewrite Hx. reflexivity.
  - rewrite IH. reflexivity.
Qed.

Lemma dir_exists_add_dir_other w d d' :
  d' <> d -> dir_exists (add_dir d w) d' = dir_exists w d'.
Proof.
  intros Hne. unfold add_dir, dir_exists. cbn [dirs].
  destruct (Js.has d (dirs w)); [ reflexivity | ].
  unfold Js.has. rewrite existsb_app. cbn [existsb].
  destruct (String.eqb d' d) eqn:Hd; [ apply String.eqb_eq in Hd; contradiction | ].
  rewrite !orb_false_r. reflexivity.
Qed.

Lemma confined_add_file sfx w :
  own_suffix sfx = true -> R w (add_file ud (post ++ sfx)%string w).
Proof.
  intros Hs. split.
  - intros dir name H. apply file_exists_add_file_other. apply own_name_differs; assumption.
  - intros d _ _. reflexivity.
Qed.

Lemma confined_remove_file sfx w :
  own_suffix sfx = true -> R w (remove_file ud (post ++ sfx)%string w).
Proof.
  intros Hs. split.
  - intros dir name H. apply file_exists_remove_file_other. apply own_name_differs; assumption.
  - intros d _ _. reflexivity.
Qed.

Lemma confined_add_dir d w : d = out \/ d = ud -> R w (add_dir d w).
Proof.
  intros Hd. split.
  - intros dir name _. reflexivity.
  - intros d' H1 H2. apply dir_exists_add_dir_other. destruct Hd; congruence.
Qed.

Lemma stays_ret {A} (a : A) : stays (ret a).
Proof. intros w. apply confined_refl. Qed.

Lemma stays_throw {A} e : stays (@throw A e).
Proof. intros w. apply confined_refl. Qed.

Lemma stays_emit e : stays (emit e).
Proof. intros w. apply confined_log. Qed.

Lemma stays_bind {A B} (m : M A) (k : A -> M B) :
  stays m -> (forall a, stays (k a)) -> stays (bind m k).
Proof.
  intros Hm Hk w. unfold bind. specialize (Hm w).
  destruct (m w) as [[a | e] w1]; simpl in *; [ | exact Hm ].
  eapply confined_trans; [ exact Hm | apply Hk ].
Qed.

Lemma stays_try_catch {A} (body : M A) (handler : error -> M A) :
  stays body -> (forall e, stays (handler e)) -> stays (try_catch body handler).
Proof.
  intros Hm Hk w. unfold try_catch. specialize (Hm w).
  destruct (body w) as [[a | e] w1]; simpl in *; [ exact Hm | ].
  eapply confined_trans; [ exact Hm | apply Hk ].
Qed.

Lemma stays_existsSync dir name : stays (existsSync dir name).
Proof. intros w. apply confined_refl. Qed.

Lemma stays_readdirSync dir : stays (readdirSync E dir).
Proof.
  intros w. unfold readdirSync. destruct (fs_fault E (OpReaddir dir)); apply confined_refl.
Qed.

Lemma stays_writeFileSync sfx :
  own_suffix sfx = true -> stays (writeFileSync E ud (post ++ sfx)%string).
Proof.
  intros Hs w. unfold writeFileSync.
  destruct (fs_fault E (OpWrite ud (post ++ sfx)%string)); simpl.
  - apply confined_refl.
  - eapply confined_trans; [ apply confined_add_file; exact Hs | apply confined_log ].
Qed.

Lemma stays_downloadFile url sfx :
  own_suffix sfx = true -> stays (downloadFile E url ud (post ++ sfx)%string).
Proof.
  intros Hs w. unfold downloadFile. destruct (download E url); simpl;
    (eapply confined_trans; [ | apply confined_log ]);
    first [ apply confined_add_file; exact Hs | apply confined_remove_file; exact Hs ].
Qed.

Lemma stays_take_screenshot sfx :
  own_suffix sfx = true -> stays (take_screenshot E ud (post ++ sfx)%string).
Proof.
  intros Hs w. unfold take_screenshot.
  destruct (screenshot_ok E ud (post ++ sfx)%string); simpl.
  - eapply confined_trans; [ apply confined_add_file; exact Hs | apply confined_log ].
  - apply confined_log.
Qed.

Lemma stays_mkdirSync d : d = out \/ d = ud -> stays (mkdirSync E d).
Proof.
  intros Hd w. unfold mkdirSync. destruct (fs_fault E (OpMkdir d)); simpl.
  - apply confined_refl.
  - eapply confined_trans; [ apply confined_add_dir; exact Hd | apply confined_log ].
Qed.

Lemma stays_safeNavigate url : stays (safeNavigate E url).
Proof. unfold safeNavigate. apply stays_bind; [ apply stays_emit | intros; apply stays_ret ]. Qed.

Lemma stays_download_images urls : forall i, stays (download_images E post ud i urls).
Proof.
  induction urls as [ | url rest IH ]; intros i; cbn [download_images].
  - apply stays_ret.
  - apply stays_bind; [ apply stays_downloadFile; apply dash_suffix | intros; apply IH ].
Qed.

Lemma stays_extract_content url : stays (extract_content E url ud post).
Proof.
  unfold extract_content, extractAndSaveText, extractAndDownloadImages,
    extractAndDownloadVideos.
  repeat first
    [ apply stays_ret | apply stays_throw | apply stays_emit
    | apply stays_safeNavigate | apply stays_writeFileSync; reflexivity
    | apply stays_take_screenshot; reflexivity | apply stays_download_images
    | apply stays_bind; [ | intros ]
    | apply stays_try_catch; [ | intros ]
    | match goal with
      | |- Frame.stays _ (if ?b then _ else _) => destruct b
      end ].
Qed.

End FrameFacts.

Section FrameOfOnePost.
Import Eff World Downloader Frame.
Variable E : env.

Lemma stays_ensureOutputDir out post user :
  Frame.stays (confined out (path_join out user) post) (ensureOutputDir E out user).
Proof.
  unfold ensureOutputDir.
  repeat first
    [ apply stays_ret
    | apply stays_mkdirSync; auto
    | apply stays_bind; [ | intros ]
    | match goal with
      | |- Frame.stays _ (existsSync_dir _) => intros w; apply confined_refl
      | |- Frame.stays _ (if ?b then _ else _) => destruct b
      end ].
Qed.

Lemma ensureOutputDir_returns out user w a w1 :
  ensureOutputDir E out user w = (Ret a, w1) -> a = path_join out user.
Proof. intros H. apply (ensureOutputDir_ok E out user w a w1 H). Qed.

Lemma stays_after_setup out r url :
  Frame.stays (confined out (path_join out (userId r)) (postId r))
    (userDir <- ensureOutputDir E out (userId r) ;;
     let postId := postId r in
     hasTextFile <- existsSync userDir (postId ++ ".txt") ;;
     names <- readdirSync E userDir ;;
     let hasImageFiles := existsb (is_image_of postId) names in
     hasVideoFile <- existsSync userDir (postId ++ ".mp4") ;;
     hasVideoInfo <- existsSync userDir (postId ++ "-video-info.txt") ;;
     hasVideoError <- existsSync userDir (postId ++ "-video-error.txt") ;;
     hasScreenshot <- existsSync userDir (postId ++ "-video-player.png") ;;
     if hasTextFile || hasImageFiles || hasVideoFile || hasVideoInfo
        || hasVideoError || hasScreenshot
     then ret false
     else extract_content E url userDir postId).
Proof.
  intros w. unfold bind at 1.
  pose proof (stays_ensureOutputDir out (postId r) (userId r) w) as H0.
  destruct (ensureOutputDir E out (userId r) w) as [[a | e] w1] eqn:Hens;
    [ | exact H0 ].
  apply ensureOutputDir_returns in Hens. subst a. cbn [snd] in H0.
  eapply confined_trans; [ exact H0 | ].
  cbv zeta.
  assert (Hrest : Frame.stays (confined out (path_join out (userId r)) (postId r))
            (hasTextFile <- existsSync (path_join out (userId r)) (postId r ++ ".txt") ;;
             names <- readdirSync E (path_join out (userId r)) ;;
             hasVideoFile <- existsSync (path_join out (userId r)) (postId r ++ ".mp4") ;;
             hasVideoInfo <- existsSync (path_join out (userId r))
                               (postId r ++ "-video-info.txt") ;;
             hasVideoError <- existsSync (path_join out (userId r))
                                (postId r ++ "-video-error.txt") ;;
             hasScreenshot <- existsSync (path_join out (userId r))
                                (postId r ++ "-video-player.png") ;;
             if hasTextFile || existsb (is_image_of (postId r)) names || hasVideoFile
                || hasVideoInfo || hasVideoError || hasScreenshot
             then ret false
             else extract_content E url (path_join out (userId r)) (postId r))).
  { repeat first
      [ apply stays_ret | apply stays_existsSync | apply stays_readdirSync
      | apply stays_extract_content
      | apply stays_bind; [ | intros ]
      | match goal with
        | |- Frame.stays _ (if ?b then _ else _) => destruct b
        end ]. }
  apply Hrest.
Qed.

Lemma stays_processTweetContent out r url :
  match_ids url = Some r ->
  Frame.stays (confined out (path_join out (userId r)) (postId r))
    (processTweetContent E url out).
Proof.
  intros Hm. unfold processTweetContent.
  apply stays_try_catch.
  - unfold processTweetContent_try, extractIds. rewrite Hm.
    change (Frame.stays (confined out (path_join out (userId r)) (postId r))
              (userDir <- ensureOutputDir E out (userId r) ;;
               let postId := postId r in
               hasTextFile <- existsSync userDir (postId ++ ".txt") ;;
               names <- readdirSync E userDir ;;
               let hasImageFiles := existsb (is_image_of postId) names in
               hasVideoFile <- existsSync userDir (postId ++ ".mp4") ;;
               hasVideoInfo <- existsSync userDir (postId ++ "-video-info.txt") ;;
               hasVideoError <- existsSync userDir (postId ++ "-video-error.txt") ;;
               hasScreenshot <- existsSync userDir (postId ++ "-video-player.png") ;;
               if hasTextFile || hasImageFiles || hasVideoFile || hasVideoInfo
                  || hasVideoError || hasScreenshot
               then ret false
               else extract_content E url userDir postId)).
    apply stays_after_setup.
  - intros e. unfold processTweetContent_catch.
    destruct (is429 e); [ | apply stays_ret ].
    unfold extractIds. rewrite Hm.
    change (Frame.stays (confined out (path_join out (userId r)) (postId r))
              (userDir <- ensureOutputDir E out (userId r) ;;
               writeFileSync E userDir (postId r ++ "-rate-limited.txt") ;;
               ret false)).
    intros w. unfold bind at 1.
    pose proof (stays_ensureOutputDir out (postId r) (userId r) w) as H0.
    destruct (ensureOutputDir E out (userId r) w) as [[a | e1] w1] eqn:Hens;
      [ | exact H0 ].
    apply ensureOutputDir_returns in Hens. subst a. cbn [snd] in H0.
    eapply confined_trans; [ exact H0 | ].
    apply (stays_bind out); [ apply stays_writeFileSync; reflexivity | intros; apply stays_ret ].
Qed.

End FrameOfOnePost.



(** ** What the extractor downloads *)

Section FetchFacts.
Import Eff World Downloader Frame.
Variable E : env.
Variable pv : page_view.

#[local] Abbreviation P := (fetches_listed pv).

Lemma fetch_download_images post dir urls : forall i,
  (forall url, In url urls -> In url (pv_images pv) /\ media_url url = true) ->
  emits P (download_images E post dir i urls).
Proof.
  induction urls as [ | url rest IH ]; intros i Hall; cbn [download_images].
  - apply emits_ret.
  - apply emits_bind.
    + apply emits_downloadFile. intros ok. apply Hall. left. reflexivity.
    + intros _. apply IH. intros u Hu. apply Hall. right. exact Hu.
Qed.

Lemma fetch_images post dir : emits P (extractAndDownloadImages E pv post dir).
Proof.
  unfold extractAndDownloadImages.
  apply emits_try_catch; [ | intros; apply emits_ret ].
  destruct (pv_article pv); [ | apply emits_throw ].
  apply fetch_download_images. intros url Hin.
  apply filter_In in Hin. exact Hin.
Qed.

Ltac fetch_auto :=
  repeat first
    [ apply emits_ret
    | apply emits_throw
    | apply emits_emit; exact I
    | apply emits_existsSync_dir
    | apply emits_existsSync
    | apply emits_readdirSync
    | apply emits_mkdirSync; exact I
    | apply emits_writeFileSync; exact I
    | apply emits_take_screenshot; intros; exact I
    | apply fetch_images
    | apply emits_bind; [ | intros ]
    | apply emits_try_catch; [ | intros ]
    | match goal with
      | |- emits _ (if ?b then _ else _) => destruct b
      | |- emits _ (match ?x with _ => _ end) => destruct x
      end ].

Lemma fetch_processTweetContent url out :
  pv = tweet_page E url -> emits P (processTweetContent E url out).
Proof.
  intros Hpv.
  unfold processTweetContent, processTweetContent_try, processTweetContent_catch,
    extract_content, extractAndSaveText, extractAndDownloadVideos,
    ensureOutputDir, extractIds, safeNavigate.
  rewrite <- Hpv. fetch_auto.
Qed.

End FetchFacts.

(** X10: the only files the extractor fetches for a post are pictures
    that the page of the post lists and that pass the filter: the
    address holds [/media/] and neither [profile_images] nor
    [profile_banners]. *)
Theorem only_listed_pictures_are_fetched (E : World.env) (url out : string) :
  Eff.emits (Frame.fetches_listed (World.tweet_page E url))
    (Downloader.processTweetContent E url out).
Proof. apply fetch_processTweetContent. reflexivity. Qed.

(** ** How long a run can take *)

Section BoundedRun.
Import Eff World Dom Main Feed.

Variable E : env.
Variable max_id : Z.
Variable limit : Z.
Variable download_content : bool.
Variable B : Z.
Hypothesis bound :
  (0 < limit /\ B = limit) \/ (0 < max_id /\ B = max_id).

#[local] Abbreviation extract := (extract_result E limit download_content).
#[local] Abbreviation loop := (scroll_states E max_id limit download_content).

Lemma going_has_room st :
  sound st -> room limit st -> goes_on max_id false st = true -> size st < B.
Proof.
  intros Hs Hr Hgo. destruct bound as [[Hl ->] | [Hm ->]].
  - apply Hr. exact Hl.
  - unfold goes_on in Hgo. cbn [negb andb] in Hgo.
    apply orb_true_iff in Hgo. destruct Hgo as [Hgo | Hgo].
    + apply Z.eqb_eq in Hgo. lia.
    + apply Z.ltb_lt in Hgo. rewrite <- (sound_found st Hs). exact Hgo.
Qed.

Opaque extract_result.

(** Once the recorded size is the current one, every turn of the loop
    either adds a link or counts towards the three idle turns. *)
Lemma bounded_loop (m : nat) : forall k prev same st,
  sound st -> room limit st -> prev = size st -> 0 <= same ->
  3 * (B - size st) - Z.min same 2 <= Z.of_nat m ->
  exists n st',
    (n <= m)%nat
    /\ forall fuel, (n <= fuel)%nat -> loop fuel k prev same false st = Some (st', n).
Proof.
  induction m as [ | m IH ]; intros k prev same st Hs Hr Hp Hsame Hm.
  - exists 0%nat, st. split; [ lia | ]. intros fuel _.
    apply loop_stopped.
    destruct (goes_on max_id false st) eqn:Hgo; [ | reflexivity ].
    pose proof (going_has_room st Hs Hr Hgo). lia.
  - destruct (goes_on max_id false st) eqn:Hgo.
    2:{ exists 0%nat, st. split; [ lia | ]. intros fuel _.
        apply loop_stopped. exact Hgo. }
    pose proof (going_has_room st Hs Hr Hgo) as Hroom.
    destruct (extract_result_facts E limit download_content k st)
      as (I1 & I2 & I3 & I4 & I5 & _).
    pose proof (extends_size _ _ I1) as Hgrow.
    destruct (fst (extract k st) =? -1) eqn:Hhit.
    + exists 1%nat, (snd (extract k st)). split; [ lia | ].
      intros fuel Hf. destruct fuel as [ | fuel ]; [ lia | ].
      rewrite (loop_turn E max_id limit download_content fuel k prev same st Hgo), Hhit.
      reflexivity.
    + apply Z.eqb_neq in Hhit. specialize (I4 Hhit).
      assert (Hr1 : room limit (snd (extract k st))).
      { intros Hl. apply I5; [ exact Hl | apply Hr; exact Hl | exact Hhit ]. }
      destruct (fst (extract k st) =? prev) eqn:Hprev.
      * apply Z.eqb_eq in Hprev.
        destruct (3 <=? same + 1) eqn:Hthree.
        -- exists 1%nat, (snd (extract k st)). split; [ lia | ].
           intros fuel Hf. destruct fuel as [ | fuel ]; [ lia | ].
           rewrite (loop_turn E max_id limit download_content fuel k prev same st Hgo).
           apply Z.eqb_neq in Hhit. rewrite Hhit.
           apply Z.eqb_eq in Hprev. rewrite Hprev, Hthree.
           rewrite loop_stopped by reflexivity. reflexivity.
        -- apply Z.leb_gt in Hthree.
           destruct (IH (S k) prev (same + 1) (snd (extract k st)))
             as (n & st' & Hn & Hrun); [ apply I2, Hs | exact Hr1 | lia | lia | lia | ].
           exists (S n), st'. split; [ lia | ].
           intros fuel Hf. destruct fuel as [ | fuel ]; [ lia | ].
           rewrite (loop_turn E max_id limit download_content fuel k prev same st Hgo).
           apply Z.eqb_neq in Hhit. rewrite Hhit.
           apply Z.eqb_eq in Hprev. rewrite Hprev.
           replace (3 <=? same + 1) with false by (symmetry; apply Z.leb_gt; lia).
           rewrite Hrun by lia. reflexivity.
      * apply Z.eqb_neq in Hprev.
        destruct (IH (S k) (fst (extract k st)) 0 (snd (extract k st)))
          as (n & st' & Hn & Hrun); [ apply I2, Hs | exact Hr1 | exact I4 | lia | lia | ].
        exists (S n), st'. split; [ lia | ].
        intros fuel Hf. destruct fuel as [ | fuel ]; [ lia | ].
        rewrite (loop_turn E max_id limit download_content fuel k prev same st Hgo).
        apply Z.eqb_neq in Hhit. rewrite Hhit.
        apply Z.eqb_neq in Hprev. rewrite Hprev.
        rewrite Hrun by lia. reflexivity.
Qed.

(** The loop as [find_links] enters it: the recorded size is 0, not
    the size after the first extraction. *)
Lemma bounded_from_the_start st :
  sound st -> room limit st ->
  exists n st',
    (Z.of_nat n <= 3 * B)
    /\ forall fuel, (n <= fuel)%nat -> loop fuel 1 0 0 false st = Some (st', n).
Proof.
  intros Hs Hr.
  destruct (goes_on max_id false st) eqn:Hgo.
  2:{ exists 0%nat, st. split.
      - destruct bound as [[H ->] | [H ->]]; lia.
      - intros fuel _. apply loop_stopped. exact Hgo. }
  pose proof (going_has_room st Hs Hr Hgo) as Hroom.
  pose proof (size_nonneg st) as H0.
  destruct (extract_result_facts E limit download_content 1 st)
    as (I1 & I2 & I3 & I4 & I5 & _).
  pose proof (extends_size _ _ I1) as Hgrow.
  destruct (fst (extract 1%nat st) =? -1) eqn:Hhit.
  - exists 1%nat, (snd (extract 1%nat st)). split; [ lia | ].
    intros fuel Hf. destruct fuel as [ | fuel ]; [ lia | ].
    rewrite (loop_turn E max_id limit download_content fuel 1 0 0 st Hgo), Hhit.
    reflexivity.
  - apply Z.eqb_neq in Hhit. specialize (I4 Hhit).
    assert (Hr1 : room limit (snd (extract 1%nat st))).
    { intros Hl. apply I5; [ exact Hl | apply Hr; exact Hl | exact Hhit ]. }
    destruct (fst (extract 1%nat st) =? 0) eqn:Hprev.
    + apply Z.eqb_eq in Hprev.
      destruct (bounded_loop (Z.to_nat (3 * B - 1)) 2 0 1 (snd (extract 1%nat st)))
        as (n & st' & Hn & Hrun); [ apply I2, Hs | exact Hr1 | lia | lia | lia | ].
      exists (S n), st'. split; [ lia | ].
      intros fuel Hf. destruct fuel as [ | fuel ]; [ lia | ].
      rewrite (loop_turn E max_id limit download_content fuel 1 0 0 st Hgo).
      apply Z.eqb_neq in Hhit. rewrite Hhit.
      apply Z.eqb_eq in Hprev. rewrite Hprev.
      change (3 <=? 0 + 1) with false. change (0 + 1) with 1.
      rewrite Hrun by lia. reflexivity.
    + apply Z.eqb_neq in Hprev.
      destruct (bounded_loop (Z.to_nat (3 * B - 3)) 2 (fst (extract 1%nat st)) 0
                  (snd (extract 1%nat st)))
        as (n & st' & Hn & Hrun); [ apply I2, Hs | exact Hr1 | exact I4 | lia | lia | ].
      exists (S n), st'. split; [ lia | ].
      intros fuel Hf. destruct fuel as [ | fuel ]; [ lia | ].
      rewrite (loop_turn E max_id limit download_content fuel 1 0 0 st Hgo).
      apply Z.eqb_neq in Hhit. rewrite Hhit.
      apply Z.eqb_neq in Hprev. rewrite Hprev.
      rewrite Hrun by lia. reflexivity.
Qed.

Transparent extract_result.

Lemma returned_within_the_bound fuel :
  3 * B <= Z.of_nat fuel ->
  returned_links E max_id limit download_content fuel <> None.
Proof.
  intros Hfuel. unfold returned_links.
  destruct (articles_found E); [ | discriminate ].
  destruct (extract_result_facts E limit download_content 0 initial_state)
    as (I1 & I2 & I3 & I4 & I5 & _).
  destruct (fst (extract 0%nat initial_state) =? -1) eqn:Hhit; [ discriminate | ].
  apply Z.eqb_neq in Hhit.
  assert (Hr : room limit (snd (extract 0%nat initial_state))).
  { intros Hl. apply I5; [ exact Hl | exact Hl | exact Hhit ]. }
  destruct (bounded_from_the_start (snd (extract 0%nat initial_state))
              (I2 sound_initial) Hr) as (n & st' & Hn & Hrun).
  rewrite (Hrun fuel) by lia. discriminate.
Qed.

End BoundedRun.

(** X11: a link limit or a post bound bounds the run, whatever the
    timeline shows. Under a limit of [B] links, or when scrolling
    stops at [B] posts, [find_links] returns (or throws at the initial
    wait) after at most [3 * B] turns of the scroll loop. *)
Theorem a_limit_bounds_the_run
    (E : World.env) (initial_url : string) (max_id limit : Z) (download_content : bool)
    (output_dir : string) (B : Z) (fuel : nat) (w : Eff.world) :
  (0 < limit /\ B = limit) \/ (0 < max_id /\ B = max_id) ->
  3 * B <= Z.of_nat fuel ->
  exists r w',
    Main.find_links E initial_url max_id limit download_content output_dir fuel w
    = Some (r, w').
Proof.
  intros Hb Hfuel.
  pose proof (find_links_returns E initial_url max_id limit download_content
                output_dir fuel w) as Hret.
  pose proof (returned_within_the_bound E max_id limit download_content B Hb fuel Hfuel)
    as Hsome.
  destruct (Main.returned_links E max_id limit download_content fuel) as [r | ];
    [ | contradiction ].
  destruct Hret as (w' & Hret). exists r, w'. exact Hret.
Qed.

(** The endless timeline under a limit of two links: six turns are
    enough. *)
Lemma two_links_of_an_endless_feed :
  exists r w',
    Main.find_links (Sample.calm Sample.endless) Sample.profile 0 2 false "out" 6
      Eff.empty_world
    = Some (r, w').
Proof.
  apply (a_limit_bounds_the_run (Sample.calm Sample.endless) Sample.profile 0 2 false
           "out" 2 6 Eff.empty_world).
  - left. split; [ reflexivity | reflexivity ].
  - vm_compute. discriminate.
Defined.

(** ** The links and the timeline *)

Section FeedFacts.
Import Eff World Dom Main Feed.

Variable E : env.
Variable max_id : Z.
Variable limit : Z.
Variable download_content : bool.

#[local] Abbreviation extract := (extract_result E limit download_content).
#[local] Abbreviation loop := (scroll_states E max_id limit download_content).

(** A link of the state after a scan was there before or is the link
    of one of the scanned posts. *)
Lemma scan_items_origin items : forall st h,
  In h (uniqueLinks (snd (scan_items limit download_content items st))) ->
  In h (uniqueLinks st)
  \/ exists it, In it items /\ href it = h /\ Js.truthy h = true.
Proof.
  induction items as [ | x rest IH ]; intros st h Hin; [ left; exact Hin | ].
  cbn [scan_items] in Hin.
  destruct (Js.truthy (href x) && negb (Js.has (href x) (uniqueLinks st))) eqn:Hnew.
  - apply andb_true_iff in Hnew. destruct Hnew as [Ht _].
    assert (Hadded : In h (uniqueLinks (added_state download_content x st)) ->
                     In h (uniqueLinks st)
                     \/ exists it, In it (x :: rest) /\ href it = h /\ Js.truthy h = true).
    { cbn [added_state uniqueLinks]. intros H. apply set_add_inv in H.
      destruct H as [-> | H]; [ right | left; exact H ].
      exists x. split; [ left; reflexivity | split; [ reflexivity | exact Ht ] ]. }
    destruct ((0 <? limit) && (limit <=? size (added_state download_content x st))).
    + apply Hadded. exact Hin.
    + destruct (IH _ _ Hin) as [H | (it & Hit & Hh)].
      * apply Hadded. exact H.
      * right. exists it. split; [ right; exact Hit | exact Hh ].
  - destruct (IH _ _ Hin) as [H | (it & Hit & Hh)]; [ left; exact H | ].
    right. exists it. split; [ right; exact Hit | exact Hh ].
Qed.

Lemma extract_origin k st h :
  In h (uniqueLinks (snd (extract k st))) ->
  In h (uniqueLinks st) \/ shows E k h.
Proof. unfold extract_result. cbn [snd]. apply scan_items_origin. Qed.

Lemma drawn_before_later j k st : (j <= k)%nat -> drawn_before E j st -> drawn_before E k st.
Proof.
  intros Hjk H h Hh. destruct (H h Hh) as (i & Hi & Hs). exists i. split; [ lia | exact Hs ].
Qed.

Lemma extract_drawn k st :
  drawn_before E k st -> drawn_before E (S k) (snd (extract k st)).
Proof.
  intros Hd h Hh. apply extract_origin in Hh. destruct Hh as [Hh | Hh].
  - destruct (Hd h Hh) as (j & Hj & Hs). exists j. split; [ lia | exact Hs ].
  - exists k. split; [ lia | exact Hh ].
Qed.

Opaque extract_result.

Lemma loop_drawn fuel : forall k prev same rb st st' n,
  loop fuel k prev same rb st = Some (st', n) ->
  drawn_before E k st -> drawn_before E (k + n) st'.
Proof.
  induction fuel as [ | fuel IH ]; intros k prev same rb st st' n; cbn [scroll_states].
  - destruct (negb rb && ((max_id =? 0) || (foundIds st <? max_id))); [ discriminate | ].
    intros H. injection H as <- <-. rewrite Nat.add_0_r. auto.
  - destruct (negb rb && ((max_id =? 0) || (foundIds st <? max_id))).
    2:{ intros H. injection H as <- <-. rewrite Nat.add_0_r. auto. }
    destruct (fst (extract k st) =? -1).
    + intros H. injection H as <- <-. intros Hd.
      replace (k + 1)%nat with (S k) by lia. apply extract_drawn. exact Hd.
    + match goal with
      | |- match ?X with _ => _ end = _ -> _ =>
          destruct X as [[st2 n2] | ] eqn:Hrec; [ | discriminate ]
      end.
      intros H. injection H as <- <-. intros Hd.
      replace (k + S n2)%nat with (S k + n2)%nat by lia.
      destruct (fst (extract k st) =? prev);
        (eapply IH; [ exact Hrec | apply extract_drawn; exact Hd ]).
Qed.

Transparent extract_result.

Lemma drawn_initial : drawn_before E 0 initial_state.
Proof. intros h []. Qed.

Lemma apply_limit_incl l u : In u (apply_limit limit l) -> In u l.
Proof.
  unfold apply_limit.
  destruct ((0 <? limit) && (limit <? Z.of_nat (length l))); [ | auto ].
  intros H. rewrite <- (firstn_skipn (Z.to_nat limit) l). apply in_or_app. left. exact H.
Qed.

Lemma returned_links_origin fuel r u :
  returned_links E max_id limit download_content fuel = Some (Ret r) ->
  In u r -> exists k h, shows E k h /\ u = url_of h.
Proof.
  unfold returned_links.
  destruct (articles_found E); [ | discriminate ].
  pose proof (extract_drawn 0 initial_state drawn_initial) as H0.
  destruct (fst (extract 0%nat initial_state) =? -1).
  - intros H. injection H as <-. intros Hu.
    apply in_map_iff in Hu. destruct Hu as (h & <- & Hh).
    destruct (H0 h Hh) as (j & _ & Hs). exists j, h. split; [ exact Hs | reflexivity ].
  - destruct (loop fuel 1%nat 0 0 false (snd (extract 0%nat initial_state)))
      as [[st n] | ] eqn:Hloop; [ | discriminate ].
    intros H. injection H as <-. intros Hu.
    apply apply_limit_incl in Hu.
    apply in_map_iff in Hu. destruct Hu as (h & <- & Hh).
    destruct (loop_drawn _ _ _ _ _ _ _ _ Hloop H0 h Hh) as (j & _ & Hs).
    exists j, h. split; [ exact Hs | reflexivity ].
Qed.

End FeedFacts.

(** X12: [find_links] returns nothing of its own making: every URL in
    its list is [https://x.com] followed by a link that one of the
    page queries yielded. *)
Theorem every_returned_link_was_on_the_page
    (E : World.env) (initial_url : string) (max_id limit : Z) (download_content : bool)
    (output_dir : string) (fuel : nat) (w : Eff.world) (r : list string) (w' : Eff.world)
    (u : string) :
  Main.find_links E initial_url max_id limit download_content output_dir fuel w
    = Some (Eff.Ret r, w') ->
  In u r ->
  exists k h, Feed.shows E k h /\ u = Main.url_of h.
Proof.
  intros Hrun Hu.
  pose proof (find_links_returns E initial_url max_id limit download_content
                output_dir fuel w) as Hret.
  destruct (Main.returned_links E max_id limit download_content fuel) as [r0 | ] eqn:Hval.
  2:{ rewrite Hrun in Hret. discriminate. }
  destruct Hret as (w1 & Hret). rewrite Hrun in Hret. injection Hret as <- _.
  apply (returned_links_origin E max_id limit download_content fuel r u Hval Hu).
Qed.

(** The second link of a run under a limit of two. *)
Lemma the_second_link_was_on_the_page :
  exists k h,
    Feed.shows (Sample.calm Sample.one_then_three) k h
    /\ "https://x.com/u/status/2"%string = Main.url_of h.
Proof.
  eapply (every_returned_link_was_on_the_page (Sample.calm Sample.one_then_three)
            Sample.profile 0 2 true "out" 10 Eff.empty_world
            ["https://x.com/u/status/1"; "https://x.com/u/status/2"]%string).
  - vm_compute. reflexivity.
  - right. left. reflexivity.
Defined.

(** ** A run without limits *)

Section FreshFeed.
Import Eff World Dom Main Feed.

Variable E : env.
Variable download_content : bool.
Hypothesis fresh : ever_fresh E.

#[local] Abbreviation extract := (extract_result E 0 download_content).
#[local] Abbreviation loop := (scroll_states E 0 0 download_content).

Lemma scan_items_no_limit items : forall st,
  fst (scan_items 0 download_content items st) = false.
Proof.
  induction items as [ | x rest IH ]; intros st; cbn [scan_items]; [ reflexivity | ].
  destruct (Js.truthy (href x) && negb (Js.has (href x) (uniqueLinks st))); apply IH.
Qed.

(** A query of the fresh feed makes the link set grow. *)
Lemma fresh_extract_grows k st :
  drawn_before E k st ->
  fst (extract k st) = size (snd (extract k st))
  /\ size st < size (snd (extract k st)).
Proof.
  intros Hd.
  destruct (fresh k) as (h & (it & Hit & Hh & Ht) & Hnew).
  unfold extract_result. cbn [fst snd].
  rewrite scan_items_no_limit. split; [ reflexivity | ].
  pose proof (scan_items_all_added 0 download_content (scan_articles (rendered E k)) st
                (scan_items_no_limit _ st) it Hit) as Hin.
  rewrite Hh in Hin. specialize (Hin Ht).
  destruct (scan_items_facts 0 download_content (scan_articles (rendered E k)) st)
    as ((added & Hadd) & _).
  assert (Hnot : ~ In h (uniqueLinks st)).
  { intros Hold. destruct (Hd h Hold) as (j & Hj & Hs). apply (Hnew j Hj Hs). }
  rewrite Hadd in Hin. apply in_app_or in Hin. destruct Hin as [Hin | Hin]; [ contradiction | ].
  unfold size. rewrite Hadd, length_app.
  destruct added; [ destruct Hin | simpl; lia ].
Qed.

Opaque extract_result.

Lemma fresh_loop fuel : forall k prev same st,
  drawn_before E k st -> prev <= size st ->
  loop fuel k prev same false st = None.
Proof.
  induction fuel as [ | fuel IH ]; intros k prev same st Hd Hp; [ reflexivity | ].
  cbn [scroll_states]. cbn [negb andb Z.eqb orb].
  destruct (fresh_extract_grows k st Hd) as [Hcur Hgrow].
  pose proof (size_nonneg st) as H0.
  rewrite Hcur.
  replace (size (snd (extract k st)) =? -1) with false by (symmetry; apply Z.eqb_neq; lia).
  replace (size (snd (extract k st)) =? prev) with false by (symmetry; apply Z.eqb_neq; lia).
  rewrite IH; [ reflexivity | | lia ].
  apply (extract_drawn E 0 download_content). exact Hd.
Qed.

Transparent extract_result.

Lemma fresh_feed_returns_nothing fuel :
  articles_found E = true -> returned_links E 0 0 download_content fuel = None.
Proof.
  intros Hfound. unfold returned_links. rewrite Hfound.
  destruct (fresh_extract_grows 0 initial_state (drawn_initial E)) as [Hcur Hgrow].
  pose proof (size_nonneg initial_state) as H0.
  rewrite Hcur.
  replace (size (snd (extract 0%nat initial_state)) =? -1)
    with false by (symmetry; apply Z.eqb_neq; lia).
  rewrite fresh_loop; [ reflexivity | | lia ].
  apply (extract_drawn E 0 download_content). apply drawn_initial.
Qed.

End FreshFeed.

(** X13: nothing but the two bounds and the three idle turns ends the
    scroll loop. With neither bound set, on a timeline on which every
    query yields a link that was not there before, [find_links] is
    still scrolling after any number of turns. *)
Theorem without_limits_a_fresh_feed_never_ends
    (E : World.env) (initial_url : string) (download_content : bool)
    (output_dir : string) (fuel : nat) (w : Eff.world) :
  Feed.ever_fresh E ->
  Main.articles_found E = true ->
  Main.find_links E initial_url 0 0 download_content output_dir fuel w = None.
Proof.
  intros Hfresh Hfound.
  pose proof (find_links_returns E initial_url 0 0 download_content output_dir fuel w)
    as Hret.
  rewrite (fresh_feed_returns_nothing E download_content Hfresh fuel Hfound) in Hret.
  exact Hret.
Qed.

Section EndlessIsFresh.
Import Eff World Dom Main Feed.

Lemma endless_shows k h : shows (Sample.calm Sample.endless) k h <-> h = Sample.fresh_href k.
Proof.
  unfold shows. change (rendered (Sample.calm Sample.endless) k) with (Sample.endless k).
  rewrite endless_scan. split.
  - intros (it & [<- | []] & <- & _). reflexivity.
  - intros ->. eexists. split; [ left; reflexivity | ]. split; reflexivity.
Qed.

Lemma endless_is_fresh : ever_fresh (Sample.calm Sample.endless).
Proof.
  intros k. exists (Sample.fresh_href k). split; [ apply endless_shows; reflexivity | ].
  intros j Hj Hs. apply endless_shows in Hs. apply fresh_href_inj in Hs. lia.
Qed.

End EndlessIsFresh.

(** A thousand turns into the timeline that shows one new post at
    every query. *)
Lemma a_thousand_turns_are_not_enough :
  Main.find_links (Sample.calm Sample.endless) Sample.profile 0 0 true "out" 1000
    Eff.empty_world = None.
Proof.
  apply (without_limits_a_fresh_feed_never_ends (Sample.calm Sample.endless)
           Sample.profile true "out" 1000 Eff.empty_world).
  - apply endless_is_fresh.
  - reflexivity.
Defined.

(** ** The end of the loop *)

(** X14: the [slice] after the loop has nothing to cut. Whenever the
    loop has come to an end, the link set is within a positive limit,
    the limit is applied to no effect, and [find_links] returns the
    list of all the links that were found. *)
Theorem the_final_slice_cuts_nothing
    (E : World.env) (initial_url : string) (max_id limit : Z) (download_content : bool)
    (output_dir : string) (fuel : nat) (st : Main.dstate) (looped : bool) (w : Eff.world) :
  Main.articles_found E = true ->
  Main.final_state E max_id limit download_content fuel = Some (st, looped) ->
  (0 < limit -> Main.size st <= limit)
  /\ Main.apply_limit limit (Main.to_urls (Main.uniqueLinks st))
     = Main.to_urls (Main.uniqueLinks st)
  /\ exists w',
       Main.find_links E initial_url max_id limit download_content output_dir fuel w
       = Some (Eff.Ret (Main.to_urls (Main.uniqueLinks st)), w').
Proof.
  intros Hfound Hfin.
  destruct (final_state_facts E max_id limit download_content fuel st looped Hfin)
    as [_ Hsize].
  split; [ exact Hsize | ].
  split; [ apply apply_limit_within; rewrite to_urls_length; exact Hsize | ].
  pose proof (find_links_returns E initial_url max_id limit download_content
                output_dir fuel w) as Hret.
  rewrite (final_state_returned E max_id limit download_content fuel st looped
             Hfound Hfin) in Hret.
  exact Hret.
Qed.

(** The run that reaches a limit of two one scroll after the start. *)
Lemma nothing_to_cut_at_a_limit_of_two :
  (0 < 2 -> Main.size Cases.two_links <= 2)
  /\ Main.apply_limit 2 (Main.to_urls (Main.uniqueLinks Cases.two_links))
     = Main.to_urls (Main.uniqueLinks Cases.two_links)
  /\ exists w',
       Main.find_links (Sample.calm Sample.one_then_three) Sample.profile 0 2 true "out"
         10 Eff.empty_world
       = Some (Eff.Ret (Main.to_urls (Main.uniqueLinks Cases.two_links)), w').
Proof.
  apply (the_final_slice_cuts_nothing (Sample.calm Sample.one_then_three) Sample.profile
           0 2 true "out" 10 Cases.two_links true Eff.empty_world).
  - reflexivity.
  - vm_compute. reflexivity.
Defined.

(** X15: when the timeline yields no new link from the [K]-th query
    on, [find_links] comes to an end within [K + 4] turns of the loop,
    and how many more turns it is allowed makes no difference to what
    it returns. *)
Theorem a_feed_that_dries_up_ends_the_run
    (E : World.env) (initial_url : string) (max_id limit : Z) (download_content : bool)
    (output_dir : string) (K : nat) :
  Main.dries_up E K ->
  exists r,
    forall fuel w,
      (K + 4 <= fuel)%nat ->
      exists w',
        Main.find_links E initial_url max_id limit download_content output_dir fuel w
        = Some (r, w').
Proof.
  intros Hdry.
  assert (Hsame : exists r, forall fuel,
             (K + 4 <= fuel)%nat ->
             Main.returned_links E max_id limit download_content fuel = Some r).
  { unfold Main.returned_links.
    destruct (Main.articles_found E); [ | eexists; intros; reflexivity ].
    destruct (fst (Main.extract_result E limit download_content 0 Main.initial_state) =? -1)
      eqn:Hhit; [ eexists; intros; reflexivity | ].
    assert (Hc : Main.covers E 1
                   (snd (Main.extract_result E limit download_content 0 Main.initial_state))).
    { apply covers_step; [ apply covers_nothing | apply Z.eqb_neq; exact Hhit ]. }
    destruct (loop_stops E max_id limit download_content (S K) (dries_up_later E K Hdry)
                K 1%nat
                (snd (Main.extract_result E limit download_content 0 Main.initial_state))
                0 0 false)
      as (n & st' & Hn & Hrun); [ lia | exact Hc | lia | ].
    eexists. intros fuel Hfuel. rewrite (Hrun fuel) by lia. reflexivity. }
  destruct Hsame as (r & Hsame). exists r. intros fuel w Hfuel.
  pose proof (find_links_returns E initial_url max_id limit download_content
                output_dir fuel w) as Hret.
  rewrite (Hsame fuel Hfuel) in Hret. exact Hret.
Qed.

(** One post on the timeline and nothing more to come. *)
Lemma one_post_and_nothing_more :
  exists r,
    forall fuel w,
      (1 + 4 <= fuel)%nat ->
      exists w',
        Main.find_links (Sample.calm (fun _ => Sample.one_post)) Sample.profile 0 0 false
          "out" fuel w
        = Some (r, w').
Proof.
  apply (a_feed_that_dries_up_ends_the_run (Sample.calm (fun _ => Sample.one_post))
           Sample.profile 0 0 false "out" 1).
  intros j it Hj Hit Ht. exists 0%nat, it.
  split; [ lia | split; [ exact Hit | reflexivity ] ].
Defined.

(** ** The segments of a video *)

Section CaptureFacts.
Import Segments.

Lemma captured_snoc reqs url : captured (reqs ++ [url]) = on_request (captured reqs) url.
Proof. unfold captured. rewrite fold_left_app. reflexivity. Qed.

Lemma captured_filters reqs :
  videoSegments (captured reqs) = filter is_video reqs
  /\ audioSegments (captured reqs) = filter is_audio reqs.
Proof.
  induction reqs as [ | url reqs IH ] using rev_ind; [ split; reflexivity | ].
  rewrite captured_snoc, !filter_app. destruct IH as [IHv IHa].
  unfold on_request, is_video, is_audio. cbn [filter].
  destruct (Js.includes ".m4s" url), (Js.includes "/vid/" url),
    (Js.includes "/aud/" url); cbn [andb negb videoSegments audioSegments];
    rewrite ?app_nil_r, IHv, IHa; split; reflexivity.
Qed.

End CaptureFacts.

(** X16: the route handler sorts the requests into two lists and
    keeps their order. The video list holds the requests whose address
    contains [.m4s] and [/vid/]; the audio list those that contain
    [.m4s] and [/aud/] but not [/vid/]; no request is in both, and a
    request without [.m4s] is in neither. *)
Theorem the_capture_sorts_the_requests (requests : list string) :
  Segments.videoSegments (Segments.captured requests)
  = filter Segments.is_video requests
  /\ Segments.audioSegments (Segments.captured requests)
     = filter Segments.is_audio requests
  /\ (forall url,
        In url (Segments.videoSegments (Segments.captured requests)) ->
        In url (Segments.audioSegments (Segments.captured requests)) -> False)
  /\ (forall url,
        Js.includes ".m4s" url = false ->
        ~ In url (Segments.videoSegments (Segments.captured requests))
        /\ ~ In url (Segments.audioSegments (Segments.captured requests))).
Proof.
  destruct (captured_filters requests) as [Hv Ha]. rewrite Hv, Ha.
  split; [ reflexivity | ]. split; [ reflexivity | ]. split.
  - intros url H1 H2. apply filter_In in H1, H2.
    destruct H1 as [_ H1]. destruct H2 as [_ H2].
    unfold Segments.is_video, Segments.is_audio in *.
    destruct (Js.includes ".m4s" url), (Js.includes "/vid/" url); discriminate.
  - intros url Hm. unfold Segments.is_video, Segments.is_audio.
    split; intros H; apply filter_In in H; destruct H as [_ H];
      rewrite Hm in H; discriminate.
Qed.

(** *** Zero-padded numbers and their order *)

Section DecimalOrder.
Import Segments.

#[local] Abbreviation dv s a := (Js.digits_value 10 s (Some a)).
#[local] Abbreviation len s := (Z.of_nat (String.length s)).

Lemma digit_value_of c :
  Js.isDigit c = true ->
  exists d, Js.digit_value 10 c = Some d /\ 0 <= d <= 9
            /\ d = Z.of_nat (nat_of_ascii c) - 48.
Proof.
  unfold Js.isDigit, Js.digit_value. intros H.
  apply andb_true_iff in H. destruct H as [H1 H2].
  apply Nat.leb_le in H1, H2.
  replace ((48 <=? Z.of_nat (nat_of_ascii c)) && (Z.of_nat (nat_of_ascii c) <=? 57))
    with true by (symmetry; apply andb_true_iff; split; apply Z.leb_le; lia).
  exists (Z.of_nat (nat_of_ascii c) - 48).
  replace (Z.of_nat (nat_of_ascii c) - 48 <? 10) with true
    by (symmetry; apply Z.ltb_lt; lia).
  split; [ reflexivity | ]. split; [ lia | reflexivity ].
Qed.

Lemma dv_digits s :
  Video.all_chars Js.isDigit s = true ->
  exists v, 0 <= v < 10 ^ len s /\ forall a, dv s a = Some (a * 10 ^ len s + v).
Proof.
  induction s as [ | c s IH ]; intros H.
  - exists 0. split; [ simpl; lia | ]. intros a. simpl. f_equal. lia.
  - cbn [Video.all_chars] in H. apply andb_true_iff in H. destruct H as [Hc Hs].
    destruct (IH Hs) as (v & Hv & Hdv).
    destruct (digit_value_of c Hc) as (d & Hd & Hr & _).
    exists (d * 10 ^ len s + v).
    assert (Hlen : len (String c s) = len s + 1) by (cbn [String.length]; lia).
    rewrite Hlen, Z.pow_add_r by lia. change (10 ^ 1) with 10.
    split; [ nia | ].
    intros a. cbn [Js.digits_value]. rewrite Hd, Hdv. f_equal. ring.
Qed.


Lemma digit_order c e :
  Js.isDigit c = true -> Js.isDigit e = true ->
  Ascii.compare c e = Lt ->
  Z.of_nat (nat_of_ascii c) < Z.of_nat (nat_of_ascii e).
Proof.
  intros _ _ H. unfold Ascii.compare in H.
  unfold nat_of_ascii. rewrite !N_nat_Z. apply N2Z.inj_lt. exact H.
Qed.

(** Among runs of digits of one length, the order of the code units
    is the order of the numbers. *)
Lemma compare_digits a : forall b va vb,
  Video.all_chars Js.isDigit a = true -> Video.all_chars Js.isDigit b = true ->
  String.length a = String.length b ->
  dv a 0 = Some va -> dv b 0 = Some vb ->
  String.compare a b = Lt -> va < vb.
Proof.
  induction a as [ | c a IH ]; intros b va vb Ha Hb Hlen Hva Hvb Hcmp.
  - destruct b; [ discriminate Hcmp | discriminate Hlen ].
  - destruct b as [ | e b ]; [ discriminate Hlen | ].
    cbn [Video.all_chars] in Ha, Hb.
    apply andb_true_iff in Ha. destruct Ha as [Hc Ha].
    apply andb_true_iff in Hb. destruct Hb as [He Hb].
    injection Hlen as Hlen.
    destruct (digit_value_of c Hc) as (dc & Hdc & _ & Hdc').
    destruct (digit_value_of e He) as (de & Hde & _ & Hde').
    destruct (dv_digits a Ha) as (xa & Hxa & Hdva).
    destruct (dv_digits b Hb) as (xb & Hxb & Hdvb).
    cbn [Js.digits_value] in Hva, Hvb. rewrite Hdc, Hdva in Hva. rewrite Hde, Hdvb in Hvb.
    injection Hva as <-. injection Hvb as <-.
    rewrite <- Hlen in *.
    cbn [String.compare] in Hcmp.
    destruct (Ascii.compare c e) eqn:Hce.
    + apply Ascii.compare_eq_iff in Hce. subst e.
      assert (dc = de) by congruence. subst de.
      assert (xa < xb); [ | lia ].
      apply (IH b xa xb Ha Hb); [ congruence | | | exact Hcmp ].
      * rewrite Hdva. f_equal; lia.
      * rewrite Hdvb. f_equal; lia.
    + pose proof (digit_order c e Hc He Hce). nia.
    + discriminate.
Qed.

(** The converse, as it is used. *)
Lemma smaller_number_first a b va vb :
  Video.all_chars Js.isDigit a = true -> Video.all_chars Js.isDigit b = true ->
  String.length a = String.length b ->
  dv a 0 = Some va -> dv b 0 = Some vb ->
  va < vb -> String.compare a b = Lt.
Proof.
  intros Ha Hb Hlen Hva Hvb Hlt.
  destruct (String.compare a b) eqn:Hcmp; [ | reflexivity | ].
  - apply String.compare_eq_iff in Hcmp. subst b. rewrite Hva in Hvb.
    injection Hvb as <-. lia.
  - rewrite String.compare_antisym in Hcmp.
    destruct (String.compare b a) eqn:Hba; try discriminate.
    pose proof (compare_digits b a vb va Hb Ha (eq_sym Hlen) Hvb Hva Hba). lia.
Qed.

(** What [decimal] prints. *)
Lemma uint_digits d : Video.all_chars Js.isDigit (NilEmpty.string_of_uint d) = true.
Proof. induction d; cbn; auto. Qed.

Lemma uint_length d : String.length (NilEmpty.string_of_uint d) = Decimal.nb_digits d.
Proof. induction d; cbn; auto. Qed.

Lemma uint_value d : forall a,
  dv (NilEmpty.string_of_uint d) (Z.of_nat a) = Some (Z.of_nat (Nat.of_uint_acc d a)).
Proof.
  induction d; intros a; cbn [NilEmpty.string_of_uint Js.digits_value Nat.of_uint_acc];
    [ reflexivity | .. ];
    match goal with
    | |- context [Js.digit_value 10 ?c] =>
        let v := eval cbv in (Js.digit_value 10 c) in
        change (Js.digit_value 10 c) with v
    end;
    cbv iota; rewrite <- IHd; f_equal; f_equal; rewrite Nat.tail_mul_spec; lia.
Qed.

Lemma decimal_digits n : Video.all_chars Js.isDigit (World.decimal n) = true.
Proof. apply uint_digits. Qed.

Lemma decimal_value n : dv (World.decimal n) 0 = Some (Z.of_nat n).
Proof.
  unfold World.decimal. change 0 with (Z.of_nat 0). rewrite uint_value.
  change (Nat.of_uint_acc (Nat.to_uint n) 0) with (Nat.of_uint (Nat.to_uint n)).
  rewrite DecimalNat.Unsigned.of_to. reflexivity.
Qed.


Lemma decimal_normal n : Nat.to_uint n = Decimal.unorm (Nat.to_uint n).
Proof.
  rewrite <- (DecimalNat.Unsigned.to_of (Nat.to_uint n)).
  rewrite DecimalNat.Unsigned.of_to. reflexivity.
Qed.

(** A number below 10^5 is printed with at most five digits. *)
Lemma decimal_short n : Z.of_nat n < 100000 -> (String.length (World.decimal n) <= 5)%nat.
Proof.
  intros Hn. pose proof (decimal_value n) as Hv. pose proof (decimal_normal n) as Hnorm.
  unfold World.decimal in *.
  assert (Hlead : forall c s' d,
            0 < d -> Js.digit_value 10 c = Some d ->
            Video.all_chars Js.isDigit s' = true ->
            dv (String c s') 0 = Some (Z.of_nat n) ->
            (String.length (String c s') <= 5)%nat).
  { intros c s' d Hd Hc Hs' Hval. cbn [Js.digits_value] in Hval. rewrite Hc in Hval.
    destruct (dv_digits s' Hs') as (v & Hvb & Hdv). rewrite Hdv in Hval.
    injection Hval as Hval. cbn [String.length].
    destruct (Nat.le_gt_cases (String.length s') 4) as [Hle | Hgt]; [ lia | exfalso ].
    assert (10 ^ 5 <= 10 ^ len s') by (apply Z.pow_le_mono_r; lia).
    change (10 ^ 5) with 100000 in *. nia. }
  destruct (Nat.to_uint n) as [ | d | d | d | d | d | d | d | d | d | d ] eqn:Hd.
  - exfalso. symmetry in Hnorm. apply (DecimalFacts.unorm_nonnil _ Hnorm).
  - rewrite DecimalFacts.unorm_D0 in Hnorm. unfold Decimal.unorm in Hnorm.
    destruct (Decimal.nzhead d) eqn:Hz.
    + injection Hnorm as ->. cbn. lia.
    + exfalso. injection Hnorm as Hnorm. rewrite Hnorm in Hz.
      rewrite <- Hnorm in Hz at 1. apply (DecimalFacts.nzhead_nonzero _ _ Hz).
    + discriminate. + discriminate. + discriminate. + discriminate.
    + discriminate. + discriminate. + discriminate. + discriminate.
    + discriminate.
  - cbn [NilEmpty.string_of_uint] in *. eapply (Hlead _ _ 1); [ lia | reflexivity | apply uint_digits | exact Hv ].
  - cbn [NilEmpty.string_of_uint] in *. eapply (Hlead _ _ 2); [ lia | reflexivity | apply uint_digits | exact Hv ].
  - cbn [NilEmpty.string_of_uint] in *. eapply (Hlead _ _ 3); [ lia | reflexivity | apply uint_digits | exact Hv ].
  - cbn [NilEmpty.string_of_uint] in *. eapply (Hlead _ _ 4); [ lia | reflexivity | apply uint_digits | exact Hv ].
  - cbn [NilEmpty.string_of_uint] in *. eapply (Hlead _ _ 5); [ lia | reflexivity | apply uint_digits | exact Hv ].
  - cbn [NilEmpty.string_of_uint] in *. eapply (Hlead _ _ 6); [ lia | reflexivity | apply uint_digits | exact Hv ].
  - cbn [NilEmpty.string_of_uint] in *. eapply (Hlead _ _ 7); [ lia | reflexivity | apply uint_digits | exact Hv ].
  - cbn [NilEmpty.string_of_uint] in *. eapply (Hlead _ _ 8); [ lia | reflexivity | apply uint_digits | exact Hv ].
  - cbn [NilEmpty.string_of_uint] in *. eapply (Hlead _ _ 9); [ lia | reflexivity | apply uint_digits | exact Hv ].
Qed.


Lemma repeat_length c k : String.length (repeat_char c k) = k.
Proof. induction k as [ | k IH ]; simpl; [ reflexivity | rewrite IH; reflexivity ]. Qed.

Lemma pad_length s : (String.length s <= 5)%nat -> String.length (padStart 5 "0" s) = 5%nat.
Proof. intros H. unfold padStart. rewrite length_append, repeat_length. lia. Qed.

Lemma pad_digits s :
  Video.all_chars Js.isDigit s = true ->
  Video.all_chars Js.isDigit (padStart 5 "0" s) = true.
Proof.
  intros H. unfold padStart. induction (5 - String.length s)%nat as [ | k IH ]; [ exact H | ].
  simpl. exact IH.
Qed.

Lemma pad_value s : dv (padStart 5 "0" s) 0 = dv s 0.
Proof.
  unfold padStart. induction (5 - String.length s)%nat as [ | k IH ]; [ reflexivity | ].
  exact IH.
Qed.

Lemma pad_order i j :
  (i < j)%nat -> Z.of_nat j < 100000 ->
  String.compare (padStart 5 "0" (World.decimal i)) (padStart 5 "0" (World.decimal j)) = Lt.
Proof.
  intros Hij Hj.
  apply (smaller_number_first _ _ (Z.of_nat i) (Z.of_nat j)).
  - apply pad_digits, decimal_digits.
  - apply pad_digits, decimal_digits.
  - rewrite !pad_length; [ reflexivity | apply decimal_short; lia | apply decimal_short; lia ].
  - rewrite pad_value. apply decimal_value.
  - rewrite pad_value. apply decimal_value.
  - lia.
Qed.

Lemma ascii_compare_refl c : Ascii.compare c c = Eq.
Proof. unfold Ascii.compare. apply N.compare_refl. Qed.

Lemma compare_after p a b : String.compare (p ++ a) (p ++ b) = String.compare a b.
Proof.
  induction p as [ | c p IH ]; simpl; [ reflexivity | ].
  rewrite ascii_compare_refl. exact IH.
Qed.

Lemma compare_before s a : forall b,
  String.length a = String.length b ->
  String.compare a b = Lt -> String.compare (a ++ s) (b ++ s) = Lt.
Proof.
  induction a as [ | c a IH ]; intros b Hlen Hcmp.
  - destruct b; [ discriminate Hcmp | discriminate Hlen ].
  - destruct b as [ | e b ]; [ discriminate Hlen | ].
    injection Hlen as Hlen. simpl in *.
    destruct (Ascii.compare c e); [ apply IH; assumption | reflexivity | discriminate ].
Qed.

(** The names of two segments of a kind are in the order of their
    numbers. *)
Lemma name_order kind i j :
  (i < j)%nat -> Z.of_nat j < 100000 ->
  String.compare (segment_name kind i) (segment_name kind j) = Lt.
Proof.
  intros Hij Hj. unfold segment_name.
  rewrite compare_after, compare_after.
  apply compare_before.
  - rewrite !pad_length; [ reflexivity | apply decimal_short; lia | apply decimal_short; lia ].
  - apply pad_order; assumption.
Qed.

End DecimalOrder.

Section SortFacts.
Import Segments.

#[local] Abbreviation le a b := (String.compare a b <> Gt).

Lemma ascii_compare_lt_trans a b c :
  Ascii.compare a b = Lt -> Ascii.compare b c <> Gt -> Ascii.compare a c = Lt.
Proof.
  unfold Ascii.compare. intros H1 H2.
  apply N.compare_lt_iff. apply (N.lt_le_trans _ (N_of_ascii b));
    [ apply N.compare_lt_iff | apply N.compare_le_iff ]; assumption.
Qed.

Lemma compare_trans a : forall b c, le a b -> le b c -> le a c.
Proof.
  induction a as [ | x a IH ]; intros b c Hab Hbc.
  - destruct c; simpl; discriminate.
  - destruct b as [ | y b ]; [ simpl in Hab; contradiction Hab; reflexivity | ].
    destruct c as [ | z c ]; [ simpl in Hbc; contradiction Hbc; reflexivity | ].
    simpl in *.
    destruct (Ascii.compare x y) eqn:Hxy.
    + apply Ascii.compare_eq_iff in Hxy. subst y.
      destruct (Ascii.compare x z); [ apply (IH b c); assumption | discriminate | exact Hbc ].
    + assert (Hyz : Ascii.compare y z <> Gt)
        by (destruct (Ascii.compare y z); [ discriminate | discriminate | exact Hbc ]).
      rewrite (ascii_compare_lt_trans x y z Hxy Hyz). discriminate.
    + contradiction Hab; reflexivity.
Qed.

Lemma insert_perm x l : Permutation (Video.insert_sorted by_code_units x l) (x :: l).
Proof.
  induction l as [ | y l IH ]; simpl; [ apply Permutation_refl | ].
  destruct (by_code_units x y <=? 0); [ apply Permutation_refl | ].
  eapply Permutation_trans; [ apply perm_skip; exact IH | apply perm_swap ].
Qed.

Lemma sort_perm l : Permutation (sort_names l) l.
Proof.
  unfold sort_names, Video.sort. induction l as [ | x l IH ]; simpl; [ constructor | ].
  eapply Permutation_trans; [ apply insert_perm | apply perm_skip; exact IH ].
Qed.

Lemma by_code_units_le a b : (by_code_units a b <=? 0) = true <-> le a b.
Proof.
  unfold by_code_units. destruct (String.compare a b); simpl; split; intros H;
    try reflexivity; try discriminate; contradiction H; reflexivity.
Qed.

Lemma insert_sorted_sorted x l :
  Sorted (fun a b => le a b) l ->
  Sorted (fun a b => le a b) (Video.insert_sorted by_code_units x l).
Proof.
  induction 1 as [ | y l Hl IH Hhd ]; simpl.
  - constructor; constructor.
  - destruct (by_code_units x y <=? 0) eqn:Hxy.
    + constructor; [ constructor; assumption | constructor; apply by_code_units_le; exact Hxy ].
    + constructor; [ exact IH | ].
      assert (Hyx : le y x).
      { intros Hgt. rewrite String.compare_antisym in Hgt.
        unfold by_code_units in Hxy.
        destruct (String.compare x y); simpl in *; discriminate. }
      destruct l as [ | z l ]; simpl.
      * constructor. exact Hyx.
      * destruct (by_code_units x z <=? 0); constructor; [ exact Hyx | ].
        inversion Hhd; assumption.
Qed.

Lemma sort_sorted l : Sorted (fun a b => le a b) (sort_names l).
Proof.
  unfold sort_names, Video.sort. induction l as [ | x l IH ]; simpl; [ constructor | ].
  apply insert_sorted_sorted. exact IH.
Qed.

Lemma le_transitive : Transitive (fun a b => le a b).
Proof. intros a b c. apply compare_trans. Qed.

(** Two sorted lists with the same elements are the same list. *)
Lemma sorted_unique l1 : forall l2,
  StronglySorted (fun a b => le a b) l1 -> StronglySorted (fun a b => le a b) l2 ->
  Permutation l1 l2 -> l1 = l2.
Proof.
  induction l1 as [ | x l1 IH ]; intros l2 H1 H2 Hp.
  - apply Permutation_nil in Hp. subst. reflexivity.
  - destruct l2 as [ | y l2 ]; [ apply Permutation_sym, Permutation_nil in Hp; discriminate | ].
    inversion H1 as [ | ? ? Hs1 Hall1 ]; subst.
    inversion H2 as [ | ? ? Hs2 Hall2 ]; subst.
    assert (Hxy : x = y).
    { assert (Hx : In x (y :: l2)) by (apply (Permutation_in _ Hp); left; reflexivity).
      assert (Hy : In y (x :: l1))
        by (apply (Permutation_in _ (Permutation_sym Hp)); left; reflexivity).
      destruct Hx as [Hx | Hx]; [ congruence | ].
      destruct Hy as [Hy | Hy]; [ congruence | ].
      rewrite Forall_forall in Hall1, Hall2.
      specialize (Hall1 y Hy). specialize (Hall2 x Hx).
      destruct (String.compare x y) eqn:Hc.
      - apply String.compare_eq_iff. exact Hc.
      - rewrite String.compare_antisym, Hc in Hall2. contradiction Hall2; reflexivity.
      - contradiction Hall1; reflexivity. }
    subst y. f_equal. apply IH; [ assumption | assumption | ].
    apply Permutation_cons_inv with (a := x). exact Hp.
Qed.

Lemma names_sorted kind n : forall a,
  Z.of_nat (a + n) <= 100000 ->
  Sorted (fun x y => le x y) (map (segment_name kind) (seq a n)).
Proof.
  induction n as [ | n IH ]; intros a Hb; simpl; [ constructor | ].
  constructor; [ apply IH; lia | ].
  destruct n as [ | n ]; simpl; constructor.
  rewrite (name_order kind a (S a)); [ discriminate | lia | lia ].
Qed.

End SortFacts.

(** X17: the list file names the segments in download order, in
    whatever order the directory lists them. For up to 100000
    segments of a kind, sorting any arrangement of their file names
    gives the names in the order of their numbers: the five digits of
    the zero-padded number sort as the number does. *)
Theorem sorted_names_are_in_download_order (kind : string) (n : nat) (listing : list string) :
  Z.of_nat n <= 100000 ->
  Permutation listing (Segments.segment_names kind n) ->
  Segments.sort_names listing = Segments.segment_names kind n.
Proof.
  intros Hn Hp.
  apply sorted_unique.
  - apply (Sorted_StronglySorted le_transitive). apply sort_sorted.
  - apply (Sorted_StronglySorted le_transitive). apply names_sorted. simpl. lia.
  - eapply Permutation_trans; [ apply sort_perm | exact Hp ].
Qed.

(** Three segments, listed last to first. *)
Lemma three_names_listed_backwards :
  Segments.sort_names ["video_00002.m4s"; "video_00001.m4s"; "video_00000.m4s"]
  = Segments.segment_names "video" 3.
Proof.
  apply (sorted_names_are_in_download_order "video" 3).
  - simpl. lia.
  - apply Permutation_rev.
Defined.


(** ** The run of [downloadTwitterVideo] *)

Section RunFacts.
Import Eff Run.
Context {W : Type}.

Lemma run_bind_eq {A B} (m : M W A) (k : A -> M W B) w a w1 :
  m w = (Ret a, w1) -> bind m k w = k a w1.
Proof. intros H. unfold bind. rewrite H. reflexivity. Qed.

Lemma run_bind_throw {A B} (m : M W A) (k : A -> M W B) w e w1 :
  m w = (Throw e, w1) -> bind m k w = (Throw e, w1).
Proof. intros H. unfold bind. rewrite H. reflexivity. Qed.

(** A [catch] that swallows the error makes the block return. *)
Lemma swallowed {A} (m : M W A) (a : A) w :
  exists x w1, try_catch m (fun _ => ret a) w = (Ret x, w1).
Proof.
  unfold try_catch, ret. destruct (m w) as [[x | e] w1]; eexists; eexists; reflexivity.
Qed.

End RunFacts.

Section RebuildFacts.
Import Eff World Segments Run Rebuild.
#[local] Open Scope run_scope.

Variable E : env.

Lemma under_itself dir : under dir dir = true.
Proof. unfold under. rewrite String.eqb_refl. reflexivity. Qed.

Lemma removed_dir dir s : has_dir (remove_tree dir s) dir = false.
Proof.
  unfold has_dir, remove_tree, Js.has. cbn [dirs].
  induction (dirs s) as [ | d l IH ]; [ reflexivity | ].
  cbn [filter]. destruct (under dir d) eqn:Hu; cbn [negb]; [ exact IH | ].
  cbn [existsb]. rewrite IH, orb_false_r.
  destruct (String.eqb dir d) eqn:Hd; [ | reflexivity ].
  apply String.eqb_eq in Hd. subst d. rewrite under_itself in Hu. discriminate.
Qed.

Lemma removed_files dir s name : has_file (remove_tree dir s) dir name = false.
Proof.
  unfold has_file, remove_tree. cbn [files].
  induction (files s) as [ | p l IH ]; [ reflexivity | ].
  cbn [filter]. destruct (under dir (fst p)) eqn:Hu; cbn [negb]; [ exact IH | ].
  cbn [existsb]. rewrite IH, orb_false_r.
  unfold path_eqb. cbn [fst snd].
  destruct (String.eqb dir (fst p)) eqn:Hd; [ | reflexivity ].
  apply String.eqb_eq in Hd. rewrite <- Hd, under_itself in Hu. discriminate.
Qed.

(** The [finally] block: the browser is closed, and the directory of
    the segments is gone when [rmSync] goes through. *)
Lemma cleanup tempDir s :
  exists s',
    (close_browser ;; try_catch (rmSync E tempDir) (fun _ => ret tt)) s = (Ret tt, s')
    /\ browser_open s' = false
    /\ (rm_fault E tempDir = None ->
        has_dir s' tempDir = false /\ forall name, has_file s' tempDir name = false).
Proof.
  unfold bind, close_browser, try_catch, rmSync, ret.
  destruct (rm_fault E tempDir) as [e | ].
  - eexists. split; [ reflexivity | ]. split; [ reflexivity | discriminate ].
  - eexists. split; [ reflexivity | ]. split; [ reflexivity | ].
    intros _. split; [ apply removed_dir | intros name; apply removed_files ].
Qed.

Lemma finally_cleanup {A} (body : M state A) tempDir s a s1 :
  body s = (Ret a, s1) ->
  exists s',
    finally body (close_browser ;; try_catch (rmSync E tempDir) (fun _ => ret tt)) s
    = (Ret a, s')
    /\ browser_open s' = false
    /\ (rm_fault E tempDir = None ->
        has_dir s' tempDir = false /\ forall name, has_file s' tempDir name = false).
Proof.
  intros Hb. unfold finally. rewrite Hb.
  destruct (cleanup tempDir s1) as (s' & Hc & Hrest). rewrite Hc.
  exists s'. split; [ reflexivity | exact Hrest ].
Qed.

End RebuildFacts.

(** X18: once the route is set, [downloadTwitterVideo] cleans up
    after itself on every way out. When the URL holds a status id and
    the browser, the page and the directories could be made, the call
    returns whatever the page, the downloads and ffmpeg do; the
    browser is closed; and the directory of the segments is gone,
    with everything in it, when [rmSync] goes through. A failure to
    open the page, before the [try] block, leaves the browser open. *)
Theorem the_video_run_cleans_up
    (E : Rebuild.env) (tweetUrl outputDir tweetId : string) (s : Rebuild.state) :
  Segments.match_status tweetUrl = Some tweetId ->
  Rebuild.launch E = None ->
  (forall dir, Rebuild.mkdir_fault E dir = None) ->
  (Rebuild.new_page E = None ->
   exists s',
     Rebuild.downloadTwitterVideo E tweetUrl outputDir s = (Eff.Ret tt, s')
     /\ Rebuild.browser_open s' = false
     /\ (Rebuild.rm_fault E (World.path_join outputDir (tweetId ++ "-temp")%string) = None ->
         Rebuild.has_dir s' (World.path_join outputDir (tweetId ++ "-temp")%string) = false
         /\ forall name,
              Rebuild.has_file s' (World.path_join outputDir (tweetId ++ "-temp")%string)
                name = false))
  /\ (forall e,
        Rebuild.new_page E = Some e ->
        exists s',
          Rebuild.downloadTwitterVideo E tweetUrl outputDir s = (Eff.Throw e, s')
          /\ Rebuild.browser_open s' = true).
Proof.
  intros Hid Hlaunch Hmk.
  assert (Hout : exists s0,
            (if negb (Rebuild.has_dir s outputDir)
             then Rebuild.mkdirSync E outputDir else Run.ret tt) s = (Eff.Ret tt, s0)).
  { destruct (Rebuild.has_dir s outputDir); cbn [negb].
    - eexists. reflexivity.
    - unfold Rebuild.mkdirSync. rewrite Hmk. eexists. reflexivity. }
  destruct Hout as (s0 & Hout).
  split.
  - intros Hpage. unfold Rebuild.downloadTwitterVideo.
    unfold Run.bind at 1. unfold Rebuild.existsSync at 1.
    rewrite (run_bind_eq _ _ _ _ _ Hout). rewrite Hid.
    cbv zeta. unfold Run.bind at 1. unfold Rebuild.launch_browser. rewrite Hlaunch.
    rewrite Hpage. unfold Rebuild.attempt.
    unfold Run.bind at 1. unfold Rebuild.act at 1.
    unfold Run.bind at 1. unfold Rebuild.existsSync at 1.
    match goal with
    | |- context [Run.bind (if ?c then _ else _) _ ?st] =>
        assert (Htemp : exists s1,
                  (if c then Rebuild.mkdirSync E
                                 (World.path_join outputDir (tweetId ++ "-temp")%string)
                   else Run.ret tt) st = (Eff.Ret tt, s1))
    end.
    { match goal with |- context [if ?c then _ else _] => destruct c end.
      - unfold Rebuild.mkdirSync. rewrite Hmk. eexists. reflexivity.
      - eexists. reflexivity. }
    destruct Htemp as (s1 & Htemp). rewrite (run_bind_eq _ _ _ _ _ Htemp).
    unfold Run.bind at 1. unfold Rebuild.act at 1.
    match goal with
    | |- context [Run.finally ?body _ ?st] =>
        destruct (swallowed (Rebuild.visit E tweetUrl outputDir tweetId
                               (World.path_join outputDir (tweetId ++ "-temp")%string)
                               (World.path_join outputDir (tweetId ++ ".mp4")%string))
                    tt st) as ([] & s2 & Hbody)
    end.
    apply (finally_cleanup E _ _ _ _ _ Hbody).
  - intros e Hpage. unfold Rebuild.downloadTwitterVideo.
    unfold Run.bind at 1. unfold Rebuild.existsSync at 1.
    rewrite (run_bind_eq _ _ _ _ _ Hout). rewrite Hid.
    cbv zeta. unfold Run.bind at 1. unfold Rebuild.launch_browser. rewrite Hlaunch.
    rewrite Hpage. unfold Rebuild.attempt.
    unfold Run.bind, Run.throw. eexists. split; reflexivity.
Qed.

(** A smooth run on the post 42. *)
Lemma a_smooth_run_cleans_up :
  (Rebuild.new_page (Rebuild.smooth [Sample.seg_720; Sample.seg_audio]) = None ->
   exists s',
     Rebuild.downloadTwitterVideo (Rebuild.smooth [Sample.seg_720; Sample.seg_audio])
       "https://x.com/u/status/42" "out" Rebuild.start = (Eff.Ret tt, s')
     /\ Rebuild.browser_open s' = false
     /\ (Rebuild.rm_fault (Rebuild.smooth [Sample.seg_720; Sample.seg_audio])
           (World.path_join "out" ("42" ++ "-temp")%string) = None ->
         Rebuild.has_dir s' (World.path_join "out" ("42" ++ "-temp")%string) = false
         /\ forall name,
              Rebuild.has_file s' (World.path_join "out" ("42" ++ "-temp")%string)
                name = false))
  /\ (forall e,
        Rebuild.new_page (Rebuild.smooth [Sample.seg_720; Sample.seg_audio]) = Some e ->
        exists s',
          Rebuild.downloadTwitterVideo (Rebuild.smooth [Sample.seg_720; Sample.seg_audio])
            "https://x.com/u/status/42" "out" Rebuild.start = (Eff.Throw e, s')
          /\ Rebuild.browser_open s' = true).
Proof.
  apply (the_video_run_cleans_up (Rebuild.smooth [Sample.seg_720; Sample.seg_audio])
           "https://x.com/u/status/42" "out" "42" Rebuild.start); reflexivity.
Defined.

(** X19: a URL without [status/] and digits costs nothing but the
    output directory, which is made before the URL is looked at: no
    browser is launched and the call returns (or throws what [mkdir]
    threw). *)
Theorem a_url_without_a_status_id
    (E : Rebuild.env) (tweetUrl outputDir : string) (s : Rebuild.state) :
  Segments.match_status tweetUrl = None ->
  Rebuild.downloadTwitterVideo E tweetUrl outputDir s
  = if Rebuild.has_dir s outputDir then (Eff.Ret tt, s)
    else match Rebuild.mkdir_fault E outputDir with
         | Some e => (Eff.Throw e, s)
         | None => (Eff.Ret tt, Rebuild.log (Rebuild.Mkdir outputDir)
                                  (Rebuild.add_dir outputDir s))
         end.
Proof.
  intros Hid. unfold Rebuild.downloadTwitterVideo, Run.bind, Rebuild.existsSync.
  rewrite Hid. destruct (Rebuild.has_dir s outputDir); cbn [negb]; [ reflexivity | ].
  unfold Rebuild.mkdirSync. destruct (Rebuild.mkdir_fault E outputDir); reflexivity.
Qed.

(** The address of a profile. *)
Lemma a_profile_is_no_video :
  Rebuild.downloadTwitterVideo (Rebuild.smooth []) "https://x.com/u" "out" Rebuild.start
  = (Eff.Ret tt, Rebuild.log (Rebuild.Mkdir "out") (Rebuild.add_dir "out" Rebuild.start)).
Proof.
  apply (a_url_without_a_status_id (Rebuild.smooth []) "https://x.com/u" "out" Rebuild.start).
  reflexivity.
Defined.

Section AddsFacts.
Import Eff World Segments Run Rebuild.
#[local] Open Scope run_scope.

Variable P : action -> Prop.
Variable E : env.

Lemma adds_ret {A} (a : A) : adds P (ret a).
Proof. intros s. exists []. simpl. rewrite app_nil_r. auto. Qed.

Lemma adds_throw {A} e : adds P (@throw state A e).
Proof. intros s. exists []. simpl. rewrite app_nil_r. auto. Qed.

Lemma adds_act a : P a -> adds P (act a).
Proof. intros Ha s. exists [a]. simpl. auto. Qed.

Lemma adds_bind {A B} (m : M state A) (k : A -> M state B) :
  adds P m -> (forall a, adds P (k a)) -> adds P (bind m k).
Proof.
  intros Hm Hk s. unfold bind.
  destruct (Hm s) as (evs & Ht & Hf).
  destruct (m s) as [[a | e] s1]; simpl in *.
  - destruct (Hk a s1) as (evs' & Ht' & Hf').
    exists (evs ++ evs'). rewrite Ht', Ht, app_assoc.
    split; [ reflexivity | apply Forall_app; auto ].
  - exists evs. auto.
Qed.

Lemma adds_try_catch {A} (body : M state A) (handler : error -> M state A) :
  adds P body -> (forall e, adds P (handler e)) -> adds P (try_catch body handler).
Proof.
  intros Hm Hk s. unfold try_catch.
  destruct (Hm s) as (evs & Ht & Hf).
  destruct (body s) as [[a | e] s1]; simpl in *.
  - exists evs. auto.
  - destruct (Hk e s1) as (evs' & Ht' & Hf').
    exists (evs ++ evs'). rewrite Ht', Ht, app_assoc.
    split; [ reflexivity | apply Forall_app; auto ].
Qed.

Lemma adds_finally {A} (body : M state A) (last : M state unit) :
  adds P body -> adds P last -> adds P (finally body last).
Proof.
  intros Hm Hl s. unfold finally.
  destruct (Hm s) as (evs & Ht & Hf).
  destruct (body s) as [r s1]; simpl in *.
  destruct (Hl s1) as (evs' & Ht' & Hf').
  exists (evs ++ evs'). split; [ | apply Forall_app; auto ].
  destruct (last s1) as [[[] | e] s2]; simpl in *; rewrite Ht', Ht, app_assoc; reflexivity.
Qed.

Lemma adds_attempt fault a : P a -> adds P (attempt fault a).
Proof. intros Ha. destruct fault; [ apply adds_throw | apply adds_act; exact Ha ]. Qed.

Lemma adds_existsSync dir : adds P (existsSync dir).
Proof. intros s. exists []. simpl. rewrite app_nil_r. auto. Qed.

Lemma adds_mkdirSync dir : P (Mkdir dir) -> adds P (mkdirSync E dir).
Proof.
  intros Ha s. unfold mkdirSync. destruct (mkdir_fault E dir); simpl.
  - exists []. rewrite app_nil_r. auto.
  - exists [Mkdir dir]. auto.
Qed.

Lemma adds_launch : P Launch -> adds P (launch_browser E).
Proof.
  intros Ha s. unfold launch_browser. destruct (launch E); simpl.
  - exists []. rewrite app_nil_r. auto.
  - exists [Launch]. auto.
Qed.

Lemma adds_close : P CloseBrowser -> adds P close_browser.
Proof. intros Ha s. exists [CloseBrowser]. simpl. auto. Qed.

Lemma adds_rmSync dir : P (RemoveTree dir) -> adds P (rmSync E dir).
Proof.
  intros Ha s. unfold rmSync. destruct (rm_fault E dir); simpl.
  - exists []. rewrite app_nil_r. auto.
  - exists [RemoveTree dir]. auto.
Qed.

End AddsFacts.

(** X20: without a video segment nothing is fetched. When the page
    asked for no address with [.m4s] and [/vid/] in it, the run writes
    no segment list, downloads nothing and does not call ffmpeg, even
    if audio segments were captured. *)
Theorem without_video_segments_nothing_is_fetched
    (E : Rebuild.env) (tweetUrl outputDir : string) :
  Segments.videoSegments (Segments.captured (Rebuild.requests E)) = [] ->
  Rebuild.adds Rebuild.idle (Rebuild.downloadTwitterVideo E tweetUrl outputDir).
Proof.
  intros Hnone. unfold Rebuild.downloadTwitterVideo, Rebuild.visit. rewrite Hnone.
  cbn [length Nat.ltb Nat.leb].
  repeat first
    [ apply adds_ret | apply adds_throw
    | apply adds_act; exact I
    | apply adds_attempt; exact I
    | apply adds_existsSync
    | apply adds_mkdirSync; exact I
    | apply adds_launch; exact I
    | apply adds_close; exact I
    | apply adds_rmSync; exact I
    | apply adds_bind; [ | intros ]
    | apply adds_try_catch; [ | intros ]
    | apply adds_finally
    | match goal with
      | |- Rebuild.adds _ (if ?b then _ else _) => destruct b
      | |- Rebuild.adds _ (match ?x with _ => _ end) => destruct x
      end ].
Qed.

(** A page that asks for audio only. *)
Lemma audio_alone_is_not_fetched :
  Rebuild.adds Rebuild.idle
    (Rebuild.downloadTwitterVideo (Rebuild.smooth [Sample.seg_audio])
       "https://x.com/u/status/42" "out").
Proof.
  apply (without_video_segments_nothing_is_fetched (Rebuild.smooth [Sample.seg_audio])).
  reflexivity.
Defined.

(** ** A video run in which every call goes through *)

Section SmoothRun.
Import Eff World Segments Run Rebuild.
#[local] Open Scope run_scope.

Variable reqs : list string.
#[local] Abbreviation E := (smooth reqs).

Lemma sort_of_names kind n :
  Z.of_nat n <= 100000 -> sort_names (segment_names kind n) = segment_names kind n.
Proof.
  intros Hn. apply sorted_unique.
  - apply (Sorted_StronglySorted le_transitive). apply sort_sorted.
  - apply (Sorted_StronglySorted le_transitive). apply names_sorted. simpl. lia.
  - apply sort_perm.
Qed.

Lemma name_differs kind i j :
  (i < j)%nat -> Z.of_nat j < 100000 -> segment_name kind j <> segment_name kind i.
Proof.
  intros Hij Hj Heq. pose proof (name_order kind i j Hij Hj) as Hlt.
  rewrite Heq in Hlt.
  assert (Hrefl : forall s, String.compare s s = Eq).
  { induction s as [ | c s IH ]; simpl; [ reflexivity | ].
    rewrite ascii_compare_refl. exact IH. }
  rewrite Hrefl in Hlt. discriminate.
Qed.

Lemma extend_extend l1 e1 l2 e2 s :
  extend l2 e2 (extend l1 e1 s) = extend (l1 ++ l2) (e1 ++ e2) s.
Proof. unfold extend. cbn. rewrite !app_assoc. reflexivity. Qed.

Lemma has_file_extend l e s dir name :
  has_file (extend l e s) dir name
  = has_file s dir name || existsb (path_eqb (dir, name)) l.
Proof. unfold has_file, extend. cbn. apply existsb_app. Qed.

Lemma download_one kind temp url i s :
  has_file s temp (segment_name kind i) = false ->
  downloadFile E url temp (segment_name kind i) s
  = (Ret tt, extend [(temp, segment_name kind i)]
                    [Download url temp (segment_name kind i) true] s).
Proof.
  intros H. unfold downloadFile. cbn [fetch smooth].
  unfold log, add_file. cbn. rewrite H. reflexivity.
Qed.

Lemma download_all_smooth kind temp urls : forall i s,
  (forall j, (i <= j < i + length urls)%nat ->
             has_file s temp (segment_name kind j) = false) ->
  Z.of_nat (i + length urls) <= 100000 ->
  download_all E kind temp i urls s
  = (Ret tt, extend (segment_files kind temp i (length urls))
                    (downloads kind temp i urls) s).
Proof.
  induction urls as [ | url rest IH ]; intros i s Hfree Hb.
  - cbn. unfold ret, extend. cbn. rewrite !app_nil_r. destruct s; reflexivity.
  - cbn [download_all].
    rewrite (run_bind_eq _ _ _ _ _
               (download_one kind temp url i s (Hfree i ltac:(cbn [length]; lia)))).
    rewrite IH.
    + rewrite extend_extend. reflexivity.
    + intros j Hj. rewrite has_file_extend.
      rewrite (Hfree j) by (cbn [length]; lia). cbn [existsb orb].
      rewrite orb_false_r. unfold path_eqb. cbn [fst snd]. rewrite String.eqb_refl.
      cbn [andb]. apply String.eqb_neq.
      apply name_differs; [ lia | cbn [length] in Hb; lia ].
    + cbn [length] in Hb. lia.
Qed.


Lemma names_in_extend l e s dir :
  names_in (extend l e s) dir
  = names_in s dir ++ map snd (filter (fun p => String.eqb (fst p) dir) l).
Proof. unfold names_in, extend. cbn. rewrite filter_app, map_app. reflexivity. Qed.

Lemma segment_files_names kind temp i n :
  map snd (filter (fun p => String.eqb (fst p) temp) (segment_files kind temp i n))
  = map (segment_name kind) (seq i n).
Proof.
  unfold segment_files. induction (seq i n) as [ | j l IH ]; [ reflexivity | ].
  cbn [map filter fst]. rewrite String.eqb_refl. cbn [map snd]. rewrite IH. reflexivity.
Qed.

Lemma has_file_names s dir name :
  names_in s dir = [] -> has_file s dir name = false.
Proof.
  unfold names_in, has_file. intros H.
  induction (files s) as [ | p l IH ]; [ reflexivity | ].
  cbn [filter] in H. cbn [existsb]. unfold path_eqb at 1. cbn [fst snd].
  rewrite (String.eqb_sym dir).
  destruct (String.eqb (fst p) dir); [ discriminate H | ].
  cbn [andb orb]. apply IH. exact H.
Qed.

Lemma has_file_in_names s dir name :
  ~ In name (names_in s dir) -> has_file s dir name = false.
Proof.
  unfold names_in, has_file. intros H.
  induction (files s) as [ | p l IH ]; [ reflexivity | ].
  cbn [existsb]. cbn [filter] in H. unfold path_eqb at 1. cbn [fst snd].
  rewrite (String.eqb_sym dir).
  destruct (String.eqb (fst p) dir) eqn:Hd.
  - cbn [map] in H. destruct (String.eqb name (snd p)) eqn:Hn.
    + exfalso. apply H. left. apply String.eqb_eq in Hn. symmetry. exact Hn.
    + cbn [andb orb]. apply IH. intros Hin. apply H. right. exact Hin.
  - cbn [andb orb]. apply IH. exact H.
Qed.

Lemma video_name_starts j : Js.startsWith "video_" (segment_name "video" j) = true.
Proof.
  change (segment_name "video" j)
    with ("video_" ++ (padStart 5 "0" (decimal j) ++ ".m4s"))%string.
  apply startsWith_append.
Qed.

Lemma audio_name_starts j : Js.startsWith "audio_" (segment_name "audio" j) = true.
Proof.
  change (segment_name "audio" j)
    with ("audio_" ++ (padStart 5 "0" (decimal j) ++ ".m4s"))%string.
  apply startsWith_append.
Qed.

Lemma filter_video_video l :
  filter (Js.startsWith "video_") (map (segment_name "video") l)
  = map (segment_name "video") l.
Proof.
  induction l as [ | j l IH ]; [ reflexivity | ].
  cbn [map filter]. rewrite video_name_starts, IH. reflexivity.
Qed.

Lemma filter_audio_audio l :
  filter (Js.startsWith "audio_") (map (segment_name "audio") l)
  = map (segment_name "audio") l.
Proof.
  induction l as [ | j l IH ]; [ reflexivity | ].
  cbn [map filter]. rewrite audio_name_starts, IH. reflexivity.
Qed.

Lemma filter_video_audio l :
  filter (Js.startsWith "video_") (map (segment_name "audio") l) = [].
Proof. induction l as [ | j l IH ]; [ reflexivity | exact IH ]. Qed.

Lemma filter_audio_video l :
  filter (Js.startsWith "audio_") (map (segment_name "video") l) = [].
Proof. induction l as [ | j l IH ]; [ reflexivity | exact IH ]. Qed.

Lemma audio_is_no_video i j : segment_name "audio" i <> segment_name "video" j.
Proof. discriminate. Qed.


Lemma download_all_facts kind temp urls i s :
  (forall j, (i <= j < i + length urls)%nat ->
             ~ In (segment_name kind j) (names_in s temp)) ->
  Z.of_nat (i + length urls) <= 100000 ->
  exists s',
    download_all E kind temp i urls s = (Ret tt, s')
    /\ names_in s' temp
       = names_in s temp ++ map (segment_name kind) (seq i (length urls))
    /\ acts s' = acts s ++ downloads kind temp i urls.
Proof.
  intros Hfree Hb. eexists. split.
  - apply download_all_smooth; [ | exact Hb ].
    intros j Hj. apply has_file_in_names. apply Hfree. exact Hj.
  - split; [ | reflexivity ].
    rewrite names_in_extend, segment_files_names. reflexivity.
Qed.

Lemma rebuild_smooth temp outputPath c vs s :
  names_in s temp = [] ->
  Z.of_nat (length vs) <= 100000 ->
  Z.of_nat (length (best_audio c)) <= 100000 ->
  exists s',
    rebuild E temp outputPath c vs s = (Ret tt, s')
    /\ acts s'
       = acts s
         ++ downloads "video" temp 0 vs
         ++ downloads "audio" temp 0 (best_audio c)
         ++ list_files temp (length vs) (length (best_audio c))
         ++ [Exec (ffmpegCmd (path_join temp "video_list.txt")
                     (path_join temp "audio_list.txt") outputPath
                     (0 <? length (best_audio c))%nat) true].
Proof.
  intros Hempty Hn Hm. unfold best_audio in *. unfold rebuild.
  destruct (download_all_facts "video" temp vs 0 s) as (s1 & Hv & Hnames1 & Hacts1).
  { intros j _. rewrite Hempty. intros []. }
  { simpl. lia. }
  rewrite (run_bind_eq _ _ _ _ _ Hv). rewrite Hempty in Hnames1. cbn [app] in Hnames1.
  set (aud := match Video.bestAudioSegments (audioSegments c) with
              | Some a => a
              | None => []
              end) in *.
  assert (Haudio : exists s2,
            (match Video.bestAudioSegments (audioSegments c) with
             | Some a => download_all E "audio" temp 0 a
             | None => ret tt
             end) s1 = (Ret tt, s2)
            /\ names_in s2 temp
               = map (segment_name "video") (seq 0 (length vs))
                 ++ map (segment_name "audio") (seq 0 (length aud))
            /\ acts s2 = acts s1 ++ downloads "audio" temp 0 aud).
  { subst aud. destruct (Video.bestAudioSegments (audioSegments c)) as [a | ].
    - destruct (download_all_facts "audio" temp a 0 s1) as (s2 & Ha & Hnames2 & Hacts2).
      + intros j _. rewrite Hnames1. intros Hin. apply in_map_iff in Hin.
        destruct Hin as (k & Hk & _). apply (audio_is_no_video j k). symmetry. exact Hk.
      + simpl. simpl in Hm. lia.
      + exists s2. split; [ exact Ha | ]. split; [ | exact Hacts2 ].
        rewrite Hnames2, Hnames1. reflexivity.
    - exists s1. split; [ reflexivity | ]. split.
      + rewrite Hnames1. cbn. rewrite app_nil_r. reflexivity.
      + cbn. rewrite app_nil_r. reflexivity. }
  destruct Haudio as (s2 & Ha & Hnames2 & Hacts2).
  rewrite (run_bind_eq _ _ _ _ _ Ha).
  unfold bind at 1. unfold readdirSync at 1. cbn [readdir_fault smooth].
  unfold bind at 1. unfold readdirSync at 1. cbn [readdir_fault smooth].
  rewrite Hnames2. cbv zeta.
  rewrite !filter_app, filter_video_video, filter_video_audio, filter_audio_video,
    filter_audio_audio, app_nil_r. cbn [app].
  change (map (segment_name "video") (seq 0 (length vs)))
    with (segment_names "video" (length vs)).
  change (map (segment_name "audio") (seq 0 (length aud)))
    with (segment_names "audio" (length aud)).
  rewrite !sort_of_names by assumption.
  assert (Hlen : length (segment_names "audio" (length aud)) = length aud)
    by (unfold segment_names; rewrite length_map, length_seq; reflexivity).
  rewrite Hlen.
  unfold bind at 1. unfold write_list at 1. cbn [write_fault smooth].
  unfold list_files.
  destruct (0 <? length aud)%nat.
  - unfold bind at 1. unfold write_list at 1. cbn [write_fault smooth].
    unfold bind, try_catch, execSync, ret. cbn [ffmpeg smooth].
    eexists. split; [ reflexivity | ].
    cbn [acts log add_file]. rewrite Hacts2, Hacts1. rewrite <- !app_assoc. reflexivity.
  - unfold bind, try_catch, execSync, ret. cbn [ffmpeg smooth].
    eexists. split; [ reflexivity | ].
    cbn [acts log add_file]. rewrite Hacts2, Hacts1. rewrite <- !app_assoc. reflexivity.
Qed.


Lemma path_join_differs a b : String.eqb (path_join a b) a = false.
Proof.
  apply String.eqb_neq. intros H. apply (f_equal String.length) in H.
  unfold path_join in H. rewrite !length_append in H. simpl in H. lia.
Qed.

Lemma smooth_run_steps tweetUrl outputDir tweetId vs s :
  match_status tweetUrl = Some tweetId ->
  has_dir s outputDir = true ->
  has_dir s (path_join outputDir (tweetId ++ "-temp")) = false ->
  names_in s (path_join outputDir (tweetId ++ "-temp")) = [] ->
  Video.bestVideoSegments (videoSegments (captured reqs)) = Some vs ->
  Z.of_nat (length vs) <= 100000 ->
  Z.of_nat (length (best_audio (captured reqs))) <= 100000 ->
  exists s',
    downloadTwitterVideo E tweetUrl outputDir s = (Ret tt, s')
    /\ acts s' = acts s ++ smooth_actions tweetUrl outputDir tweetId (captured reqs) vs.
Proof.
  intros Hid Hout Htemp Hempty Hbest Hn Hm.
  unfold downloadTwitterVideo.
  unfold bind at 1. unfold existsSync at 1. rewrite Hout. cbn [negb].
  unfold bind at 1. unfold ret at 1. rewrite Hid. cbv zeta.
  unfold bind at 1. unfold launch_browser. cbn [launch smooth].
  unfold bind at 1. unfold attempt, act at 1. cbn [new_page smooth].
  unfold bind at 1. unfold existsSync at 1.
  change (has_dir (log NewPage (log Launch (set_browser true s)))
            (path_join outputDir (tweetId ++ "-temp")))
    with (has_dir s (path_join outputDir (tweetId ++ "-temp"))).
  rewrite Htemp. cbn [negb].
  unfold bind at 1. unfold mkdirSync at 1. cbn [mkdir_fault smooth].
  unfold bind at 1. unfold act at 1.
  set (s4 := log Route _).
  assert (Hvisit : exists s5,
            visit E tweetUrl outputDir tweetId (path_join outputDir (tweetId ++ "-temp"))
              (path_join outputDir (tweetId ++ ".mp4")) s4 = (Ret tt, s5)
            /\ acts s5
               = acts s4
                 ++ [ Goto tweetUrl; WaitPlayer; Click; Sleep 15000;
                      WriteSegments outputDir (tweetId ++ "-segments.json")
                        (videoSegments (captured reqs)) (audioSegments (captured reqs)) ]
                 ++ downloads "video" (path_join outputDir (tweetId ++ "-temp")) 0 vs
                 ++ downloads "audio" (path_join outputDir (tweetId ++ "-temp")) 0
                      (best_audio (captured reqs))
                 ++ list_files (path_join outputDir (tweetId ++ "-temp")) (length vs)
                      (length (best_audio (captured reqs)))
                 ++ [Exec (ffmpegCmd
                             (path_join (path_join outputDir (tweetId ++ "-temp"))
                                "video_list.txt")
                             (path_join (path_join outputDir (tweetId ++ "-temp"))
                                "audio_list.txt")
                             (path_join outputDir (tweetId ++ ".mp4"))
                             (0 <? length (best_audio (captured reqs)))%nat) true]).
  { unfold visit. cbn [goto player click requests smooth]. unfold attempt.
    unfold bind at 1. unfold act at 1.
    unfold bind at 1. unfold act at 1.
    unfold bind at 1. unfold act at 1.
    unfold bind at 1. unfold act at 1.
    cbv zeta. rewrite Hbest.
    assert (Hsome : (0 <? length (videoSegments (captured reqs)))%nat = true).
    { destruct (videoSegments (captured reqs)); [ discriminate Hbest | reflexivity ]. }
    rewrite Hsome.
    unfold bind at 1. unfold write_segments at 1. cbn [write_fault smooth].
    match goal with
    | |- context [rebuild _ _ _ _ _ ?st] =>
        destruct (rebuild_smooth (path_join outputDir (tweetId ++ "-temp"))
                    (path_join outputDir (tweetId ++ ".mp4")) (captured reqs) vs st)
          as (s5 & Hr & Hacts)
    end.
    { unfold names_in, log, add_file. cbn [files].
      match goal with |- context [if ?c then _ else _] => destruct c end.
      - exact Hempty.
      - rewrite filter_app, map_app. cbn [filter fst].
        rewrite (String.eqb_sym outputDir), path_join_differs.
        unfold names_in in Hempty. cbn [files s4 log add_dir set_browser] in *.
        rewrite app_nil_r. exact Hempty. }
    { exact Hn. }
    { exact Hm. }
    exists s5. split; [ exact Hr | ]. rewrite Hacts. cbn [acts log add_file].
    rewrite <- !app_assoc. reflexivity. }
  destruct Hvisit as (s5 & Hv & Hacts5).
  unfold finally, try_catch. rewrite Hv.
  unfold bind, close_browser, rmSync, ret. cbn [rm_fault smooth].
  eexists. split; [ reflexivity | ].
  cbn [acts log remove_tree set_browser]. rewrite Hacts5.
  unfold s4. cbn [acts log add_dir set_browser]. unfold smooth_actions.
  cbv zeta. rewrite <- !app_assoc. reflexivity.
Qed.

End SmoothRun.




(** ** The login session *)

Section KeepsFacts.
Import Eff Run Session.
#[local] Open Scope run_scope.

Variable R : state -> state -> Prop.
Hypothesis R_refl : forall s, R s s.
Hypothesis R_trans : forall s1 s2 s3, R s1 s2 -> R s2 s3 -> R s1 s3.

Lemma kept_returns {A} (m : M state A) : keeps R m -> returns R m.
Proof. intros H s a s' Hm. specialize (H s). rewrite Hm in H. exact H. Qed.

Lemma kept_ret {A} (a : A) : keeps R (ret a).
Proof. intros s. apply R_refl. Qed.

Lemma kept_throw {A} e : keeps R (@throw state A e).
Proof. intros s. apply R_refl. Qed.

Lemma kept_bind {A B} (m : M state A) (k : A -> M state B) :
  keeps R m -> (forall a, keeps R (k a)) -> keeps R (bind m k).
Proof.
  intros Hm Hk s. unfold bind. specialize (Hm s).
  destruct (m s) as [[a | e] s1]; simpl in *; [ | exact Hm ].
  apply (R_trans _ _ _ Hm). apply Hk.
Qed.

Lemma kept_try_catch {A} (body : M state A) (handler : error -> M state A) :
  keeps R body -> (forall e, keeps R (handler e)) -> keeps R (try_catch body handler).
Proof.
  intros Hm Hk s. unfold try_catch. specialize (Hm s).
  destruct (body s) as [[a | e] s1]; simpl in *; [ exact Hm | ].
  apply (R_trans _ _ _ Hm). apply Hk.
Qed.

Lemma kept_if {A} (b : bool) (m1 m2 : M state A) :
  keeps R m1 -> keeps R m2 -> keeps R (if b then m1 else m2).
Proof. destruct b; auto. Qed.

Lemma returns_ret {A} (a : A) : returns R (ret a).
Proof. intros s x s' H. inversion H. apply R_refl. Qed.

Lemma returns_throw {A} e : returns R (@throw state A e).
Proof. intros s x s' H. discriminate H. Qed.

Lemma returns_bind {A B} (m : M state A) (k : A -> M state B) :
  returns R m -> (forall a, returns R (k a)) -> returns R (bind m k).
Proof.
  intros Hm Hk s b s' H. unfold bind in H.
  destruct (m s) as [[a | e] s1] eqn:Hms; [ | discriminate H ].
  apply (R_trans _ s1); [ apply (Hm s a); exact Hms | apply (Hk a s1 b); exact H ].
Qed.

Lemma returns_if {A} (b : bool) (m1 m2 : M state A) :
  returns R m1 -> returns R m2 -> returns R (if b then m1 else m2).
Proof. destruct b; auto. Qed.

End KeepsFacts.

Section SessionFacts.
Import Eff Run Session.
#[local] Open Scope run_scope.

Variable E : env.

Lemma same_session_refl s : same_session s s.
Proof. unfold same_session. tauto. Qed.

Lemma same_session_trans s1 s2 s3 :
  same_session s1 s2 -> same_session s2 s3 -> same_session s1 s3.
Proof. unfold same_session. intuition congruence. Qed.

Lemma same_globals_refl s : same_globals s s.
Proof. unfold same_globals. tauto. Qed.

Lemma same_globals_trans s1 s2 s3 :
  same_globals s1 s2 -> same_globals s2 s3 -> same_globals s1 s3.
Proof. unfold same_globals. intuition congruence. Qed.

Lemma stays_open_refl b s : stays_open b s s.
Proof. unfold stays_open. auto. Qed.

Lemma stays_open_trans b s1 s2 s3 :
  stays_open b s1 s2 -> stays_open b s2 s3 -> stays_open b s1 s3.
Proof. unfold stays_open. intuition lia. Qed.

(** *** The calls that leave the session alone *)

Ltac tame := unfold same_session; simpl; tauto.

Lemma tame_act a : keeps same_session (act a).
Proof. intros s. tame. Qed.

Lemma tame_attempt fault a : keeps same_session (attempt fault a).
Proof. destruct fault; intros s; tame. Qed.

Lemma tame_existsSync : keeps same_session existsSync.
Proof. intros s. tame. Qed.

Lemma tame_cached : keeps same_session cached.
Proof. intros s. tame. Qed.

Lemma tame_is_logged_in : keeps same_session (is_logged_in E).
Proof. intros s. tame. Qed.

Lemma tame_newContext : keeps same_session (newContext E).
Proof.
  intros s. unfold newContext. destruct (new_context E (contexts s)); tame.
Qed.

Lemma tame_newPage : keeps same_session (newPage E).
Proof.
  intros s. unfold newPage. destruct (new_page E (pages s)); tame.
Qed.

Lemma tame_read_session : keeps same_session (read_session E).
Proof.
  intros s. unfold read_session. destruct (session s) as [ text | ].
  - destruct (parse_fault E text); tame.
  - tame.
Qed.

Lemma tame_storageState : keeps same_session (storageState E).
Proof.
  intros s. unfold storageState. destruct (storage_state E (checks s)); tame.
Qed.

Lemma tame_safeNavigate url : keeps same_session (safeNavigate E url).
Proof.
  apply (kept_try_catch _ same_session_trans).
  - apply (kept_bind _ same_session_trans); [ apply tame_attempt | intros _ ].
    apply (kept_bind _ same_session_trans); [ apply tame_attempt | intros _ ].
    apply (kept_ret _ same_session_refl).
  - intros _. apply (kept_ret _ same_session_refl).
Qed.

Lemma tame_check_login : keeps same_session (check_login E).
Proof.
  apply (kept_try_catch _ same_session_trans).
  - apply (kept_bind _ same_session_trans); [ apply tame_existsSync | intros there ].
    destruct there; [ | apply (kept_ret _ same_session_refl) ].
    apply (kept_bind _ same_session_trans); [ | intros _; apply (kept_ret _ same_session_refl) ].
    destruct (stat_fault E);
      [ apply (kept_throw _ same_session_refl) | apply (kept_ret _ same_session_refl) ].
  - intros _. apply (kept_ret _ same_session_refl).
Qed.

Lemma tame_wait_login n : keeps same_session (wait_login E n).
Proof.
  induction n as [ | n IH ]; simpl.
  - apply (kept_ret _ same_session_refl).
  - apply (kept_bind _ same_session_trans); [ apply tame_is_logged_in | intros b ].
    destruct b; [ apply (kept_ret _ same_session_refl) | ].
    apply (kept_bind _ same_session_trans); [ apply tame_act | intros _; exact IH ].
Qed.

(** *** [is_logged_in] *)

Lemma any_of_found (f : string -> bool) (n : result nat) (sels : list string) :
  any_of {| query := fun sel => Ret (f sel); articles := n |} sels = Ret (existsb f sels).
Proof.
  induction sels as [ | sel rest IH ]; [ reflexivity | ].
  cbn [any_of query existsb]. destruct (f sel); [ reflexivity | exact IH ].
Qed.

Lemma logged_in_found (f : string -> bool) (n : nat) :
  logged_in {| query := fun sel => Ret (f sel); articles := Ret n |}
  = negb (existsb f login_links) && (existsb f profile_links || (0 <? n)%nat).
Proof.
  unfold logged_in. rewrite !any_of_found.
  destruct (existsb f login_links); [ reflexivity | ].
  destruct (existsb f profile_links); reflexivity.
Qed.

(** *** [refreshSession] *)

Lemma refreshSession_ends (context : nat) (s : state) :
  exists s',
    refreshSession E context s = (Ret tt, s')
    /\ same_globals s s'
    /\ open_browsers s' = open_browsers s
    /\ (session s' = session s
        \/ logged_in (page E (checks s)) = true
           /\ exists data, storage_state E (S (checks s)) = Ret data
                           /\ session s' = Some data)
    /\ (session s' <> session s -> session s = None \/ backup s' = session s).
Proof.
  unfold refreshSession, safeNavigate, try_catch, bind, newPage, attempt, act, ret, throw,
    is_logged_in, storageState, existsSync, copy_backup, write_session.
  cbn.
  destruct (new_page E (pages s)) as [ e | ]; cbn.
  { eexists. split; [ reflexivity | ]. unfold same_globals. simpl. tauto. }
  destruct (goto E "https://x.com"); [ | destruct (body E) ]; cbn;
    (destruct (logged_in (page E (checks s))) eqn:Hlog; cbn;
     [ destruct (storage_state E (S (checks s))) as [ data | e' ] eqn:Hst; cbn;
       [ destruct (session s) as [ old | ] eqn:Hold; cbn;
         [ destruct (copy_fault E); cbn | ]; destruct (write_fault E); cbn | ]
     | ];
     destruct (close_page_fault E); cbn;
     (eexists; split; [ reflexivity | ]; unfold same_globals; cbn;
      repeat split; try tauto; try congruence;
      try (left; congruence);
      try (right; split; [ reflexivity | eexists; split; reflexivity ]))).
Qed.

(** *** What a call that returns leaves in the globals *)

Lemma bind_ret {A B} (m : M state A) (k : A -> M state B) s x s' :
  bind m k s = (Ret x, s') -> exists a s1, m s = (Ret a, s1) /\ k a s1 = (Ret x, s').
Proof.
  unfold bind. destruct (m s) as [[a | e] s1]; [ | discriminate ].
  intros H. exists a, s1. auto.
Qed.

Lemma kept_weaken {A} (R R' : state -> state -> Prop) (m : M state A) :
  (forall s s', R s s' -> R' s s') -> keeps R m -> keeps R' m.
Proof. intros Hsub H s. apply Hsub, H. Qed.

Lemma session_globals s s' : same_session s s' -> same_globals s s'.
Proof. unfold same_session, same_globals. tauto. Qed.

Lemma globals_tame {A} (m : M state A) : keeps same_session m -> keeps same_globals m.
Proof. apply kept_weaken. exact session_globals. Qed.

Ltac globals := unfold same_globals; simpl; tauto.

Lemma globals_launch : keeps same_globals (launch_browser E).
Proof. intros s. unfold launch_browser. destruct (launch E (launches s)); globals. Qed.

Lemma globals_write_session data : keeps same_globals (write_session E data).
Proof. intros s. unfold write_session. destruct (write_fault E); globals. Qed.

Lemma globals_copy_backup : keeps same_globals (copy_backup E).
Proof. intros s. unfold copy_backup. destruct (copy_fault E); globals. Qed.

Lemma globals_unlinkSync : keeps same_globals (unlinkSync E).
Proof. intros s. unfold unlinkSync. destruct (unlink_fault E); globals. Qed.

Lemma globals_close_browser b : keeps same_globals (close_browser E b).
Proof. intros s. unfold close_browser. destruct (close_browser_fault E); globals. Qed.

Lemma globals_refreshSession c : keeps same_globals (refreshSession E c).
Proof.
  intros s. destruct (refreshSession_ends c s) as (s' & Hr & Hg & _).
  rewrite Hr. exact Hg.
Qed.

Lemma no_return_throw {A} e : no_return (@throw state A e).
Proof. intros s a s' H. discriminate H. Qed.

Lemma no_return_bind {A B} (m : M state A) (k : A -> M state B) :
  (forall a, no_return (k a)) -> no_return (bind m k).
Proof.
  intros Hk s b s' H. apply bind_ret in H as (a & s1 & _ & H). exact (Hk a s1 b s' H).
Qed.

Lemma no_return_returns {A} R (m : M state A) : no_return m -> returns R m.
Proof. intros H s a s' Hm. destruct (H s a s' Hm). Qed.

Lemma update_ret f s (u : unit) s' : update f s = (Ret u, s') -> s' = f s.
Proof. unfold update. intros H. inversion H. reflexivity. Qed.

Ltac sg_step :=
  first
    [ apply globals_launch
    | apply globals_write_session
    | apply globals_copy_backup
    | apply globals_unlinkSync
    | apply globals_close_browser
    | apply globals_refreshSession
    | apply globals_tame;
      first [ apply tame_act | apply tame_attempt | apply tame_existsSync
            | apply tame_cached | apply tame_is_logged_in | apply tame_newContext
            | apply tame_newPage | apply tame_read_session | apply tame_storageState
            | apply tame_safeNavigate | apply tame_check_login | apply tame_wait_login ]
    | apply (kept_ret _ same_globals_refl)
    | apply (kept_throw _ same_globals_refl)
    | apply (kept_bind _ same_globals_trans); [ | intros ? ]
    | apply (kept_try_catch _ same_globals_trans); [ | intros ? ] ].

(** The wait of [login] returns only when the login came. *)
Lemma login_wait_returns browser (loggedIn : bool) :
  returns same_globals
    (if negb loggedIn then
       safeNavigate E "https://x.com/i/flow/login" ;;
       loggedIn' <- wait_login E 60 ;;
       if negb loggedIn' then
         close_browser E browser ;;
         update (set_globalBrowser None) ;;
         update (set_globalContext None) ;;
         throw (Error "Login timeout - please try again")
       else ret tt
     else ret tt).
Proof.
  apply returns_if; [ | apply (returns_ret _ same_globals_refl) ].
  apply (returns_bind _ same_globals_trans);
    [ apply kept_returns; sg_step | intros _ ].
  apply (returns_bind _ same_globals_trans);
    [ apply kept_returns; sg_step | intros loggedIn' ].
  apply returns_if; [ | apply (returns_ret _ same_globals_refl) ].
  apply no_return_returns.
  apply no_return_bind. intros _. apply no_return_bind. intros _.
  apply no_return_bind. intros _. apply no_return_throw.
Qed.

Ltac same_after H :=
  match type of H with
  | ?m ?s = (_, ?s1) =>
      let K := fresh "K" in
      assert (K : same_globals s s1)
        by (let G := fresh in
            assert (G : keeps same_globals m) by (repeat sg_step);
            specialize (G s); rewrite H in G; exact G)
  end.

Lemma login_done s b c s' :
  login E s = (Ret (b, c), s') ->
  globalBrowser s' = Some b /\ globalContext s' = Some c.
Proof.
  intros H. unfold login in H.
  apply bind_ret in H as (hit & s0 & Hc & H).
  unfold cached in Hc. inversion Hc; subst s0 hit; clear Hc.
  destruct (globalBrowser s) as [ gb | ] eqn:Hgb;
    [ destruct (globalContext s) as [ gc | ] eqn:Hgc | ].
  { inversion H; subst. auto. }
  all: apply bind_ret in H as (browser & s1 & H1 & H);
    apply bind_ret in H as (there & s2 & H2 & H);
    apply bind_ret in H as ([] & s3 & H3 & H);
    apply bind_ret in H as (context & s4 & H4 & H);
    apply bind_ret in H as ([] & s5 & H5 & H);
    apply bind_ret in H as ([] & s6 & H6 & H);
    apply bind_ret in H as ([] & s7 & H7 & H);
    apply bind_ret in H as (ok & s8 & H8 & H);
    apply bind_ret in H as (loggedIn & s9 & H9 & H);
    apply bind_ret in H as ([] & s10 & H10 & H);
    apply bind_ret in H as (data & s11 & H11 & H);
    apply bind_ret in H as ([] & s12 & H12 & H);
    inversion H; subst b c s12; clear H;
    apply update_ret in H5, H6; subst s6 s5;
    same_after H7; same_after H8; same_after H9; same_after H11; same_after H12;
    pose proof (login_wait_returns browser loggedIn _ _ _ H10) as K10;
    unfold same_globals in *; simpl in *; intuition congruence.
Qed.

Lemma session_try_return browserInstance s p s' :
  session_try E browserInstance s = (Ret (Return p), s') ->
  exists context,
    p = (browserInstance, context)
    /\ globalContext s' = Some context
    /\ globalBrowser s' = globalBrowser s.
Proof.
  intros H. unfold session_try in H.
  apply bind_ret in H as ([] & s1 & H1 & H).
  apply bind_ret in H as (context & s2 & H2 & H).
  apply bind_ret in H as ([] & s3 & H3 & H).
  apply bind_ret in H as ([] & s4 & H4 & H).
  apply bind_ret in H as (ok & s5 & H5 & H).
  apply bind_ret in H as (still & s6 & H6 & H).
  apply update_ret in H3. subst s3.
  same_after H1. same_after H2. same_after H4. same_after H5. same_after H6.
  destruct still; cbn [negb] in H.
  - apply bind_ret in H as ([] & s7 & H7 & H).
    inversion H; subst p s7; clear H.
    assert (K7 : same_globals s6 s').
    { assert (G : keeps same_globals
                    (try_catch
                       (fun s => match globalContext s with
                                 | Some c => (act (SetInterval 1800000) ;; refreshSession E c) s
                                 | None => (Ret tt, s)
                                 end)
                       (fun _ => ret tt))).
      { apply (kept_try_catch _ same_globals_trans);
          [ | intros _; apply (kept_ret _ same_globals_refl) ].
        intros s0. destruct (globalContext s0) as [ c | ]; [ | apply same_globals_refl ].
        assert (G : keeps same_globals (act (SetInterval 1800000) ;; refreshSession E c))
          by (repeat sg_step).
        apply G. }
      specialize (G s6). rewrite H7 in G. exact G. }
    exists context. unfold same_globals in *. simpl in *. intuition congruence.
  - apply bind_ret in H as (there & s7 & H7 & H).
    apply bind_ret in H as ([] & s8 & H8 & H).
    apply bind_ret in H as ([] & s9 & H9 & H).
    apply bind_ret in H as ([] & s10 & H10 & H).
    inversion H.
Qed.

Lemma session_catch_calls browserInstance s how s' :
  session_catch E browserInstance s = (Ret how, s') -> how = CallLogin.
Proof.
  intros H. unfold session_catch in H.
  apply bind_ret in H as (there & s1 & H1 & H).
  apply bind_ret in H as ([] & s2 & H2 & H).
  apply bind_ret in H as ([] & s3 & H3 & H).
  apply bind_ret in H as ([] & s4 & H4 & H).
  apply bind_ret in H as ([] & s5 & H5 & H).
  inversion H. reflexivity.
Qed.

Lemma cached_hit s b c :
  globalBrowser s = Some b -> globalContext s = Some c ->
  get_browser_with_session E s = (Ret (b, c), s) /\ login E s = (Ret (b, c), s).
Proof.
  intros Hb Hc. unfold get_browser_with_session, login, bind, cached.
  rewrite Hb, Hc. split; reflexivity.
Qed.

Lemma session_done s b c s' :
  get_browser_with_session E s = (Ret (b, c), s') ->
  globalBrowser s' = Some b /\ globalContext s' = Some c.
Proof.
  intros H. unfold get_browser_with_session in H.
  apply bind_ret in H as (hit & s0 & Hc & H).
  unfold cached in Hc. inversion Hc; subst s0 hit; clear Hc.
  destruct (globalBrowser s) as [ gb | ] eqn:Hgb;
    [ destruct (globalContext s) as [ gc | ] eqn:Hgc | ].
  { inversion H; subst. auto. }
  all: apply bind_ret in H as (hasSession & s1 & H1 & H);
    apply bind_ret in H as (browserInstance & s2 & H2 & H);
    apply bind_ret in H as ([] & s3 & H3 & H);
    apply update_ret in H3; subst s3;
    (destruct hasSession;
     [ apply bind_ret in H as (how & s4 & H4 & H);
       destruct how as [ p | ];
       [ inversion H; subst p s4; clear H;
         unfold try_catch in H4;
         destruct (session_try E browserInstance (set_globalBrowser (Some browserInstance) s2))
           as [[how | e] sx] eqn:Htry;
         [ inversion H4; subst how sx; clear H4;
           apply session_try_return in Htry as (context & Hp & Hctx & Hbr);
           inversion Hp; subst; simpl in Hbr; auto
         | apply session_catch_calls in H4; discriminate H4 ]
       | exact (login_done _ _ _ _ H) ]
     | apply bind_ret in H as ([] & s4 & H4 & H);
       apply bind_ret in H as ([] & s5 & H5 & H);
       exact (login_done _ _ _ _ H) ]).
Qed.

(** *** The wait for the login *)

Lemma looks_app evs1 evs2 : looks (evs1 ++ evs2) = (looks evs1 + looks evs2)%nat.
Proof.
  induction evs1 as [ | a evs1 IH ]; [ reflexivity | ].
  destruct a; simpl; rewrite IH; reflexivity.
Qed.

Lemma slept_app evs1 evs2 : slept (evs1 ++ evs2) = slept evs1 + slept evs2.
Proof.
  induction evs1 as [ | a evs1 IH ]; [ reflexivity | ].
  destruct a; simpl; rewrite IH; lia.
Qed.

Lemma looks_waiting n : looks (waiting n) = n.
Proof. induction n as [ | n IH ]; simpl; congruence. Qed.

Lemma slept_waiting n : slept (waiting n) = 5000 * Z.of_nat n.
Proof. induction n as [ | n IH ]; [ reflexivity | ]. cbn [waiting slept]. lia. Qed.

Lemma state_eq s1 s2 :
  globalBrowser s1 = globalBrowser s2 -> globalContext s1 = globalContext s2 ->
  session s1 = session s2 -> backup s1 = backup s2 ->
  open_browsers s1 = open_browsers s2 -> launches s1 = launches s2 ->
  contexts s1 = contexts s2 -> pages s1 = pages s2 -> checks s1 = checks s2 ->
  acts s1 = acts s2 -> s1 = s2.
Proof. destruct s1, s2. simpl. intros. subst. reflexivity. Qed.

Lemma later_nothing s : later 0 [] s = s.
Proof. destruct s. unfold later. cbn. rewrite app_nil_r. reflexivity. Qed.

Lemma safeNavigate_run url s :
  exists ok evs,
    safeNavigate E url s = (Ret ok, later 0 evs s) /\ looks evs = O /\ slept evs = 0.
Proof.
  unfold safeNavigate, try_catch, bind, attempt, act, throw, ret.
  destruct (goto E url).
  - exists false, []. rewrite later_nothing. auto.
  - destruct (body E).
    + exists false, [Goto url]. auto.
    + exists true, [Goto url; WaitBody]. unfold later, log. cbn.
      rewrite <- app_assoc. auto.
Qed.

Lemma wait_login_never n : forall s,
  (forall j, (j < n)%nat -> logged_in (page E (checks s + j)) = false) ->
  wait_login E n s = (Ret false, later n (waiting n) s).
Proof.
  induction n as [ | n IH ]; intros s Hout.
  - cbn [wait_login waiting]. unfold ret. rewrite later_nothing. reflexivity.
  - cbn [wait_login]. unfold bind at 1. unfold is_logged_in.
    pose proof (Hout O ltac:(lia)) as H0. rewrite Nat.add_0_r in H0. rewrite H0.
    unfold bind at 1. unfold act at 1. rewrite IH.
    + f_equal. unfold later, log, count_check. cbn. f_equal; [ lia | ].
      rewrite <- !app_assoc. reflexivity.
    + intros j Hj. cbn. specialize (Hout (S j) ltac:(lia)).
      rewrite Nat.add_succ_r in Hout. exact Hout.
Qed.

Lemma wait_login_until n : forall j s,
  (j < n)%nat ->
  (forall i, (i < j)%nat -> logged_in (page E (checks s + i)) = false) ->
  logged_in (page E (checks s + j)) = true ->
  wait_login E n s = (Ret true, later (S j) (waiting j ++ [Check true]) s).
Proof.
  induction n as [ | n IH ]; intros j s Hj Hout Hin; [ lia | ].
  cbn [wait_login]. unfold bind at 1. unfold is_logged_in.
  destruct j as [ | j ].
  - rewrite Nat.add_0_r in Hin. rewrite Hin. reflexivity.
  - pose proof (Hout O ltac:(lia)) as H0. rewrite Nat.add_0_r in H0. rewrite H0.
    unfold bind at 1. unfold act at 1. rewrite (IH j).
    + f_equal. unfold later, log, count_check. cbn. f_equal; [ lia | ].
      rewrite <- !app_assoc. reflexivity.
    + lia.
    + intros i Hi. cbn. specialize (Hout (S i) ltac:(lia)).
      rewrite Nat.add_succ_r in Hout. exact Hout.
    + cbn. rewrite Nat.add_succ_r in Hin. exact Hin.
Qed.

(** [login] up to its first look at the page, when nothing fails. *)
Lemma login_start s :
  (globalBrowser s = None \/ globalContext s = None) ->
  launch E (launches s) = Launched ->
  (forall text, session s = Some text -> parse_fault E text = None) ->
  new_context E (contexts s) = None ->
  new_page E (pages s) = None ->
  exists evs,
    looks evs = O /\ slept evs = 0
    /\ login E s
       = (loggedIn <- is_logged_in E ;;
          (if negb loggedIn then
             safeNavigate E "https://x.com/i/flow/login" ;;
             loggedIn' <- wait_login E 60 ;;
             if negb loggedIn' then
               close_browser E (launches s) ;;
               update (set_globalBrowser None) ;;
               update (set_globalContext None) ;;
               throw (Error "Login timeout - please try again")
             else ret tt
           else ret tt) ;;
          sessionData <- storageState E ;;
          write_session E sessionData ;;
          ret (launches s, contexts s))
           {| globalBrowser := Some (launches s); globalContext := Some (contexts s);
              session := session s; backup := backup s;
              open_browsers := open_browsers s ++ [launches s];
              launches := S (launches s); contexts := S (contexts s);
              pages := S (pages s); checks := checks s;
              acts := acts s ++ evs |}.
Proof.
  intros Hc Hl Hr Hn Hp.
  set (s4 := log NewPage
               (count_page
                  (set_globalContext (Some (contexts s))
                     (set_globalBrowser (Some (launches s))
                        (log (NewContext (contexts s))
                           (count_context
                              (log (Launch (launches s))
                                 (set_open (open_browsers s ++ [launches s])
                                    (count_launch s))))))))).
  destruct (safeNavigate_run "https://x.com" s4) as (ok & evs & Hnav & Hlooks & Hslept).
  exists ([Launch (launches s); NewContext (contexts s); NewPage] ++ evs).
  split; [ rewrite looks_app; simpl; exact Hlooks | ].
  split; [ rewrite slept_app; simpl; exact Hslept | ].
  match goal with |- _ = ?rhs => remember rhs as goal_ eqn:Hgoal end.
  unfold login.
  erewrite run_bind_eq;
    [ | unfold cached; destruct Hc as [ Hc | Hc ]; rewrite Hc;
        [ reflexivity | destruct (globalBrowser s); reflexivity ] ].
  cbv iota.
  erewrite run_bind_eq; [ | unfold launch_browser; rewrite Hl; reflexivity ].
  erewrite run_bind_eq; [ | reflexivity ].
  erewrite run_bind_eq;
    [ | cbn [session log set_open count_launch];
        instantiate (1 := log (Launch (launches s))
                            (set_open (open_browsers s ++ [launches s]) (count_launch s)));
        instantiate (1 := tt);
        destruct (session s) as [ text | ] eqn:Hs;
        [ unfold read_session; cbn [session log set_open count_launch];
          rewrite Hs, (Hr text eq_refl); reflexivity
        | reflexivity ] ].
  erewrite run_bind_eq;
    [ | unfold newContext; cbn [contexts log set_open count_launch]; rewrite Hn; reflexivity ].
  erewrite run_bind_eq; [ | reflexivity ].
  erewrite run_bind_eq; [ | reflexivity ].
  erewrite run_bind_eq;
    [ | unfold newPage, update;
        cbn [pages log set_open count_launch count_context set_globalBrowser
               set_globalContext];
        rewrite Hp; reflexivity ].
  erewrite run_bind_eq; [ | exact Hnav ].
  subst goal_. f_equal.
  apply state_eq; try reflexivity.
  simpl. rewrite <- !app_assoc. reflexivity.
Qed.

Lemma login_times_out s :
  (globalBrowser s = None \/ globalContext s = None) ->
  launch E (launches s) = Launched ->
  (forall text, session s = Some text -> parse_fault E text = None) ->
  new_context E (contexts s) = None ->
  new_page E (pages s) = None ->
  (forall j, (j <= 60)%nat -> logged_in (page E (checks s + j)) = false) ->
  close_browser_fault E = None ->
  exists s' evs,
    login E s = (Throw (Error "Login timeout - please try again"), s')
    /\ globalBrowser s' = None /\ globalContext s' = None
    /\ ~ In (launches s) (open_browsers s')
    /\ session s' = session s
    /\ acts s' = acts s ++ evs /\ looks evs = 61%nat /\ slept evs = 300000.
Proof.
  intros Hc Hl Hr Hn Hp Hout Hclose.
  destruct (login_start s Hc Hl Hr Hn Hp) as (evs & Hlooks & Hslept & Hrun).
  rewrite Hrun. clear Hrun.
  pose proof (Hout O ltac:(lia)) as H0. rewrite Nat.add_0_r in H0.
  erewrite run_bind_eq; [ | unfold is_logged_in; cbn [checks]; rewrite H0; reflexivity ].
  cbn [negb].
  match goal with
  | |- context [log (Check false) ?x] => set (s6 := log (Check false) x)
  end.
  destruct (safeNavigate_run "https://x.com/i/flow/login" s6)
    as (ok & evs' & Hnav & Hlooks' & Hslept').
  erewrite run_bind_throw.
  2:{ erewrite run_bind_eq; [ | exact Hnav ].
      erewrite run_bind_eq.
      2:{ apply wait_login_never. intros j Hj. simpl.
          rewrite <- Nat.add_succ_r. apply Hout. lia. }
      cbn [negb].
      erewrite run_bind_eq; [ | unfold close_browser; rewrite Hclose; reflexivity ].
      erewrite run_bind_eq; [ | reflexivity ].
      erewrite run_bind_eq; [ | reflexivity ].
      reflexivity. }
  eexists. exists (evs ++ [Check false] ++ evs' ++ waiting 60 ++ [CloseBrowser (launches s)]).
  split; [ reflexivity | ].
  split; [ reflexivity | ].
  split; [ reflexivity | ].
  split.
  { simpl. intros Hin. apply filter_In in Hin as [ _ Hne ].
    rewrite Nat.eqb_refl in Hne. discriminate Hne. }
  split; [ reflexivity | ].
  split.
  { simpl. rewrite <- !app_assoc. reflexivity. }
  split.
  - rewrite !looks_app, Hlooks, Hlooks', looks_waiting. reflexivity.
  - rewrite !slept_app, Hslept, Hslept', slept_waiting. reflexivity.
Qed.

Lemma login_goes_through s j data :
  (globalBrowser s = None \/ globalContext s = None) ->
  launch E (launches s) = Launched ->
  (forall text, session s = Some text -> parse_fault E text = None) ->
  new_context E (contexts s) = None ->
  new_page E (pages s) = None ->
  (j <= 60)%nat ->
  (forall i, (i < j)%nat -> logged_in (page E (checks s + i)) = false) ->
  logged_in (page E (checks s + j)) = true ->
  storage_state E (checks s + S j) = Ret data ->
  write_fault E = None ->
  exists s' evs,
    login E s = (Ret (launches s, contexts s), s')
    /\ globalBrowser s' = Some (launches s) /\ globalContext s' = Some (contexts s)
    /\ In (launches s) (open_browsers s')
    /\ session s' = Some data
    /\ acts s' = acts s ++ evs /\ looks evs = S j
    /\ slept evs = 5000 * Z.of_nat (j - 1).
Proof.
  intros Hc Hl Hr Hn Hp Hj Hout Hin Hdata Hwrite.
  destruct (login_start s Hc Hl Hr Hn Hp) as (evs & Hlooks & Hslept & Hrun).
  rewrite Hrun. clear Hrun.
  destruct j as [ | j ].
  - rewrite Nat.add_0_r in Hin. rewrite Nat.add_1_r in Hdata.
    erewrite run_bind_eq; [ | unfold is_logged_in; cbn [checks]; rewrite Hin; reflexivity ].
    cbn [negb].
    erewrite run_bind_eq; [ | reflexivity ].
    erewrite run_bind_eq;
      [ | unfold storageState; cbn [checks log count_check]; rewrite Hdata; reflexivity ].
    erewrite run_bind_eq; [ | unfold write_session; rewrite Hwrite; reflexivity ].
    eexists. exists (evs ++ [Check true; WriteSession data]).
    split; [ reflexivity | ].
    split; [ reflexivity | ].
    split; [ reflexivity | ].
    split; [ simpl; apply in_or_app; right; left; reflexivity | ].
    split; [ reflexivity | ].
    split; [ simpl; rewrite <- !app_assoc; reflexivity | ].
    split.
    + rewrite looks_app, Hlooks. reflexivity.
    + rewrite slept_app, Hslept. reflexivity.
  - pose proof (Hout O ltac:(lia)) as H0. rewrite Nat.add_0_r in H0.
    erewrite run_bind_eq; [ | unfold is_logged_in; cbn [checks]; rewrite H0; reflexivity ].
    cbn [negb].
    match goal with
    | |- context [log (Check false) ?x] => set (s6 := log (Check false) x)
    end.
    destruct (safeNavigate_run "https://x.com/i/flow/login" s6)
      as (ok & evs' & Hnav & Hlooks' & Hslept').
    erewrite run_bind_eq.
    2:{ erewrite run_bind_eq; [ | exact Hnav ].
        erewrite run_bind_eq.
        2:{ apply (wait_login_until 60 j); [ lia | | ].
            - intros i Hi. simpl. rewrite <- Nat.add_succ_r. apply Hout. lia.
            - simpl. rewrite <- Nat.add_succ_r. exact Hin. }
        reflexivity. }
    erewrite run_bind_eq.
    2:{ unfold storageState. cbn [checks later].
        replace (S j + (0 + checks s6))%nat with (checks s + S (S j))%nat
          by (unfold s6; simpl; lia).
        rewrite Hdata. reflexivity. }
    erewrite run_bind_eq; [ | unfold write_session; rewrite Hwrite; reflexivity ].
    eexists. exists (evs ++ [Check false] ++ evs' ++ (waiting j ++ [Check true])
                       ++ [WriteSession data]).
    split; [ reflexivity | ].
    split; [ reflexivity | ].
    split; [ reflexivity | ].
    split; [ simpl; apply in_or_app; right; left; reflexivity | ].
    split; [ reflexivity | ].
    split; [ simpl; rewrite <- !app_assoc; reflexivity | ].
    split.
    + rewrite !looks_app, Hlooks, Hlooks', looks_waiting. simpl. lia.
    + rewrite !slept_app, Hslept, Hslept', slept_waiting. simpl.
      replace (j - 0)%nat with j by lia. lia.
Qed.

(** *** The browsers that stay open *)

Lemma session_open b s s' : same_session s s' -> stays_open b s s'.
Proof.
  unfold same_session, stays_open. intros (_ & _ & _ & _ & Ho & Hl).
  rewrite Ho, Hl. auto.
Qed.

Lemma open_tame {A} b (m : M state A) : keeps same_session m -> keeps (stays_open b) m.
Proof. apply kept_weaken. apply session_open. Qed.

Ltac still_open := unfold stays_open; simpl; auto.

Lemma open_launch b : keeps (stays_open b) (launch_browser E).
Proof.
  intros s. unfold launch_browser. destruct (launch E (launches s)); still_open.
  split; [ intros H; apply in_or_app; auto | lia ].
Qed.

Lemma open_update_browser b g : keeps (stays_open b) (update (set_globalBrowser g)).
Proof. intros s. still_open. Qed.

Lemma open_update_context b g : keeps (stays_open b) (update (set_globalContext g)).
Proof. intros s. still_open. Qed.

Lemma open_write_session b data : keeps (stays_open b) (write_session E data).
Proof. intros s. unfold write_session. destruct (write_fault E); still_open. Qed.

Lemma open_unlinkSync b : keeps (stays_open b) (unlinkSync E).
Proof. intros s. unfold unlinkSync. destruct (unlink_fault E); still_open. Qed.

Lemma open_close_browser b k : k <> b -> keeps (stays_open b) (close_browser E k).
Proof.
  intros Hne s. unfold close_browser. destruct (close_browser_fault E); still_open.
  split; [ | lia ]. intros H. apply filter_In. split; [ exact H | ].
  apply negb_true_iff, Nat.eqb_neq. congruence.
Qed.

Ltac so_step b :=
  first
    [ apply open_launch
    | apply open_update_browser
    | apply open_update_context
    | apply open_write_session
    | apply open_unlinkSync
    | apply open_close_browser; assumption
    | apply open_tame;
      first [ apply tame_act | apply tame_attempt | apply tame_existsSync
            | apply tame_cached | apply tame_is_logged_in | apply tame_newContext
            | apply tame_newPage | apply tame_read_session | apply tame_storageState
            | apply tame_safeNavigate | apply tame_check_login | apply tame_wait_login ]
    | apply (kept_ret _ (stays_open_refl b))
    | apply (kept_throw _ (stays_open_refl b))
    | apply kept_if
    | apply (kept_bind _ (stays_open_trans b)); [ | intros ? ]
    | apply (kept_try_catch _ (stays_open_trans b)); [ | intros ? ] ].

(** [login] closes no browser but its own, and launches one unless the
    globals are set. *)
Lemma login_leaves_open b s :
  b <> launches s ->
  (globalBrowser s = None \/ globalContext s = None) ->
  (In b (open_browsers s) -> In b (open_browsers (snd (login E s))))
  /\ (S (launches s) <= launches (snd (login E s)))%nat.
Proof.
  intros Hne Hc. unfold login.
  erewrite run_bind_eq;
    [ | unfold cached; destruct Hc as [ Hc | Hc ]; rewrite Hc;
        [ reflexivity | destruct (globalBrowser s); reflexivity ] ].
  cbv iota.
  destruct (launch E (launches s)) eqn:Hl;
    [ erewrite run_bind_eq; [ | unfold launch_browser; rewrite Hl; reflexivity ]
    | erewrite run_bind_throw; [ | unfold launch_browser; rewrite Hl; reflexivity ];
      simpl; auto
    | erewrite run_bind_throw; [ | unfold launch_browser; rewrite Hl; reflexivity ];
      simpl; auto ].
  match goal with
  | |- context [snd (?m ?s1)] =>
      assert (K : keeps (stays_open b) m)
  end.
  { assert (Hne' : launches s <> b) by congruence. repeat so_step b. }
  match goal with
  | |- context [snd (?m ?s1)] => specialize (K s1); destruct K as [ K1 K2 ]
  end.
  split.
  - intros Hin. apply K1. simpl. apply in_or_app. auto.
  - exact K2.
Qed.

Lemma login_fresh s b c s' :
  (globalBrowser s = None \/ globalContext s = None) ->
  login E s = (Ret (b, c), s') -> b = launches s.
Proof.
  intros Hc H. unfold login in H.
  erewrite run_bind_eq in H;
    [ | unfold cached; destruct Hc as [ Hc | Hc ]; rewrite Hc;
        [ reflexivity | destruct (globalBrowser s); reflexivity ] ].
  cbv iota in H.
  apply bind_ret in H as (browser & s1 & H1 & H).
  assert (Hb : browser = launches s).
  { unfold launch_browser in H1. destruct (launch E (launches s)); inversion H1. reflexivity. }
  apply bind_ret in H as (there & s2 & H2 & H).
  apply bind_ret in H as ([] & s3 & H3 & H).
  apply bind_ret in H as (context & s4 & H4 & H).
  apply bind_ret in H as ([] & s5 & H5 & H).
  apply bind_ret in H as ([] & s6 & H6 & H).
  apply bind_ret in H as ([] & s7 & H7 & H).
  apply bind_ret in H as (ok & s8 & H8 & H).
  apply bind_ret in H as (loggedIn & s9 & H9 & H).
  apply bind_ret in H as ([] & s10 & H10 & H).
  apply bind_ret in H as (data & s11 & H11 & H).
  apply bind_ret in H as ([] & s12 & H12 & H).
  inversion H. congruence.
Qed.

Lemma expired_session s text :
  (globalBrowser s = None \/ globalContext s = None) ->
  session s = Some text ->
  stat_fault E = None ->
  young E = true ->
  launch E (launches s) = Launched ->
  parse_fault E text = None ->
  new_context E (contexts s) = None ->
  new_page E (pages s) = None ->
  logged_in (page E (checks s)) = false ->
  unlink_fault E = None ->
  close_context_fault E = None ->
  In (launches s) (open_browsers (snd (get_browser_with_session E s)))
  /\ (launches s + 2 <= launches (snd (get_browser_with_session E s)))%nat
  /\ (forall b c, fst (get_browser_with_session E s) = Ret (b, c) -> b = S (launches s)).
Proof.
  intros Hc Hs Hstat Hyoung Hl Hparse Hn Hp Hout Hunlink Hclose.
  set (s4 := log NewPage
               (count_page
                  (set_globalContext (Some (contexts s))
                     (log (NewContext (contexts s))
                        (count_context
                           (set_globalBrowser (Some (launches s))
                              (log (Launch (launches s))
                                 (set_open (open_browsers s ++ [launches s])
                                    (count_launch s))))))))).
  destruct (safeNavigate_run "https://x.com" s4) as (ok & evs & Hnav & _ & _).
  assert (Hrun : exists s5,
             get_browser_with_session E s = login E s5
             /\ globalContext s5 = None
             /\ launches s5 = S (launches s)
             /\ In (launches s) (open_browsers s5)).
  { eexists. split.
    - unfold get_browser_with_session.
      erewrite run_bind_eq;
        [ | unfold cached; destruct Hc as [ Hc | Hc ]; rewrite Hc;
            [ reflexivity | destruct (globalBrowser s); reflexivity ] ].
      cbv iota.
      erewrite run_bind_eq;
        [ | unfold check_login, try_catch, bind, existsSync, ret;
            rewrite Hs, Hstat, Hyoung; reflexivity ].
      erewrite run_bind_eq; [ | unfold launch_browser; rewrite Hl; reflexivity ].
      erewrite run_bind_eq; [ | reflexivity ].
      cbv iota.
      erewrite run_bind_eq.
      2:{ unfold try_catch, session_try.
          erewrite run_bind_eq;
            [ | unfold read_session, update;
                cbn [session log set_open count_launch set_globalBrowser];
                rewrite Hs, Hparse; reflexivity ].
          erewrite run_bind_eq;
            [ | unfold newContext, update;
                cbn [contexts log set_open count_launch set_globalBrowser];
                rewrite Hn; reflexivity ].
          erewrite run_bind_eq; [ | reflexivity ].
          erewrite run_bind_eq;
            [ | unfold newPage, update;
                cbn [pages log set_open count_launch count_context set_globalBrowser
                       set_globalContext];
                rewrite Hp; reflexivity ].
          erewrite run_bind_eq; [ | exact Hnav ].
          erewrite run_bind_eq;
            [ | unfold is_logged_in; cbn; rewrite Hout; reflexivity ].
          cbn [negb].
          erewrite run_bind_eq; [ | unfold existsSync; cbn; rewrite Hs; reflexivity ].
          erewrite run_bind_eq; [ | unfold unlinkSync; rewrite Hunlink; reflexivity ].
          erewrite run_bind_eq; [ | unfold attempt; rewrite Hclose; reflexivity ].
          erewrite run_bind_eq; [ | reflexivity ].
          reflexivity. }
      cbv iota. reflexivity.
    - cbn. repeat split. apply in_or_app. right. left. reflexivity. }
  destruct Hrun as (s5 & Hrun & Hctx & Hlaunches & Hopen).
  rewrite Hrun.
  destruct (login_leaves_open (launches s) s5) as [ K1 K2 ];
    [ rewrite Hlaunches; lia | right; exact Hctx | ].
  repeat split.
  - apply K1. exact Hopen.
  - rewrite Hlaunches in K2. lia.
  - intros b c Hret. rewrite <- Hlaunches.
    destruct (login E s5) as [r s'] eqn:Hlogin. simpl in Hret. subst r.
    apply (login_fresh s5 b c s'); [ right; exact Hctx | exact Hlogin ].
Qed.

End SessionFacts.


(** X22: what [is_logged_in] answers on a page whose queries do not
    throw. A link for logging in or signing up decides against the
    login whatever else the page shows; without one, a profile or
    compose link or at least one post decides for it. *)
Theorem a_login_link_decides (f : string -> bool) (n : nat) :
  Session.logged_in {| Session.query := fun sel => Eff.Ret (f sel);
                       Session.articles := Eff.Ret n |}
  = negb (existsb f Session.login_links)
    && (existsb f Session.profile_links || (0 <? n)%nat).
Proof. exact (logged_in_found f n). Qed.

(** X23: [refreshSession] never throws and leaves the globals and the
    browsers alone. It writes the session file only when the page
    shows a login, and then writes what [storageState] gave; whenever
    it changes a session file that was there, the backup holds the
    text the file had before. *)
Theorem a_refresh_keeps_the_old_session
    (E : Session.env) (context : nat) (s : Session.state) :
  exists s',
    Session.refreshSession E context s = (Eff.Ret tt, s')
    /\ Session.same_globals s s'
    /\ Session.open_browsers s' = Session.open_browsers s
    /\ (Session.session s' = Session.session s
        \/ Session.logged_in (Session.page E (Session.checks s)) = true
           /\ exists data,
                Session.storage_state E (S (Session.checks s)) = Eff.Ret data
                /\ Session.session s' = Some data)
    /\ (Session.session s' <> Session.session s ->
        Session.session s = None \/ Session.backup s' = Session.session s).
Proof. exact (refreshSession_ends E context s). Qed.

(** X24: [login] gives up after five minutes. When the globals are not
    both set, the browser, the context and the page are made and the
    page never shows a login, [login] throws 'Login timeout - please
    try again' after 61 looks at the page and 60 pauses of 5 s; the
    browser it launched is closed, both globals are null and the
    session file is as it was. *)
Theorem login_gives_up_after_five_minutes (E : Session.env) (s : Session.state) :
  (Session.globalBrowser s = None \/ Session.globalContext s = None) ->
  Session.launch E (Session.launches s) = Session.Launched ->
  (forall text, Session.session s = Some text -> Session.parse_fault E text = None) ->
  Session.new_context E (Session.contexts s) = None ->
  Session.new_page E (Session.pages s) = None ->
  (forall j, (j <= 60)%nat ->
             Session.logged_in (Session.page E (Session.checks s + j)) = false) ->
  Session.close_browser_fault E = None ->
  exists s' evs,
    Session.login E s = (Eff.Throw (Eff.Error "Login timeout - please try again"), s')
    /\ Session.globalBrowser s' = None /\ Session.globalContext s' = None
    /\ ~ In (Session.launches s) (Session.open_browsers s')
    /\ Session.session s' = Session.session s
    /\ Session.acts s' = (Session.acts s ++ evs)%list
    /\ Session.looks evs = 61%nat /\ Session.slept evs = 300000.
Proof.
  intros Hc Hl Hr Hn Hp Hout Hclose.
  exact (login_times_out E s Hc Hl Hr Hn Hp Hout Hclose).
Qed.

(** A page that never shows a login. *)
Lemma nobody_logs_in :
  exists s' evs,
    Session.login (Session.calm (fun _ => Session.page_with [] 0) "{}") (Session.fresh None)
    = (Eff.Throw (Eff.Error "Login timeout - please try again"), s')
    /\ Session.globalBrowser s' = None /\ Session.globalContext s' = None
    /\ ~ In 0%nat (Session.open_browsers s')
    /\ Session.session s' = None
    /\ Session.acts s' = evs
    /\ Session.looks evs = 61%nat /\ Session.slept evs = 300000.
Proof.
  apply (login_gives_up_after_five_minutes
           (Session.calm (fun _ => Session.page_with [] 0) "{}") (Session.fresh None)).
  - left. reflexivity.
  - reflexivity.
  - intros text H. reflexivity.
  - reflexivity.
  - reflexivity.
  - intros j Hj. reflexivity.
  - reflexivity.
Defined.

(** X25: [login] returns once the page shows a login. When the page
    first shows it at look [j] (the look before the loop is look 0,
    the loop makes up to 60), [login] returns the browser and the
    context it made, has set both globals to them, has written what
    [storageState] gave to the session file, and has paused
    [j - 1] times 5 s. *)
Theorem login_returns_once_the_user_is_in
    (E : Session.env) (s : Session.state) (j : nat) (data : string) :
  (Session.globalBrowser s = None \/ Session.globalContext s = None) ->
  Session.launch E (Session.launches s) = Session.Launched ->
  (forall text, Session.session s = Some text -> Session.parse_fault E text = None) ->
  Session.new_context E (Session.contexts s) = None ->
  Session.new_page E (Session.pages s) = None ->
  (j <= 60)%nat ->
  (forall i, (i < j)%nat ->
             Session.logged_in (Session.page E (Session.checks s + i)) = false) ->
  Session.logged_in (Session.page E (Session.checks s + j)) = true ->
  Session.storage_state E (Session.checks s + S j) = Eff.Ret data ->
  Session.write_fault E = None ->
  exists s' evs,
    Session.login E s = (Eff.Ret (Session.launches s, Session.contexts s), s')
    /\ Session.globalBrowser s' = Some (Session.launches s)
    /\ Session.globalContext s' = Some (Session.contexts s)
    /\ In (Session.launches s) (Session.open_browsers s')
    /\ Session.session s' = Some data
    /\ Session.acts s' = (Session.acts s ++ evs)%list
    /\ Session.looks evs = S j
    /\ Session.slept evs = 5000 * Z.of_nat (j - 1).
Proof.
  intros Hc Hl Hr Hn Hp Hj Hout Hin Hdata Hwrite.
  exact (login_goes_through E s j data Hc Hl Hr Hn Hp Hj Hout Hin Hdata Hwrite).
Qed.

(** The login shows at the fourth look. *)
Lemma logged_in_at_the_fourth_look :
  exists s' evs,
    Session.login
      (Session.calm
         (fun k => if (k <? 3)%nat then Session.page_with [] 0 else Session.page_with [] 1)
         "{}")
      (Session.fresh None)
    = (Eff.Ret (0%nat, 0%nat), s')
    /\ Session.globalBrowser s' = Some 0%nat
    /\ Session.globalContext s' = Some 0%nat
    /\ In 0%nat (Session.open_browsers s')
    /\ Session.session s' = Some "{}"
    /\ Session.acts s' = evs
    /\ Session.looks evs = 4%nat
    /\ Session.slept evs = 10000.
Proof.
  apply (login_returns_once_the_user_is_in
           (Session.calm
              (fun k => if (k <? 3)%nat then Session.page_with [] 0
                        else Session.page_with [] 1)
              "{}")
           (Session.fresh None) 3 "{}").
  - left. reflexivity.
  - reflexivity.
  - intros text H. reflexivity.
  - reflexivity.
  - reflexivity.
  - lia.
  - intros i Hi. destruct i as [ | [ | [ | i ] ] ]; [ reflexivity | reflexivity | reflexivity | lia ].
  - reflexivity.
  - reflexivity.
  - reflexivity.
Defined.

(** X26: a session that was returned is reused. Whenever
    [get_browser_with_session] returns, both globals hold what it
    returned, so the next call of it or of [login] returns the same
    browser and context and does nothing else. *)
Theorem a_returned_session_is_reused
    (E : Session.env) (s : Session.state) (b c : nat) (s' : Session.state) :
  Session.get_browser_with_session E s = (Eff.Ret (b, c), s') ->
  Session.globalBrowser s' = Some b
  /\ Session.globalContext s' = Some c
  /\ Session.get_browser_with_session E s' = (Eff.Ret (b, c), s')
  /\ Session.login E s' = (Eff.Ret (b, c), s').
Proof.
  intros H. destruct (session_done E s b c s' H) as [ Hb Hc ].
  destruct (cached_hit E s' b c Hb Hc) as [ Hg Hl ]. auto.
Qed.

(** A saved session that is still good. *)
Lemma a_good_session_is_reused :
  Session.globalBrowser
    (snd (Session.get_browser_with_session
            (Session.calm (fun _ => Session.page_with [] 1) "{}")
            (Session.fresh (Some "{}"))))
  = Some 0%nat
  /\ Session.globalContext
       (snd (Session.get_browser_with_session
               (Session.calm (fun _ => Session.page_with [] 1) "{}")
               (Session.fresh (Some "{}"))))
     = Some 0%nat
  /\ Session.get_browser_with_session
       (Session.calm (fun _ => Session.page_with [] 1) "{}")
       (snd (Session.get_browser_with_session
               (Session.calm (fun _ => Session.page_with [] 1) "{}")
               (Session.fresh (Some "{}"))))
     = (Eff.Ret (0%nat, 0%nat),
        snd (Session.get_browser_with_session
               (Session.calm (fun _ => Session.page_with [] 1) "{}")
               (Session.fresh (Some "{}"))))
  /\ Session.login
       (Session.calm (fun _ => Session.page_with [] 1) "{}")
       (snd (Session.get_browser_with_session
               (Session.calm (fun _ => Session.page_with [] 1) "{}")
               (Session.fresh (Some "{}"))))
     = (Eff.Ret (0%nat, 0%nat),
        snd (Session.get_browser_with_session
               (Session.calm (fun _ => Session.page_with [] 1) "{}")
               (Session.fresh (Some "{}")))).
Proof.
  apply (a_returned_session_is_reused
           (Session.calm (fun _ => Session.page_with [] 1) "{}")
           (Session.fresh (Some "{}")) 0 0
           (snd (Session.get_browser_with_session
                   (Session.calm (fun _ => Session.page_with [] 1) "{}")
                   (Session.fresh (Some "{}"))))).
  vm_compute. reflexivity.
Defined.

(** X27: a saved session that has expired leaves a browser open. When
    the session file is there and young but the page shows no login,
    the browser launched for the check is not closed: [login] launches
    a second one, and whatever way the call ends the first is still
    open; a browser that is returned is the second. *)
Theorem an_expired_session_leaves_a_browser_open
    (E : Session.env) (s : Session.state) (text : string) :
  (Session.globalBrowser s = None \/ Session.globalContext s = None) ->
  Session.session s = Some text ->
  Session.stat_fault E = None ->
  Session.young E = true ->
  Session.launch E (Session.launches s) = Session.Launched ->
  Session.parse_fault E text = None ->
  Session.new_context E (Session.contexts s) = None ->
  Session.new_page E (Session.pages s) = None ->
  Session.logged_in (Session.page E (Session.checks s)) = false ->
  Session.unlink_fault E = None ->
  Session.close_context_fault E = None ->
  In (Session.launches s)
     (Session.open_browsers (snd (Session.get_browser_with_session E s)))
  /\ (Session.launches s + 2
      <= Session.launches (snd (Session.get_browser_with_session E s)))%nat
  /\ (forall b c,
        fst (Session.get_browser_with_session E s) = Eff.Ret (b, c) ->
        b = S (Session.launches s)).
Proof.
  intros Hc Hs Hstat Hyoung Hl Hparse Hn Hp Hout Hunlink Hclose.
  exact (expired_session E s text Hc Hs Hstat Hyoung Hl Hparse Hn Hp Hout Hunlink Hclose).
Qed.

(** The saved session has expired and the user logs in again. *)
Lemma a_stale_session_file :
  In 0%nat
     (Session.open_browsers
        (snd (Session.get_browser_with_session
                (Session.calm
                   (fun k => if (k <? 2)%nat then Session.page_with [] 0
                             else Session.page_with [] 1)
                   "{}")
                (Session.fresh (Some "old")))))
  /\ (0 + 2
      <= Session.launches
           (snd (Session.get_browser_with_session
                   (Session.calm
                      (fun k => if (k <? 2)%nat then Session.page_with [] 0
                                else Session.page_with [] 1)
                      "{}")
                   (Session.fresh (Some "old")))))%nat
  /\ (forall b c,
        fst (Session.get_browser_with_session
               (Session.calm
                  (fun k => if (k <? 2)%nat then Session.page_with [] 0
                            else Session.page_with [] 1)
                  "{}")
               (Session.fresh (Some "old")))
        = Eff.Ret (b, c) ->
        b = 1%nat).
Proof.
  apply (an_expired_session_leaves_a_browser_open
           (Session.calm
              (fun k => if (k <? 2)%nat then Session.page_with [] 0
                        else Session.page_with [] 1)
              "{}")
           (Session.fresh (Some "old")) "old").
  - left. reflexivity.
  - reflexivity.
  - reflexivity.
  - reflexivity.
  - reflexivity.
  - reflexivity.
  - reflexivity.
  - reflexivity.
  - reflexivity.
  - reflexivity.
  - reflexivity.
Defined.

(** ** Following redirects *)

Section RedirectFacts.
Import Eff World Redirect.

Variable N : net.

Lemma follow_download n : forall url last fuel path d,
  follow N n url = Some last ->
  downloadFile N (n + fuel) url path d = downloadFile N fuel last path (reopened n path d).
Proof.
  induction n as [ | n IH ]; intros url last fuel path d H.
  - inversion H. reflexivity.
  - cbn [follow] in H. cbn [Nat.add downloadFile reopened].
    destruct (get N url) as [ e | e | statusCode location ]; try discriminate H.
    destruct (moved statusCode); [ | discriminate H ].
    destruct (truthy location) as [ next | ]; [ | discriminate H ].
    apply IH. exact H.
Qed.

Lemma created path d : has_file (createWriteStream path d) path = true.
Proof.
  unfold has_file, createWriteStream. cbn [files].
  destruct (has_file d path) eqn:H; [ exact H | ].
  apply has_In, in_or_app. right. left. reflexivity.
Qed.

Lemma created_stays path q d :
  has_file d q = true -> has_file (createWriteStream path d) q = true.
Proof.
  unfold has_file, createWriteStream. cbn [files]. intros H.
  destruct (has_file d path); [ exact H | ].
  apply has_In, in_or_app. left. apply has_In. exact H.
Qed.

Lemma reopened_stays n path : forall d,
  has_file d path = true -> has_file (reopened n path d) path = true.
Proof.
  induction n as [ | n IH ]; intros d H; [ exact H | ].
  cbn [reopened]. apply IH, created_stays, H.
Qed.

Lemma reopened_streams n path : forall d,
  streams (reopened n path d) = (n + streams d)%nat.
Proof.
  induction n as [ | n IH ]; intros d; [ reflexivity | ].
  cbn [reopened]. rewrite IH. cbn [streams createWriteStream]. lia.
Qed.

Lemma reopened_last n path d :
  createWriteStream path (reopened n path d) = reopened (S n) path d.
Proof.
  revert d. induction n as [ | n IH ]; intros d; [ reflexivity | ].
  cbn [reopened] in *. apply IH.
Qed.

Lemma pending (P : string -> Prop) :
  closed N P -> forall fuel url path d, P url -> downloadFile N fuel url path d = None.
Proof.
  intros Hclosed. induction fuel as [ | fuel IH ]; intros url path d Hurl; [ reflexivity | ].
  destruct (Hclosed url Hurl) as (statusCode & next & Hget & Hmoved & Hnext & HP).
  cbn [downloadFile]. rewrite Hget, Hmoved. unfold truthy.
  apply String.eqb_neq in Hnext. rewrite Hnext. apply IH. exact HP.
Qed.

End RedirectFacts.

(** X28: redirects are followed to the end. When [n] redirects lead
    from the address to one that answers 200 and the write stream does
    not fail, [downloadFile] resolves, given requests enough; the file
    is there, and a write stream was opened for it at every hop,
    [n + 1] in all. *)
Theorem redirects_are_followed_to_the_end
    (N : Redirect.net) (n fuel : nat) (url last outputPath : string)
    (location : option string) (d : Redirect.disk) :
  Redirect.follow N n url = Some last ->
  Redirect.get N last = Redirect.Answer 200 location ->
  Redirect.stream_fault N last = None ->
  Redirect.downloadFile N (n + S fuel) url outputPath d
  = Some (Eff.Ret tt, Redirect.reopened (S n) outputPath d)
  /\ Redirect.has_file (Redirect.reopened (S n) outputPath d) outputPath = true
  /\ Redirect.streams (Redirect.reopened (S n) outputPath d)
     = (S n + Redirect.streams d)%nat.
Proof.
  intros Hfollow Hget Hstream. split; [ | split ].
  - rewrite (follow_download N n url last (S fuel) outputPath d Hfollow).
    cbn [Redirect.downloadFile]. rewrite Hget, Hstream. cbn.
    rewrite reopened_last. reflexivity.
  - cbn [Redirect.reopened]. apply reopened_stays, created.
  - apply reopened_streams.
Qed.

(** One redirect to a file. *)
Lemma one_redirect_to_a_file :
  Redirect.downloadFile Redirect.round_trip (1 + 1) "https://c.example/1" "out/u/1-1.jpg"
    Redirect.no_files
  = Some (Eff.Ret tt, Redirect.reopened 2 "out/u/1-1.jpg" Redirect.no_files)
  /\ Redirect.has_file (Redirect.reopened 2 "out/u/1-1.jpg" Redirect.no_files)
       "out/u/1-1.jpg" = true
  /\ Redirect.streams (Redirect.reopened 2 "out/u/1-1.jpg" Redirect.no_files)
     = (2 + Redirect.streams Redirect.no_files)%nat.
Proof.
  apply (redirects_are_followed_to_the_end Redirect.round_trip 1 0
           "https://c.example/1" "https://c.example/2" "out/u/1-1.jpg" None
           Redirect.no_files).
  - reflexivity.
  - reflexivity.
  - reflexivity.
Defined.

(** X29: a refusal names the last address and leaves the file. When
    [n] redirects lead to an address that answers with another status
    than 200, 301 and 302, [downloadFile] rejects with a message that
    gives this status and this address, not the one the download
    started from, and the file that was opened for writing stays. *)
Theorem a_refusal_names_the_last_address
    (N : Redirect.net) (n fuel statusCode : nat) (url last outputPath : string)
    (location : option string) (d : Redirect.disk) :
  Redirect.follow N n url = Some last ->
  Redirect.get N last = Redirect.Answer statusCode location ->
  Redirect.moved statusCode = false ->
  statusCode <> 200%nat ->
  Redirect.downloadFile N (n + S fuel) url outputPath d
  = Some (Eff.Throw (Eff.Error ("Failed to download file, status code: "
                                ++ World.decimal statusCode ++ ", URL: " ++ last)),
          Redirect.reopened (S n) outputPath d)
  /\ Redirect.has_file (Redirect.reopened (S n) outputPath d) outputPath = true.
Proof.
  intros Hfollow Hget Hmoved Hstatus. split.
  - rewrite (follow_download N n url last (S fuel) outputPath d Hfollow).
    cbn [Redirect.downloadFile]. rewrite Hget, Hmoved.
    apply Nat.eqb_neq in Hstatus. rewrite Hstatus. cbn [negb].
    rewrite reopened_last. reflexivity.
  - cbn [Redirect.reopened]. apply reopened_stays, created.
Qed.

(** A redirect to an address that is not there. *)
Lemma a_redirect_to_nothing :
  Redirect.downloadFile Redirect.round_trip (1 + 1) "https://d.example/1" "out/u/1-1.jpg"
    Redirect.no_files
  = Some (Eff.Throw (Eff.Error ("Failed to download file, status code: "
                                ++ World.decimal 404 ++ ", URL: " ++ "https://d.example/2")),
          Redirect.reopened 2 "out/u/1-1.jpg" Redirect.no_files)
  /\ Redirect.has_file (Redirect.reopened 2 "out/u/1-1.jpg" Redirect.no_files)
       "out/u/1-1.jpg" = true.
Proof.
  apply (a_refusal_names_the_last_address Redirect.round_trip 1 0 404
           "https://d.example/1" "https://d.example/2" "out/u/1-1.jpg" None
           Redirect.no_files).
  - reflexivity.
  - reflexivity.
  - reflexivity.
  - intros H. discriminate H.
Defined.

(** X30: there is no bound on the redirects. When the address lies in
    a set of addresses that all redirect into the set, the promise of
    [downloadFile] never settles: after any number of requests it is
    still pending. *)
Theorem a_redirect_loop_never_settles
    (N : Redirect.net) (P : string -> Prop) (fuel : nat) (url outputPath : string)
    (d : Redirect.disk) :
  Redirect.closed N P ->
  P url ->
  Redirect.downloadFile N fuel url outputPath d = None.
Proof.
  intros Hclosed Hurl. exact (pending N P Hclosed fuel url outputPath d Hurl).
Qed.

(** Two addresses that redirect to each other, a thousand requests. *)
Lemma two_addresses_that_redirect_to_each_other :
  Redirect.downloadFile Redirect.round_trip 1000 "https://a.example/1" "out/u/1-1.jpg"
    Redirect.no_files
  = None.
Proof.
  apply (a_redirect_loop_never_settles Redirect.round_trip
           (fun url => url = "https://a.example/1" \/ url = "https://b.example/1")
           1000 "https://a.example/1" "out/u/1-1.jpg" Redirect.no_files).
  - intros url [ H | H ]; subst url.
    + exists 302%nat, "https://b.example/1". repeat split; [ discriminate | right; reflexivity ].
    + exists 301%nat, "https://a.example/1". repeat split; [ discriminate | left; reflexivity ].
  - left. reflexivity.
Defined.
